(* ===== verification/_CoqProject ===== *)
-Q . S2P
Prelude.v
Endian.v
ByteStream.v
ByteArray.v
ByteArrayHeap.v
ByteArrayCodec.v
Util.v
Timer.v
Fiber.v
Mutex.v
Thread.v
Scheduler.v
Shutdown.v
IOManager.v
Lifecycle.v
FdManager.v
Hook.v
IoWait.v
Address.v
Config.v
Log.v
LogYaml.v
LogReload.v
LogFile.v
Glue.v
Http.v
Socket.v
