(* ===== verification/Prelude.v ===== *)
(** * A verification library for the xupeng server framework

    xupeng is a C++ framework for network servers: fibers scheduled over a
    pool of threads, an epoll loop with timers, system calls that suspend the
    calling fiber instead of the thread, sockets and addresses, a byte buffer
    with codecs, configuration, logging and HTTP messages.  The sources are
    under src/xupeng/; this library translates them into Rocq definitions and
    proves what makes each part correct.

    ** How code is modelled

    A method that changes state is a function in the monad [M] of this file:
    it returns, throws an exception that keeps the state, stops in a failed
    assertion ([Abort]), or has undefined behaviour ([Undef]): a null pointer
    followed, an index out of range, a signed overflow, a missing return.
    Machine integers are [Z] with the wrap-around of their width written out
    ([u8] to [u64], [s32], [s64]).  Text is a list of characters, memory a
    list of bytes.  Concurrency is an interleaving of steps between the points
    where another thread can interfere.  What the kernel, the C library or a
    third-party library answers is an argument or a section variable, and
    theorems hold for every answer or name the documented behaviour they use.

    ** The parts, and the files that model them

    - Prelude.v: outcomes and the monad, machine integers, slices of buffers,
      text and lexicographic comparison.
    - Endian.v (endian.h): object representations on a host of either byte
      order; [byteswap] reverses them.
    - ByteStream.v: the contract, as a type class, that the buffer offers to
      the codecs.  ByteArray.v (bytearray.h, bytearray.cc) implements it by a
      chain of nodes with a cursor; ByteArrayHeap.v has the same operations with
      the nodes on a heap, linked by pointers, with constructor and destructor;
      ByteArrayCodec.v has the integer, varint, zigzag, float and string codecs,
      proved against the contract only.
    - Util.v (util.h, util.cc): clocks, backtraces, removal of files.
    - Timer.v (timer.h, timer.cc): timers on a heap and the ordered set of
      their addresses.
    - Fiber.v (fiber.h, fiber.cc): fibers, their states and context switches
      on one thread.
    - Mutex.v (mutex.h, mutex.cc): locks, and the guard templates over the
      interface [Lockable].  Thread.v (thread.h, thread.cc): the start of a
      thread as an interleaving of constructor and thread.
    - Scheduler.v (scheduler.h, scheduler.cc): the workers of a scheduler as
      interleaved steps of [Scheduler::run] over the fibers of Fiber.v.
      Shutdown.v: what [stop] and [stopping] make the workers do.
    - IOManager.v (iomanager.h, iomanager.cc): the epoll loop over Scheduler.v
      and Timer.v.  Lifecycle.v (scheduler.cc, iomanager.cc): construction,
      start, the phases of [stop] and destruction, with the thread-local
      pointers of every thread of a process.
    - FdManager.v (fd_manager.h, fd_manager.cc): the contexts of descriptors
      over the kernel's descriptor table.  Hook.v (hook.h, hook.cc): the
      hooked system calls over FdManager.v.  IoWait.v: a hooked call that
      waits, [do_io] composed with the events of IOManager.v and the timers of
      Timer.v.
    - Address.v (address.h, address.cc): the address classes, prefix
      arithmetic, comparison, text and lookup.
    - Config.v (config.h, config.cc): text conversions over a YAML library,
      the registry of variables and their listeners.  Log.v (log.h, log.cc):
      formatter, loggers, appenders and the listener of Config.v that
      configures them.  LogYaml.v (log.h, log.cc): making and logging events,
      and the YAML text of the loggers.  LogFile.v (log.h, log.cc): the streams
      of file appenders, over a file system that others change too.
      LogReload.v (config.cc, log.cc): documents loaded into the registry, with
      the listener that changes the loggers.
    - Glue.v (macro.h, singleton.h): assertions over the logging library, and
      the static objects of singletons.
    - Http.v (http/http.h, http/http.cc): tables, case-insensitive maps,
      requests, responses, parameters, cookies and the text of messages.
    - Socket.v (socket.h, socket.cc): every method of [Socket], composed from
      Hook.v, FdManager.v and Address.v.

    ** What the theorems show

    - Byte buffer: [write] and [read] refine operations on a flat sequence of
      bytes; every operation has undefined behaviour exactly in the listed
      cases, and otherwise keeps the chain well formed or throws without a
      change; what a codec writes it reads back, for either byte order of host
      and buffer; what the varint readers return and consume on any bytes;
      files round-trip.  The linked nodes in memory do what the list of nodes
      does, touch no other memory, and are deleted once each.
    - Timers: the set stays ordered by deadline under any sequence of
      operations, exactly the due timers expire, in order, and a sleeping
      thread is woken for an earlier one.
    - Fibers, locks, threads: the life cycle of a fiber, what a turn of a
      scheduler thread leaves behind, exclusion by guards whose statements
      interleave, and the handshake that starts a thread.
    - Scheduler and IOManager: no assertion fails and no fiber runs on two
      threads under the stated discipline of clients, and the counters are
      exact; events refine a table of waiters, except where an assertion stops
      the process; what stopping() saw when it returns true, with other threads
      acting between its reads; the timeout of every call of epoll_wait, also
      after interruptions.  Stopping loses
      no task and every worker comes to its end, and no thread is left with a
      pointer to a scheduler that is gone, under the stated order of calls.
    - Hooked calls and sockets: the value a hooked call returns is that of the
      original function or of a timeout and its timers are cancelled; a call
      that waits is woken exactly once, by its event or by its timer, its
      statements and those of the timer's callback interleaving with all
      others; descriptor flags round-trip; programs over many sockets leak no
      descriptor, and are undefined only where they use a socket without one;
      the outcomes of [connect].
    - Addresses: prefix arithmetic bit by bit, a total order, and the text of
      IPv6 addresses reads back.
    - Configuration and logging: loading a document sets exactly the named
      variables and calls their listeners, containers round-trip through text,
      patterns round-trip, an event reaches the appenders it should, the
      text of the loggers reads back as their configuration, the loggers are
      those the configuration describes whatever is loaded, and a log file
      holds the lines of its appenders in order, through every reopening.
    - HTTP: the maps of a request refine finite maps of the keys up to case,
      parameters and messages round-trip through their text, and parsing ends.

    Each file ends with witnesses, where the theorems are applied to concrete
    states, and with examples of the behaviour the findings describe.

    ** Bounds and fuel

    Loops without a structural argument take fuel, and a lemma shows that the
    fuel given is enough: the node loops of ByteArray.v the number of nodes
    plus one, [CountBytes] the bits of its type, the hexadecimal groups of
    Address.v seven digits, the walks over the links of ByteArrayHeap.v one
    more than the size of the heap, the varint loops the five or ten iterations the
    code has, the pattern parser of Log.v the length of the pattern,
    [PARSE_PARAM] the length of the text plus one, the search for a free
    descriptor the number of open ones.  [setsocket] of Hook.v, which calls
    itself without end when hooks are off, is shown to need more than any fuel.
    A worker that finds the scheduler stopping ends within seven steps of its
    own (Shutdown.v).

    ** Not modelled

    The binding of original functions by dlsym, hooked calls on a thread that
    has no IOManager (the sources follow a null pointer there), memory orders weaker than
    sequential consistency, and the reference counts of shared pointers, except
    where an object's end is a step of the code.  noncopyable.h and xupeng.h
    have no behaviour of their own; SSLSocket and most of FSUtil are
    declarations without definitions.  The test programs and the generated
    build trees are not part of the library. *)

From Stdlib Require Export ZArith Lia.
From stdpp Require Export base decidable option list sorting gmap strings numbers pretty.

#[global] Set Default Goal Selector "!".
Global Open Scope Z_scope.

(** ** Outcomes of a C++ call

    A call either returns, leaves by an exception, stops the process in a
    failed [PENG_ASSERT] (macro.h, lines 18-33), or has undefined behaviour
    (null dereference, access out of bounds, erasing an end iterator).  An
    exception can be caught, so it keeps the state it was thrown in. *)
Inductive exn :=
| out_of_range (what : string)
| logic_error (what : string)
| invalid_argument (what : string)
| length_error (what : string).

Inductive outcome (S A : Type) : Type :=
| Ok (a : A) (s : S)
| Throw (e : exn) (s : S)
| Abort (what : string)
| Undef (what : string).
Arguments Ok {S A} a s.
Arguments Throw {S A} e s.
Arguments Abort {S A} what.
Arguments Undef {S A} what.

Definition M (S A : Type) : Type := S → outcome S A.

#[global] Instance M_ret {S} : MRet (M S) := λ A a s, Ok a s.
#[global] Instance M_bind {S} : MBind (M S) := λ A B f m s,
  match m s with
  | Ok a s' => f a s'
  | Throw e s' => Throw e s'
  | Abort w => Abort w
  | Undef w => Undef w
  end.

Definition get {S} : M S S := λ s, Ok s s.
Definition gets {S A} (f : S → A) : M S A := λ s, Ok (f s) s.
Definition put {S} (s' : S) : M S unit := λ _, Ok tt s'.
Definition modify {S} (f : S → S) : M S unit := λ s, Ok tt (f s).
Definition throw {S A} (e : exn) : M S A := λ s, Throw e s.
Definition undef {S A} (w : string) : M S A := λ _, Undef w.
(** [PENG_ASSERT(b)]. *)
Definition peng_assert {S} (b : bool) (w : string) : M S unit :=
  λ s, if b then Ok tt s else Abort w.
Definition when {S} (b : bool) (m : M S unit) : M S unit :=
  if b then m else mret tt.

(** A call whose failure is undefined behaviour. *)
Definition of_option {S A} (w : string) (o : option A) : M S A :=
  match o with Some a => mret a | None => undef w end.

(** Runs the primitives at the head of the goal. *)
Ltac mrun :=
  cbv beta iota delta [mbind M_bind mret M_ret get gets put modify throw undef of_option
                       peng_assert when].

Lemma bind_ok {S A B} (m : M S A) (f : A → M S B) s a s' :
  m s = Ok a s' → (m ≫= f) s = f a s'.
Proof. intros H. unfold mbind, M_bind. by rewrite H. Qed.

Lemma bind_throw {S A B} (m : M S A) (f : A → M S B) s e s' :
  m s = Throw e s' → (m ≫= f) s = Throw e s'.
Proof. intros H. unfold mbind, M_bind. by rewrite H. Qed.

Lemma bind_undef {S A B} (m : M S A) (f : A → M S B) s w :
  m s = Undef w → (m ≫= f) s = Undef w.
Proof. intros H. unfold mbind, M_bind. by rewrite H. Qed.

Lemma bind_abort {S A B} (m : M S A) (f : A → M S B) s w :
  m s = Abort w → (m ≫= f) s = Abort w.
Proof. intros H. unfold mbind, M_bind. by rewrite H. Qed.

Lemma bind_get {S B} (f : S → M S B) s : (get ≫= f) s = f s s.
Proof. done. Qed.

Lemma bind_modify {S B} (g : S → S) (f : unit → M S B) s : (modify g ≫= f) s = f tt (g s).
Proof. done. Qed.

Lemma bind_mret {S A B} (a : A) (f : A → M S B) s : ((mret a : M S A) ≫= f) s = f a s.
Proof. done. Qed.

Lemma bind_assoc {S A B C} (m : M S A) (f : A → M S B) (g : B → M S C) s :
  ((m ≫= f) ≫= g) s = (m ≫= λ a, f a ≫= g) s.
Proof. unfold mbind, M_bind. by destruct (m s). Qed.

(** [mstep E] runs the first call of the goal, [E] being what it returns;
    [mget] runs a [get]. *)
Tactic Notation "mstep" uconstr(E) := rewrite (bind_ok _ _ _ _ _ E); cbv beta.
Ltac mget := rewrite bind_get; cbv beta.

(** Inversion of a bind that returned. *)
Lemma bind_inv {S A B} (m : M S A) (f : A → M S B) s b s2 :
  (m ≫= f) s = Ok b s2 → ∃ a s1, m s = Ok a s1 ∧ f a s1 = Ok b s2.
Proof. unfold mbind, M_bind. destruct (m s); naive_solver. Qed.

(** [minv H] turns [H : (x ← m; k) s = Ok b s2] into the run of [m] and of [k]. *)
Ltac minv H :=
  let a := fresh "a" in let s := fresh "s" in
  let E := fresh "E" in
  apply bind_inv in H as (a & s & E & H).

(** ** Machine integers *)

(** Value of a mathematical integer stored in a [w]-bit unsigned object. *)
Definition wrapu (w z : Z) : Z := z mod 2 ^ w.
(** Value of a mathematical integer stored in a [w]-bit two's complement object. *)
Definition wraps (w z : Z) : Z := (z + 2 ^ (w - 1)) mod 2 ^ w - 2 ^ (w - 1).

Abbreviation u8 := (wrapu 8).
Abbreviation u16 := (wrapu 16).
Abbreviation u32 := (wrapu 32).
Abbreviation u64 := (wrapu 64).
Abbreviation s32 := (wraps 32).
Abbreviation s64 := (wraps 64).

Lemma wrapu_range w z : 0 <= w → 0 <= wrapu w z < 2 ^ w.
Proof. intros. apply Z.mod_pos_bound. lia. Qed.

Lemma wrapu_small w z : 0 <= z < 2 ^ w → wrapu w z = z.
Proof. apply Z.mod_small. Qed.

Lemma pow2_half w : 0 < w → 2 ^ w = 2 * 2 ^ (w - 1).
Proof. intros. rewrite <- Z.pow_succ_r by lia. f_equal. lia. Qed.

Lemma wraps_range w z : 0 < w → - 2 ^ (w - 1) <= wraps w z < 2 ^ (w - 1).
Proof.
  intros. unfold wraps. pose proof (pow2_half w).
  pose proof (Z.mod_pos_bound (z + 2 ^ (w - 1)) (2 ^ w)). lia.
Qed.

Lemma wraps_small w z : 0 < w → - 2 ^ (w - 1) <= z < 2 ^ (w - 1) → wraps w z = z.
Proof.
  intros. unfold wraps. pose proof (pow2_half w). rewrite Z.mod_small; lia.
Qed.

Lemma wraps_wrapu w z : 0 < w → wraps w (wrapu w z) = wraps w z.
Proof.
  intros. unfold wraps, wrapu. by rewrite Zplus_mod_idemp_l.
Qed.

Lemma wrapu_wraps w z : 0 < w → wrapu w (wraps w z) = wrapu w z.
Proof.
  intros. unfold wraps, wrapu.
  rewrite Zminus_mod_idemp_l. f_equal. lia.
Qed.

Lemma wrapu_wrapu w z : 0 <= w → wrapu w (wrapu w z) = wrapu w z.
Proof. intros. apply Zmod_mod. Qed.

(** ** Text: what the stream operators write, as characters *)

Abbreviation text := (list Ascii.ascii).
Definition txt : string → text := String.list_ascii_of_string.
Definition dec (z : Z) : text := txt (pretty z).

(** Lexicographic comparison of strings of character or byte values. *)
Fixpoint lex_cmp (l1 l2 : list Z) : comparison :=
  match l1, l2 with
  | [], [] => Eq
  | [], _ => Lt
  | _, [] => Gt
  | x :: l1', y :: l2' => match x ?= y with Eq => lex_cmp l1' l2' | c => c end
  end.

Lemma lex_cmp_eq l1 : ∀ l2, lex_cmp l1 l2 = Eq ↔ l1 = l2.
Proof.
  induction l1 as [|x l1 IH]; intros [|y l2]; simpl; try done.
  destruct (Z.compare_spec x y) as [->|?|?]; [rewrite IH; naive_solver| |]; (split; [done|]); intros [= ->]; lia.
Qed.

Lemma lex_cmp_antisym l1 : ∀ l2, lex_cmp l2 l1 = CompOpp (lex_cmp l1 l2).
Proof.
  induction l1 as [|x l1 IH]; intros [|y l2]; simpl; try done.
  rewrite (Z.compare_antisym x y). destruct (x ?= y); simpl; [apply IH|done|done].
Qed.

Lemma lex_cmp_trans l1 : ∀ l2 l3, lex_cmp l1 l2 = Lt → lex_cmp l2 l3 = Lt → lex_cmp l1 l3 = Lt.
Proof.
  induction l1 as [|x l1 IH]; intros [|y l2] [|z l3]; simpl; try done.
  destruct (Z.compare_spec x y) as [->|?|?]; [|intros _|done].
  - destruct (y ?= z); [apply IH|done|done].
  - destruct (Z.compare_spec y z) as [->|?|?]; [|intros _|done].
    + by rewrite (proj2 (Z.compare_lt_iff x z)).
    + by rewrite (proj2 (Z.compare_lt_iff x z)) by lia.
Qed.

(** ** Byte-buffer slices

    [slice l off len] is what [memcpy] reads at [off], and [splice l off bs]
    the array after [memcpy] wrote [bs] there. *)
Section slices.
Context {A : Type}.
Implicit Types l bs : list A.

Definition zlen l : Z := Z.of_nat (length l).

Definition slice l (off len : Z) : list A :=
  take (Z.to_nat len) (drop (Z.to_nat off) l).

Definition splice l (off : Z) bs : list A :=
  take (Z.to_nat off) l ++ bs ++ drop (Z.to_nat off + length bs) l.

Lemma zlen_nonneg l : 0 <= zlen l.
Proof. unfold zlen. lia. Qed.

Lemma zlen_app l1 l2 : zlen (l1 ++ l2) = zlen l1 + zlen l2.
Proof. unfold zlen. rewrite length_app. lia. Qed.

Lemma zlen_cons x l : zlen (x :: l) = 1 + zlen l.
Proof. unfold zlen. simpl length. lia. Qed.

Lemma zlen_nil : zlen (@nil A) = 0.
Proof. done. Qed.

Lemma zlen_0_nil l : zlen l = 0 → l = [].
Proof. unfold zlen. destruct l; simpl; [done|lia]. Qed.

Lemma zlen_slice l off len :
  0 <= off → 0 <= len → off + len <= zlen l → zlen (slice l off len) = len.
Proof. unfold slice, zlen. intros. rewrite length_take, length_drop. lia. Qed.

Lemma zlen_splice l off bs :
  0 <= off → off + zlen bs <= zlen l → zlen (splice l off bs) = zlen l.
Proof.
  unfold splice, zlen. intros.
  rewrite !length_app, length_take, length_drop. lia.
Qed.

Lemma slice_all l : slice l 0 (zlen l) = l.
Proof. unfold slice, zlen. rewrite Nat2Z.id. by rewrite drop_0, firstn_all. Qed.

Lemma slice_zero l off : slice l off 0 = [].
Proof. done. Qed.

(** Two adjacent reads are one read. *)
Lemma slice_slice_app l off n m :
  0 <= off → 0 <= n → 0 <= m →
  slice l off n ++ slice l (off + n) m = slice l off (n + m).
Proof.
  intros. unfold slice.
  replace (Z.to_nat (off + n)) with (Z.to_nat off + Z.to_nat n)%nat by lia.
  replace (Z.to_nat (n + m)) with (Z.to_nat n + Z.to_nat m)%nat by lia.
  rewrite <- drop_drop. set (l' := drop (Z.to_nat off) l).
  by rewrite take_take_drop.
Qed.

Lemma slice_app_l l1 l2 off len :
  0 <= off → 0 <= len → off + len <= zlen l1 →
  slice (l1 ++ l2) off len = slice l1 off len.
Proof.
  unfold slice, zlen. intros.
  rewrite drop_app_le by lia. apply take_app_le. rewrite length_drop. lia.
Qed.

Lemma slice_app_r l1 l2 off len :
  zlen l1 <= off → slice (l1 ++ l2) off len = slice l2 (off - zlen l1) len.
Proof.
  unfold slice, zlen. intros. rewrite drop_app_ge by lia. do 2 f_equal. lia.
Qed.

Lemma slice_splice_same l off bs :
  0 <= off → off + zlen bs <= zlen l → slice (splice l off bs) off (zlen bs) = bs.
Proof.
  unfold slice, splice, zlen. intros.
  rewrite drop_app_length' by (rewrite length_take; lia).
  rewrite Nat2Z.id. apply take_app_length.
Qed.

Lemma splice_nil l off : splice l off [] = l.
Proof. unfold splice. simpl. rewrite Nat.add_0_r. apply take_drop. Qed.

(** Writing [bs1 ++ bs2] is writing [bs1] and then [bs2] after it. *)
Lemma splice_app l off bs1 bs2 :
  0 <= off → off + zlen bs1 + zlen bs2 <= zlen l →
  splice (splice l off bs1) (off + zlen bs1) bs2 = splice l off (bs1 ++ bs2).
Proof.
  unfold splice, zlen. intros Ho Hl.
  replace (Z.to_nat (off + Z.of_nat (length bs1)))
    with (Z.to_nat off + length bs1)%nat by lia.
  rewrite (app_assoc (take (Z.to_nat off) l) bs1).
  rewrite take_app_length' by (rewrite length_app, length_take; lia).
  rewrite <- drop_drop.
  rewrite drop_app_length' by (rewrite length_app, length_take; lia).
  rewrite drop_drop, length_app, <- !app_assoc. do 4 f_equal. lia.
Qed.

Lemma splice_app_l l1 l2 off bs :
  0 <= off → off + zlen bs <= zlen l1 →
  splice (l1 ++ l2) off bs = splice l1 off bs ++ l2.
Proof.
  unfold splice, zlen. intros.
  rewrite take_app_le, drop_app_le by lia. by rewrite <- !app_assoc.
Qed.

Lemma splice_app_r l1 l2 off bs :
  zlen l1 <= off → splice (l1 ++ l2) off bs = l1 ++ splice l2 (off - zlen l1) bs.
Proof.
  unfold splice, zlen. intros.
  rewrite take_app_ge, drop_app_ge by lia. rewrite <- app_assoc.
  do 4 f_equal; lia.
Qed.

(** Overwriting a prefix of the buffer that does not reach [n]. *)
Lemma take_splice l off bs n :
  0 <= off → off + zlen bs <= Z.of_nat n → off + zlen bs <= zlen l →
  take n (splice l off bs) = splice (take n l) off bs.
Proof.
  unfold splice, zlen. intros.
  rewrite take_app_ge by (rewrite length_take; lia).
  rewrite take_take, Nat.min_l by lia. f_equal.
  rewrite take_app_ge by (rewrite length_take; lia). f_equal.
  rewrite length_take, skipn_firstn_comm. f_equal. lia.
Qed.
End slices.

Create HintDb xlen.
#[export] Hint Rewrite @zlen_app @zlen_cons @zlen_nil : xlen.
Arguments zlen : simpl never.
Arguments slice : simpl never.
Arguments splice : simpl never.
