(* ===== verification/Endian.v ===== *)
(** * Byte order (xupeng/endian.h)

    The object representation of the fixed-width integer types on a host of
    either byte order, the [bswap_16/32/64] macros of <byteswap.h>, and the
    [byteswap] templates of endian.h built on them.  The theorems show that
    [byteswap] reverses the object representation, for signed and unsigned
    types and on either host, and that it is an involution. *)

From S2P Require Import Prelude.
From coqutil Require Export Byte Word.LittleEndianList.

(** The values of [m_endian] and of [PENG_BYTE_ORDER] (lines 10-11). *)
Inductive endian := PENG_LITTLE_ENDIAN | PENG_BIG_ENDIAN.

#[global] Instance endian_eq_dec : EqDecision endian.
Proof. solve_decision. Defined.

(** The integer types the sources use. *)
Inductive ctype :=
| int8_t | uint8_t | int16_t | uint16_t | int32_t | uint32_t | int64_t | uint64_t.

Definition sizeof (T : ctype) : nat :=
  match T with
  | int8_t | uint8_t => 1
  | int16_t | uint16_t => 2
  | int32_t | uint32_t => 4
  | int64_t | uint64_t => 8
  end.

Definition is_signed (T : ctype) : bool :=
  match T with int8_t | int16_t | int32_t | int64_t => true | _ => false end.

Definition bits (T : ctype) : Z := Z.of_nat (sizeof T) * 8.

(** The conversion [(T)z] and the values of [T]. *)
Definition cast (T : ctype) (z : Z) : Z :=
  if is_signed T then wraps (bits T) z else wrapu (bits T) z.

Definition in_type (T : ctype) (z : Z) : Prop :=
  if is_signed T then - 2 ^ (bits T - 1) <= z < 2 ^ (bits T - 1)
  else 0 <= z < 2 ^ bits T.

(** Object representation of the value [z] of type [T] on [host], and back. *)
Definition to_mem (host : endian) (T : ctype) (z : Z) : list byte :=
  match host with
  | PENG_LITTLE_ENDIAN => le_split (sizeof T) z
  | PENG_BIG_ENDIAN => rev (le_split (sizeof T) z)
  end.

Definition of_mem (host : endian) (T : ctype) (bs : list byte) : Z :=
  cast T (le_combine (match host with
                      | PENG_LITTLE_ENDIAN => bs
                      | PENG_BIG_ENDIAN => rev bs
                      end)).

(** <byteswap.h>. *)
Definition bswap_16 (x : Z) : Z :=
  Z.lor (Z.land (Z.shiftr x 8) 0xff) (Z.shiftl (Z.land x 0xff) 8).

Definition bswap_32 (x : Z) : Z :=
  Z.lor (Z.shiftr (Z.land x 0xff000000) 24)
    (Z.lor (Z.shiftr (Z.land x 0x00ff0000) 8)
      (Z.lor (Z.shiftl (Z.land x 0x0000ff00) 8)
        (Z.shiftl (Z.land x 0x000000ff) 24))).

Definition bswap_64 (x : Z) : Z :=
  Z.lor (Z.shiftr (Z.land x 0xff00000000000000) 56)
    (Z.lor (Z.shiftr (Z.land x 0x00ff000000000000) 40)
      (Z.lor (Z.shiftr (Z.land x 0x0000ff0000000000) 24)
        (Z.lor (Z.shiftr (Z.land x 0x000000ff00000000) 8)
          (Z.lor (Z.shiftl (Z.land x 0x00000000ff000000) 8)
            (Z.lor (Z.shiftl (Z.land x 0x0000000000ff0000) 24)
              (Z.lor (Z.shiftl (Z.land x 0x000000000000ff00) 40)
                (Z.shiftl (Z.land x 0x00000000000000ff) 56))))))).

(** The three [byteswap] templates (lines 15-31), selected by the size of the
    type.  There is no overload for one-byte types: no call reaches that case. *)
Definition byteswap (T : ctype) (value : Z) : Z :=
  match T with
  | int64_t | uint64_t => cast T (bswap_64 (u64 value))
  | int32_t | uint32_t => cast T (bswap_32 (u32 value))
  | int16_t | uint16_t => cast T (bswap_16 (u16 value))
  | int8_t | uint8_t => value
  end.

(** Lines 39-49; [host] is [PENG_BYTE_ORDER]. *)
Definition byteswapOnLittleEndian (host : endian) (T : ctype) (t : Z) : Z :=
  match host with PENG_BIG_ENDIAN => t | PENG_LITTLE_ENDIAN => byteswap T t end.

Definition byteswapOnBigEndian (host : endian) (T : ctype) (t : Z) : Z :=
  match host with PENG_BIG_ENDIAN => byteswap T t | PENG_LITTLE_ENDIAN => t end.

(** ** Representation lemmas *)

Lemma sizeof_pos T : (0 < sizeof T)%nat.
Proof. destruct T; simpl; lia. Qed.

Lemma bits_pos T : 0 < bits T.
Proof. destruct T; unfold bits; simpl; lia. Qed.

Lemma length_to_mem host T z : length (to_mem host T z) = sizeof T.
Proof. destruct host; simpl; rewrite ?length_rev; apply length_le_split. Qed.

Lemma zlen_to_mem host T z : zlen (to_mem host T z) = Z.of_nat (sizeof T).
Proof. unfold zlen. by rewrite length_to_mem. Qed.

Lemma cast_in_type T z : in_type T (cast T z).
Proof.
  unfold in_type, cast. pose proof (bits_pos T). destruct (is_signed T).
  - by apply wraps_range.
  - apply wrapu_range. lia.
Qed.

Lemma cast_id T z : in_type T z → cast T z = z.
Proof.
  unfold in_type, cast. pose proof (bits_pos T). destruct (is_signed T).
  - by apply wraps_small.
  - by apply wrapu_small.
Qed.

Lemma cast_wrapu T z : cast T (wrapu (bits T) z) = cast T z.
Proof.
  unfold cast. pose proof (bits_pos T). destruct (is_signed T).
  - by apply wraps_wrapu.
  - apply wrapu_wrapu. lia.
Qed.

Lemma wrapu_cast T z : wrapu (bits T) (cast T z) = wrapu (bits T) z.
Proof.
  unfold cast. pose proof (bits_pos T). destruct (is_signed T).
  - by apply wrapu_wraps.
  - apply wrapu_wrapu. lia.
Qed.

Lemma le_split_wrapu T z : le_split (sizeof T) (wrapu (bits T) z) = le_split (sizeof T) z.
Proof. symmetry. apply le_split_mod. Qed.

Lemma le_split_cast T z : le_split (sizeof T) (cast T z) = le_split (sizeof T) z.
Proof. by rewrite <- (le_split_wrapu T), wrapu_cast, le_split_wrapu. Qed.

Lemma of_mem_to_mem host T z : of_mem host T (to_mem host T z) = cast T z.
Proof.
  unfold of_mem, to_mem. destruct host; rewrite ?rev_involutive, le_combine_split; apply cast_wrapu.
Qed.

Lemma to_mem_of_mem host T bs :
  length bs = sizeof T → to_mem host T (of_mem host T bs) = bs.
Proof.
  intros Hl. unfold of_mem, to_mem. destruct host; rewrite le_split_cast.
  - by apply split_le_combine'.
  - rewrite split_le_combine' by (by rewrite length_rev). apply rev_involutive.
Qed.

(** The swap macros permute bytes: checked bit by bit on the byte split. *)
Lemma byte_of_Z_testbit_ext x y :
  (∀ i, 0 <= i < 8 → Z.testbit x i = Z.testbit y i) → byte.of_Z x = byte.of_Z y.
Proof.
  intros H. apply byte.unsigned_inj. rewrite !byte.unsigned_of_Z. unfold byte.wrap.
  apply Z.bits_inj'. intros i Hi. destruct (decide (i < 8)).
  - rewrite !Z.mod_pow2_bits_low by lia. apply H. lia.
  - by rewrite !Z.mod_pow2_bits_high by lia.
Qed.

Ltac swap_bits :=
  let i := fresh "i" in let Hi := fresh "Hi" in
  apply byte_of_Z_testbit_ext; intros i Hi;
  let H := fresh "H" in
  assert (i = 0 ∨ i = 1 ∨ i = 2 ∨ i = 3 ∨ i = 4 ∨ i = 5 ∨ i = 6 ∨ i = 7) as H by lia;
  repeat destruct H as [-> | H]; subst;
  rewrite ?Z.shiftr_shiftr by lia; cbn [Z.add Pos.add];
  repeat (rewrite ?Z.lor_spec, ?Z.land_spec, ?Z.shiftr_spec, ?Z.shiftl_spec by lia);
  cbn; rewrite ?andb_true_r, ?andb_false_r, ?orb_false_r; reflexivity.

Lemma le_split_S n w : le_split (S n) w = byte.of_Z w :: le_split n (Z.shiftr w 8).
Proof. reflexivity. Qed.

Lemma le_split_0 w : le_split 0 w = [].
Proof. reflexivity. Qed.

Ltac swap_bytes :=
  rewrite !le_split_S, !le_split_0; cbn [rev app];
  repeat (f_equal; [swap_bits|]); f_equal; swap_bits.

Lemma bswap_16_bytes x : le_split 2 (bswap_16 x) = rev (le_split 2 x).
Proof. unfold bswap_16. swap_bytes. Qed.

Lemma bswap_32_bytes x : le_split 4 (bswap_32 x) = rev (le_split 4 x).
Proof. unfold bswap_32. swap_bytes. Qed.

Lemma bswap_64_bytes x : le_split 8 (bswap_64 x) = rev (le_split 8 x).
Proof. unfold bswap_64. swap_bytes. Qed.

Lemma byteswap_bytes T v : le_split (sizeof T) (byteswap T v) = rev (le_split (sizeof T) v).
Proof.
  assert (∀ z, bits T = Z.of_nat (sizeof T) * 8) as Hb by done.
  destruct T; cbn [byteswap]; try reflexivity;
    rewrite le_split_cast;
    first [rewrite bswap_16_bytes | rewrite bswap_32_bytes | rewrite bswap_64_bytes];
    f_equal; symmetry; apply le_split_mod.
Qed.

(** [byteswap] reverses the object representation, whatever the host. *)
Lemma to_mem_byteswap host T v : to_mem host T (byteswap T v) = rev (to_mem host T v).
Proof. destruct host; cbn [to_mem]; by rewrite byteswap_bytes, ?rev_involutive. Qed.

Lemma byteswap_in_type T v : in_type T v → in_type T (byteswap T v).
Proof. destruct T; cbn [byteswap]; try done; intros; apply cast_in_type. Qed.

Lemma in_type_inj T x y :
  in_type T x → in_type T y → le_split (sizeof T) x = le_split (sizeof T) y → x = y.
Proof.
  intros Hx Hy H. apply (f_equal le_combine) in H. rewrite !le_combine_split in H.
  rewrite <- (cast_id T x Hx), <- (cast_id T y Hy), <- (cast_wrapu T x), <- (cast_wrapu T y).
  unfold wrapu, bits. by rewrite H.
Qed.

(** Storing with the configured order: the sequence "if the order is not the
    host's, swap; then store" writes the big- or little-endian digits of the
    value, independently of the host. *)
Lemma to_mem_order host e T v :
  to_mem host T (if decide (e = host) then v else byteswap T v) = to_mem e T v.
Proof.
  case_decide; [by subst|].
  rewrite to_mem_byteswap. destruct host, e; try congruence; cbn [to_mem];
    by rewrite ?rev_involutive.
Qed.

Lemma of_mem_order host e T bs :
  length bs = sizeof T →
  (if decide (e = host) then of_mem host T bs else byteswap T (of_mem host T bs))
  = of_mem e T bs.
Proof.
  intros Hl. case_decide; [by subst|].
  apply (in_type_inj T); [apply byteswap_in_type, cast_in_type | apply cast_in_type |].
  rewrite byteswap_bytes. unfold of_mem. rewrite !le_split_cast.
  destruct host, e; try congruence;
    rewrite !split_le_combine' by (by rewrite ?length_rev); by rewrite ?rev_involutive.
Qed.

(** [byteswap] undoes itself on every value of its type. *)
Lemma byteswap_involutive T v : in_type T v → byteswap T (byteswap T v) = v.
Proof.
  intros Hv. apply (in_type_inj T); [by repeat apply byteswap_in_type | done |].
  by rewrite !byteswap_bytes, rev_involutive.
Qed.

Example byteswap_u32 : byteswap uint32_t 0x01020304 = 0x04030201.
Proof. reflexivity. Qed.

(** C9: byteswap, computed with shifts and masks, equals reading the object bytes of the
    value in reverse order on a host of either byte order; it stays in its type, undoes
    itself, and is what the two conditional swaps compose to. *)
Theorem byteswap_is_reversal host T v : in_type T v →
  in_type T (byteswap T v) ∧ byteswap T v = of_mem host T (rev (to_mem host T v)) ∧ byteswap T (byteswap T v) = v ∧
  byteswapOnLittleEndian host T (byteswapOnBigEndian host T v) = byteswap T v.
Proof.
  intros Hv. pose proof (byteswap_in_type T v Hv) as Hb. split_and!; [done| |by apply byteswap_involutive|by destruct host].
  by rewrite <- to_mem_byteswap, of_mem_to_mem, cast_id.
Qed.

Lemma byteswap_is_reversal_witness :
  in_type int16_t (-2) ∧ byteswap int16_t (-2) = -257 ∧
  byteswap int16_t (-2) = of_mem PENG_BIG_ENDIAN int16_t (rev (to_mem PENG_BIG_ENDIAN int16_t (-2))).
Proof.
  assert (in_type int16_t (-2)) as H by (vm_compute; split; [discriminate|reflexivity]).
  split; [exact H|]. split; [reflexivity|]. apply (byteswap_is_reversal PENG_BIG_ENDIAN int16_t (-2) H).
Defined.
