(* ===== verification/ByteStream.v ===== *)
(** * The contract between the byte buffer and the codecs

    What [ByteArray::write] and [ByteArray::read] promise to the encoders and
    decoders: a cursor in a sequence of bytes.  ByteArray.v proves that the
    chunked buffer is an instance; ByteArrayCodec.v proves the codecs for
    every instance. *)

From S2P Require Import Prelude Endian.

(** The bytes before the cursor and from the cursor on. *)
Record stream := Stream { before : list byte; after : list byte }.

(** Writing overwrites what follows the cursor, and reading moves over it. *)
Definition put_bytes (bs : list byte) (v : stream) : stream :=
  Stream (before v ++ bs) (drop (length bs) (after v)).

Definition advance (n : Z) (v : stream) : stream :=
  Stream (before v ++ take (Z.to_nat n) (after v)) (drop (Z.to_nat n) (after v)).

Definition contents (v : stream) : list byte := before v ++ after v.

Class ByteStream (S : Type) := {
  bs_write : list byte → M S unit;
  bs_read : Z → M S (list byte);
  bs_endian : S → endian;
  bs_inv : S → Prop;
  bs_room : S → Z → Prop;
  bs_view : S → stream;
  bs_write_ok s bs :
    bs_inv s → bs_room s (zlen bs) →
    ∃ s', bs_write bs s = Ok tt s' ∧ bs_inv s' ∧ bs_endian s' = bs_endian s
          ∧ bs_view s' = put_bytes bs (bs_view s)
          ∧ (∀ n, bs_room s (zlen bs + n) → bs_room s' n);
  bs_read_ok s n :
    bs_inv s → 0 < n <= zlen (after (bs_view s)) →
    ∃ s', bs_read n s = Ok (take (Z.to_nat n) (after (bs_view s))) s' ∧ bs_inv s'
          ∧ bs_endian s' = bs_endian s ∧ bs_view s' = advance n (bs_view s);
  bs_read_short s n :
    bs_inv s → zlen (after (bs_view s)) < n →
    bs_read n s = Throw (out_of_range "not enough len") s;
  bs_room_le s n m : n <= m → bs_room s m → bs_room s n
}.

Lemma contents_advance n v : contents (advance n v) = contents v.
Proof. unfold contents, advance; simpl. by rewrite <- app_assoc, take_drop. Qed.

Lemma put_bytes_app b1 b2 v : put_bytes b2 (put_bytes b1 v) = put_bytes (b1 ++ b2) v.
Proof.
  unfold put_bytes; simpl. rewrite <- app_assoc, drop_drop, length_app. done.
Qed.

(** The bytes written follow the old cursor. *)
Lemma contents_put_bytes bs v :
  contents (put_bytes bs v) = before v ++ bs ++ after (put_bytes bs v).
Proof. unfold contents, put_bytes; simpl. by rewrite app_assoc. Qed.
