(* ===== verification/ByteArray.v ===== *)
(** * ByteArray (xupeng/bytearray.h, xupeng/bytearray.cc)

    The chunked byte buffer: a singly linked chain of [Node]s of [m_baseSize]
    bytes, a cursor ([m_position] with the node [m_cur] it lies in) and the
    number of valid bytes [m_size].  This file has the storage operations;
    the encoders and decoders built on them are in ByteArrayCodec.v.

    The chain from [m_root] is the list [m_nodes] and a node pointer is an
    index in it, [None] being the null pointer; nodes are only ever appended
    at the end of the chain ([addCapacity]) or cut off after the root
    ([clear]), so an index is as stable as the pointer; ByteArrayHeap.v has the
    pointers and proves the two equivalent.  A node's fresh memory
    is [junk], arbitrary bytes chosen by the allocator: every theorem holds
    for all of them.

    [size_t] values are in [Z]; subtractions of the code that can wrap are
    written with [u64]. *)

From S2P Require Import Prelude Endian ByteStream.

(** [ByteArray::Node] (bytearray.h, lines 16-24). *)
Record Node := mkNode { n_ptr : list byte; n_size : Z }.

(** The private members (bytearray.h, lines 147-161). *)
Record ByteArray := mkByteArray {
  m_baseSize : Z;
  m_position : Z;
  m_capacity : Z;
  m_size : Z;
  m_endian : endian;
  m_nodes : list Node;
  m_cur : option nat
}.

(** [m_position] and [m_cur] move together; the last two update one field. *)
Definition set_cursor (position : Z) (cur : option nat) (s : ByteArray) : ByteArray :=
  mkByteArray (m_baseSize s) position (m_capacity s) (m_size s) (m_endian s) (m_nodes s) cur.
Definition set_size (v : Z) (s : ByteArray) : ByteArray :=
  mkByteArray (m_baseSize s) (m_position s) (m_capacity s) v (m_endian s) (m_nodes s) (m_cur s).
Definition set_nodes (v : list Node) (s : ByteArray) : ByteArray :=
  mkByteArray (m_baseSize s) (m_position s) (m_capacity s) (m_size s) (m_endian s) v (m_cur s).

Definition getPosition (s : ByteArray) : Z := m_position s.
Definition getBaseSize (s : ByteArray) : Z := m_baseSize s.
Definition getSize (s : ByteArray) : Z := m_size s.
Definition getReadSize (s : ByteArray) : Z := u64 (m_size s - m_position s).
Definition getCapacity (s : ByteArray) : Z := u64 (m_capacity s - m_position s).

Definition isLittleEndian (s : ByteArray) : bool :=
  bool_decide (m_endian s = PENG_LITTLE_ENDIAN).

Definition setIsLittleEndian (val : bool) (s : ByteArray) : ByteArray :=
  mkByteArray (m_baseSize s) (m_position s) (m_capacity s) (m_size s)
    (if val then PENG_LITTLE_ENDIAN else PENG_BIG_ENDIAN) (m_nodes s) (m_cur s).

(** [p->next] for the node at index [i]. *)
Definition next {A} (nodes : list A) (i : nat) : option nat :=
  if decide (S i < length nodes)%nat then Some (S i) else None.

(** [memcpy(nd.ptr + off, bs, |bs|)]; [None] is an access out of bounds. *)
Definition node_memcpy (nd : Node) (off : Z) (bs : list byte) : option Node :=
  if decide (0 <= off ∧ off + zlen bs <= zlen (n_ptr nd))
  then Some (mkNode (splice (n_ptr nd) off bs) (n_size nd)) else None.

(** [memcpy(_, nd.ptr + off, len)]. *)
Definition node_read (nd : Node) (off len : Z) : option (list byte) :=
  if decide (0 <= off ∧ 0 <= len ∧ off + len <= zlen (n_ptr nd))
  then Some (slice (n_ptr nd) off len) else None.

Definition deref {A} (nodes : list A) (cur : option nat) : option A :=
  cur ≫= λ i, nodes !! i.

(** The loop of [write], lines 305-323.  Every iteration that does not end the
    loop moves [cur] to the next node, so a fuel of one more than the number of
    nodes cannot run out.  [None] is undefined behaviour. *)
Fixpoint write_loop (fuel : nat) (buf : list byte) (nodes : list Node) (cur : option nat)
    (position size bpos npos ncap : Z) : option (list Node * option nat * Z) :=
  if bool_decide (0 < size) then
    match fuel with
    | O => None
    | S fuel' =>
        i ← cur;
        nd ← nodes !! i;
        if bool_decide (size <= ncap) then
          nd' ← node_memcpy nd npos (slice buf bpos size);
          let nodes' := <[i := nd']> nodes in
          let cur' := if bool_decide (n_size nd = npos + size) then next nodes' i else cur in
          write_loop fuel' buf nodes' cur' (position + size) 0 (bpos + size) npos ncap
        else
          nd' ← node_memcpy nd npos (slice buf bpos ncap);
          let nodes' := <[i := nd']> nodes in
          let cur' := next nodes' i in
          nd2 ← deref nodes' cur';
          write_loop fuel' buf nodes' cur' (position + ncap) (size - ncap) (bpos + ncap)
            0 (n_size nd2)
    end
  else Some (nodes, cur, position).

(** The loop of both [read]s, lines 336-354 and 365-383: the bytes copied so
    far are [acc]. *)
Fixpoint read_loop (fuel : nat) (nodes : list Node) (cur : option nat)
    (position size npos ncap : Z) (acc : list byte) : option (list byte * option nat * Z) :=
  if bool_decide (0 < size) then
    match fuel with
    | O => None
    | S fuel' =>
        i ← cur;
        nd ← nodes !! i;
        if bool_decide (size <= ncap) then
          bs ← node_read nd npos size;
          let cur' := if bool_decide (n_size nd = npos + size) then next nodes i else cur in
          read_loop fuel' nodes cur' (position + size) 0 npos ncap (acc ++ bs)
        else
          bs ← node_read nd npos ncap;
          let cur' := next nodes i in
          nd2 ← deref nodes cur';
          read_loop fuel' nodes cur' (position + ncap) (size - ncap) 0 (n_size nd2) (acc ++ bs)
    end
  else Some (acc, cur, position).

(** An [iovec]: the node it points into, the offset in it and the length. *)
Record iovec := mkIovec { iov_node : nat; iov_off : Z; iov_len : Z }.

(** The loop that fills [buffers], lines 499-513, 536-550 and 566-580. *)
Fixpoint iov_loop (fuel : nat) (nodes : list Node) (cur : option nat) (len npos ncap : Z)
    (buffers : list iovec) : option (list iovec) :=
  if bool_decide (0 < len) then
    match fuel with
    | O => None
    | S fuel' =>
        i ← cur;
        _ ← nodes !! i;
        if bool_decide (len <= ncap) then
          iov_loop fuel' nodes cur 0 npos ncap (buffers ++ [mkIovec i npos len])
        else
          let cur' := next nodes i in
          nd2 ← deref nodes cur';
          iov_loop fuel' nodes cur' (len - ncap) 0 (n_size nd2) (buffers ++ [mkIovec i npos ncap])
    end
  else Some buffers.

(** [ceil(1.0 * size / m_baseSize)]: the double quotient is rounded up to the
    exact integer as long as [size] is below 2^53, which [room] below demands. *)
Definition ceil_div (a b : Z) : Z := (a + b - 1) / b.

(** [m_position % m_baseSize]. *)
Definition mod_base (v : Z) : M ByteArray Z := λ s,
  if decide (m_baseSize s = 0) then Undef "division by zero" else Ok (v mod m_baseSize s) s.

(** [m_cur->size]. *)
Definition cur_size : M ByteArray Z := λ s,
  match deref (m_nodes s) (m_cur s) with
  | Some nd => Ok (n_size nd) s
  | None => Undef "m_cur is null"
  end.

Section ByteArray.
(** [junk k j] is the byte the allocator leaves at offset [j] of the [k]-th node. *)
Context (junk : nat → nat → byte).

(** Line 14. *)
Definition new_node (k : nat) (s : Z) : Node :=
  mkNode (junk k <$> seq 0 (Z.to_nat s)) s.

(** Lines 24-26. *)
Definition new_ByteArray (base_size : Z) : ByteArray :=
  mkByteArray base_size 0 base_size 0 PENG_BIG_ENDIAN [new_node 0 base_size] (Some 0%nat).

(** The loop of [addCapacity], lines 600-607. *)
Fixpoint append_nodes (count : nat) (s : ByteArray) : ByteArray :=
  match count with
  | O => s
  | S count' =>
      append_nodes count'
        (mkByteArray (m_baseSize s) (m_position s) (m_capacity s + m_baseSize s) (m_size s)
           (m_endian s) (m_nodes s ++ [new_node (length (m_nodes s)) (m_baseSize s)]) (m_cur s))
  end.

(** Lines 584-611. *)
Definition addCapacity (size : Z) : M ByteArray unit := λ s,
  if decide (size = 0) then Ok tt s else
  let old_cap := getCapacity s in
  if decide (size <= old_cap) then Ok tt s else
  let size := size - old_cap in
  if decide (m_baseSize s = 0) then Undef "division by zero" else
  let count := Z.to_nat (ceil_div size (m_baseSize s)) in
  let s' := append_nodes count s in
  let first := if decide (count = 0%nat) then None else Some (length (m_nodes s)) in
  if decide (old_cap = 0) then Ok tt (set_cursor (m_position s') first s') else Ok tt s'.

(** Lines 295-327. *)
Definition write (buf : list byte) : M ByteArray unit :=
  if decide (zlen buf = 0) then mret tt else
  addCapacity (zlen buf);;
  s ← get;
  npos ← mod_base (m_position s);
  csz ← cur_size;
  '(nodes, cur, position) ← of_option "write"
      (write_loop (S (length (m_nodes s))) buf (m_nodes s) (m_cur s)
         (m_position s) (zlen buf) 0 npos (u64 (csz - npos)));
  modify (λ s, set_cursor position cur (set_nodes nodes s));;
  modify (λ s, if bool_decide (m_size s < m_position s) then set_size (m_position s) s else s).

(** Lines 329-355; the result is what [buf] holds afterwards. *)
Definition read (size : Z) : M ByteArray (list byte) :=
  s ← get;
  if bool_decide (getReadSize s < size) then throw (out_of_range "not enough len") else
  npos ← mod_base (m_position s);
  csz ← cur_size;
  '(bs, cur, position) ← of_option "read"
      (read_loop (S (length (m_nodes s))) (m_nodes s) (m_cur s)
         (m_position s) size npos (u64 (csz - npos)) []);
  modify (set_cursor position cur);;
  mret bs.

(** The const overload, lines 357-384: it starts in [m_cur], whatever [position] is. *)
Definition read_at (size position : Z) : M ByteArray (list byte) :=
  s ← get;
  if bool_decide (u64 (m_size s - position) < size)
  then throw (out_of_range "not enough len") else
  npos ← mod_base position;
  csz ← cur_size;
  '(bs, _, _) ← of_option "read"
      (read_loop (S (length (m_nodes s))) (m_nodes s) (m_cur s) position size npos
         (u64 (csz - npos)) []);
  mret bs.

(** The two loops of [setPosition], lines 394-401. *)
Fixpoint seek_loop (fuel : nat) (nodes : list Node) (cur : option nat) (v : Z) :
    option (option nat) :=
  match fuel with
  | O => None
  | S fuel' =>
      i ← cur;
      nd ← nodes !! i;
      if bool_decide (n_size nd < v) then seek_loop fuel' nodes (next nodes i) (v - n_size nd)
      else if bool_decide (v = n_size nd) then Some (next nodes i) else Some cur
  end.

(** Lines 386-402. *)
Definition setPosition (v : Z) : M ByteArray unit :=
  s ← get;
  if bool_decide (m_capacity s < v) then throw (out_of_range "set_position out of range") else
  modify (λ s, set_cursor v (m_cur s) s);;
  modify (λ s, if bool_decide (m_size s < v) then set_size v s else s);;
  cur ← of_option "setPosition"
      (seek_loop (S (length (m_nodes s))) (m_nodes s) (Some 0%nat) v);
  modify (set_cursor v cur).

(** Lines 282-293: every node but the root is deleted. *)
Definition clear (s : ByteArray) : ByteArray :=
  mkByteArray (m_baseSize s) 0 (m_baseSize s) 0 (m_endian s) (take 1 (m_nodes s)) (Some 0%nat).

(** Lines 462-470. *)
Definition toString : M ByteArray (list byte) :=
  s ← get;
  if decide (getReadSize s = 0) then mret [] else read_at (getReadSize s) (m_position s).

(** Lines 486-515. *)
Definition getReadBuffers (len : Z) : M ByteArray (Z * list iovec) :=
  s ← get;
  let len := if bool_decide (getReadSize s < len) then getReadSize s else len in
  if decide (len = 0) then mret (0, []) else
  npos ← mod_base (m_position s);
  csz ← cur_size;
  bufs ← of_option "getReadBuffers"
      (iov_loop (S (length (m_nodes s))) (m_nodes s) (m_cur s) len npos (u64 (csz - npos)) []);
  mret (len, bufs).

(** Lines 517-552: the node is the one of [position], the offset in it that
    of [m_position]. *)
Definition getReadBuffersAt (len position : Z) : M ByteArray (Z * list iovec) :=
  s ← get;
  let len := if bool_decide (getReadSize s < len) then getReadSize s else len in
  if decide (len = 0) then mret (0, []) else
  npos ← mod_base (m_position s);
  let count := Z.to_nat (position / m_baseSize s) in
  let cur := if decide (count < length (m_nodes s))%nat then Some count else None in
  nd ← of_option "getReadBuffers" (deref (m_nodes s) cur);
  bufs ← of_option "getReadBuffers"
      (iov_loop (S (length (m_nodes s))) (m_nodes s) cur len npos (u64 (n_size nd - npos)) []);
  mret (len, bufs).

(** Lines 554-582. *)
Definition getWriteBuffers (len : Z) : M ByteArray (Z * list iovec) :=
  if decide (len = 0) then mret (0, []) else
  addCapacity len;;
  s ← get;
  npos ← mod_base (m_position s);
  csz ← cur_size;
  bufs ← of_option "getWriteBuffers"
      (iov_loop (S (length (m_nodes s))) (m_nodes s) (m_cur s) len npos (u64 (csz - npos)) []);
  mret (len, bufs).

(** The loop of [writeToFile], lines 418-426: the bytes handed to the stream
    so far are [acc].  [int diff] and [int64_t len] are narrowed as in the code. *)
Fixpoint writeFile_loop (fuel : nat) (base : Z) (nodes : list Node) (cur : option nat)
    (pos read_size : Z) (acc : list byte) : option (list byte) :=
  if bool_decide (0 < read_size) then
    match fuel with
    | O => None
    | S fuel' =>
        let diff := s32 (pos mod base) in
        let len := s64 ((if bool_decide (base < read_size) then base else read_size) - diff) in
        i ← cur;
        nd ← nodes !! i;
        bs ← node_read nd diff len;
        writeFile_loop fuel' base nodes (next nodes i) (pos + len) (read_size - len) (acc ++ bs)
    end
  else Some acc.

(** Lines 404-428.  [opened] is whether the stream could be opened; the second
    result is what the file holds afterwards. *)
Definition writeToFile (opened : bool) : M ByteArray (bool * list byte) :=
  if negb opened then mret (false, []) else
  s ← get;
  if decide (m_baseSize s = 0) then undef "division by zero" else
  out ← of_option "writeToFile"
      (writeFile_loop (S (length (m_nodes s))) (m_baseSize s) (m_nodes s) (m_cur s)
         (m_position s) (s64 (getReadSize s)) []);
  mret (true, out).

(** The loop of [readFromFile], lines 442-445: [ifs.read] delivers up to
    [m_baseSize] bytes and reports the end of the file when there were fewer. *)
Fixpoint readFile_loop (fuel : nat) (rest : list byte) : M ByteArray unit :=
  match fuel with
  | O => undef "fuel"
  | S fuel' =>
      s ← get;
      let n := Z.to_nat (m_baseSize s) in
      write (take n rest);;
      if bool_decide (zlen rest < m_baseSize s) then mret tt
      else readFile_loop fuel' (drop n rest)
  end.

(** Lines 430-448; [None] is a file that cannot be opened. *)
Definition readFromFile (file : option (list byte)) : M ByteArray bool :=
  match file with
  | None => mret false
  | Some content => readFile_loop (S (length content)) content;; mret true
  end.

(** Two hexadecimal digits, [setw(2) << setfill('0') << hex]. *)
Definition hex_digit (d : Z) : Ascii.ascii :=
  Ascii.ascii_of_N (Z.to_N (if bool_decide (d < 10) then 48 + d else 87 + d)).
Definition hex_byte (b : byte) : list Ascii.ascii :=
  [hex_digit (byte.unsigned b / 16); hex_digit (byte.unsigned b mod 16)].

(** Lines 472-484: the digits of byte [i], after a line break when [i] is a
    positive multiple of 32, followed by a blank. *)
Fixpoint hex_from (i : nat) (str : list byte) : list Ascii.ascii :=
  match str with
  | [] => []
  | b :: str' =>
      (if decide (0 < i ∧ i `mod` 32 = 0)%nat then [Ascii.ascii_of_nat 10] else [])
        ++ hex_byte b ++ [Ascii.ascii_of_nat 32] ++ hex_from (S i) str'
  end.

Definition toHexString : M ByteArray (list Ascii.ascii) :=
  str ← toString; mret (hex_from 0 str).
End ByteArray.

(** ** Well-formed buffers *)

Definition nodes_ok (base : Z) (nodes : list Node) : Prop :=
  Forall (λ nd, n_size nd = base ∧ zlen (n_ptr nd) = base) nodes.

(** The bytes of the whole chain. *)
Definition flat (nodes : list Node) : list byte := concat (n_ptr <$> nodes).

(** The node a position lies in, [None] (null) at the end of the chain. *)
Definition cur_of (base position : Z) (n : nat) : option nat :=
  if decide (Z.to_nat (position / base) < n)%nat then Some (Z.to_nat (position / base)) else None.

Record wf (s : ByteArray) : Prop := {
  wf_base : 0 < m_baseSize s;
  wf_nodes : nodes_ok (m_baseSize s) (m_nodes s);
  wf_root : (0 < length (m_nodes s))%nat;
  wf_capacity : m_capacity s = m_baseSize s * Z.of_nat (length (m_nodes s));
  wf_bound : m_capacity s < 2 ^ 53;
  wf_position : 0 <= m_position s <= m_size s;
  wf_size : m_size s <= m_capacity s;
  wf_cur : m_cur s = cur_of (m_baseSize s) (m_position s) (length (m_nodes s))
}.

(** The valid bytes. *)
Definition data (s : ByteArray) : list byte := take (Z.to_nat (m_size s)) (flat (m_nodes s)).

(** Room for [len] more bytes: sizes stay in the range where the double
    arithmetic of [addCapacity] is exact. *)
Definition room (s : ByteArray) (len : Z) : Prop :=
  m_position s + len + m_baseSize s <= 2 ^ 53.

Lemma flat_cons nd nodes : flat (nd :: nodes) = n_ptr nd ++ flat nodes.
Proof. done. Qed.

Lemma zlen_flat base nodes :
  nodes_ok base nodes → zlen (flat nodes) = base * Z.of_nat (length nodes).
Proof.
  induction 1 as [|nd nodes [_ H] _ IH]; [unfold zlen; simpl; lia|].
  rewrite flat_cons, zlen_app, IH. simpl length. lia.
Qed.

Lemma flat_app n1 n2 : flat (n1 ++ n2) = flat n1 ++ flat n2.
Proof. unfold flat. by rewrite fmap_app, concat_app. Qed.

(** Reading inside one node reads the chain. *)
Lemma flat_slice base nodes i nd off len :
  nodes_ok base nodes → nodes !! i = Some nd → 0 <= off → 0 <= len → off + len <= base →
  slice (flat nodes) (Z.of_nat i * base + off) len = slice (n_ptr nd) off len.
Proof.
  intros Hok. revert i. induction Hok as [|nd' nodes [_ Hlen] _ IH]; intros [|i] Hi ???;
    simpl in Hi; [done..| |]; rewrite flat_cons.
  - injection Hi as ->. rewrite slice_app_l by lia. f_equal; lia.
  - rewrite slice_app_r by nia. rewrite Hlen, <- (IH i Hi) by lia. f_equal; lia.
Qed.

(** Overwriting inside one node overwrites the chain. *)
Lemma flat_insert base nodes i nd off bs :
  nodes_ok base nodes → nodes !! i = Some nd → 0 <= off → off + zlen bs <= base →
  flat (<[i := mkNode (splice (n_ptr nd) off bs) (n_size nd)]> nodes)
  = splice (flat nodes) (Z.of_nat i * base + off) bs.
Proof.
  intros Hok. revert i. induction Hok as [|nd' nodes [_ Hlen] _ IH]; intros [|i] Hi ??;
    simpl in Hi; [done..| |]; cbn [insert list_insert]; rewrite !flat_cons; cbn [n_ptr].
  - injection Hi as ->. rewrite splice_app_l by lia. do 2 f_equal; lia.
  - pose proof (zlen_nonneg bs). rewrite splice_app_r by nia. f_equal.
    etrans; [apply (IH i Hi); lia|]. f_equal; lia.
Qed.

Lemma nodes_ok_insert base nodes i nd off bs :
  nodes_ok base nodes → nodes !! i = Some nd → 0 <= off → off + zlen bs <= base →
  nodes_ok base (<[i := mkNode (splice (n_ptr nd) off bs) (n_size nd)]> nodes).
Proof.
  intros Hok Hi ??. pose proof (Forall_lookup_1 _ _ _ _ Hok Hi) as [Hs Hl].
  apply Forall_insert; [done|]. simpl. split; [done|]. rewrite zlen_splice; lia.
Qed.

(** The node index of a position. *)
Lemma cur_of_at base i off n :
  0 < base → 0 <= off < base → (i < n)%nat → cur_of base (Z.of_nat i * base + off) n = Some i.
Proof.
  intros. unfold cur_of. rewrite Z.div_add_l, Z.div_small by lia.
  replace (Z.to_nat (Z.of_nat i + 0)) with i by lia. by rewrite decide_True.
Qed.

Lemma cur_of_step {A} base i (nodes : list A) :
  0 < base → cur_of base (Z.of_nat (S i) * base) (length nodes) = next nodes i.
Proof.
  intros. unfold cur_of, next. rewrite Z.div_mul by lia. by rewrite Nat2Z.id.
Qed.

Lemma cur_of_Some base position n i :
  0 < base → 0 <= position → cur_of base position n = Some i →
  (i < n)%nat ∧ position = Z.of_nat i * base + position mod base.
Proof.
  unfold cur_of. intros Hb Hp H. case_decide as Hd; simplify_eq. split; [done|].
  rewrite Z2Nat.id by (apply Z.div_pos; lia). rewrite Z.mul_comm. by apply Z_div_mod_eq_full.
Qed.

Lemma cur_of_end base n : 0 < base → cur_of base (base * Z.of_nat n) n = None.
Proof.
  intros. unfold cur_of. rewrite Z.mul_comm, Z.div_mul by lia.
  rewrite decide_False; [done|lia].
Qed.

Lemma cur_of_lt base position n :
  0 < base → 0 <= position < base * Z.of_nat n →
  ∃ i, cur_of base position n = Some i ∧ (i < n)%nat
       ∧ position = Z.of_nat i * base + position mod base.
Proof.
  intros. assert (Z.to_nat (position / base) < n)%nat as Hlt.
  { apply Nat2Z.inj_lt. rewrite Z2Nat.id by (apply Z.div_pos; lia).
    apply Z.div_lt_upper_bound; lia. }
  exists (Z.to_nat (position / base)). unfold cur_of. rewrite decide_True by done.
  split_and!; [done..|]. rewrite Z2Nat.id by (apply Z.div_pos; lia).
  rewrite Z.mul_comm. by apply Z_div_mod_eq_full.
Qed.

(** ** The loops *)

Lemma lookup_node base nodes i :
  nodes_ok base nodes → (i < length nodes)%nat →
  ∃ nd, nodes !! i = Some nd ∧ n_size nd = base ∧ zlen (n_ptr nd) = base.
Proof.
  intros Hok Hi. apply lookup_lt_is_Some in Hi as [nd Hnd].
  exists nd. split; [done|]. apply (Forall_lookup_1 _ _ _ _ Hok Hnd).
Qed.

(** What a loop step at node [i] leaves as the cursor. *)
Lemma cursor_after {A} base (nodes : list A) i npos size :
  0 < base → (i < length nodes)%nat → 0 <= npos → 0 < size → npos + size <= base →
  (if bool_decide (base = npos + size) then next nodes i else Some i)
  = cur_of base (Z.of_nat i * base + npos + size) (length nodes).
Proof.
  intros. case_bool_decide as H'.
  - rewrite <- (cur_of_step base) by done. f_equal. lia.
  - rewrite <- Z.add_assoc, cur_of_at by lia. done.
Qed.

Lemma write_loop_done fuel buf nodes cur position bpos npos ncap :
  write_loop fuel buf nodes cur position 0 bpos npos ncap = Some (nodes, cur, position).
Proof. by destruct fuel. Qed.

Lemma read_loop_done fuel nodes cur position npos ncap acc :
  read_loop fuel nodes cur position 0 npos ncap acc = Some (acc, cur, position).
Proof. by destruct fuel. Qed.

Lemma iov_loop_done fuel nodes cur npos ncap acc :
  iov_loop fuel nodes cur 0 npos ncap acc = Some acc.
Proof. by destruct fuel. Qed.

Lemma next_Some {A} (nodes : list A) i : (S i < length nodes)%nat → next nodes i = Some (S i).
Proof. intros. unfold next. by rewrite decide_True. Qed.

(** The position is inside the chain, so the next node exists. *)
Lemma next_exists base n i npos size :
  0 < base → 0 <= npos → base - npos < size →
  Z.of_nat i * base + npos + size <= base * Z.of_nat n → (S i < n)%nat.
Proof. intros. apply Nat2Z.inj_lt. nia. Qed.

Lemma write_loop_ok fuel buf base nodes i position size bpos npos ncap :
  0 < base → nodes_ok base nodes → (i < length nodes)%nat → 0 <= npos < base → ncap = base - npos →
  position = Z.of_nat i * base + npos → 0 <= size →
  position + size <= base * Z.of_nat (length nodes) →
  0 <= bpos → bpos + size <= zlen buf → (length nodes - i < fuel)%nat →
  ∃ nodes',
    write_loop fuel buf nodes (Some i) position size bpos npos ncap
    = Some (nodes', cur_of base (position + size) (length nodes), position + size)
    ∧ nodes_ok base nodes' ∧ length nodes' = length nodes
    ∧ flat nodes' = splice (flat nodes) position (slice buf bpos size).
Proof.
  intros Hb. revert nodes i position size bpos npos ncap.
  induction fuel as [|fuel IH]; intros nodes i position size bpos npos ncap Hok Hi Hn -> Hp Hs Hc ???; [lia|].
  destruct (decide (size = 0)) as [->|].
  { exists nodes. rewrite write_loop_done, Z.add_0_r, slice_zero, splice_nil, Hp, cur_of_at by lia.
    done. }
  destruct (lookup_node base nodes i) as (nd & Hnd & Hsz & Hlen); [done..|].
  cbn [write_loop]. rewrite bool_decide_true by lia. cbn [mbind option_bind]. rewrite Hnd. cbn.
  case_bool_decide as Hcap.
  - assert (zlen (slice buf bpos size) = size) as Hsl by (apply zlen_slice; lia).
    unfold node_memcpy. rewrite decide_True by lia. cbn. rewrite write_loop_done.
    eexists. split.
    { replace (bool_decide (n_size nd = npos + size)) with (bool_decide (base = npos + size))
        by (by rewrite Hsz).
      rewrite (cursor_after base) by (rewrite ?length_insert; lia).
      by rewrite length_insert, Hp. }
    split_and!; [apply nodes_ok_insert; auto; lia|apply length_insert|].
    rewrite (flat_insert base) by (auto; lia). by rewrite Hp.
  - assert (zlen (slice buf bpos (base - npos)) = base - npos) as Hsl by (apply zlen_slice; lia).
    unfold node_memcpy. rewrite decide_True by lia. cbn.
    set (nodes1 := <[i:=_]> nodes).
    assert (nodes_ok base nodes1) as Hok1 by (apply nodes_ok_insert; auto; lia).
    assert (length nodes1 = length nodes) as Hl1 by apply length_insert.
    assert (S i < length nodes)%nat as Hi1 by (apply (next_exists base _ _ npos size); lia).
    rewrite next_Some by lia. destruct (lookup_node base nodes1 (S i)) as (nd2 & Hnd2 & Hsz2 & _);
      [done|lia|]. unfold deref. cbn. rewrite Hnd2. cbn. rewrite Hsz2.
    edestruct (IH nodes1 (S i) (position + (base - npos)) (size - (base - npos))
                 (bpos + (base - npos)) 0 base) as (nodes2 & -> & Hok2 & Hl2 & Hf2); try lia; [done|].
    exists nodes2. split_and!; [|done|lia|].
    { rewrite Hl1. by replace (position + (base - npos) + (size - (base - npos)))
        with (position + size) by lia. }
    rewrite Hf2. unfold nodes1. rewrite (flat_insert base) by (auto; lia). rewrite <- Hp.
    replace (position + (base - npos)) with (position + zlen (slice buf bpos (base - npos))) by lia.
    pose proof (zlen_flat base nodes Hok) as Hfl.
    rewrite splice_app; [|lia|rewrite !zlen_slice; lia].
    rewrite slice_slice_app by lia. do 2 f_equal. lia.
Qed.

Lemma read_loop_ok fuel base nodes i position size npos ncap acc :
  0 < base → nodes_ok base nodes → (i < length nodes)%nat → 0 <= npos < base → ncap = base - npos →
  position = Z.of_nat i * base + npos → 0 <= size →
  position + size <= base * Z.of_nat (length nodes) → (length nodes - i < fuel)%nat →
  read_loop fuel nodes (Some i) position size npos ncap acc
  = Some (acc ++ slice (flat nodes) position size,
          cur_of base (position + size) (length nodes), position + size).
Proof.
  intros Hb Hok. revert i position size npos ncap acc.
  induction fuel as [|fuel IH]; intros i position size npos ncap acc Hi Hn -> Hp Hs Hc ?; [lia|].
  destruct (decide (size = 0)) as [->|].
  { by rewrite read_loop_done, Z.add_0_r, slice_zero, app_nil_r, Hp, cur_of_at by lia. }
  destruct (lookup_node base nodes i) as (nd & Hnd & Hsz & Hlen); [done..|].
  cbn [read_loop]. rewrite bool_decide_true by lia. cbn [mbind option_bind]. rewrite Hnd. cbn.
  case_bool_decide as Hcap; unfold node_read.
  - rewrite decide_True by lia. cbn. rewrite read_loop_done.
    rewrite Hsz, (cursor_after base) by lia. rewrite Hp, (flat_slice base _ i nd) by (auto; lia). done.
  - assert (S i < length nodes)%nat as Hi1 by (apply (next_exists base _ _ npos size); lia).
    rewrite decide_True by lia. cbn. rewrite next_Some by done.
    destruct (lookup_node base nodes (S i)) as (nd2 & Hnd2 & Hsz2 & _); [done|lia|].
    unfold deref. cbn. rewrite Hnd2. cbn. rewrite Hsz2.
    rewrite IH by lia.
    replace (position + (base - npos) + (size - (base - npos))) with (position + size) by lia.
    rewrite <- app_assoc. rewrite <- (flat_slice base nodes i nd) by (auto; lia). rewrite <- Hp.
    rewrite slice_slice_app by lia.
    by replace (base - npos + (size - (base - npos))) with size by lia.
Qed.

(** A loop that needs more than the chain has follows the null [next] of the
    last node. *)
Lemma read_loop_short fuel base nodes i position size npos ncap acc :
  0 < base → nodes_ok base nodes → (i < length nodes)%nat → 0 <= npos < base → ncap = base - npos →
  0 < size → base * Z.of_nat (length nodes) < Z.of_nat i * base + npos + size →
  read_loop fuel nodes (Some i) position size npos ncap acc = None.
Proof.
  intros Hb Hok. revert i position size npos ncap acc.
  induction fuel as [|fuel IH]; intros i position size npos ncap acc Hi Hn -> Hs Hc;
    cbn [read_loop]; rewrite bool_decide_true by lia; [done|].
  destruct (lookup_node base nodes i) as (nd & Hnd & Hsz & Hlen); [done..|]. cbn [mbind option_bind]. rewrite Hnd.
  assert (base - npos < size) as Hcap by nia.
  cbn [mbind option_bind]. rewrite bool_decide_false by lia. unfold node_read. rewrite decide_True by lia.
  cbn [mbind option_bind]. destruct (decide (S i < length nodes)%nat) as [Hi1|Hi1].
  - rewrite next_Some by done. destruct (lookup_node base nodes (S i)) as (nd2 & Hnd2 & Hsz2 & _); [done..|].
    unfold deref. cbn [mbind option_bind]. rewrite Hnd2. cbn [mbind option_bind]. rewrite Hsz2. apply IH; lia.
  - unfold next. by rewrite decide_False.
Qed.

(** Only the position a loop returns depends on the one it starts from. *)
Lemma read_loop_position p p' fuel : ∀ nodes cur size npos ncap acc,
  fst <$> read_loop fuel nodes cur p size npos ncap acc = fst <$> read_loop fuel nodes cur p' size npos ncap acc.
Proof.
  revert p p'. induction fuel as [|fuel IH]; intros p p' nodes cur size npos ncap acc; cbn [read_loop];
    (destruct (bool_decide (0 < size)); [|done]); [done|].
  destruct cur as [i|]; [|done]. cbn [mbind option_bind]. destruct (nodes !! i); [|done]. cbn [mbind option_bind].
  destruct (bool_decide _); (destruct (node_read _ _ _); [|done]); cbn [mbind option_bind]; [apply IH|].
  destruct (deref _ _); [|done]. cbn [mbind option_bind]. apply IH.
Qed.

(** The bytes an [iovec] points at. *)
Definition iov_data (nodes : list Node) (v : iovec) : list byte :=
  match nodes !! iov_node v with
  | Some nd => slice (n_ptr nd) (iov_off v) (iov_len v)
  | None => []
  end.

(** The buffers cover the range, in order and inside their nodes. *)
Definition iov_covers (nodes : list Node) (position len : Z) (vs : list iovec) : Prop :=
  concat (iov_data nodes <$> vs) = slice (flat nodes) position len
  ∧ Forall (λ v, ∃ nd, nodes !! iov_node v = Some nd ∧ 0 <= iov_off v
                       ∧ 0 < iov_len v ∧ iov_off v + iov_len v <= zlen (n_ptr nd)) vs.

Lemma iov_covers_cons base nodes i nd npos n m vs :
  nodes_ok base nodes → nodes !! i = Some nd → 0 <= npos → 0 < n → npos + n <= base → 0 <= m →
  iov_covers nodes (Z.of_nat i * base + npos + n) m vs →
  iov_covers nodes (Z.of_nat i * base + npos) (n + m) (mkIovec i npos n :: vs).
Proof.
  intros Hok Hnd ???? [Hc Hf]. pose proof (Forall_lookup_1 _ _ _ _ Hok Hnd) as [_ Hlen].
  split.
  - rewrite fmap_cons. simpl concat. unfold iov_data at 1. cbn. rewrite Hnd, Hc.
    rewrite <- (flat_slice base nodes i nd) by (auto; lia). by rewrite slice_slice_app by nia.
  - constructor; [|done]. exists nd. cbn. split_and!; [done|lia..].
Qed.

Lemma iov_loop_ok fuel base nodes i position len npos ncap acc :
  0 < base → nodes_ok base nodes → (i < length nodes)%nat → 0 <= npos < base →
  ncap = base - npos → position = Z.of_nat i * base + npos → 0 <= len →
  position + len <= base * Z.of_nat (length nodes) → (length nodes - i < fuel)%nat →
  ∃ vs, iov_loop fuel nodes (Some i) len npos ncap acc = Some (acc ++ vs)
        ∧ iov_covers nodes position len vs.
Proof.
  intros Hb Hok. revert i position len npos ncap acc.
  induction fuel as [|fuel IH]; intros i position len npos ncap acc Hi Hn -> Hp Hs Hc ?; [lia|].
  destruct (decide (len = 0)) as [->|].
  { exists []. rewrite iov_loop_done, app_nil_r. split; [done|]. by split. }
  destruct (lookup_node base nodes i) as (nd & Hnd & Hsz & Hlen); [done..|].
  cbn [iov_loop]. rewrite bool_decide_true by lia. cbn [mbind option_bind]. rewrite Hnd. cbn.
  case_bool_decide as Hcap.
  - rewrite iov_loop_done. eexists. split; [done|].
    rewrite Hp. replace len with (len + 0) at 1 by lia.
    apply (iov_covers_cons base _ _ nd); auto; [lia..|]. split; [done|constructor].
  - assert (S i < length nodes)%nat as Hi1 by (apply (next_exists base _ _ npos len); lia).
    rewrite next_Some by done.
    destruct (lookup_node base nodes (S i)) as (nd2 & Hnd2 & Hsz2 & _); [done|lia|].
    unfold deref. cbn. rewrite Hnd2. cbn. rewrite Hsz2.
    edestruct (IH (S i) (position + (base - npos)) (len - (base - npos)) 0 base)
      as (vs & -> & Hvs); [lia..|].
    eexists. rewrite <- app_assoc. split; [done|]. cbn. rewrite Hp.
    replace len with (base - npos + (len - (base - npos))) by lia.
    apply (iov_covers_cons base _ _ nd); auto; [lia..|]. by rewrite <- Hp.
Qed.

Lemma iov_loop_short fuel base nodes i len npos ncap acc :
  0 < base → nodes_ok base nodes → (i < length nodes)%nat → 0 <= npos < base → ncap = base - npos →
  0 < len → base * Z.of_nat (length nodes) < Z.of_nat i * base + npos + len →
  iov_loop fuel nodes (Some i) len npos ncap acc = None.
Proof.
  intros Hb Hok. revert i len npos ncap acc.
  induction fuel as [|fuel IH]; intros i len npos ncap acc Hi Hn -> Hs Hc;
    cbn [iov_loop]; rewrite bool_decide_true by lia; [done|].
  destruct (lookup_node base nodes i) as (nd & Hnd & Hsz & Hlen); [done..|]. cbn [mbind option_bind]. rewrite Hnd.
  assert (base - npos < len) as Hcap by nia.
  cbn [mbind option_bind]. rewrite bool_decide_false by lia. destruct (decide (S i < length nodes)%nat) as [Hi1|Hi1].
  - rewrite next_Some by done. destruct (lookup_node base nodes (S i)) as (nd2 & Hnd2 & Hsz2 & _); [done..|].
    unfold deref. cbn [mbind option_bind]. rewrite Hnd2. cbn [mbind option_bind]. rewrite Hsz2. apply IH; lia.
  - unfold next. by rewrite decide_False.
Qed.

(** ** Operations on well-formed buffers *)

(** The cursor in the valid bytes. *)
Definition view (s : ByteArray) : stream :=
  Stream (take (Z.to_nat (m_position s)) (data s)) (drop (Z.to_nat (m_position s)) (data s)).

Lemma wf_flat s : wf s → zlen (flat (m_nodes s)) = m_capacity s.
Proof. intros H. rewrite (zlen_flat (m_baseSize s)) by apply H. by rewrite (wf_capacity _ H). Qed.

Lemma zlen_data s : wf s → zlen (data s) = m_size s.
Proof.
  intros H. pose proof (wf_flat s H). pose proof (wf_size s H). pose proof (wf_position s H).
  unfold data, zlen in *. rewrite length_take. lia.
Qed.

Lemma zlen_before s : wf s → zlen (before (view s)) = m_position s.
Proof.
  intros H. pose proof (zlen_data s H). pose proof (wf_position s H).
  unfold view, zlen in *; simpl. rewrite length_take. lia.
Qed.

Lemma zlen_after s : wf s → zlen (after (view s)) = m_size s - m_position s.
Proof.
  intros H. pose proof (zlen_data s H). pose proof (wf_position s H).
  unfold view, zlen in *; simpl. rewrite length_drop. lia.
Qed.

Lemma contents_view s : contents (view s) = data s.
Proof. unfold contents, view; simpl. apply take_drop. Qed.

Lemma getReadSize_wf s : wf s → getReadSize s = m_size s - m_position s.
Proof.
  intros H. pose proof (wf_position s H). pose proof (wf_size s H). pose proof (wf_bound s H).
  apply wrapu_small. lia.
Qed.

Lemma getCapacity_wf s : wf s → getCapacity s = m_capacity s - m_position s.
Proof.
  intros H. pose proof (wf_position s H). pose proof (wf_size s H). pose proof (wf_bound s H).
  apply wrapu_small. lia.
Qed.

(** Below the capacity, the cursor is at offset [m_position % m_baseSize] of [m_cur]. *)
Lemma wf_cursor s :
  wf s → m_position s < m_capacity s →
  ∃ i nd, m_cur s = Some i ∧ m_nodes s !! i = Some nd ∧ (i < length (m_nodes s))%nat
    ∧ n_size nd = m_baseSize s
    ∧ m_position s = Z.of_nat i * m_baseSize s + m_position s mod m_baseSize s
    ∧ 0 <= m_position s mod m_baseSize s < m_baseSize s.
Proof.
  intros H Hlt. pose proof (wf_base s H) as Hb. pose proof (wf_position s H).
  rewrite (wf_capacity s H) in Hlt.
  destruct (cur_of_lt (m_baseSize s) (m_position s) (length (m_nodes s)))
    as (i & Hc & Hi & Hp); [lia..|].
  destruct (lookup_node _ _ i (wf_nodes s H) Hi) as (nd & Hnd & Hsz & _).
  exists i, nd. rewrite (wf_cur s H). split_and!; try done.
  - apply Z.mod_pos_bound; lia.
  - apply Z.mod_pos_bound; lia.
Qed.

Lemma mod_base_ok s v : wf s → mod_base v s = Ok (v mod m_baseSize s) s.
Proof. intros H. unfold mod_base. pose proof (wf_base s H). by rewrite decide_False by lia. Qed.

Lemma cur_size_ok s :
  wf s → m_position s < m_capacity s → cur_size s = Ok (m_baseSize s) s.
Proof.
  intros H Hlt. destruct (wf_cursor s H Hlt) as (i & nd & Hc & Hnd & _ & Hsz & _).
  unfold cur_size, deref. rewrite Hc. cbn. by rewrite Hnd, Hsz.
Qed.

(** At the end of the chain [m_cur] is null. *)
Lemma wf_cur_end s : wf s → m_position s = m_capacity s → m_cur s = None.
Proof.
  intros H He. rewrite (wf_cur s H), He, (wf_capacity s H). apply cur_of_end, H.
Qed.

Lemma ncap_ok s : wf s → let npos := m_position s mod m_baseSize s in
  u64 (m_baseSize s - npos) = m_baseSize s - npos.
Proof.
  intros H npos. pose proof (wf_base s H).
  pose proof (Z.mod_pos_bound (m_position s) (m_baseSize s)) as Hm.
  pose proof (wf_bound s H). pose proof (wf_capacity s H). pose proof (wf_root s H).
  apply wrapu_small. unfold npos. nia.
Qed.

Lemma new_node_ok (junk : nat → nat → byte) k base :
  0 <= base → n_size (new_node junk k base) = base ∧ zlen (n_ptr (new_node junk k base)) = base.
Proof. intros. split; [done|]. unfold new_node, zlen; simpl. rewrite length_fmap, length_seq. lia. Qed.

Lemma append_nodes_spec junk count s :
  0 <= m_baseSize s →
  ∃ ext, append_nodes junk count s
         = mkByteArray (m_baseSize s) (m_position s)
             (m_capacity s + m_baseSize s * Z.of_nat count) (m_size s) (m_endian s)
             (m_nodes s ++ ext) (m_cur s)
       ∧ length ext = count ∧ nodes_ok (m_baseSize s) ext.
Proof.
  revert s. induction count as [|count IH]; intros s Hb.
  - exists []. rewrite app_nil_r. destruct s; simpl in *. split_and!; [f_equal; lia|done|constructor].
  - simpl append_nodes. edestruct IH as (ext & -> & Hl & Hok); [done|]; simpl in *.
    exists (new_node junk (length (m_nodes s)) (m_baseSize s) :: ext). split_and!.
    + rewrite <- app_assoc. f_equal. lia.
    + simpl. by rewrite Hl.
    + constructor; [by apply new_node_ok|done].
Qed.

Lemma ceil_div_spec a b : 0 < a → 0 < b → a <= b * ceil_div a b < a + b ∧ 0 < ceil_div a b.
Proof.
  intros. unfold ceil_div.
  pose proof (Z.div_mod (a + b - 1) b). pose proof (Z.mod_pos_bound (a + b - 1) b). nia.
Qed.

(** What [addCapacity] keeps. *)
Definition same_bytes (s s' : ByteArray) : Prop :=
  m_baseSize s' = m_baseSize s ∧ m_position s' = m_position s ∧ m_size s' = m_size s
  ∧ m_endian s' = m_endian s ∧ data s' = data s.

Lemma addCapacity_ok junk s len :
  wf s → 0 < len → room s len →
  ∃ s', addCapacity junk len s = Ok tt s' ∧ wf s' ∧ same_bytes s s'
        ∧ m_position s' + len <= m_capacity s'.
Proof.
  intros H Hlen Hroom. unfold addCapacity. rewrite decide_False by lia.
  rewrite (getCapacity_wf s H). pose proof (wf_position s H). pose proof (wf_size s H).
  case_decide as Hold; [exists s; split_and!; [done..|lia]|].
  pose proof (wf_base s H) as Hb. rewrite decide_False by lia.
  set (need := len - (m_capacity s - m_position s)).
  destruct (ceil_div_spec need (m_baseSize s)) as [Hc Hpos]; [lia..|].
  set (count := Z.to_nat (ceil_div need (m_baseSize s))).
  assert (Z.of_nat count = ceil_div need (m_baseSize s)) as Hcount by lia.
  destruct (append_nodes_spec junk count s) as (ext & -> & Hext & Hok); [lia|].
  rewrite (decide_False (P := count = 0%nat)) by lia.
  assert (∀ cur, cur = cur_of (m_baseSize s) (m_position s) (length (m_nodes s ++ ext)) →
    let s' := mkByteArray (m_baseSize s) (m_position s)
      (m_capacity s + m_baseSize s * Z.of_nat count) (m_size s) (m_endian s) (m_nodes s ++ ext) cur in
    wf s' ∧ same_bytes s s' ∧ m_position s' + len <= m_capacity s') as Hgoal.
  { intros cur Hcur s'. pose proof (wf_capacity s H). pose proof (wf_root s H).
    unfold room in Hroom. split_and!; [split|..]; unfold s'; cbn; try done; try lia.
    - apply Forall_app. split; [apply H|done].
    - rewrite length_app. lia.
    - rewrite length_app. nia.
    - split_and!; try done. unfold data; cbn [m_size m_nodes]. rewrite flat_app. apply take_app_le.
      pose proof (wf_flat s H) as Hf. unfold zlen in Hf. lia. }
  case_decide as Hz; eexists; (split; [done|]); apply Hgoal; cbn.
  - rewrite length_app. unfold cur_of.
    replace (m_position s) with (Z.of_nat (length (m_nodes s)) * m_baseSize s)
      by (rewrite <- (Z.mul_comm (m_baseSize s)), <- (wf_capacity s H); lia).
    rewrite Z.div_mul, Nat2Z.id by lia. rewrite decide_True by lia. done.
  - destruct (wf_cursor s H) as (i & nd & -> & _ & Hi & _ & Hp & Hm); [lia|].
    rewrite Hp, cur_of_at by (rewrite ?length_app; lia). done.
Qed.

(** The valid bytes after a write of [bs] in the middle or at the end. *)
Lemma take_splice_max {A} (l : list A) sz off bs :
  0 <= off <= sz → sz <= zlen l → off + zlen bs <= zlen l →
  take (Z.to_nat (Z.max sz (off + zlen bs))) (splice l off bs)
  = splice (take (Z.to_nat sz) l) off bs.
Proof.
  intros. destruct (decide (off + zlen bs <= sz)).
  - rewrite Z.max_l by lia. apply take_splice; lia.
  - rewrite Z.max_r by lia. unfold splice, zlen in *.
    rewrite app_assoc, take_app_length' by (rewrite length_app, length_take; lia).
    rewrite take_take, Nat.min_l by lia.
    rewrite (drop_ge (take _ _)) by (rewrite length_take; lia). by rewrite app_nil_r.
Qed.

Lemma write_ok junk s bs :
  wf s → room s (zlen bs) →
  ∃ s', write junk bs s = Ok tt s' ∧ wf s' ∧ m_endian s' = m_endian s
        ∧ m_baseSize s' = m_baseSize s
        ∧ m_position s' = m_position s + zlen bs
        ∧ data s' = splice (data s) (m_position s) bs.
Proof.
  intros H Hroom. unfold write. case_decide as Hz.
  { apply zlen_0_nil in Hz as ->. exists s. rewrite splice_nil. split_and!; try done.
    rewrite zlen_nil. lia. }
  pose proof (zlen_nonneg bs).
  destruct (addCapacity_ok junk s (zlen bs)) as (s1 & E1 & H1 & (Hbs & Hps & Hss & Hes & Hds) & Hc1);
    [done|lia|done|].
  mstep E1. mget. mstep (mod_base_ok s1 _ H1).
  assert (m_position s1 < m_capacity s1) as Hlt by lia.
  mstep (cur_size_ok s1 H1 Hlt). rewrite (ncap_ok s1 H1).
  destruct (wf_cursor s1 H1 Hlt) as (i & nd & Hcur & Hnd & Hi & Hsz & Hp & Hm).
  pose proof (wf_capacity s1 H1) as Hcap. pose proof (wf_position s1 H1).
  edestruct (write_loop_ok (S (length (m_nodes s1))) bs (m_baseSize s1) (m_nodes s1) i
    (m_position s1) (zlen bs) 0 (m_position s1 mod m_baseSize s1)
    (m_baseSize s1 - m_position s1 mod m_baseSize s1))
    as (nodes' & Ew & Hok' & Hl' & Hf'); [apply H1|apply H1|done|done|done|done|lia..|].
  rewrite slice_all in Hf'. pose proof (wf_size s1 H1). pose proof (wf_flat s1 H1) as Hfl.
  exists (mkByteArray (m_baseSize s1) (m_position s1 + zlen bs) (m_capacity s1)
    (Z.max (m_size s1) (m_position s1 + zlen bs)) (m_endian s1) nodes'
    (cur_of (m_baseSize s1) (m_position s1 + zlen bs) (length (m_nodes s1)))).
  rewrite Hcur, Ew. split.
  { mrun. cbn. f_equal. case_bool_decide; unfold set_size, set_cursor; cbn; f_equal; lia. }
  cbn. split_and!; try done; [split; cbn; rewrite ?Hl'; first [apply H1|done|lia]|lia|].
  unfold data at 1; cbn [m_size m_nodes]. rewrite Hf', take_splice_max by lia.
  fold (data s1). by rewrite Hds, Hps.
Qed.

(** A write on the cursor view. *)
Lemma view_write s s' bs :
  wf s → wf s' → m_position s' = m_position s + zlen bs →
  data s' = splice (data s) (m_position s) bs → view s' = put_bytes bs (view s).
Proof.
  intros H H' Hp Hd. unfold view, put_bytes; cbn. pose proof (wf_position s H).
  rewrite Hp, Hd. pose proof (zlen_data s H). unfold splice, zlen in *.
  replace (Z.to_nat (m_position s + Z.of_nat (length bs)))
    with (Z.to_nat (m_position s) + length bs)%nat by lia.
  f_equal.
  - rewrite app_assoc. apply take_app_length'. rewrite length_app, length_take. lia.
  - rewrite app_assoc, drop_app_length', drop_drop by (rewrite length_app, length_take; lia). done.
Qed.

Lemma read_ok s n :
  wf s → 0 <= n <= m_size s - m_position s → m_position s < m_capacity s →
  ∃ s', read n s = Ok (slice (data s) (m_position s) n) s' ∧ wf s'
        ∧ s' = set_cursor (m_position s + n) (m_cur s') s.
Proof.
  intros H Hn Hlt. unfold read. mget.
  rewrite (getReadSize_wf s H), bool_decide_false by lia.
  mstep (mod_base_ok s _ H). mstep (cur_size_ok s H Hlt). rewrite (ncap_ok s H).
  destruct (wf_cursor s H Hlt) as (i & nd & Hcur & Hnd & Hi & Hsz & Hp & Hm).
  pose proof (wf_capacity s H) as Hcap. pose proof (wf_position s H). pose proof (wf_size s H).
  rewrite Hcur, (read_loop_ok _ (m_baseSize s) _ _ _ _ _ _ _) by first [apply H|done|lia].
  mrun. eexists. split.
  { f_equal. unfold data, slice. rewrite skipn_firstn_comm, take_take, Nat.min_l by lia. done. }
  split; [split; cbn; first [apply H|lia|done]|]. done.
Qed.

Lemma view_read s s' n :
  wf s → 0 <= n <= m_size s - m_position s → s' = set_cursor (m_position s + n) (m_cur s') s →
  view s' = advance n (view s).
Proof.
  intros H Hn ->. unfold view, advance; cbn. pose proof (wf_position s H).
  change (data (set_cursor _ _ s)) with (data s).
  replace (Z.to_nat (m_position s + n)) with (Z.to_nat (m_position s) + Z.to_nat n)%nat by lia.
  by rewrite drop_drop, take_take_drop.
Qed.

(** Not enough bytes: the exception leaves the buffer unchanged. *)
Lemma read_short s n :
  wf s → m_size s - m_position s < n → read n s = Throw (out_of_range "not enough len") s.
Proof.
  intros H Hn. unfold read. mget.
  by rewrite (getReadSize_wf s H), bool_decide_true by lia.
Qed.

(** The chunked buffer is a byte stream. *)
#[global] Program Instance bytearray_stream (junk : nat → nat → byte) : ByteStream ByteArray := {|
  bs_write := write junk;
  bs_read := read;
  bs_endian := m_endian;
  bs_inv := wf;
  bs_room := room;
  bs_view := view
|}.
Next Obligation.
  intros junk s bs H Hroom. destruct (write_ok junk s bs H Hroom) as (s' & E & H' & He & Hb & Hp & Hd).
  exists s'. split_and!; try done.
  - by apply (view_write s s').
  - unfold room. intros n. rewrite Hp, Hb. lia.
Qed.
Next Obligation.
  intros _ s n H Hn. rewrite (zlen_after s H) in Hn.
  pose proof (wf_size s H). pose proof (wf_position s H).
  destruct (read_ok s n H) as (s' & E & H' & Hs'); [lia..|].
  exists s'. split_and!; [|done|by rewrite Hs'|by apply (view_read s s'); [done|lia|done]].
  rewrite E. unfold view, slice; cbn. done.
Qed.
Next Obligation.
  intros _ s n H Hn. rewrite (zlen_after s H) in Hn. by apply read_short.
Qed.
Next Obligation. unfold room. intros. lia. Qed.

Lemma seek_loop_ok fuel base nodes i v :
  0 < base → nodes_ok base nodes → (i < length nodes)%nat → 0 <= v →
  Z.of_nat i * base + v <= base * Z.of_nat (length nodes) → (length nodes - i < fuel)%nat →
  seek_loop fuel nodes (Some i) v = Some (cur_of base (Z.of_nat i * base + v) (length nodes)).
Proof.
  intros Hb Hok. revert i v. induction fuel as [|fuel IH]; intros i v Hi Hv Hc ?; [lia|].
  destruct (lookup_node base nodes i) as (nd & Hnd & Hsz & _); [done..|].
  cbn [seek_loop]. cbn [mbind option_bind]. rewrite Hnd. cbn. rewrite Hsz.
  case_bool_decide.
  - assert (S i < length nodes)%nat as Hi1 by (apply (next_exists base _ _ 0 v); lia).
    rewrite next_Some, IH by lia. do 2 f_equal. lia.
  - case_bool_decide.
    + rewrite <- (cur_of_step base) by done. do 2 f_equal. lia.
    + by rewrite cur_of_at by lia.
Qed.

Lemma setPosition_ok s v :
  wf s → 0 <= v <= m_capacity s →
  ∃ s', setPosition v s = Ok tt s' ∧ wf s' ∧ m_position s' = v
        ∧ m_size s' = Z.max (m_size s) v ∧ m_nodes s' = m_nodes s
        ∧ m_endian s' = m_endian s ∧ m_baseSize s' = m_baseSize s.
Proof.
  intros H Hv. pose proof (wf_base s H). pose proof (wf_capacity s H). pose proof (wf_root s H).
  exists (mkByteArray (m_baseSize s) v (m_capacity s) (Z.max (m_size s) v) (m_endian s) (m_nodes s)
    (cur_of (m_baseSize s) v (length (m_nodes s)))).
  split; [|split; [|done]].
  - unfold setPosition. mget. rewrite bool_decide_false by lia.
    rewrite (seek_loop_ok _ (m_baseSize s)) by first [apply H|lia].
    mrun. cbn. f_equal. case_bool_decide; unfold set_cursor, set_size; cbn; f_equal; lia.
  - pose proof (wf_position s H). pose proof (wf_size s H). split; cbn; first [apply H|done|lia].
Qed.

(** Moving the cursor inside the valid bytes does not change them. *)
Lemma view_seek s s' v :
  0 <= v <= m_size s → m_position s' = v → m_size s' = Z.max (m_size s) v →
  m_nodes s' = m_nodes s →
  view s' = Stream (take (Z.to_nat v) (data s)) (drop (Z.to_nat v) (data s)).
Proof.
  intros Hv Hp Hs Hn. unfold view. rewrite Hp. unfold data. rewrite Hs, Hn.
  by rewrite Z.max_l by lia.
Qed.

Lemma clear_wf s : wf s → wf (clear s).
Proof.
  intros H. pose proof (wf_base s H). pose proof (wf_root s H). pose proof (wf_bound s H).
  pose proof (wf_capacity s H).
  split; cbn; try lia.
  - apply Forall_take, H.
  - rewrite length_take. lia.
  - rewrite length_take, Nat.min_l by lia. lia.
  - rewrite length_take, Nat.min_l by lia.
    change 0 with (Z.of_nat 0 * m_baseSize s + 0). by rewrite cur_of_at by lia.
Qed.

Lemma new_ByteArray_wf junk base : 0 < base < 2 ^ 53 → wf (new_ByteArray junk base).
Proof.
  intros. split; cbn; try lia.
  - constructor; [apply new_node_ok; lia|constructor].
  - change 0 with (Z.of_nat 0 * base + 0). by rewrite cur_of_at by lia.
Qed.

(** The const [read] returns the bytes at [position] when [position] is in the
    node [m_cur] points to. *)
Lemma read_at_ok s n position :
  wf s → 0 < n → 0 <= position → position + n <= m_size s →
  cur_of (m_baseSize s) position (length (m_nodes s)) = m_cur s →
  read_at n position s = Ok (slice (data s) position n) s.
Proof.
  intros H Hn Hp Hle Hcur. pose proof (wf_size s H). pose proof (wf_bound s H).
  pose proof (wf_base s H) as Hb. pose proof (wf_capacity s H) as Hcap.
  unfold read_at. mget. rewrite wrapu_small, bool_decide_false by lia.
  mstep (mod_base_ok s _ H).
  destruct (cur_of_lt (m_baseSize s) position (length (m_nodes s))) as (i & Hi & Hlt & Hpos); [lia..|].
  destruct (lookup_node _ _ i (wf_nodes s H) Hlt) as (nd & Hnd & Hsz & _).
  assert (cur_size s = Ok (m_baseSize s) s) as Ec
    by (unfold cur_size, deref; rewrite <- Hcur, Hi; cbn; by rewrite Hnd, Hsz).
  mstep Ec. pose proof (Z.mod_pos_bound position (m_baseSize s) Hb) as Hm.
  rewrite wrapu_small by nia.
  rewrite <- Hcur, Hi, (read_loop_ok _ (m_baseSize s)) by first [apply H|done|lia].
  mrun. f_equal. unfold data, slice. rewrite skipn_firstn_comm, take_take, Nat.min_l by lia. done.
Qed.

Lemma toString_ok s : wf s → toString s = Ok (after (view s)) s.
Proof.
  intros H. unfold toString. mget. rewrite (getReadSize_wf s H).
  pose proof (wf_position s H). case_decide as Hz.
  - mrun. f_equal. symmetry. apply zlen_0_nil. by rewrite (zlen_after s H).
  - rewrite read_at_ok; [|done|lia|lia|lia|symmetry; apply H]. f_equal.
    unfold view; cbn. unfold slice. apply take_ge. rewrite length_drop.
    pose proof (zlen_data s H). unfold zlen in *. lia.
Qed.

(** The buffers of [getReadBuffers] are the next unread bytes. *)
Lemma getReadBuffers_ok s len :
  wf s → 0 <= len →
  let n := Z.min len (m_size s - m_position s) in
  ∃ vs, getReadBuffers len s = Ok (n, vs) s ∧ iov_covers (m_nodes s) (m_position s) n vs.
Proof.
  intros H Hlen n. pose proof (wf_position s H). pose proof (wf_size s H).
  unfold getReadBuffers. mget. rewrite (getReadSize_wf s H).
  replace (if bool_decide (m_size s - m_position s < len) then m_size s - m_position s else len)
    with n by (unfold n; case_bool_decide; lia).
  case_decide as Hz.
  { exists []. rewrite Hz. by repeat split. }
  assert (m_position s < m_capacity s) as Hlt by lia.
  mstep (mod_base_ok s _ H). mstep (cur_size_ok s H Hlt). rewrite (ncap_ok s H).
  destruct (wf_cursor s H Hlt) as (i & nd & Hcur & Hnd & Hi & Hsz & Hp & Hm).
  pose proof (wf_capacity s H). rewrite Hcur.
  edestruct (iov_loop_ok (S (length (m_nodes s))) (m_baseSize s) (m_nodes s) i (m_position s) n
    (m_position s mod m_baseSize s) (m_baseSize s - m_position s mod m_baseSize s) [])
    as (vs & -> & Hvs); [apply H|apply H|done|done|done|done|lia..|].
  by exists vs.
Qed.

Lemma getWriteBuffers_ok junk s len :
  wf s → 0 < len → room s len →
  ∃ s' vs, getWriteBuffers junk len s = Ok (len, vs) s' ∧ wf s' ∧ same_bytes s s'
        ∧ iov_covers (m_nodes s') (m_position s) len vs.
Proof.
  intros H Hlen Hroom. unfold getWriteBuffers. rewrite decide_False by lia.
  destruct (addCapacity_ok junk s len) as (s1 & E1 & H1 & Hs1 & Hc1); [done..|].
  mstep E1. mget. mstep (mod_base_ok s1 _ H1).
  assert (m_position s1 < m_capacity s1) as Hlt by lia.
  mstep (cur_size_ok s1 H1 Hlt). rewrite (ncap_ok s1 H1).
  destruct (wf_cursor s1 H1 Hlt) as (i & nd & Hcur & Hnd & Hi & Hsz & Hp & Hm).
  pose proof (wf_capacity s1 H1). rewrite Hcur.
  edestruct (iov_loop_ok (S (length (m_nodes s1))) (m_baseSize s1) (m_nodes s1) i (m_position s1)
    len (m_position s1 mod m_baseSize s1) (m_baseSize s1 - m_position s1 mod m_baseSize s1) [])
    as (vs & -> & Hvs); [apply H1|apply H1|done|done|done|done|lia..|].
  exists s1, vs. split_and!; try done. destruct Hs1 as (_ & <- & _). done.
Qed.

(** *** Files *)

Lemma writeFile_loop_done fuel base nodes cur pos acc :
  writeFile_loop fuel base nodes cur pos 0 acc = Some acc.
Proof. by destruct fuel. Qed.

(** From a node boundary, the loop of [writeToFile] writes what is left. *)
Lemma writeFile_loop_aligned fuel base nodes i r acc cur :
  0 < base < 2 ^ 31 → nodes_ok base nodes → 0 <= r < 2 ^ 53 →
  (0 < r → cur = Some i) →
  Z.of_nat i * base + r <= base * Z.of_nat (length nodes) → (length nodes - i < fuel)%nat →
  writeFile_loop fuel base nodes cur (Z.of_nat i * base) r acc
  = Some (acc ++ slice (flat nodes) (Z.of_nat i * base) r).
Proof.
  intros Hb Hok. revert i r acc cur.
  induction fuel as [|fuel IH]; intros i r acc cur Hr Hcur Hc ?; [lia|].
  destruct (decide (r = 0)) as [->|].
  { by rewrite writeFile_loop_done, slice_zero, app_nil_r. }
  assert (i < length nodes)%nat as Hi by (apply Nat2Z.inj_lt; nia).
  destruct (lookup_node base nodes i) as (nd & Hnd & Hsz & Hlen); [done..|].
  rewrite Hcur by lia. cbn [writeFile_loop]. rewrite bool_decide_true by lia.
  rewrite Z.mod_mul, (wraps_small 32 0) by lia. cbn [mbind option_bind]. rewrite Hnd. cbn.
  set (len := if bool_decide _ then base else r).
  assert (len = Z.min base r) as Hl by (unfold len; case_bool_decide; lia).
  rewrite Z.sub_0_r, wraps_small, Hl by lia. unfold node_read. rewrite decide_True by lia. cbn.
  rewrite <- (flat_slice base nodes i nd) by (auto; lia). rewrite Z.add_0_r.
  destruct (decide (r <= base)).
  - rewrite Z.min_r, Z.sub_diag, writeFile_loop_done by lia. done.
  - rewrite Z.min_l by lia.
    replace (Z.of_nat i * base + base) with (Z.of_nat (S i) * base) by lia.
    rewrite IH; [|lia| |lia..].
    + rewrite <- app_assoc. replace (Z.of_nat (S i) * base) with (Z.of_nat i * base + base) by lia.
      rewrite slice_slice_app by lia. do 3 f_equal. lia.
    + intros _. apply next_Some. apply (next_exists base _ _ 0 r); lia.
Qed.

Lemma writeToFile_ok s :
  wf s → m_baseSize s < 2 ^ 31 →
  m_position s mod m_baseSize s = 0 ∨ m_baseSize s <= m_size s - m_position s →
  writeToFile true s = Ok (true, after (view s)) s.
Proof.
  intros H Hb31 Hal. pose proof (wf_base s H) as Hb. pose proof (wf_position s H).
  pose proof (wf_size s H). pose proof (wf_bound s H). pose proof (wf_capacity s H) as Hcap.
  assert (after (view s) = slice (flat (m_nodes s)) (m_position s) (m_size s - m_position s)) as Ha.
  { unfold view, data, slice; cbn. rewrite skipn_firstn_comm. f_equal. lia. }
  unfold writeToFile. cbn [negb]. mget. rewrite decide_False by lia.
  rewrite (getReadSize_wf s H), wraps_small by lia. rewrite Ha.
  destruct (decide (m_size s - m_position s = 0)) as [->|].
  { by rewrite writeFile_loop_done. }
  assert (m_position s < m_capacity s) as Hlt by lia.
  destruct (wf_cursor s H Hlt) as (i & nd & Hcur & Hnd & Hi & Hsz & Hp & Hm).
  destruct (decide (m_position s mod m_baseSize s = 0)) as [Hz|Hz].
  - rewrite Hcur. rewrite Hz, Z.add_0_r in Hp. rewrite Hp at 1.
    rewrite writeFile_loop_aligned by first [apply H|done|lia]. by rewrite <- Hp.
  - destruct Hal as [|Hal]; [done|].
    destruct (lookup_node _ _ i (wf_nodes s H) Hi) as (nd' & Hnd' & _ & Hlen). simplify_eq.
    assert (S i < length (m_nodes s))%nat as Hi1
      by (apply (next_exists (m_baseSize s) _ _ (m_position s mod m_baseSize s)
                   (m_size s - m_position s)); lia).
    rewrite Hcur. cbn [writeFile_loop]. rewrite bool_decide_true by lia.
    assert ((if bool_decide (m_baseSize s < m_size s - m_position s) then m_baseSize s else m_size s - m_position s)
      = m_baseSize s) as -> by (case_bool_decide; lia).
    rewrite (wraps_small 32), (wraps_small 64) by lia.
    cbn [mbind option_bind]. rewrite Hnd. cbn [mbind option_bind].
    unfold node_read. rewrite decide_True by lia. cbn [mbind option_bind].
    rewrite next_Some by done. set (d := m_position s mod m_baseSize s) in *.
    replace (m_position s + (m_baseSize s - d)) with (Z.of_nat (S i) * m_baseSize s) by lia.
    rewrite writeFile_loop_aligned by first [apply H|done|lia].
    rewrite <- (flat_slice (m_baseSize s) (m_nodes s) i nd) by first [apply H|done|lia].
    rewrite <- Hp. cbn [app].
    replace (Z.of_nat (S i) * m_baseSize s) with (m_position s + (m_baseSize s - d)) by lia.
    rewrite slice_slice_app by lia. mrun. do 3 f_equal. lia.
Qed.

(** As many bytes left as the offset in the node: nothing is written, and the
    loop goes on to the next node, to the last one and past it. *)
Lemma writeFile_loop_stuck fuel base nodes cur pos acc :
  0 < base < 2 ^ 31 → 0 < pos mod base → nodes_ok base nodes →
  writeFile_loop fuel base nodes cur pos (pos mod base) acc = None.
Proof.
  intros Hb Hp Hok. pose proof (Z.mod_pos_bound pos base) as Hm. revert cur acc.
  induction fuel as [|fuel IH]; intros cur acc; cbn [writeFile_loop]; rewrite bool_decide_true by lia; [done|].
  rewrite (bool_decide_false (base < _)) by lia. rewrite (wraps_small 32), Z.sub_diag, (wraps_small 64) by lia.
  destruct cur as [i|]; [|done]. cbn [mbind option_bind]. destruct (nodes !! i) as [nd|] eqn:Hnd; [|done].
  cbn [mbind option_bind]. destruct (node_read _ _ _) as [bs|]; [|done]. cbn [mbind option_bind].
  rewrite Z.add_0_r, Z.sub_0_r. apply IH.
Qed.

(** Away from a node boundary with less than one node of bytes unread. *)
Lemma writeToFile_undef s :
  wf s → m_baseSize s < 2 ^ 31 →
  m_position s mod m_baseSize s ≠ 0 → 0 < m_size s - m_position s < m_baseSize s →
  writeToFile true s = Undef "writeToFile".
Proof.
  intros H Hb31 Hd Hr. pose proof (wf_base s H) as Hb. pose proof (wf_position s H).
  pose proof (wf_size s H). pose proof (wf_bound s H). unfold writeToFile. cbn [negb]. mget. rewrite decide_False by lia.
  rewrite (getReadSize_wf s H), (wraps_small 64) by lia.
  destruct (wf_cursor s H) as (i & nd & Hcur & Hnd & Hi & Hsz & Hp & Hm); [lia|].
  apply bind_undef. rewrite Hcur. set (base := m_baseSize s) in *. set (d := m_position s mod base) in *.
  set (n := m_size s - m_position s) in *. assert (∀ o : option (list byte), o = None → of_option "writeToFile" o s = Undef "writeToFile") as Hnone
    by (intros o ->; done). apply Hnone. cbn [writeFile_loop]. rewrite (bool_decide_true (0 < n)) by lia. fold d.
  rewrite (bool_decide_false (base < n)) by lia. rewrite (wraps_small 32), (wraps_small 64) by lia.
  cbn [mbind option_bind]. rewrite Hnd. cbn [mbind option_bind].
  destruct (node_read nd d (n - d)) as [bs|] eqn:Er; [|done]. cbn [mbind option_bind].
  unfold node_read in Er. destruct (decide _) as [Hle|]; [|done].
  replace (n - (n - d)) with d by lia. destruct (decide (n = d)) as [Hnd'|Hne].
  - rewrite Hnd', Z.sub_diag, Z.add_0_r. unfold d. apply writeFile_loop_stuck; [lia|fold d; lia|apply H].
  - destruct (length (m_nodes s)) as [|k]; [lia|]. cbn [writeFile_loop]. rewrite (bool_decide_true (0 < d)) by lia.
    rewrite (bool_decide_false (base < d)) by lia.
    replace ((m_position s + (n - d)) mod base) with n.
    2: { rewrite Hp. replace (Z.of_nat i * base + d + (n - d)) with (n + Z.of_nat i * base) by lia.
         rewrite Z.mod_add, Z.mod_small by lia. done. }
    rewrite (wraps_small 32), (wraps_small 64) by lia. destruct (next (m_nodes s) i) as [j|]; [|done].
    cbn [mbind option_bind]. destruct (m_nodes s !! j); [|done]. cbn [mbind option_bind].
    unfold node_read. by rewrite decide_False by lia.
Qed.

Lemma readFile_loop_ok junk fuel s rest :
  wf s → room s (zlen rest) → (length rest < fuel)%nat →
  ∃ s', readFile_loop junk fuel rest s = Ok tt s' ∧ wf s' ∧ m_endian s' = m_endian s
        ∧ view s' = put_bytes rest (view s).
Proof.
  revert s rest. induction fuel as [|fuel IH]; intros s rest H Hroom Hfuel; [lia|].
  cbn [readFile_loop]. mget. pose proof (wf_base s H) as Hb.
  set (n := Z.to_nat (m_baseSize s)).
  assert (zlen (take n rest) <= zlen rest) as Hle by (unfold zlen; rewrite length_take; lia).
  destruct (write_ok junk s (take n rest)) as (s1 & E1 & H1 & He1 & Hb1 & Hp1 & Hd1);
    [done|unfold room in *; lia|].
  mstep E1. pose proof (view_write s s1 _ H H1 Hp1 Hd1) as Hv1.
  case_bool_decide as Heof.
  - exists s1. split_and!; try done. rewrite take_ge in Hv1; [done|]. unfold zlen in Heof. lia.
  - unfold zlen in Heof. destruct (IH s1 (drop n rest)) as (s2 & E2 & H2 & He2 & Hv2).
    + done.
    + unfold room, zlen in *. rewrite Hp1, Hb1. unfold zlen.
      rewrite length_drop, length_take. lia.
    + rewrite length_drop. lia.
    + exists s2. split_and!; [done..|congruence|].
      by rewrite Hv2, Hv1, put_bytes_app, take_drop.
Qed.

(** ** Theorems *)

(** The public operations, as the transitions of a buffer object. *)
Inductive op :=
| OpWrite (bs : list byte) | OpRead (n : Z) | OpReadAt (n position : Z) | OpSetPosition (v : Z) | OpClear
| OpSetEndian (little : bool) | OpToString | OpToHexString | OpReadBuffers (len : Z)
| OpReadBuffersAt (len position : Z) | OpWriteBuffers (len : Z) | OpReadFile (content : list byte) | OpWriteFile.

(** What the caller gets: bytes, text, or buffers as the offset and length of
    each in its node and the bytes it points at. *)
Inductive reply :=
| RUnit
| RBytes (bs : list byte)
| RText (l : list Ascii.ascii)
| RBuffers (n : Z) (vs : list (Z * Z * list byte)).

Definition show_iovec (nodes : list Node) (v : iovec) : Z * Z * list byte := (iov_off v, iov_len v, iov_data nodes v).
Definition show_buffers (r : Z * list iovec) : M ByteArray reply :=
  s ← get; mret (RBuffers r.1 (show_iovec (m_nodes s) <$> r.2)).

Definition exec (junk : nat → nat → byte) (o : op) : M ByteArray reply :=
  match o with
  | OpWrite bs => write junk bs;; mret RUnit
  | OpRead n => bs ← read n; mret (RBytes bs)
  | OpReadAt n position => bs ← read_at n position; mret (RBytes bs)
  | OpSetPosition v => setPosition v;; mret RUnit
  | OpClear => modify clear;; mret RUnit
  | OpSetEndian b => modify (setIsLittleEndian b);; mret RUnit
  | OpToString => bs ← toString; mret (RBytes bs)
  | OpToHexString => l ← toHexString; mret (RText l)
  | OpReadBuffers len => r ← getReadBuffers len; show_buffers r
  | OpReadBuffersAt len position => r ← getReadBuffersAt len position; show_buffers r
  | OpWriteBuffers len => r ← getWriteBuffers junk len; show_buffers r
  | OpReadFile content => readFromFile junk (Some content);; mret RUnit
  | OpWriteFile => r ← writeToFile true; mret (RBytes r.2)
  end.

(** Arguments a call may have: sizes and positions are not negative, positions
    are below 2^64, writes leave the sizes below 2^53, and the offset in a
    node that [writeToFile] puts into an [int] fits. *)
Definition args_ok (s : ByteArray) (o : op) : Prop :=
  match o with
  | OpWrite bs | OpReadFile bs => room s (zlen bs)
  | OpRead n | OpSetPosition n | OpReadBuffers n => 0 <= n
  | OpReadAt n position | OpReadBuffersAt n position => 0 <= n ∧ 0 <= position < 2 ^ 64
  | OpWriteBuffers n => 0 <= n ∧ room s n
  | OpWriteFile => m_baseSize s < 2 ^ 31
  | _ => True
  end.

(** The calls with undefined behaviour: reading no byte with the cursor at the
    end of the last node, where [m_cur] is null; a positional [read] that,
    started in the node of the cursor, leaves the chain; a positional
    [getReadBuffers] that, started at the offset of the cursor, leaves the
    chain; and [writeToFile] with less than a node of bytes unread away from a
    node boundary. *)
Definition unsafe (s : ByteArray) (o : op) : Prop :=
  let base := m_baseSize s in
  let unread := m_size s - m_position s in
  match o with
  | OpRead n => n = 0 ∧ m_position s = m_capacity s
  | OpReadAt n position =>
      n <= u64 (m_size s - position) ∧
      (m_position s = m_capacity s ∨
       0 < n ∧ m_capacity s < m_position s / base * base + position mod base + n)
  | OpReadBuffersAt len position =>
      let n := Z.min len unread in
      0 < n ∧ m_capacity s < position / base * base + m_position s mod base + n
  | OpWriteFile => m_position s mod base ≠ 0 ∧ 0 < unread < base
  | _ => False
  end.

Lemma null_read_undef s : wf s → m_position s = m_capacity s → read 0 s = Undef "m_cur is null".
Proof.
  intros H He. unfold read. mget. rewrite (getReadSize_wf s H). pose proof (wf_position s H).
  rewrite bool_decide_false by lia. mstep (mod_base_ok s _ H).
  apply bind_undef. unfold cur_size. by rewrite (wf_cur_end s H He).
Qed.

Lemma exec_OpRead_safe s n :
  wf s → 0 <= n → ¬ (n = 0 ∧ m_position s = m_capacity s) →
  (∃ bs s', read n s = Ok bs s' ∧ wf s') ∨ read n s = Throw (out_of_range "not enough len") s.
Proof.
  intros H Hn Hnull. pose proof (wf_size s H). pose proof (wf_position s H).
  destruct (decide (n <= m_size s - m_position s)).
  - left. destruct (read_ok s n H) as (s' & E & H' & _); [lia..|]. eauto.
  - right. apply read_short; [done|lia].
Qed.

Lemma setPosition_throw s v :
  m_capacity s < v → setPosition v s = Throw (out_of_range "set_position out of range") s.
Proof. intros. unfold setPosition. mget. by rewrite bool_decide_true by lia. Qed.

(** The positional [read]: the bytes from the offset of [position] in the node
    of the cursor. *)
Lemma read_at_run s n position :
  wf s → 0 <= n → 0 <= position < 2 ^ 64 →
  let start := m_position s / m_baseSize s * m_baseSize s + position mod m_baseSize s in
  read_at n position s =
    if decide (n <= u64 (m_size s - position)) then
      if decide (m_position s = m_capacity s) then Undef "m_cur is null"
      else if decide (0 < n ∧ m_capacity s < start + n) then Undef "read"
      else Ok (slice (flat (m_nodes s)) start n) s
    else Throw (out_of_range "not enough len") s.
Proof.
  intros H Hn Hp start. pose proof (wf_size s H). pose proof (wf_position s H). pose proof (wf_bound s H).
  pose proof (wf_base s H) as Hb. pose proof (wf_capacity s H) as Hcap.
  unfold read_at. mget. destruct (decide (n <= _)) as [Hle|Hle]; [|by rewrite bool_decide_true by lia].
  rewrite bool_decide_false by lia. mstep (mod_base_ok s position H).
  destruct (decide (m_position s = m_capacity s)) as [He|He].
  { apply bind_undef. unfold cur_size. by rewrite (wf_cur_end s H He). }
  destruct (wf_cursor s H) as (i & nd & Hcur & Hnd & Hi & Hsz & Hpos & Hm); [lia|].
  mstep (cur_size_ok s H ltac:(lia)). pose proof (Z.mod_pos_bound position (m_baseSize s) Hb) as Hm'.
  assert (m_baseSize s <= m_capacity s) as Hle' by nia. rewrite (wrapu_small 64) by lia. assert (start = Z.of_nat i * m_baseSize s + position mod m_baseSize s) as Es.
  { unfold start. f_equal. f_equal. symmetry. eapply Z.div_unique_pos; [exact Hm|]. lia. }
  rewrite Hcur. destruct (decide (0 < n ∧ _)) as [Hs|Hs].
  - rewrite (read_loop_short _ (m_baseSize s)) by first [apply H|lia]. done.
  - assert (start + n <= m_capacity s) as Hfit by (destruct (decide (0 < n)); [lia|nia]).
    pose proof (read_loop_position position start (S (length (m_nodes s))) (m_nodes s) (Some i) n
      (position mod m_baseSize s) (m_baseSize s - position mod m_baseSize s) []) as E.
    rewrite (read_loop_ok _ (m_baseSize s) (m_nodes s) i start) in E by first [apply H|lia].
    destruct (read_loop _ _ _ position _ _ _ _) as [[[bs c] p]|]; [|done]. cbn in E. injection E as -> _. done.
Qed.

(** The positional [getReadBuffers]: buffers from the offset of the cursor in
    the node of [position]. *)
Lemma getReadBuffersAt_run s len position :
  wf s → 0 <= len → 0 <= position →
  let n := Z.min len (m_size s - m_position s) in
  let start := position / m_baseSize s * m_baseSize s + m_position s mod m_baseSize s in
  if decide (0 < n ∧ m_capacity s < start + n) then getReadBuffersAt len position s = Undef "getReadBuffers"
  else ∃ vs, getReadBuffersAt len position s = Ok (n, vs) s ∧ (0 < n → iov_covers (m_nodes s) start n vs).
Proof.
  intros H Hlen Hpos n start. pose proof (wf_size s H). pose proof (wf_position s H). pose proof (wf_bound s H).
  pose proof (wf_base s H) as Hb. pose proof (wf_capacity s H) as Hcap.
  pose proof (Z.mod_pos_bound (m_position s) (m_baseSize s) Hb) as Hm.
  unfold getReadBuffersAt. mget. rewrite (getReadSize_wf s H).
  replace (if bool_decide (m_size s - m_position s < len) then m_size s - m_position s else len)
    with n by (unfold n; case_bool_decide; lia). cbv zeta.
  destruct (decide (n = 0)) as [Hz|Hz].
  { rewrite decide_False by lia. exists []. rewrite Hz. split; [done|lia]. }
  mstep (mod_base_ok s (m_position s) H). pose proof (Z.div_pos position (m_baseSize s) Hpos Hb) as Hq.
  set (i := Z.to_nat (position / m_baseSize s)). assert (start = Z.of_nat i * m_baseSize s + m_position s mod m_baseSize s) as Es
    by (unfold start, i; rewrite Z2Nat.id by done; done).
  destruct (decide (i < length (m_nodes s))%nat) as [Hi|Hi].
  2: { rewrite decide_True by nia. done. }
  destruct (lookup_node _ _ i (wf_nodes s H) Hi) as (nd & Hnd & Hsz & _). cbn [deref mbind option_bind]. rewrite Hnd.
  assert (m_baseSize s <= m_capacity s) as Hle' by nia. cbn [of_option].
  rewrite bind_mret, Hsz, (wrapu_small 64) by lia. destruct (decide (0 < n ∧ _)) as [Hs|Hs].
  - rewrite (iov_loop_short _ (m_baseSize s)) by first [apply H|lia]. done.
  - edestruct (iov_loop_ok (S (length (m_nodes s))) (m_baseSize s) (m_nodes s) i start n
      (m_position s mod m_baseSize s) (m_baseSize s - m_position s mod m_baseSize s) [])
      as (vs & -> & Hvs); [apply H|apply H|done|done|done|done|lia..|]. by exists vs.
Qed.

(** Every operation keeps the buffer well formed, or throws without a change,
    but for the calls named. *)
Lemma exec_wf junk s o :
  wf s → args_ok s o → ¬ unsafe s o →
  (∃ r s', exec junk o s = Ok r s' ∧ wf s')
  ∨ (∃ e, exec junk o s = Throw (out_of_range e) s).
Proof.
  intros H Ha Hsafe. destruct o; cbn [exec args_ok unsafe] in *.
  - left. destruct (write_ok junk s bs H Ha) as (s' & E & H' & _). mstep E. eauto.
  - destruct (exec_OpRead_safe s n H Ha Hsafe) as [(bs & s' & E & H')|E]; [left; mstep E; eauto|].
    right. eexists. by apply bind_throw.
  - destruct Ha as [Hn Hp]. pose proof (read_at_run s n position H Hn Hp) as E. cbv zeta in E.
    repeat case_decide; try tauto; [left; mstep E; eauto|right; eexists; by apply bind_throw].
  - destruct (decide (v <= m_capacity s)).
    + left. destruct (setPosition_ok s v H) as (s' & E & H' & _); [lia|]. mstep E. eauto.
    + right. eexists. apply bind_throw, setPosition_throw. lia.
  - left. do 2 eexists. split; [done|]. by apply clear_wf.
  - left. do 2 eexists. split; [done|]. split; apply H.
  - left. mstep (toString_ok s H). eauto.
  - left. unfold toHexString. rewrite bind_assoc. mstep (toString_ok s H). eauto.
  - left. destruct (getReadBuffers_ok s len H Ha) as (vs & E & _). mstep E. eexists _, _. by split.
  - left. destruct Ha as [Hn [Hp _]]. pose proof (getReadBuffersAt_run s len position H Hn Hp) as E. cbv zeta in E.
    rewrite decide_False in E by done. destruct E as (vs & E & _). mstep E. eexists _, _. by split.
  - left. destruct Ha as [Hn Hroom]. destruct (decide (len = 0)) as [->|]; [eexists _, _; by split|].
    destruct (getWriteBuffers_ok junk s len H) as (s' & vs & E & H' & _); [lia|done|].
    mstep E. eexists _, _. by split.
  - left. destruct (readFile_loop_ok junk (S (length content)) s content H Ha) as (s' & E & H' & _);
      [lia|]. exists RUnit, s'. split; [|done]. unfold readFromFile. mrun. by rewrite E.
  - left. pose proof (wf_position s H). destruct (decide (m_size s - m_position s = 0)) as [Hz|Hz].
    + exists (RBytes []), s. split; [|done]. unfold writeToFile. cbn [negb]. mrun. pose proof (wf_base s H).
      rewrite decide_False by lia. rewrite (getReadSize_wf s H), Hz, (wraps_small 64) by lia. by rewrite writeFile_loop_done.
    + assert (writeToFile true s = Ok (true, after (view s)) s) as E.
      { apply writeToFile_ok; [done|done|]. destruct (decide (m_position s mod m_baseSize s = 0)); [by left|right]. lia. }
      mstep E. eauto.
Qed.

Lemma exec_unsafe junk s o : wf s → args_ok s o → unsafe s o → ∃ w, exec junk o s = Undef w.
Proof.
  intros H Ha Hu. destruct o; cbn [exec args_ok unsafe] in *; try done.
  - destruct Hu as [-> He]. eexists. apply bind_undef. by apply null_read_undef.
  - destruct Ha as [Hn Hp], Hu as [Hle Hu]. pose proof (read_at_run s n position H Hn Hp) as E. cbv zeta in E.
    rewrite decide_True in E by done. destruct (decide (m_position s = m_capacity s)); [eexists; by apply bind_undef|].
    rewrite decide_True in E by tauto. eexists. by apply bind_undef.
  - destruct Ha as [Hn [Hp _]]. pose proof (getReadBuffersAt_run s len position H Hn Hp) as E. cbv zeta in E.
    rewrite decide_True in E by done. eexists. by apply bind_undef.
  - destruct Hu as [Hd Hr]. eexists. apply bind_undef. by apply writeToFile_undef.
Qed.

(** C3: exact safety of every public operation of a well-formed buffer (write, read,
    positional read, setPosition, clear, setIsLittleEndian, toString, toHexString,
    getReadBuffers with and without a position, getWriteBuffers, readFromFile and
    writeToFile on a file that opens), for arguments that are not negative, sizes below 2^53
    and, for writeToFile, nodes below 2^31 bytes: it has undefined behaviour exactly in the
    listed cases (a read of zero bytes with the cursor at the end of the last node; a
    positional read or positional getReadBuffers that, mixing the given position with that
    of the cursor, leaves the chain of nodes; writeToFile away from a node boundary with
    less than a node unread), and in every other case it returns with a well-formed buffer
    or throws out_of_range with the buffer unchanged. *)
Theorem exec_preserves_wf junk s o :
  wf s → args_ok s o →
  (unsafe s o → ∃ w, exec junk o s = Undef w) ∧
  (¬ unsafe s o →
   (∃ r s', exec junk o s = Ok r s' ∧ wf s') ∨ (∃ e, exec junk o s = Throw (out_of_range e) s)).
Proof. intros H Ha. split; [by apply exec_unsafe|by apply exec_wf]. Qed.

(** Concrete data for the witnesses: nodes of four bytes, memory full of 0xee. *)
Definition junk0 : nat → nat → byte := λ _ _, byte.of_Z 0xee.
Definition bytes (l : list Z) : list byte := byte.of_Z <$> l.
Definition ba0 : ByteArray := new_ByteArray junk0 4.

Definition run {A} (m : M ByteArray A) (s : ByteArray) : ByteArray :=
  match m s with Ok _ s' | Throw _ s' => s' | _ => s end.

(** Six bytes written (the second node is entered), cursor back at offset 1. *)
Definition ba1 : ByteArray := run (write junk0 (bytes [1; 2; 3; 4; 5; 6]);; setPosition 1) ba0.
(** Four bytes written: the cursor is at the end of the only node. *)
Definition ba2 : ByteArray := run (write junk0 (bytes [1; 2; 3; 4])) ba0.

Ltac wf_compute :=
  split; first [by vm_compute | by (vm_compute; split; congruence) | vm_compute; lia
               | repeat constructor].

Lemma ba0_wf : wf ba0.
Proof. apply new_ByteArray_wf. lia. Qed.

Lemma ba1_wf : wf ba1.
Proof.
  wf_compute.
Qed.

Lemma ba2_wf : wf ba2.
Proof.
  wf_compute.
Qed.

Lemma exec_preserves_wf_witness :
  wf ba1 ∧ (∃ w, exec junk0 (OpReadAt 6 7) ba1 = Undef w) ∧
  ((∃ r s', exec junk0 (OpWriteBuffers 9) ba1 = Ok r s' ∧ wf s')
   ∨ (∃ e, exec junk0 (OpWriteBuffers 9) ba1 = Throw (out_of_range e) ba1)).
Proof.
  assert (args_ok ba1 (OpWriteBuffers 9)) as Ha by (vm_compute; split; congruence).
  split; [apply ba1_wf|]. split.
  - apply (exec_preserves_wf junk0 ba1 (OpReadAt 6 7) ba1_wf); [vm_compute; split; [congruence|split; congruence]|].
    vm_compute. split; [congruence|]. right. split; reflexivity.
  - apply (exec_preserves_wf junk0 ba1 (OpWriteBuffers 9) ba1_wf Ha). intros [].
Defined.

(** C1: write of any bytes into a well-formed chunked buffer returns, keeps it well formed
    and acts on the flat view (bytes before and after the cursor) as overwriting: the bytes
    follow the old cursor, the cursor moves past them, and the size grows only when the
    cursor passes it; whatever the node size, the split over nodes and the contents of fresh
    memory. *)
Theorem write_refines junk s bs :
  wf s → room s (zlen bs) →
  ∃ s', write junk bs s = Ok tt s' ∧ wf s' ∧ m_endian s' = m_endian s
        ∧ view s' = put_bytes bs (view s)
        ∧ getPosition s' = getPosition s + zlen bs
        ∧ getSize s' = Z.max (getSize s) (getPosition s + zlen bs).
Proof.
  intros H Hroom. destruct (write_ok junk s bs H Hroom) as (s' & E & H' & He & _ & Hp & Hd).
  exists s'. split_and!; [done..|by apply (view_write s s')|done|].
  unfold getSize, getPosition. rewrite <- (zlen_data s' H'), Hd.
  pose proof (wf_position s H). pose proof (zlen_data s H) as Hz.
  unfold splice, zlen in *. rewrite !length_app, length_take, length_drop. lia.
Qed.

Lemma write_refines_witness :
  wf ba1 ∧ room ba1 (zlen (bytes [7; 8; 9; 10; 11; 12; 13; 14; 15]))
  ∧ ∃ s', write junk0 (bytes [7; 8; 9; 10; 11; 12; 13; 14; 15]) ba1 = Ok tt s'
          ∧ view s' = put_bytes (bytes [7; 8; 9; 10; 11; 12; 13; 14; 15]) (view ba1).
Proof.
  assert (room ba1 (zlen (bytes [7; 8; 9; 10; 11; 12; 13; 14; 15]))) as Hr by (by vm_compute).
  split_and!; [apply ba1_wf|exact Hr|].
  destruct (write_refines junk0 ba1 _ ba1_wf Hr) as (s' & E & _ & _ & Hv & _).
  exists s'. split; [exact E|exact Hv].
Defined.

(** C2: read of n > 0 bytes returns exactly the next n bytes after the cursor, across node
    boundaries, moving only the cursor, when there are that many; otherwise it throws
    out_of_range and changes nothing. *)
Theorem read_refines s n :
  wf s → 0 < n →
  (n <= zlen (after (view s)) →
   ∃ s', read n s = Ok (take (Z.to_nat n) (after (view s))) s' ∧ wf s'
         ∧ view s' = advance n (view s) ∧ data s' = data s)
  ∧ (zlen (after (view s)) < n → read n s = Throw (out_of_range "not enough len") s).
Proof.
  intros H Hn. rewrite (zlen_after s H). split; intros Hle; [|by apply read_short].
  pose proof (wf_size s H). pose proof (wf_position s H).
  destruct (read_ok s n H) as (s' & E & H' & Hs'); [lia..|].
  exists s'. split_and!; [done..|apply (view_read s s'); [done|lia|done]|by rewrite Hs'].
Qed.

Lemma read_refines_witness :
  wf ba1 ∧ 0 < 5 ∧ ∃ s', read 5 ba1 = Ok (bytes [2; 3; 4; 5; 6]) s' ∧ wf s'.
Proof.
  split_and!; [apply ba1_wf|lia|].
  destruct (read_refines ba1 5 ba1_wf) as [Hok _]; [lia|].
  destruct Hok as (s' & E & H' & _); [by vm_compute|].
  exists s'. split; [|exact H']. rewrite E. vm_compute. reflexivity.
Defined.

(** [read] of zero bytes with the cursor at the end of the last node dereferences the
    null m_cur. *)
Theorem read_zero_at_end_undefined s :
  wf s → m_position s = m_capacity s → read 0 s = Undef "m_cur is null".
Proof. apply null_read_undef. Qed.

Lemma read_zero_at_end_undefined_witness :
  wf ba2 ∧ m_position ba2 = m_capacity ba2 ∧ read 0 ba2 = Undef "m_cur is null".
Proof.
  split_and!; [apply ba2_wf|reflexivity|].
  apply (read_zero_at_end_undefined ba2 ba2_wf). reflexivity.
Defined.

(** SetPosition moves the cursor to any position up to the capacity, finding its node by
    walking the chain, raises the size to it when it lies beyond, keeps the old valid bytes
    as a prefix, and throws without change beyond the capacity. *)
Theorem setPosition_spec s v :
  wf s → 0 <= v →
  (v <= m_capacity s →
   ∃ s', setPosition v s = Ok tt s' ∧ wf s' ∧ getPosition s' = v
         ∧ getSize s' = Z.max (getSize s) v ∧ take (Z.to_nat (getSize s)) (data s') = data s)
  ∧ (m_capacity s < v → setPosition v s = Throw (out_of_range "set_position out of range") s).
Proof.
  intros H Hv. split; intros Hle; [|by apply setPosition_throw].
  destruct (setPosition_ok s v H) as (s' & E & H' & Hp & Hs & Hn & _); [lia|].
  exists s'. split_and!; [done..|]. unfold data, getSize. rewrite Hn, Hs, take_take. f_equal. lia.
Qed.

Lemma setPosition_spec_witness :
  wf ba1 ∧ 0 <= 8 ∧ ∃ s', setPosition 8 ba1 = Ok tt s' ∧ wf s' ∧ getSize s' = 8.
Proof.
  split_and!; [apply ba1_wf|lia|].
  destruct (setPosition_spec ba1 8 ba1_wf) as [Hok _]; [lia|].
  destruct Hok as (s' & E & H' & _ & Hs & _); [by vm_compute|].
  exists s'. split_and!; [exact E|exact H'|]. rewrite Hs. vm_compute. reflexivity.
Defined.

(** WriteToFile from a node boundary, or with a node of bytes or more unread, writes
    exactly the unread bytes, and readFromFile of that file into any well-formed buffer
    writes them all at its cursor. *)
Theorem file_roundtrip junk s t :
  wf s → m_baseSize s < 2 ^ 31 →
  m_position s mod m_baseSize s = 0 ∨ m_baseSize s <= getReadSize s →
  wf t → room t (zlen (after (view s))) →
  ∃ content t', writeToFile true s = Ok (true, content) s ∧ content = after (view s)
    ∧ readFromFile junk (Some content) t = Ok true t' ∧ wf t'
    ∧ view t' = put_bytes (after (view s)) (view t).
Proof.
  intros H Hb Hal Ht Hroom. rewrite (getReadSize_wf s H) in Hal.
  destruct (readFile_loop_ok junk (S (length (after (view s)))) t (after (view s)))
    as (t' & E & Ht' & _ & Hv); [done..|lia|].
  exists (after (view s)), t'. split_and!; [by apply writeToFile_ok|done| |done|done].
  unfold readFromFile. mrun. by rewrite E.
Qed.

(** A buffer of eleven bytes with the cursor at 1: three nodes, more than one
    node of bytes unread. *)
Definition ba3 : ByteArray :=
  run (write junk0 (bytes [1; 2; 3; 4; 5; 6; 7; 8; 9; 10; 11]);; setPosition 1) ba0.

Lemma ba3_wf : wf ba3.
Proof.
  wf_compute.
Qed.

Lemma file_roundtrip_witness :
  wf ba3 ∧ m_baseSize ba3 < 2 ^ 31 ∧ m_baseSize ba3 <= getReadSize ba3 ∧ wf ba0
  ∧ room ba0 (zlen (after (view ba3)))
  ∧ ∃ content t', writeToFile true ba3 = Ok (true, content) ba3
      ∧ readFromFile junk0 (Some content) ba0 = Ok true t'
      ∧ data t' = bytes [2; 3; 4; 5; 6; 7; 8; 9; 10; 11].
Proof.
  assert (m_baseSize ba3 < 2 ^ 31) as Hb by (by vm_compute).
  assert (m_baseSize ba3 <= getReadSize ba3) as Hr by (by vm_compute).
  assert (room ba0 (zlen (after (view ba3)))) as Hroom by (by vm_compute).
  split_and!; [apply ba3_wf|exact Hb|exact Hr|apply ba0_wf|exact Hroom|].
  destruct (file_roundtrip junk0 ba3 ba0 ba3_wf Hb (or_intror Hr) ba0_wf Hroom)
    as (content & t' & E1 & Hc & E2 & _ & Hv).
  exists content, t'. split_and!; [exact E1|exact E2|].
  rewrite <- contents_view, Hv. vm_compute. reflexivity.
Defined.

(** Finding: away from a node boundary, with less than one node of bytes unread,
    [writeToFile] subtracts the offset from the number of bytes to write and
    walks past the last node. *)
Example writeToFile_unaligned :
  (write junk0 (bytes [1; 2; 3]);; setPosition 1;; writeToFile true) ba0 = Undef "writeToFile".
Proof. vm_compute. reflexivity. Qed.

(** Finding: the const [read] starts in the node of the cursor, not in the
    node of its [position] argument. *)
Example read_at_other_node :
  (write junk0 (bytes [1; 2; 3; 4; 5; 6]);; read_at 1 0) ba0
  = Ok (bytes [5]) (run (write junk0 (bytes [1; 2; 3; 4; 5; 6])) ba0).
Proof. vm_compute. reflexivity. Qed.

(** Finding: [getReadBuffers] with a position takes the offset inside the node
    from the cursor instead of the position. *)
Example getReadBuffersAt_offset :
  ∃ s, (write junk0 (bytes [1; 2; 3; 4; 5; 6]);; setPosition 1;; getReadBuffersAt 2 4) ba0
       = Ok (2, [mkIovec 1 1 2]) s.
Proof. eexists. vm_compute. reflexivity. Qed.

(** The iovecs getReadBuffers returns lie inside their nodes and concatenate to the next
    min(len, unread) bytes, which is also the size it reports. *)
Theorem getReadBuffers_covers s len :
  wf s → 0 <= len →
  ∃ n vs, getReadBuffers len s = Ok (n, vs) s ∧ n = Z.min len (zlen (after (view s)))
    ∧ concat (iov_data (m_nodes s) <$> vs) = take (Z.to_nat n) (after (view s))
    ∧ Forall (λ v, ∃ nd, m_nodes s !! iov_node v = Some nd ∧ 0 <= iov_off v
                         ∧ 0 < iov_len v ∧ iov_off v + iov_len v <= zlen (n_ptr nd)) vs.
Proof.
  intros H Hlen. pose proof (wf_position s H).
  destruct (getReadBuffers_ok s len H Hlen) as (vs & E & Hc & Hf).
  eexists _, vs. rewrite (zlen_after s H). split_and!; [exact E|done| |done].
  rewrite Hc. unfold view, data, slice; cbn. rewrite skipn_firstn_comm, take_take. f_equal. lia.
Qed.

Lemma getReadBuffers_covers_witness :
  wf ba3 ∧ 0 <= 8
  ∧ ∃ n vs, getReadBuffers 8 ba3 = Ok (n, vs) ba3
      ∧ concat (iov_data (m_nodes ba3) <$> vs) = bytes [2; 3; 4; 5; 6; 7; 8; 9].
Proof.
  split_and!; [apply ba3_wf|lia|].
  destruct (getReadBuffers_covers ba3 8 ba3_wf) as (n & vs & E & Hn & Hc & _); [lia|].
  exists n, vs. split; [exact E|]. rewrite Hc, Hn. vm_compute. reflexivity.
Defined.
