(* ===== verification/ByteArrayHeap.v ===== *)
(** * ByteArray in memory (xupeng/bytearray.h, xupeng/bytearray.cc)

    ByteArray.v has the chain of nodes as a list and node pointers as indices.
    This file has the nodes on a heap, linked by their [next] pointers, with
    [new] and [delete]: the constructor, the operations that follow or change
    the links, and the destructor.  They refine those of ByteArray.v, touch no
    other memory, and the destructor gives back exactly what was allocated.

    The allocator is a parameter that returns an address not in use. *)

From S2P Require Import Prelude Endian ByteStream ByteArray.

(** ** Heap and object *)

(** Addresses are positive numbers. *)
Abbreviation loc := positive.

(** [ByteArray::Node]. *)
Record HNode := mkHNode { h_ptr : list byte; h_next : option loc; h_size : Z }.
Abbreviation heap := (gmap loc HNode).

(** The heap and the members of one [ByteArray]. *)
Record HeapArray := mkHeapArray {
  mem : heap;
  hb_baseSize : Z;
  hb_position : Z;
  hb_capacity : Z;
  hb_size : Z;
  hb_endian : endian;
  hb_root : option loc;
  hb_cur : option loc
}.

Definition hb_set (h : heap) (position size : Z) (cur : option loc) (x : HeapArray) : HeapArray :=
  mkHeapArray h (hb_baseSize x) position (hb_capacity x) size (hb_endian x) (hb_root x) cur.

(** ** Loops over the links *)

(** [memcpy] into and out of a node. *)
Definition to_node (n : HNode) : Node := mkNode (h_ptr n) (h_size n).
Definition hnode_memcpy (n : HNode) (off : Z) (bs : list byte) : option HNode :=
  nd ← node_memcpy (to_node n) off bs; Some (mkHNode (n_ptr nd) (h_next n) (h_size n)).
Definition hnode_read (n : HNode) (off len : Z) : option (list byte) := node_read (to_node n) off len.

Fixpoint h_write_loop (fuel : nat) (buf : list byte) (h : heap) (cur : option loc)
    (position size bpos npos ncap : Z) : option (heap * option loc * Z) :=
  if bool_decide (0 < size) then
    match fuel with
    | O => None
    | S fuel' =>
        l ← cur;
        n ← h !! l;
        if bool_decide (size <= ncap) then
          n' ← hnode_memcpy n npos (slice buf bpos size);
          let h' := <[l := n']> h in
          let cur' := if bool_decide (h_size n = npos + size) then h_next n else cur in
          h_write_loop fuel' buf h' cur' (position + size) 0 (bpos + size) npos ncap
        else
          n' ← hnode_memcpy n npos (slice buf bpos ncap);
          let h' := <[l := n']> h in
          let cur' := h_next n in
          n2 ← cur' ≫= λ l2, h' !! l2;
          h_write_loop fuel' buf h' cur' (position + ncap) (size - ncap) (bpos + ncap) 0 (h_size n2)
    end
  else Some (h, cur, position).

Fixpoint h_read_loop (fuel : nat) (h : heap) (cur : option loc)
    (position size npos ncap : Z) (acc : list byte) : option (list byte * option loc * Z) :=
  if bool_decide (0 < size) then
    match fuel with
    | O => None
    | S fuel' =>
        l ← cur;
        n ← h !! l;
        if bool_decide (size <= ncap) then
          bs ← hnode_read n npos size;
          let cur' := if bool_decide (h_size n = npos + size) then h_next n else cur in
          h_read_loop fuel' h cur' (position + size) 0 npos ncap (acc ++ bs)
        else
          bs ← hnode_read n npos ncap;
          let cur' := h_next n in
          n2 ← cur' ≫= λ l2, h !! l2;
          h_read_loop fuel' h cur' (position + ncap) (size - ncap) 0 (h_size n2) (acc ++ bs)
    end
  else Some (acc, cur, position).

(** An [iovec] points into the memory of a node. *)
Record hiovec := mkHIovec { hv_node : loc; hv_off : Z; hv_len : Z }.

Fixpoint h_iov_loop (fuel : nat) (h : heap) (cur : option loc) (len npos ncap : Z) (buffers : list hiovec) :
    option (list hiovec) :=
  if bool_decide (0 < len) then
    match fuel with
    | O => None
    | S fuel' =>
        l ← cur;
        n ← h !! l;
        if bool_decide (len <= ncap) then
          h_iov_loop fuel' h cur 0 npos ncap (buffers ++ [mkHIovec l npos len])
        else
          let cur' := h_next n in
          n2 ← cur' ≫= λ l2, h !! l2;
          h_iov_loop fuel' h cur' (len - ncap) 0 (h_size n2) (buffers ++ [mkHIovec l npos ncap])
    end
  else Some buffers.

Fixpoint h_seek_loop (fuel : nat) (h : heap) (cur : option loc) (v : Z) : option (option loc) :=
  match fuel with
  | O => None
  | S fuel' =>
      l ← cur;
      n ← h !! l;
      if bool_decide (h_size n < v) then h_seek_loop fuel' h (h_next n) (v - h_size n)
      else if bool_decide (v = h_size n) then Some (h_next n) else Some cur
  end.

(** [while (tmp->next) tmp = tmp->next]; [k] counts the nodes passed. *)
Fixpoint h_last (fuel : nat) (h : heap) (tmp : loc) (k : nat) : option (loc * nat) :=
  match fuel with
  | O => None
  | S fuel' =>
      n ← h !! tmp;
      match h_next n with
      | None => Some (tmp, k)
      | Some l => h_last fuel' h l (S k)
      end
  end.

(** [delete] of a node, whose destructor frees the memory it points to. *)
Definition free_node (l : loc) (h : heap) : heap := delete l h.

(** [while (tmp) { m_cur = tmp; tmp = tmp->next; delete m_cur; }]: a node that
    is not there any more would be a second [delete]. *)
Fixpoint h_delete (fuel : nat) (h : heap) (tmp : option loc) : option heap :=
  match tmp with
  | None => Some h
  | Some l =>
      match fuel with
      | O => None
      | S fuel' => n ← h !! l; h_delete fuel' (free_node l h) (h_next n)
      end
  end.

(** ** Operations *)

(** An acyclic chain has no more nodes than the heap. *)
Definition enough (h : heap) : nat := S (size h).

Section operations.
Context (alloc : heap → loc).
(** What the allocator leaves in the [k]-th node of a chain. *)
Context (junk : nat → nat → byte).

Definition new_hnode (k : nat) (s : Z) : HNode := mkHNode (junk k <$> seq 0 (Z.to_nat s)) None s.

(** The constructor. *)
Definition heap_new (base_size : Z) (h : heap) : HeapArray :=
  let l := alloc h in
  mkHeapArray (<[l := new_hnode 0 base_size]> h) base_size 0 base_size 0 PENG_BIG_ENDIAN (Some l) (Some l).

(** The loop of [addCapacity] from the last node [tmp]: the heap and
    [first]. *)
Fixpoint h_append (count k : nat) (base : Z) (h : heap) (tmp : loc) (first : option loc) : option (heap * option loc) :=
  match count with
  | O => Some (h, first)
  | S count' =>
      let l := alloc h in
      let h1 := <[l := new_hnode k base]> h in
      n ← h1 !! tmp;
      let h2 := <[tmp := mkHNode (h_ptr n) (Some l) (h_size n)]> h1 in
      h_append count' (S k) base h2 l (match first with None => Some l | Some _ => first end)
  end.

Definition h_getCapacity (x : HeapArray) : Z := u64 (hb_capacity x - hb_position x).
Definition h_getReadSize (x : HeapArray) : Z := u64 (hb_size x - hb_position x).

Definition h_addCapacity (size : Z) : M HeapArray unit := λ x,
  if decide (size = 0) then Ok tt x else
  let old_cap := h_getCapacity x in
  if decide (size <= old_cap) then Ok tt x else
  let size := size - old_cap in
  if decide (hb_baseSize x = 0) then Undef "division by zero" else
  let count := Z.to_nat (ceil_div size (hb_baseSize x)) in
  match (r ← hb_root x; '(tmp, k) ← h_last (enough (mem x)) (mem x) r 1;
         h_append count k (hb_baseSize x) (mem x) tmp None) with
  | None => Undef "addCapacity"
  | Some (h, first) =>
      Ok tt (mkHeapArray h (hb_baseSize x) (hb_position x) (hb_capacity x + Z.of_nat count * hb_baseSize x) (hb_size x)
               (hb_endian x) (hb_root x) (if decide (old_cap = 0) then first else hb_cur x))
  end.

(** [m_position % m_baseSize] and [m_cur->size]. *)
Definition h_mod_base (v : Z) : M HeapArray Z := λ x,
  if decide (hb_baseSize x = 0) then Undef "division by zero" else Ok (v mod hb_baseSize x) x.
Definition h_cur_size : M HeapArray Z :=
  x ← get; n ← of_option "m_cur is null" (hb_cur x ≫= λ l, mem x !! l); mret (h_size n).

Definition h_write (buf : list byte) : M HeapArray unit :=
  if decide (zlen buf = 0) then mret tt else
  h_addCapacity (zlen buf);;
  x ← get;
  npos ← h_mod_base (hb_position x);
  csz ← h_cur_size;
  '(h, cur, position) ← of_option "write"
      (h_write_loop (enough (mem x)) buf (mem x) (hb_cur x) (hb_position x) (zlen buf) 0 npos (u64 (csz - npos)));
  modify (λ x, hb_set h position (hb_size x) cur x);;
  modify (λ x, if bool_decide (hb_size x < hb_position x) then hb_set (mem x) (hb_position x) (hb_position x) (hb_cur x) x else x).

Definition h_read (size : Z) : M HeapArray (list byte) :=
  x ← get;
  if bool_decide (h_getReadSize x < size) then throw (out_of_range "not enough len") else
  npos ← h_mod_base (hb_position x);
  csz ← h_cur_size;
  '(bs, cur, position) ← of_option "read"
      (h_read_loop (enough (mem x)) (mem x) (hb_cur x) (hb_position x) size npos (u64 (csz - npos)) []);
  modify (λ x, hb_set (mem x) position (hb_size x) cur x);;
  mret bs.

Definition h_read_at (size position : Z) : M HeapArray (list byte) :=
  x ← get;
  if bool_decide (u64 (hb_size x - position) < size) then throw (out_of_range "not enough len") else
  npos ← h_mod_base position;
  csz ← h_cur_size;
  '(bs, _, _) ← of_option "read"
      (h_read_loop (enough (mem x)) (mem x) (hb_cur x) position size npos (u64 (csz - npos)) []);
  mret bs.

Definition h_setPosition (v : Z) : M HeapArray unit :=
  x ← get;
  if bool_decide (hb_capacity x < v) then throw (out_of_range "set_position out of range") else
  modify (λ x, hb_set (mem x) v (hb_size x) (hb_cur x) x);;
  modify (λ x, if bool_decide (hb_size x < v) then hb_set (mem x) (hb_position x) v (hb_cur x) x else x);;
  cur ← of_option "setPosition" (h_seek_loop (enough (mem x)) (mem x) (hb_root x) v);
  modify (λ x, hb_set (mem x) v (hb_size x) cur x).

Definition h_toString : M HeapArray (list byte) :=
  x ← get; if decide (h_getReadSize x = 0) then mret [] else h_read_at (h_getReadSize x) (hb_position x).

Definition h_setIsLittleEndian (val : bool) (x : HeapArray) : HeapArray :=
  mkHeapArray (mem x) (hb_baseSize x) (hb_position x) (hb_capacity x) (hb_size x)
    (if val then PENG_LITTLE_ENDIAN else PENG_BIG_ENDIAN) (hb_root x) (hb_cur x).

Definition h_getReadBuffers (len : Z) : M HeapArray (Z * list hiovec) :=
  x ← get;
  let len := if bool_decide (h_getReadSize x < len) then h_getReadSize x else len in
  if decide (len = 0) then mret (0, []) else
  npos ← h_mod_base (hb_position x);
  csz ← h_cur_size;
  bufs ← of_option "getReadBuffers" (h_iov_loop (enough (mem x)) (mem x) (hb_cur x) len npos (u64 (csz - npos)) []);
  mret (len, bufs).

Definition h_getWriteBuffers (len : Z) : M HeapArray (Z * list hiovec) :=
  if decide (len = 0) then mret (0, []) else
  h_addCapacity len;;
  x ← get;
  npos ← h_mod_base (hb_position x);
  csz ← h_cur_size;
  bufs ← of_option "getWriteBuffers" (h_iov_loop (enough (mem x)) (mem x) (hb_cur x) len npos (u64 (csz - npos)) []);
  mret (len, bufs).

(** [while (count > 0) { cur = cur->next; --count; }]. *)
Fixpoint h_skip (count : nat) (h : heap) (cur : option loc) : option (option loc) :=
  match count with
  | O => Some cur
  | S count' => n ← cur ≫= λ l, h !! l; h_skip count' h (h_next n)
  end.

Definition h_getReadBuffersAt (len position : Z) : M HeapArray (Z * list hiovec) :=
  x ← get;
  let len := if bool_decide (h_getReadSize x < len) then h_getReadSize x else len in
  if decide (len = 0) then mret (0, []) else
  npos ← h_mod_base (hb_position x);
  cur ← of_option "getReadBuffers" (h_skip (Z.to_nat (position / hb_baseSize x)) (mem x) (hb_root x));
  n ← of_option "getReadBuffers" (cur ≫= λ l, mem x !! l);
  bufs ← of_option "getReadBuffers" (h_iov_loop (enough (mem x)) (mem x) cur len npos (u64 (h_size n - npos)) []);
  mret (len, bufs).

Definition h_toHexString : M HeapArray (list Ascii.ascii) := str ← h_toString; mret (hex_from 0 str).

(** The loop of [writeToFile]. *)
Fixpoint h_writeFile_loop (fuel : nat) (base : Z) (h : heap) (cur : option loc) (pos read_size : Z) (acc : list byte) :
    option (list byte) :=
  if bool_decide (0 < read_size) then
    match fuel with
    | O => None
    | S fuel' =>
        let diff := s32 (pos mod base) in
        let len := s64 ((if bool_decide (base < read_size) then base else read_size) - diff) in
        l ← cur;
        n ← h !! l;
        bs ← hnode_read n diff len;
        h_writeFile_loop fuel' base h (h_next n) (pos + len) (read_size - len) (acc ++ bs)
    end
  else Some acc.

Definition h_writeToFile (opened : bool) : M HeapArray (bool * list byte) :=
  if negb opened then mret (false, []) else
  x ← get;
  if decide (hb_baseSize x = 0) then undef "division by zero" else
  out ← of_option "writeToFile"
      (h_writeFile_loop (enough (mem x)) (hb_baseSize x) (mem x) (hb_cur x) (hb_position x) (s64 (h_getReadSize x)) []);
  mret (true, out).

(** The loop of [readFromFile]. *)
Fixpoint h_readFile_loop (fuel : nat) (rest : list byte) : M HeapArray unit :=
  match fuel with
  | O => undef "fuel"
  | S fuel' =>
      x ← get;
      let n := Z.to_nat (hb_baseSize x) in
      h_write (take n rest);;
      if bool_decide (zlen rest < hb_baseSize x) then mret tt else h_readFile_loop fuel' (drop n rest)
  end.

Definition h_readFromFile (file : option (list byte)) : M HeapArray bool :=
  match file with
  | None => mret false
  | Some content => h_readFile_loop (S (length content)) content;; mret true
  end.

(** [clear] deletes the nodes after the root, and cuts its link. *)
Definition h_clear : M HeapArray unit :=
  x ← get;
  r ← of_option "m_root is null" (hb_root x);
  n ← of_option "m_root is null" (mem x !! r);
  h ← of_option "clear" (h_delete (enough (mem x)) (mem x) (h_next n));
  n' ← of_option "m_root is null" (h !! r);
  put (mkHeapArray (<[r := mkHNode (h_ptr n') None (h_size n')]> h) (hb_baseSize x) 0 (hb_baseSize x) 0
         (hb_endian x) (Some r) (Some r)).

(** The destructor: what is left of the heap. *)
Definition h_destroy : M HeapArray heap :=
  x ← get; of_option "destroy" (h_delete (enough (mem x)) (mem x) (hb_root x)).

(** What the caller sees through an [iovec]. *)
Definition show_hiovec (h : heap) (v : hiovec) : Z * Z * list byte :=
  (hv_off v, hv_len v, match h !! hv_node v with Some n => slice (h_ptr n) (hv_off v) (hv_len v) | None => [] end).
Definition h_show_buffers (r : Z * list hiovec) : M HeapArray reply :=
  x ← get; mret (RBuffers r.1 (show_hiovec (mem x) <$> r.2)).

(** The public operations of ByteArray.v. *)
Definition h_exec (o : op) : M HeapArray reply :=
  match o with
  | OpWrite bs => h_write bs;; mret RUnit
  | OpRead n => bs ← h_read n; mret (RBytes bs)
  | OpReadAt n position => bs ← h_read_at n position; mret (RBytes bs)
  | OpSetPosition v => h_setPosition v;; mret RUnit
  | OpClear => h_clear;; mret RUnit
  | OpSetEndian b => modify (h_setIsLittleEndian b);; mret RUnit
  | OpToString => bs ← h_toString; mret (RBytes bs)
  | OpToHexString => l ← h_toHexString; mret (RText l)
  | OpReadBuffers len => r ← h_getReadBuffers len; h_show_buffers r
  | OpReadBuffersAt len position => r ← h_getReadBuffersAt len position; h_show_buffers r
  | OpWriteBuffers len => r ← h_getWriteBuffers len; h_show_buffers r
  | OpReadFile content => h_readFromFile (Some content);; mret RUnit
  | OpWriteFile => r ← h_writeToFile true; mret (RBytes r.2)
  end.
End operations.

(** ** The chain in memory *)

(** The nodes of a list are at the addresses [ls], each linked to the next. *)
Definition linked (h : heap) (ls : list loc) (nodes : list Node) : Prop :=
  length ls = length nodes ∧
  ∀ i l nd, ls !! i = Some l → nodes !! i = Some nd → h !! l = Some (mkHNode (n_ptr nd) (ls !! S i) (n_size nd)).

(** The pointer for an index, and indices within the chain. *)
Definition ptr (ls : list loc) (cur : option nat) : option loc := cur ≫= λ i, ls !! i.
Definition valid (n : nat) (cur : option nat) : Prop := ∀ i, cur = Some i → (i < n)%nat.

Lemma ptr_next {A} ls (nodes : list A) i : length ls = length nodes → ptr ls (next nodes i) = ls !! S i.
Proof.
  intros Hlen. unfold ptr, next. destruct (decide (S i < length nodes)%nat); [done|]. cbn. symmetry. apply lookup_ge_None. lia.
Qed.

Lemma valid_next {A} (nodes : list A) i : valid (length nodes) (next nodes i).
Proof. unfold valid, next. intros j. destruct (decide _); naive_solver. Qed.

Lemma linked_at h ls nodes i nd : linked h ls nodes → nodes !! i = Some nd →
  ∃ l, ls !! i = Some l ∧ h !! l = Some (mkHNode (n_ptr nd) (ls !! S i) (n_size nd)).
Proof.
  intros [Hlen H] Hn. destruct (lookup_lt_is_Some_2 ls i) as [l Hl]; [rewrite Hlen; by eapply lookup_lt_Some|].
  exists l. split; [done|]. by apply H.
Qed.

(** A pointer of the chain is followed. *)
Lemma linked_deref h ls nodes cur nd : linked h ls nodes → deref nodes cur = Some nd →
  ∃ n, (ptr ls cur ≫= λ l, h !! l) = Some n ∧ n_size nd = h_size n ∧ to_node n = nd.
Proof.
  intros Hl. unfold deref, ptr. destruct cur as [i|]; [|done]. cbn. intros Hn.
  destruct (linked_at h ls nodes i nd Hl Hn) as (l & Hi & Hh). rewrite Hi. cbn. rewrite Hh. eexists. split; [done|]. by destruct nd.
Qed.

(** The contents of a node change. *)
Lemma linked_insert h ls nodes i l p nd : NoDup ls → linked h ls nodes → ls !! i = Some l → nodes !! i = Some nd →
  linked (<[l := mkHNode p (ls !! S i) (n_size nd)]> h) ls (<[i := mkNode p (n_size nd)]> nodes).
Proof.
  intros Hnd [Hlen H] Hl Hn. split; [by rewrite length_insert|]. intros j l' nd' Hj Hn'.
  destruct (decide (i = j)) as [<-|Hne].
  - rewrite list_lookup_insert_eq in Hn' by by eapply lookup_lt_Some. injection Hn' as <-. rewrite Hl in Hj. injection Hj as <-.
    by rewrite lookup_insert_eq.
  - rewrite list_lookup_insert_ne in Hn' by done. rewrite lookup_insert_ne; [by apply H|].
    intros <-. apply Hne. by eapply NoDup_lookup.
Qed.

Lemma linked_size h ls nodes : NoDup ls → linked h ls nodes → (length ls <= size h)%nat.
Proof.
  intros Hnd Hl. rewrite <- (size_list_to_set (C := gset loc) ls) by done. rewrite <- size_dom. apply subseteq_size.
  intros l. rewrite elem_of_list_to_set, list_elem_of_lookup, elem_of_dom. intros [i Hi].
  destruct (lookup_lt_is_Some_2 nodes i) as [nd Hn]; [rewrite <- (proj1 Hl); by eapply lookup_lt_Some|].
  eexists. by apply (proj2 Hl i l nd).
Qed.

(** *** The loops *)

(** [memcpy] into a node of the chain. *)
Lemma memcpy_heap h ls nodes i nd off bs nd' : NoDup ls → linked h ls nodes → nodes !! i = Some nd →
  node_memcpy nd off bs = Some nd' →
  ∃ l n n', ls !! i = Some l ∧ h !! l = Some n ∧ h_size n = n_size nd ∧ h_next n = ptr ls (next (<[i:=nd']> nodes) i) ∧
    hnode_memcpy n off bs = Some n' ∧ linked (<[l := n']> h) ls (<[i := nd']> nodes) ∧ ∀ q, q ∉ ls → <[l := n']> h !! q = h !! q.
Proof.
  intros Hnd Hl En Em. destruct (linked_at h ls nodes i nd Hl En) as (l & Hi & Hh).
  assert (nd' = mkNode (n_ptr nd') (n_size nd)) as Hnd'.
  { unfold node_memcpy in Em. destruct (decide _); [|done]. by injection Em as <-. }
  exists l, (mkHNode (n_ptr nd) (ls !! S i) (n_size nd)), (mkHNode (n_ptr nd') (ls !! S i) (n_size nd)). split_and!; [done|exact Hh|done| | | |].
  - symmetry. apply ptr_next. rewrite length_insert. apply Hl.
  - unfold hnode_memcpy, to_node. cbn. destruct nd as [p s]. cbn in *. by rewrite Em.
  - rewrite Hnd'. by apply linked_insert.
  - intros q Hq. apply lookup_insert_ne. intros <-. apply Hq. by eapply list_elem_of_lookup_2.
Qed.

Lemma valid_insert (nodes : list Node) i nd j : valid (length nodes) j → valid (length (<[i:=nd]> nodes)) j.
Proof. by rewrite length_insert. Qed.

Lemma write_loop_heap buf fuel : ∀ fuel' ls h nodes cur position size bpos npos ncap nodes' cur' position',
  (fuel <= fuel')%nat → NoDup ls → linked h ls nodes → valid (length nodes) cur →
  write_loop fuel buf nodes cur position size bpos npos ncap = Some (nodes', cur', position') →
  ∃ h', h_write_loop fuel' buf h (ptr ls cur) position size bpos npos ncap = Some (h', ptr ls cur', position') ∧
    linked h' ls nodes' ∧ valid (length nodes') cur' ∧ ∀ l, l ∉ ls → h' !! l = h !! l.
Proof.
  induction fuel as [|fuel IH]; intros fuel' ls h nodes cur position size bpos npos ncap nodes' cur' position' Hf Hnd Hl Hv E;
    cbn [write_loop] in E; destruct (bool_decide (0 < size)) eqn:Es;
    try (injection E as <- <- <-; exists h; split_and!; try done; destruct fuel'; cbn [h_write_loop]; by rewrite Es); [done|].
  destruct fuel' as [|fuel']; [lia|]. cbn [h_write_loop]. rewrite Es. destruct cur as [i|]; [|done].
  cbn [mbind option_bind] in E. destruct (nodes !! i) as [nd|] eqn:En; [|done]. cbn [mbind option_bind] in E.
  destruct (bool_decide (size <= ncap)); (destruct (node_memcpy nd npos _) as [nd'|] eqn:Em; [|done]);
    destruct (memcpy_heap h ls nodes i nd _ _ nd' Hnd Hl En Em) as (l & n & n' & Hi & Hh & Hsz & Hnx & Ecp & Hl' & Hfr);
    cbn [ptr mbind option_bind] in *; rewrite Hi; cbn [mbind option_bind]; rewrite Hh; cbn [mbind option_bind];
    rewrite Ecp; cbn [mbind option_bind]; rewrite Hnx, ?Hsz.
  - set (c := if bool_decide (n_size nd = npos + size) then next (<[i:=nd']> nodes) i else Some i) in *.
    replace (if bool_decide (n_size nd = npos + size) then ptr ls (next (<[i:=nd']> nodes) i) else Some l) with (ptr ls c)
      by (unfold c; by destruct (bool_decide (n_size nd = npos + size))).
    edestruct (IH fuel') as (h' & E' & H1 & H2 & H3); [lia|exact Hnd|exact Hl'| |exact E|].
    { unfold c. destruct (bool_decide (n_size nd = npos + size)); [apply valid_next|by apply valid_insert]. }
    exists h'. split_and!; [done|done|done|]. intros q Hq. by rewrite H3, Hfr.
  - destruct (deref _ _) as [nd2|] eqn:Ed; [|done]. cbn [mbind option_bind] in E.
    destruct (linked_deref _ _ _ _ _ Hl' Ed) as (n2 & En2 & Hsz2 & _).
    change (option_bind ?A ?B ?f ?m) with (m ≫= f). rewrite En2. cbn [mbind option_bind]. rewrite <- Hsz2.
    edestruct (IH fuel') as (h' & E' & H1 & H2 & H3); [lia|exact Hnd|exact Hl'|apply valid_next|exact E|].
    exists h'. split_and!; [done|done|done|]. intros q Hq. by rewrite H3, Hfr.
Qed.

Lemma hnode_read_run nd q off len : hnode_read (mkHNode (n_ptr nd) q (n_size nd)) off len = node_read nd off len.
Proof. by destruct nd. Qed.

Lemma read_loop_heap fuel : ∀ fuel' ls h nodes cur position size npos ncap acc bs cur' position',
  (fuel <= fuel')%nat → linked h ls nodes → valid (length nodes) cur →
  read_loop fuel nodes cur position size npos ncap acc = Some (bs, cur', position') →
  h_read_loop fuel' h (ptr ls cur) position size npos ncap acc = Some (bs, ptr ls cur', position') ∧ valid (length nodes) cur'.
Proof.
  induction fuel as [|fuel IH]; intros fuel' ls h nodes cur position size npos ncap acc bs cur' position' Hf Hl Hv E;
    cbn [read_loop] in E; destruct (bool_decide (0 < size)) eqn:Es;
    try (injection E as <- <- <-; split; [destruct fuel'; cbn [h_read_loop]; by rewrite Es|done]); [done|].
  destruct fuel' as [|fuel']; [lia|]. cbn [h_read_loop]. rewrite Es. destruct cur as [i|]; [|done].
  cbn [mbind option_bind] in E. destruct (nodes !! i) as [nd|] eqn:En; [|done].
  destruct (linked_at h ls nodes i nd Hl En) as (l & Hi & Hh). cbn [ptr mbind option_bind] in *. rewrite Hi.
  cbn [mbind option_bind]. rewrite Hh. cbn [mbind option_bind h_size h_next]. rewrite !hnode_read_run.
  rewrite <- !(ptr_next ls nodes i (proj1 Hl)).
  destruct (bool_decide (size <= ncap)); (destruct (node_read nd npos _) as [b|]; [|done]); cbn [mbind option_bind] in *.
  - set (c := if bool_decide (n_size nd = npos + size) then next nodes i else Some i) in *.
    replace (if bool_decide (n_size nd = npos + size) then ptr ls (next nodes i) else Some l) with (ptr ls c)
      by (unfold c; by destruct (bool_decide (n_size nd = npos + size))).
    eapply IH; [lia|done| |exact E]. unfold c. destruct (bool_decide (n_size nd = npos + size)); [apply valid_next|done].
  - destruct (deref _ _) as [nd2|] eqn:Ed; [|done]. cbn [mbind option_bind] in E.
    destruct (linked_deref _ _ _ _ _ Hl Ed) as (n2 & En2 & Hsz2 & _).
    change (option_bind ?A ?B ?f ?m) with (m ≫= f). rewrite En2. cbn [mbind option_bind]. rewrite <- Hsz2.
    eapply IH; [lia|done|apply valid_next|exact E].
Qed.

Lemma seek_loop_heap fuel : ∀ fuel' ls h nodes cur v cur',
  (fuel <= fuel')%nat → linked h ls nodes → valid (length nodes) cur → seek_loop fuel nodes cur v = Some cur' →
  h_seek_loop fuel' h (ptr ls cur) v = Some (ptr ls cur') ∧ valid (length nodes) cur'.
Proof.
  induction fuel as [|fuel IH]; intros fuel' ls h nodes cur v cur' Hf Hl Hv E; [done|].
  destruct fuel' as [|fuel']; [lia|]. cbn [seek_loop h_seek_loop] in *. destruct cur as [i|]; [|done].
  cbn [mbind option_bind] in E. destruct (nodes !! i) as [nd|] eqn:En; [|done].
  destruct (linked_at h ls nodes i nd Hl En) as (l & Hi & Hh). cbn [ptr mbind option_bind] in *. rewrite Hi.
  cbn [mbind option_bind]. rewrite Hh. cbn [mbind option_bind h_size h_next]. rewrite <- !(ptr_next ls nodes i (proj1 Hl)).
  destruct (bool_decide (n_size nd < v)).
  - eapply IH; [lia|done|apply valid_next|exact E].
  - destruct (bool_decide (v = n_size nd)); injection E as <-; [by split; [|apply valid_next]|].
    cbn. by rewrite Hi.
Qed.

(** The walk to the last node passes all of them. *)
Lemma h_last_run h ls nodes : linked h ls nodes → ∀ m i l fuel, ls !! i = Some l → (length ls - i <= m)%nat → (m <= fuel)%nat →
  ∃ e, h_last fuel h l (S i) = Some (e, length ls) ∧ last ls = Some e.
Proof.
  intros Hl m. induction m as [|m IH]; intros i l fuel Hi Hm Hf; pose proof (lookup_lt_Some _ _ _ Hi) as Hlt; [lia|].
  destruct fuel as [|fuel]; [lia|]. destruct (lookup_lt_is_Some_2 nodes i) as [nd Hn]; [rewrite <- (proj1 Hl); done|].
  cbn [h_last]. rewrite (proj2 Hl i l nd Hi Hn). cbn. destruct (ls !! S i) as [l'|] eqn:Ei.
  - by apply IH; [|lia|lia].
  - exists l. apply lookup_ge_None in Ei. assert (length ls = S i) as Hlen by lia. rewrite Hlen. split; [done|].
    by rewrite last_lookup, Hlen.
Qed.

(** Deleting the nodes from index [i] on. *)
Lemma h_delete_run ls : NoDup ls → ∀ m i h fuel,
  (∀ j l, (i <= j)%nat → ls !! j = Some l → ∃ n, h !! l = Some n ∧ h_next n = ls !! S j) →
  (length ls - i <= m)%nat → (m <= fuel)%nat →
  ∃ h', h_delete fuel h (ls !! i) = Some h' ∧
    (∀ l, l ∈ drop i ls → h' !! l = None) ∧ ∀ l, l ∉ drop i ls → h' !! l = h !! l.
Proof.
  intros Hnd m. induction m as [|m IH]; intros i h fuel Hh Hm Hf; destruct (ls !! i) as [l|] eqn:Ei.
  1: { apply lookup_lt_Some in Ei. lia. }
  1,3: apply lookup_ge_None in Ei; rewrite drop_ge by done; exists h; destruct fuel; by (split_and!; [done|intros l Hl; by apply elem_of_nil in Hl|]).
  destruct fuel as [|fuel]; [lia|]. cbn [h_delete]. unfold free_node. destruct (Hh i l) as (n & Hn & Hnx); [lia|done|]. rewrite Hn. cbn.
  rewrite Hnx. rewrite (drop_S _ _ _ Ei).
  destruct (IH (S i) (delete l h) fuel) as (h' & E & H1 & H2); [|lia|lia|].
  { intros j l' Hj Hl'. destruct (Hh j l') as (n' & Hn' & Hnx'); [lia|done|]. exists n'. split; [|done].
    rewrite lookup_delete_ne; [done|]. intros ->. assert (i = j) by by eapply NoDup_lookup. lia. }
  assert (l ∉ drop (S i) ls) as Hnot.
  { intros Hin. apply list_elem_of_lookup in Hin as [j Hj]. rewrite lookup_drop in Hj.
    assert (i = (S i + j)%nat) by by eapply NoDup_lookup. lia. }
  exists h'. split_and!; [done| |].
  - intros q. rewrite elem_of_cons. intros [->|Hq]; [|by apply H1]. by rewrite H2, lookup_delete_eq.
  - intros q. rewrite elem_of_cons. intros Hq. rewrite H2 by tauto. apply lookup_delete_ne. naive_solver.
Qed.

(** *** New nodes *)

Lemma linked_mem h ls nodes l : linked h ls nodes → l ∈ ls → is_Some (h !! l).
Proof.
  intros [Hlen H] Hl. apply list_elem_of_lookup in Hl as [i Hi].
  destruct (lookup_lt_is_Some_2 nodes i) as [nd Hn]; [rewrite <- Hlen; by eapply lookup_lt_Some|].
  eexists. by apply (H i l nd).
Qed.

Lemma linked_snoc h ls nodes tmp l nd : NoDup ls → linked h ls nodes → last ls = Some tmp → h !! l = None →
  ∃ n, <[l := mkHNode (n_ptr nd) None (n_size nd)]> h !! tmp = Some n ∧
    linked (<[tmp := mkHNode (h_ptr n) (Some l) (h_size n)]> (<[l := mkHNode (n_ptr nd) None (n_size nd)]> h))
      (ls ++ [l]) (nodes ++ [nd]).
Proof.
  intros Hnd Hl Hlast Hfree. rewrite last_lookup in Hlast. pose proof (lookup_lt_Some _ _ _ Hlast) as Hlt.
  destruct (lookup_lt_is_Some_2 nodes (pred (length ls))) as [ndt Hnt]; [rewrite <- (proj1 Hl); done|].
  pose proof (proj2 Hl _ _ _ Hlast Hnt) as Ht. assert (l ∉ ls) as Hnot.
  { intros Hin. destruct (linked_mem _ _ _ _ Hl Hin) as [n Hn]. congruence. }
  assert (l ≠ tmp) as Hne by (intros ->; apply Hnot; by eapply list_elem_of_lookup_2).
  exists (mkHNode (n_ptr ndt) (ls !! S (pred (length ls))) (n_size ndt)). rewrite lookup_insert_ne by done. split; [done|].
  split; [rewrite !length_app, (proj1 Hl); done|]. intros j q md Hj Hm.
  destruct (decide (j < length ls)%nat) as [Hj'|Hj'].
  - rewrite lookup_app_l in Hj by done. rewrite lookup_app_l in Hm by by rewrite <- (proj1 Hl). pose proof (proj2 Hl _ _ _ Hj Hm) as Hq.
    assert (l ≠ q) as Hlq by (intros ->; apply Hnot; by eapply list_elem_of_lookup_2).
    destruct (decide (j = pred (length ls))) as [->|Hjp].
    + rewrite Hlast in Hj. injection Hj as <-. rewrite Hnt in Hm. injection Hm as <-. rewrite lookup_insert_eq. cbn.
      replace (S (pred (length ls))) with (length ls) by lia. by rewrite list_lookup_middle.
    + rewrite (lookup_app_l _ _ (S j)) by lia. rewrite !lookup_insert_ne; [done|done|].
      intros ->. assert (pred (length ls) = j) by by eapply NoDup_lookup. done.
  - rewrite lookup_app_r in Hj by lia. rewrite lookup_app_r in Hm by (rewrite <- (proj1 Hl); lia). rewrite <- (proj1 Hl) in Hm.
    destruct (j - length ls)%nat as [|d] eqn:Ed; [|done]. injection Hj as <-. injection Hm as <-.
    rewrite lookup_insert_ne by done. rewrite lookup_insert_eq. rewrite lookup_ge_None_2; [done|]. rewrite length_app. cbn. lia.
Qed.

Section refinement.
Context (alloc : heap → loc) (junk : nat → nat → byte).
Hypothesis alloc_fresh : ∀ h, h !! alloc h = None.

Lemma append_nodes_fields count : ∀ s, let s' := append_nodes junk count s in
  m_baseSize s' = m_baseSize s ∧ m_position s' = m_position s ∧ m_size s' = m_size s ∧ m_endian s' = m_endian s ∧
  m_cur s' = m_cur s ∧ m_capacity s' = m_capacity s + Z.of_nat count * m_baseSize s ∧
  length (m_nodes s') = (length (m_nodes s) + count)%nat.
Proof.
  induction count as [|count IH]; intros s; cbn [append_nodes]; cbv zeta; [split_and!; lia || done|].
  destruct (IH (mkByteArray (m_baseSize s) (m_position s) (m_capacity s + m_baseSize s) (m_size s) (m_endian s)
    (m_nodes s ++ [new_node junk (length (m_nodes s)) (m_baseSize s)]) (m_cur s))) as (H1 & H2 & H3 & H4 & H5 & H6 & H7).
  rewrite H1, H2, H3, H4, H5, H6, H7. cbn. rewrite length_app. cbn. split_and!; lia || done.
Qed.

Lemma h_append_run count : ∀ s ls h tmp first,
  NoDup ls → linked h ls (m_nodes s) → last ls = Some tmp →
  ∃ h' new, h_append alloc junk count (length ls) (m_baseSize s) h tmp first =
      Some (h', match first with None => head new | Some _ => first end) ∧
    linked h' (ls ++ new) (m_nodes (append_nodes junk count s)) ∧ NoDup (ls ++ new) ∧ length new = count ∧
    (∀ l, l ∈ new → h !! l = None) ∧ ∀ l, l ∉ ls ++ new → h' !! l = h !! l.
Proof.
  induction count as [|count IH]; intros s ls h tmp first Hnd Hl Hlast; cbn [h_append append_nodes].
  { exists h, []. rewrite !app_nil_r. split_and!; try done; [by destruct first|]. intros l Hin. by apply elem_of_nil in Hin. }
  set (l := alloc h). pose proof (alloc_fresh h) as Hfree. fold l in Hfree.
  set (nd := new_node junk (length (m_nodes s)) (m_baseSize s)).
  destruct (linked_snoc h ls (m_nodes s) tmp l nd Hnd Hl Hlast Hfree) as (n & Hn & Hl').
  assert (new_hnode junk (length ls) (m_baseSize s) = mkHNode (n_ptr nd) None (n_size nd)) as -> by (rewrite (proj1 Hl); done).
  cbn [mbind option_bind]. rewrite Hn. cbn [mbind option_bind].
  assert (l ∉ ls) as Hnot.
  { intros Hin. destruct (linked_mem _ _ _ _ Hl Hin) as [m Hm]. congruence. }
  set (s1 := mkByteArray (m_baseSize s) (m_position s) (m_capacity s + m_baseSize s) (m_size s) (m_endian s)
    (m_nodes s ++ [nd]) (m_cur s)).
  assert (NoDup (ls ++ [l])) as Hnd'.
  { apply NoDup_app. split_and!; [done|intros x Hx; rewrite list_elem_of_singleton; by intros ->|apply NoDup_singleton]. }
  edestruct (IH s1 (ls ++ [l])) as (h' & new & E & H1 & H2 & H3 & H4 & H5); [exact Hnd'|exact Hl'|apply last_snoc|].
  assert (tmp ∈ ls) as Htmp by (rewrite last_lookup in Hlast; by eapply list_elem_of_lookup_2).
  rewrite length_app, Nat.add_1_r in E. cbn [m_baseSize s1] in E. rewrite E. rewrite <- app_assoc in *. exists h', (l :: new). split_and!.
  - by destruct first.
  - done.
  - done.
  - cbn. by rewrite H3.
  - intros q. rewrite elem_of_cons. intros [->|Hq]; [done|]. specialize (H4 q Hq). rewrite lookup_insert_None in H4.
    destruct H4 as [H4 _]. rewrite lookup_insert_None in H4. apply H4.
  - intros q Hq. rewrite H5 by done. rewrite !lookup_insert_ne; [done| |]; set_solver.
Qed.

(** ** The operations *)

(** The object [x] has the buffer [s] at the addresses [ls]; the rest of the
    heap is [F]. *)
Record owns (F : heap) (ls : list loc) (x : HeapArray) (s : ByteArray) : Prop := {
  ow_nodup : NoDup ls;
  ow_linked : linked (mem x) ls (m_nodes s);
  ow_root : hb_root x = ls !! 0%nat;
  ow_cur : hb_cur x = ptr ls (m_cur s);
  ow_valid : valid (length (m_nodes s)) (m_cur s);
  ow_frame l : l ∉ ls → mem x !! l = F !! l;
  ow_fresh l : l ∈ ls → F !! l = None;
  ow_nonempty : ls ≠ [];
  ow_base : hb_baseSize x = m_baseSize s;
  ow_position : hb_position x = m_position s;
  ow_capacity : hb_capacity x = m_capacity s;
  ow_size : hb_size x = m_size s;
  ow_endian : hb_endian x = m_endian s
}.
Definition rep (F : heap) (x : HeapArray) (s : ByteArray) : Prop := ∃ ls, owns F ls x s.

(** Wherever the buffer of ByteArray.v is defined, the object does the same. *)
Definition agrees {A} (F : heap) (o : outcome HeapArray A) (o' : outcome ByteArray A) : Prop :=
  match o' with
  | Ok a s' => ∃ x', o = Ok a x' ∧ rep F x' s'
  | Throw e s' => ∃ x', o = Throw e x' ∧ rep F x' s'
  | _ => True
  end.
Definition simulates {A} (F : heap) (k : M HeapArray A) (m : M ByteArray A) : Prop :=
  ∀ x s, rep F x s → agrees F (k x) (m s).

Lemma agrees_bind {A B} F (k : M HeapArray A) (m : M ByteArray A) (k2 : A → M HeapArray B) (m2 : A → M ByteArray B) x s :
  agrees F (k x) (m s) → (∀ a x' s', k x = Ok a x' → m s = Ok a s' → rep F x' s' → agrees F (k2 a x') (m2 a s')) →
  agrees F ((k ≫= k2) x) ((m ≫= m2) s).
Proof.
  unfold agrees at 1, mbind, M_bind. intros H1 H2. destruct (m s) as [a s'|e s'| |]; try done.
  - destruct H1 as (x' & E & H1). rewrite E. by apply H2.
  - destruct H1 as (x' & -> & H1). by exists x'.
Qed.

Lemma eq_agrees {A} F (o1 o2 : outcome HeapArray A) (o1' o2' : outcome ByteArray A) :
  o1 = o2 → o1' = o2' → agrees F o2 o2' → agrees F o1 o1'.
Proof. by intros -> ->. Qed.

(** The calls before the buffers are filled. *)
Lemma bind_assoc3 {S A B C D} (a : M S A) (b : M S B) (c : A → B → M S C) (n : Z) (f : Z * C → M S D) s :
  ((x ← a; y ← b; z ← c x y; mret (n, z)) ≫= f) s = (x ← a; y ← b; c x y ≫= λ z, f (n, z)) s.
Proof. unfold mbind, M_bind, mret, M_ret. by repeat case_match; simplify_eq. Qed.

Lemma new_rep F base_size : rep F (heap_new alloc junk base_size F) (new_ByteArray junk base_size).
Proof.
  pose proof (alloc_fresh F) as Hf. exists [alloc F]. unfold heap_new, new_ByteArray. split; cbn; try done.
  - apply NoDup_singleton.
  - split; [done|]. intros [|i] l nd; [|done]. cbn. intros [= <-] [= <-]. by rewrite lookup_insert_eq.
  - intros i [= <-]. lia.
  - intros l Hl. rewrite lookup_insert_ne; [done|]. set_solver.
  - intros l. rewrite list_elem_of_singleton. by intros ->.
Qed.

Lemma fuel_enough F ls x s : owns F ls x s → (S (length (m_nodes s)) <= enough (mem x))%nat.
Proof. intros O. pose proof (linked_size _ _ _ (ow_nodup _ _ _ _ O) (ow_linked _ _ _ _ O)). rewrite <- (proj1 (ow_linked _ _ _ _ O)). unfold enough. lia. Qed.

Lemma addCapacity_heap F n : simulates F (h_addCapacity alloc junk n) (addCapacity junk n).
Proof.
  intros x s [ls O]. pose proof (fuel_enough _ _ _ _ O) as Hfuel. destruct O as [Hnd Hl Hr Hc Hv Hfr Hfs Hne Hb Hp Hcap Hs He].
  unfold addCapacity, h_addCapacity, h_getCapacity, getCapacity. rewrite Hcap, Hp, Hb.
  destruct (decide (n = 0)); [exists x; split; [done|exists ls; by split]|].
  set (old := u64 (m_capacity s - m_position s)). destruct (decide (n <= old)); [exists x; split; [done|exists ls; by split]|].
  destruct (decide (m_baseSize s = 0)); [done|]. set (count := Z.to_nat (ceil_div (n - old) (m_baseSize s))).
  destruct ls as [|r ls]; [done|]. rewrite Hr. cbn [mbind option_bind lookup list_lookup].
  destruct (h_last_run _ _ _ Hl (length (r :: ls)) 0 r (enough (mem x))) as (e & -> & Hlast); [done|lia|rewrite (proj1 Hl); lia|].
  cbn [mbind option_bind]. destruct (h_append_run count s (r :: ls) (mem x) e None Hnd Hl Hlast) as (h' & new & E & H1 & H2 & H3 & H4 & H5).
  rewrite E. destruct (append_nodes_fields count s) as (G1 & G2 & G3 & G4 & G5 & G6 & G7).
  assert (length (r :: ls) = length (m_nodes s)) as Hlen by apply Hl.
  assert (∀ c, valid (length (m_nodes s) + count) c →
    rep F (mkHeapArray h' (m_baseSize s) (m_position s) (m_capacity s + Z.of_nat count * m_baseSize s) (hb_size x) (hb_endian x)
      (Some r) (ptr ((r :: ls) ++ new) c)) (set_cursor (m_position (append_nodes junk count s)) c (append_nodes junk count s))) as Hrep.
  { intros c Hcv. exists ((r :: ls) ++ new). split; cbn; rewrite ?G1, ?G2, ?G3, ?G4, ?G6, ?G7; try done.
    - intros l Hq. rewrite H5 by done. apply Hfr. set_solver.
    - intros l. change (r :: ls ++ new) with ((r :: ls) ++ new). rewrite elem_of_app. intros [Hq|Hq]; [by apply Hfs|].
      rewrite <- Hfr; [by apply H4|]. intros Hin. apply NoDup_app in H2 as (_ & H2 & _). by apply (H2 l). }
  destruct (decide (old = 0)).
  - eexists. split; [reflexivity|].
    specialize (Hrep (if decide (count = 0%nat) then None else Some (length (m_nodes s)))).
    assert (ptr ((r :: ls) ++ new) (if decide (count = 0%nat) then None else Some (length (m_nodes s))) = head new) as Hh.
    { destruct (decide (count = 0%nat)) as [E0|E0]; [by destruct new; cbn in *; [|lia]|]. cbn [ptr mbind option_bind].
      rewrite <- Hlen, lookup_app_r, Nat.sub_diag by done. by destruct new. }
    rewrite Hh in Hrep. apply Hrep. intros i. destruct (decide (count = 0%nat)); [done|]. intros [= <-]. lia.
  - eexists. split; [reflexivity|]. specialize (Hrep (m_cur s)).
    replace (set_cursor _ (m_cur s) _) with (append_nodes junk count s) in Hrep by (unfold set_cursor; rewrite <- G5; by destruct (append_nodes junk count s)).
    assert (ptr ((r :: ls) ++ new) (m_cur s) = hb_cur x) as Hcur.
    { rewrite Hc. unfold ptr. destruct (m_cur s) as [i|] eqn:Ei; [|done]. cbn [mbind option_bind]. apply lookup_app_l. rewrite Hlen. by apply Hv. }
    rewrite Hcur in Hrep. apply Hrep. intros i Hi. specialize (Hv i Hi). lia.
Qed.

(** [npos] and [m_cur->size]. *)
Lemma start_heap {A} F ls x s v (k : Z → Z → M HeapArray A) (m : Z → Z → M ByteArray A) : owns F ls x s →
  (∀ npos csz, agrees F (k npos csz x) (m npos csz s)) →
  agrees F ((npos ← h_mod_base v; csz ← h_cur_size; k npos csz) x) ((npos ← mod_base v; csz ← cur_size; m npos csz) s).
Proof.
  intros O H. unfold mod_base, h_mod_base, cur_size, h_cur_size, get. cbv beta iota delta [mbind M_bind].
  rewrite (ow_base _ _ _ _ O). destruct (decide (m_baseSize s = 0)); [done|].
  destruct (deref (m_nodes s) (m_cur s)) as [nd|] eqn:E; [|done].
  destruct (linked_deref _ _ _ _ _ (ow_linked _ _ _ _ O) E) as (hn & En & Hsz & _).
  rewrite (ow_cur _ _ _ _ O). unfold mbind in En. rewrite En. cbn [of_option mret M_ret]. rewrite <- Hsz. apply H.
Qed.

(** The cursor and the contents of the nodes change. *)
Lemma owns_move F ls x s h nodes cur position size :
  owns F ls x s → linked h ls nodes → valid (length nodes) cur → (∀ l, l ∉ ls → h !! l = mem x !! l) →
  owns F ls (hb_set h position size (ptr ls cur) x)
    (mkByteArray (m_baseSize s) position (m_capacity s) size (m_endian s) nodes cur).
Proof.
  intros [Hnd Hl Hr Hc Hv Hfr Hfs Hne Hb Hp Hcap Hs He] Hl' Hv' Hh. split; cbn; try done. intros l Hq. by rewrite Hh, Hfr.
Qed.

Lemma write_heap F buf : simulates F (h_write alloc junk buf) (write junk buf).
Proof.
  intros x s Hrep. unfold write, h_write. destruct (decide (zlen buf = 0)); [by exists x|].
  apply agrees_bind; [by apply addCapacity_heap|]. intros [] x1 s1 _ _ [ls O]. rewrite !bind_get, (ow_position _ _ _ _ O).
  apply (start_heap F ls); [done|]. intros npos csz.
  destruct (write_loop _ _ _ _ _ _ _ _ _) as [[[nodes cur] position]|] eqn:Ew; [|done]. cbn [of_option]. rewrite bind_mret.
  destruct (write_loop_heap _ _ (enough (mem x1)) ls (mem x1) _ _ _ _ _ _ _ _ _ _ (fuel_enough _ _ _ _ O) (ow_nodup _ _ _ _ O)
    (ow_linked _ _ _ _ O) (ow_valid _ _ _ _ O) Ew) as (h' & Ew' & H1 & H2 & H3).
  rewrite (ow_cur _ _ _ _ O), Ew'. cbn [of_option]. rewrite bind_mret, !bind_modify. unfold modify.
  eexists. split; [reflexivity|]. exists ls. cbn. rewrite (ow_size _ _ _ _ O).
  destruct (bool_decide (m_size s1 < position)); exact (owns_move F ls x1 s1 h' nodes cur position _ O H1 H2 H3).
Qed.

Lemma read_heap F n : simulates F (h_read n) (read n).
Proof.
  intros x s [ls O]. unfold read, h_read, getReadSize, h_getReadSize. rewrite !bind_get, (ow_size _ _ _ _ O), (ow_position _ _ _ _ O).
  destruct (bool_decide _); [exists x; split; [done|by exists ls]|]. apply (start_heap F ls); [done|]. intros npos csz.
  destruct (read_loop _ _ _ _ _ _ _ _) as [[[bs cur] position]|] eqn:Er; [|done].
  destruct (read_loop_heap _ (enough (mem x)) ls (mem x) _ _ _ _ _ _ _ _ _ _ (fuel_enough _ _ _ _ O)
    (ow_linked _ _ _ _ O) (ow_valid _ _ _ _ O) Er) as (Er' & Hv).
  rewrite (ow_cur _ _ _ _ O), Er'. eexists. split; [reflexivity|]. exists ls. rewrite (ow_size _ _ _ _ O).
  exact (owns_move F ls x s _ _ cur position _ O (ow_linked _ _ _ _ O) Hv ltac:(done)).
Qed.

Lemma read_at_heap F n position : simulates F (h_read_at n position) (read_at n position).
Proof.
  intros x s [ls O]. unfold read_at, h_read_at. rewrite !bind_get, (ow_size _ _ _ _ O).
  destruct (bool_decide _); [exists x; split; [done|by exists ls]|]. apply (start_heap F ls); [done|]. intros npos csz.
  destruct (read_loop _ _ _ _ _ _ _ _) as [[[bs cur] p]|] eqn:Er; [|done].
  destruct (read_loop_heap _ (enough (mem x)) ls (mem x) _ _ _ _ _ _ _ _ _ _ (fuel_enough _ _ _ _ O)
    (ow_linked _ _ _ _ O) (ow_valid _ _ _ _ O) Er) as (Er' & Hv).
  rewrite (ow_cur _ _ _ _ O), Er'. exists x. split; [done|by exists ls].
Qed.

Lemma valid_root F ls x s : owns F ls x s → valid (length (m_nodes s)) (Some 0%nat).
Proof.
  intros O i [= <-]. rewrite <- (proj1 (ow_linked _ _ _ _ O)). destruct ls; [by destruct (ow_nonempty _ _ _ _ O)|cbn; lia].
Qed.

Lemma setPosition_heap F v : simulates F (h_setPosition v) (setPosition v).
Proof.
  intros x s [ls O]. unfold setPosition, h_setPosition. rewrite !bind_get, (ow_capacity _ _ _ _ O).
  destruct (bool_decide _); [exists x; split; [done|by exists ls]|]. rewrite !bind_modify.
  destruct (seek_loop _ _ _ _) as [cur|] eqn:Es; [|done].
  destruct (seek_loop_heap _ (enough (mem x)) ls (mem x) _ _ _ _ (fuel_enough _ _ _ _ O) (ow_linked _ _ _ _ O)
    (valid_root _ _ _ _ O) Es)
    as (Es' & Hv).
  rewrite (ow_root _ _ _ _ O). change (ls !! 0%nat) with (ptr ls (Some 0%nat)). rewrite Es'.
  eexists. split; [reflexivity|]. exists ls. cbn. rewrite (ow_size _ _ _ _ O).
  destruct (bool_decide (m_size s < v)); exact (owns_move F ls x s _ _ cur v _ O (ow_linked _ _ _ _ O) Hv ltac:(done)).
Qed.

(** The links from index [i] on, as the walk of [delete] needs them. *)
Lemma linked_links h ls nodes i : linked h ls nodes →
  ∀ j l, (i <= j)%nat → ls !! j = Some l → ∃ n, h !! l = Some n ∧ h_next n = ls !! S j.
Proof.
  intros Hl j l _ Hj. destruct (lookup_lt_is_Some_2 nodes j) as [nd Hn]; [rewrite <- (proj1 Hl); by eapply lookup_lt_Some|].
  eexists. split; [by apply (proj2 Hl j l nd)|done].
Qed.

Lemma clear_heap F : simulates F h_clear (modify clear).
Proof.
  intros x s [ls O]. destruct O as [Hnd Hl Hr Hc Hv Hfr Hfs Hne Hb Hp Hcap Hs He] eqn:EO. clear EO.
  destruct ls as [|r ls]; [done|]. destruct (m_nodes s) as [|nd nodes] eqn:En; [by destruct Hl|].
  pose proof (proj2 Hl 0%nat r nd eq_refl eq_refl) as Hroot.
  unfold h_clear. rewrite bind_get, Hr. cbn [lookup list_lookup of_option]. rewrite bind_mret, Hroot. cbn [of_option]. rewrite bind_mret.
  cbn [h_next]. pose proof (linked_size _ _ _ Hnd Hl) as Hsz.
  destruct (h_delete_run (r :: ls) Hnd (length ls) 1 (mem x) (enough (mem x)) (linked_links _ _ _ 1 Hl)) as (h' & E & H1 & H2);
    [cbn; lia|unfold enough; cbn in Hsz; lia|]. rewrite E. cbn [of_option]. rewrite bind_mret. cbn [drop] in *. rewrite ?drop_0 in *.
  assert (r ∉ ls) as Hr' by (by apply list.NoDup_cons in Hnd as [? _]).
  rewrite H2, Hroot by done. cbn [of_option]. rewrite bind_mret. eexists. split; [reflexivity|]. exists [r]. unfold clear. rewrite En.
  split; cbn; try done.
  - apply NoDup_singleton.
  - split; [done|]. intros [|i] l md; [|done]. cbn. intros [= <-] [= <-]. by rewrite lookup_insert_eq.
  - intros i [= <-]. lia.
  - intros l Hq. rewrite lookup_insert_ne by set_solver. destruct (decide (l ∈ ls)) as [Hin|Hin].
    + rewrite H1 by done. symmetry. apply Hfs. by right.
    + rewrite H2 by done. apply Hfr. set_solver.
  - intros l Hq. apply Hfs. set_solver.
Qed.

Lemma destroy_heap F x s : rep F x s → h_destroy x = Ok F x.
Proof.
  intros [ls O]. pose proof (linked_size _ _ _ (ow_nodup _ _ _ _ O) (ow_linked _ _ _ _ O)) as Hsz.
  unfold h_destroy. rewrite bind_get, (ow_root _ _ _ _ O).
  destruct (h_delete_run ls (ow_nodup _ _ _ _ O) (length ls) 0 (mem x) (enough (mem x))
    (linked_links _ _ _ 0 (ow_linked _ _ _ _ O))) as (h' & E & H1 & H2); [lia|unfold enough; lia|].
  rewrite E. cbn. f_equal. rewrite drop_0 in *. apply map_eq. intros l. destruct (decide (l ∈ ls)) as [Hin|Hin].
  - rewrite H1 by done. symmetry. by apply (ow_fresh _ _ _ _ O).
  - rewrite H2 by done. by apply (ow_frame _ _ _ _ O).
Qed.

(** *** Buffers for the system calls *)

Definition to_hiovec (ls : list loc) (v : iovec) : hiovec := mkHIovec (default 1%positive (ls !! iov_node v)) (iov_off v) (iov_len v).

Lemma iov_loop_heap fuel : ∀ fuel' ls h nodes cur len npos ncap bufs vs,
  (fuel <= fuel')%nat → linked h ls nodes → iov_loop fuel nodes cur len npos ncap bufs = Some vs →
  h_iov_loop fuel' h (ptr ls cur) len npos ncap (to_hiovec ls <$> bufs) = Some (to_hiovec ls <$> vs).
Proof.
  induction fuel as [|fuel IH]; intros fuel' ls h nodes cur len npos ncap bufs vs Hf Hl E;
    cbn [iov_loop] in E; destruct (bool_decide (0 < len)) eqn:Es;
    try (injection E as <-; destruct fuel'; cbn [h_iov_loop]; by rewrite Es); [done|].
  destruct fuel' as [|fuel']; [lia|]. cbn [h_iov_loop]. rewrite Es. destruct cur as [i|]; [|done].
  cbn [mbind option_bind] in E. destruct (nodes !! i) as [nd|] eqn:En; [|done].
  destruct (linked_at h ls nodes i nd Hl En) as (l & Hi & Hh). cbn [ptr mbind option_bind] in *. rewrite Hi.
  cbn [mbind option_bind]. rewrite Hh. cbn [mbind option_bind h_next]. rewrite <- !(ptr_next ls nodes i (proj1 Hl)).
  assert (∀ k, (to_hiovec ls <$> bufs) ++ [mkHIovec l npos k] = to_hiovec ls <$> bufs ++ [mkIovec i npos k]) as Hsnoc.
  { intros k. rewrite fmap_app. unfold to_hiovec. cbn. by rewrite Hi. }
  rewrite !Hsnoc. destruct (bool_decide (len <= ncap)).
  - rewrite <- Hi. apply (IH fuel' ls h nodes (Some i)); [lia|done|exact E].
  - destruct (deref _ _) as [nd2|] eqn:Ed; [|done]. cbn [mbind option_bind] in E.
    destruct (linked_deref _ _ _ _ _ Hl Ed) as (n2 & En2 & Hsz2 & _).
    change (option_bind ?A ?B ?f ?m) with (m ≫= f). rewrite En2. cbn [mbind option_bind]. rewrite <- Hsz2.
    apply (IH fuel' ls h nodes); [lia|done|exact E].
Qed.

(** The nodes of the buffers are nodes of the chain. *)
Lemma iov_loop_nodes fuel : ∀ nodes cur len npos ncap bufs vs,
  iov_loop fuel nodes cur len npos ncap bufs = Some vs → Forall (λ v, is_Some (nodes !! iov_node v)) bufs →
  Forall (λ v, is_Some (nodes !! iov_node v)) vs.
Proof.
  induction fuel as [|fuel IH]; intros nodes cur len npos ncap bufs vs E Hb; cbn [iov_loop] in E;
    (destruct (bool_decide (0 < len)); [|by injection E as <-]); [done|].
  destruct cur as [i|]; [|done]. cbn [mbind option_bind] in E. destruct (nodes !! i) as [nd|] eqn:En; [|done].
  cbn [mbind option_bind] in E. destruct (bool_decide _).
  - eapply IH; [exact E|]. apply Forall_app. split; [done|]. constructor; [|done]. cbn. by eexists.
  - destruct (deref _ _); [|done]. cbn [mbind option_bind] in E. eapply IH; [exact E|]. apply Forall_app.
    split; [done|]. constructor; [|done]. cbn. by eexists.
Qed.

Lemma show_heap h ls nodes v : linked h ls nodes → is_Some (nodes !! iov_node v) →
  show_hiovec h (to_hiovec ls v) = show_iovec nodes v.
Proof.
  intros Hl [nd Hn]. destruct (linked_at h ls nodes _ nd Hl Hn) as (l & Hi & Hh).
  unfold show_hiovec, show_iovec, to_hiovec, iov_data. cbn. rewrite Hi, Hn. cbn. by rewrite Hh.
Qed.

(** The part the functions share: the same buffers, at the addresses of their
    nodes. *)
Lemma fill_heap F ls x s cur len npos ncap w : owns F ls x s →
  agrees F
    (of_option w (h_iov_loop (enough (mem x)) (mem x) (ptr ls cur) len npos ncap []) ≫= (λ bufs, h_show_buffers (len, bufs)) $ x)
    (of_option w (iov_loop (S (length (m_nodes s))) (m_nodes s) cur len npos ncap []) ≫= (λ bufs, show_buffers (len, bufs)) $ s).
Proof.
  intros O. destruct (iov_loop _ _ _ _ _ _ _) as [vs|] eqn:Ei; [|done]. cbn [of_option].
  pose proof (iov_loop_heap _ _ ls (mem x) _ _ _ _ _ _ _ (fuel_enough _ _ _ _ O) (ow_linked _ _ _ _ O) Ei) as Ei'.
  cbn [fmap list_fmap] in Ei'. rewrite Ei'. cbn [of_option]. rewrite !bind_mret. unfold h_show_buffers, show_buffers.
  rewrite !bind_get. exists x. split; [|by exists ls]. cbn [fst snd]. mrun. do 2 f_equal. rewrite <- list_fmap_compose.
  apply list_fmap_ext. intros i v Hv. apply show_heap; [apply (ow_linked _ _ _ _ O)|].
  pose proof (iov_loop_nodes _ _ _ _ _ _ _ _ Ei (Forall_nil_2 _)) as Hall. by eapply Forall_lookup_1 in Hall.
Qed.

Lemma h_getReadSize_run F ls x s : owns F ls x s → h_getReadSize x = getReadSize s.
Proof. intros O. unfold getReadSize, h_getReadSize. by rewrite (ow_size _ _ _ _ O), (ow_position _ _ _ _ O). Qed.

Lemma show_none F ls x s : owns F ls x s → agrees F (h_show_buffers (0, []) x) (show_buffers (0, []) s).
Proof. intros O. exists x. split; [done|by exists ls]. Qed.

Lemma getReadBuffers_heap F n :
  simulates F (r ← h_getReadBuffers n; h_show_buffers r) (r ← getReadBuffers n; show_buffers r).
Proof.
  intros x s [ls O]. unfold getReadBuffers, h_getReadBuffers. rewrite !bind_assoc, !bind_get, (h_getReadSize_run _ _ _ _ O). cbv zeta.
  set (len := if bool_decide (getReadSize s < n) then getReadSize s else n).
  destruct (decide (len = 0)); [rewrite !bind_mret; by eapply show_none|].
  rewrite (ow_position _ _ _ _ O), (ow_cur _ _ _ _ O).
  eapply eq_agrees; [apply bind_assoc3|apply bind_assoc3|]. apply (start_heap F ls); [done|]. intros npos csz. by apply fill_heap.
Qed.

Lemma getWriteBuffers_heap F n :
  simulates F (r ← h_getWriteBuffers alloc junk n; h_show_buffers r) (r ← getWriteBuffers junk n; show_buffers r).
Proof.
  intros x s Hrep. unfold getWriteBuffers, h_getWriteBuffers.
  destruct (decide (n = 0)); [destruct Hrep as [ls O]; rewrite !bind_mret; by eapply show_none|]. rewrite !bind_assoc.
  apply agrees_bind; [by apply addCapacity_heap|]. intros [] x1 s1 _ _ [ls O]. rewrite !bind_assoc, !bind_get.
  rewrite (ow_position _ _ _ _ O), (ow_cur _ _ _ _ O).
  eapply eq_agrees; [apply bind_assoc3|apply bind_assoc3|]. apply (start_heap F ls); [done|]. intros npos csz. by apply fill_heap.
Qed.

(** The walk of [count] nodes from index [i]. *)
Lemma h_skip_run h ls nodes : linked h ls nodes → ∀ count i, (i + count < length nodes)%nat →
  h_skip count h (ls !! i) = Some (ls !! (i + count)%nat).
Proof.
  intros Hl count. induction count as [|count IH]; intros i Hi; cbn [h_skip]; [by rewrite Nat.add_0_r|].
  destruct (lookup_lt_is_Some_2 nodes i) as [nd Hn]; [lia|]. destruct (linked_at h ls nodes i nd Hl Hn) as (l & -> & Hh).
  cbn [mbind option_bind]. rewrite Hh. cbn [mbind option_bind h_next]. rewrite IH by lia. f_equal. f_equal. lia.
Qed.

Lemma getReadBuffersAt_heap F n position :
  simulates F (r ← h_getReadBuffersAt n position; h_show_buffers r) (r ← getReadBuffersAt n position; show_buffers r).
Proof.
  intros x s [ls O]. unfold getReadBuffersAt, h_getReadBuffersAt.
  rewrite !bind_assoc, !bind_get, (h_getReadSize_run _ _ _ _ O). cbv zeta.
  set (len := if bool_decide (getReadSize s < n) then getReadSize s else n).
  destruct (decide (len = 0)); [rewrite !bind_mret; by eapply show_none|].
  rewrite (ow_position _ _ _ _ O), (ow_base _ _ _ _ O), (ow_root _ _ _ _ O). set (count := Z.to_nat (position / m_baseSize s)).
  rewrite !bind_assoc. destruct (decide (m_baseSize s = 0)) as [Hz|Hz].
  { rewrite (bind_undef _ _ s "division by zero"); [done|]. unfold mod_base. by rewrite decide_True. }
  rewrite (bind_ok _ _ s (m_position s mod m_baseSize s) s) by (unfold mod_base; by rewrite decide_False).
  rewrite (bind_ok _ _ x (m_position s mod m_baseSize s) x)
    by (unfold h_mod_base; by rewrite (ow_base _ _ _ _ O), decide_False). rewrite !bind_assoc.
  destruct (decide (count < length (m_nodes s))%nat) as [Hc|]; [|done].
  rewrite (h_skip_run _ _ _ (ow_linked _ _ _ _ O) count 0) by done. cbn [of_option]. rewrite bind_mret, !bind_assoc.
  destruct (deref (m_nodes s) (Some count)) as [nd|] eqn:E; [|done].
  destruct (linked_deref _ _ _ _ _ (ow_linked _ _ _ _ O) E) as (hn & En & Hsz & _). cbn [ptr mbind option_bind] in En.
  cbn [Nat.add]. cbn [mbind option_bind]. rewrite En. cbn [of_option]. rewrite !bind_mret, !bind_assoc, Hsz.
  by apply (fill_heap F ls x s (Some count)).
Qed.

Lemma writeFile_heap fuel : ∀ fuel' ls h nodes base cur pos n acc out,
  (fuel <= fuel')%nat → linked h ls nodes → writeFile_loop fuel base nodes cur pos n acc = Some out →
  h_writeFile_loop fuel' base h (ptr ls cur) pos n acc = Some out.
Proof.
  induction fuel as [|fuel IH]; intros fuel' ls h nodes base cur pos n acc out Hf Hl E;
    cbn [writeFile_loop] in E; destruct (bool_decide (0 < n)) eqn:Es;
    try (injection E as <-; destruct fuel'; cbn [h_writeFile_loop]; by rewrite Es); [done|].
  destruct fuel' as [|fuel']; [lia|]. cbn [h_writeFile_loop]. rewrite Es. destruct cur as [i|]; [|done].
  cbn [mbind option_bind] in E. destruct (nodes !! i) as [nd|] eqn:En; [|done].
  destruct (linked_at h ls nodes i nd Hl En) as (l & Hi & Hh). cbn [ptr mbind option_bind] in *. rewrite Hi.
  cbn [mbind option_bind]. rewrite Hh. cbn [mbind option_bind h_next]. rewrite hnode_read_run.
  destruct (node_read _ _ _) as [bs|]; [|done]. cbn [mbind option_bind] in *.
  rewrite <- (ptr_next ls nodes i (proj1 Hl)). by apply (IH fuel' ls h nodes); [lia| |].
Qed.

Lemma writeToFile_heap F b : simulates F (h_writeToFile b) (writeToFile b).
Proof.
  intros x s [ls O]. unfold writeToFile, h_writeToFile. destruct (negb b); [exists x; split; [done|by exists ls]|].
  rewrite !bind_get, (h_getReadSize_run _ _ _ _ O), (ow_base _ _ _ _ O). destruct (decide _); [done|].
  destruct (writeFile_loop _ _ _ _ _ _ _) as [out|] eqn:E; [|done]. rewrite (ow_cur _ _ _ _ O), (ow_position _ _ _ _ O).
  rewrite (writeFile_heap _ (enough (mem x)) ls (mem x) _ _ _ _ _ _ _ (fuel_enough _ _ _ _ O) (ow_linked _ _ _ _ O) E).
  exists x. split; [done|by exists ls].
Qed.

Lemma toString_heap F : simulates F h_toString toString.
Proof.
  intros x s Hrep. destruct Hrep as [ls O] eqn:Er. clear Er. unfold toString, h_toString. rewrite !bind_get.
  replace (h_getReadSize x) with (getReadSize s)
    by (unfold getReadSize, h_getReadSize; by rewrite (ow_size _ _ _ _ O), (ow_position _ _ _ _ O)).
  destruct (decide _); [exists x; split; [done|by exists ls]|]. rewrite (ow_position _ _ _ _ O). apply read_at_heap. by exists ls.
Qed.

Lemma readFile_heap F fuel : ∀ rest, simulates F (h_readFile_loop alloc junk fuel rest) (readFile_loop junk fuel rest).
Proof.
  induction fuel as [|fuel IH]; intros rest x s Hrep; [done|]. cbn [readFile_loop h_readFile_loop]. rewrite !bind_get.
  destruct Hrep as [ls O] eqn:Er. rewrite (ow_base _ _ _ _ O). apply agrees_bind; [by apply write_heap|].
  intros [] x1 s1 _ _ Hrep1. destruct (bool_decide _); [by exists x1|by apply IH].
Qed.

(** The reply of a call whose result is the same. *)
Lemma agrees_reply {A B} F (k : M HeapArray A) (m : M ByteArray A) (f : A → B) x s :
  agrees F (k x) (m s) → agrees F ((k ≫= λ a, mret (f a)) x) ((m ≫= λ a, mret (f a)) s).
Proof. intros H. apply agrees_bind; [done|]. intros a x1 s1 _ _ H1. by exists x1. Qed.

Lemma exec_heap F o : simulates F (h_exec alloc junk o) (exec junk o).
Proof.
  intros x s Hrep. destruct o; cbn [exec h_exec].
  - by apply (agrees_reply F _ _ (λ _, RUnit)), write_heap.
  - by apply agrees_reply, read_heap.
  - by apply agrees_reply, read_at_heap.
  - by apply (agrees_reply F _ _ (λ _, RUnit)), setPosition_heap.
  - by apply (agrees_reply F _ _ (λ _, RUnit)), clear_heap.
  - destruct Hrep as [ls O]. eexists. split; [reflexivity|]. exists ls. by destruct O.
  - by apply agrees_reply, toString_heap.
  - by apply agrees_reply, agrees_reply, toString_heap.
  - by apply getReadBuffers_heap.
  - by apply getReadBuffersAt_heap.
  - by apply getWriteBuffers_heap.
  - by apply (agrees_reply F _ _ (λ _, RUnit)), (agrees_reply F _ _ (λ _, true)), readFile_heap.
  - by apply (agrees_reply F _ _ (λ r, RBytes r.2)), writeToFile_heap.
Qed.
End refinement.

(** ** Programs *)

(** What a call gives its caller, who catches exceptions. *)
Definition observe {S} (o : outcome S reply) : option ((reply + exn) * S) :=
  match o with Ok a s => Some (inl a, s) | Throw e s => Some (inr e, s) | _ => None end.

Section programs.
Context {S : Type} (ex : op → M S reply).

Fixpoint run_ops (l : list op) (s : S) : option (list (reply + exn) * S) :=
  match l with
  | [] => Some ([], s)
  | o :: l' =>
      '(r, s1) ← observe (ex o s);
      '(rs, s2) ← run_ops l' s1;
      Some (r :: rs, s2)
  end.
End programs.

(** Every call has arguments the operation takes, and is none of those with
    undefined behaviour. *)
Fixpoint calls_ok (junk : nat → nat → byte) (l : list op) (s : ByteArray) : Prop :=
  match l with
  | [] => True
  | o :: l' => args_ok s o ∧ ¬ unsafe s o ∧ ∀ r s1, observe (exec junk o s) = Some (r, s1) → calls_ok junk l' s1
  end.

Lemma run_ops_heap alloc junk F l : (∀ h : heap, h !! alloc h = None) → ∀ x s,
  rep F x s → wf s → calls_ok junk l s →
  ∃ rs x' s', run_ops (h_exec alloc junk) l x = Some (rs, x') ∧ run_ops (exec junk) l s = Some (rs, s') ∧ rep F x' s' ∧ wf s'.
Proof.
  intros Halloc. induction l as [|o l IH]; intros x s Hrep Hwf Hok; [by exists [], x, s|].
  destruct Hok as (Ha & Hn & Hnext). cbn [run_ops]. pose proof (exec_heap alloc junk Halloc F o x s Hrep) as H.
  assert (∃ r x1 s1, observe (h_exec alloc junk o x) = Some (r, x1) ∧ observe (exec junk o s) = Some (r, s1) ∧ rep F x1 s1 ∧ wf s1)
    as (r & x1 & s1 & E1 & E2 & Hrep1 & Hwf1).
  { destruct (exec_wf junk s o Hwf Ha Hn) as [(b & s1 & E & Hw)|(e & E)]; rewrite E in H |- *; destruct H as (x1 & -> & Hr).
    - by exists (inl b), x1, s1.
    - by exists (inr (out_of_range e)), x1, s. }
  destruct (IH x1 s1 Hrep1 Hwf1 (Hnext r s1 E2)) as (rs & x2 & s2 & E3 & E4 & H2).
  exists (r :: rs), x2, s2. rewrite E1, E2. cbn [mbind option_bind]. rewrite E3, E4. done.
Qed.

(** C4: with the nodes on a heap, linked by next pointers and allocated by any allocator
    that returns free addresses, every program of public operations whose arguments are in
    range (as for the operations on the list of nodes) and in which no call is one of the
    undefined cases of those operations returns the same results and exceptions as on the
    chain modelled as a list, buffers included (offset, length and the bytes each points
    at), follows no dangling or null pointer and changes no other memory; the destructor
    then deletes every node once and leaves the heap as it was before the constructor. *)
Theorem heap_buffer_refines alloc junk F base_size l :
  (∀ h : heap, h !! alloc h = None) → 0 < base_size < 2 ^ 53 → calls_ok junk l (new_ByteArray junk base_size) →
  ∃ rs x s, run_ops (h_exec alloc junk) l (heap_new alloc junk base_size F) = Some (rs, x) ∧
    run_ops (exec junk) l (new_ByteArray junk base_size) = Some (rs, s) ∧ rep F x s ∧ h_destroy x = Ok F x.
Proof.
  intros Halloc Hb Hok.
  destruct (run_ops_heap alloc junk F l Halloc (heap_new alloc junk base_size F) (new_ByteArray junk base_size))
    as (rs & x & s & E1 & E2 & Hrep & _); [by apply new_rep|by apply new_ByteArray_wf|done|].
  exists rs, x, s. split_and!; [done|done|done|by eapply destroy_heap].
Qed.

(** ** Witnesses *)

Definition first_free (h : heap) : loc := fresh (dom h : gset loc).

Lemma first_free_fresh (h : heap) : h !! first_free h = None.
Proof. apply (not_elem_of_dom (D := gset loc)). unfold first_free. apply is_fresh. Qed.

(** Another object's node is in the heap. *)
Definition others : heap := {[1%positive := mkHNode (bytes [9; 9]) None 2]}.
(** Nine bytes into nodes of four, read back from offset 2, cleared, and
    written again; a read past the end throws. *)
Definition program : list op :=
  [OpWrite (bytes [1; 2; 3; 4; 5; 6; 7; 8; 9]); OpSetPosition 2; OpReadBuffers 5; OpWriteFile; OpReadBuffersAt 3 4; OpRead 5;
   OpReadAt 2 7; OpRead 100; OpToHexString; OpClear; OpWrite (bytes [7; 7; 7; 7; 7])].

Example program_runs :
  fst <$> run_ops (h_exec first_free junk0) program (heap_new first_free junk0 4 others) =
  Some [inl RUnit; inl RUnit; inl (RBuffers 5 [(2, 2, bytes [3; 4]); (0, 3, bytes [5; 6; 7])]);
        inl (RBytes (bytes [3; 4; 5; 6; 7; 8; 9])); inl (RBuffers 3 [(2, 2, bytes [7; 8]); (0, 1, bytes [9])]);
        inl (RBytes (bytes [3; 4; 5; 6; 7])); inl (RBytes (bytes [8; 9])); inr (out_of_range "not enough len");
        inl (RText (txt "08 09 ")); inl RUnit; inl RUnit].
Proof. vm_compute. reflexivity. Qed.

#[local] Instance room_dec s n : Decision (room s n).
Proof. unfold room. apply _. Defined.
#[local] Instance args_ok_dec s o : Decision (args_ok s o).
Proof. destruct o; cbn; apply _. Defined.
#[local] Instance unsafe_dec s o : Decision (unsafe s o).
Proof. destruct o; cbn; apply _. Defined.

(** [calls_ok], computed. *)
Fixpoint calls_okb (junk : nat → nat → byte) (l : list op) (s : ByteArray) : bool :=
  match l with
  | [] => true
  | o :: l' =>
      bool_decide (args_ok s o) && negb (bool_decide (unsafe s o)) &&
      match observe (exec junk o s) with Some (_, s1) => calls_okb junk l' s1 | None => true end
  end.

Lemma calls_okb_ok junk l : ∀ s, calls_okb junk l s = true → calls_ok junk l s.
Proof.
  induction l as [|o l IH]; intros s H; [done|]. cbn [calls_okb calls_ok] in *.
  apply andb_true_iff in H as [H H3]. apply andb_true_iff in H as [H1 H2]. apply bool_decide_eq_true in H1. split_and!; [done| |].
  - intros Hu. by rewrite bool_decide_eq_true_2 in H2.
  - intros r s1 E. rewrite E in H3. by apply IH.
Qed.

Lemma heap_buffer_refines_witness :
  ∃ rs x s, run_ops (h_exec first_free junk0) program (heap_new first_free junk0 4 others) = Some (rs, x) ∧
    run_ops (exec junk0) program (new_ByteArray junk0 4) = Some (rs, s) ∧ rep others x s ∧ h_destroy x = Ok others x.
Proof.
  apply (heap_buffer_refines first_free junk0 others 4 program); [apply first_free_fresh|lia|].
  apply calls_okb_ok. vm_compute. reflexivity.
Defined.
