(* ===== verification/ByteArrayCodec.v ===== *)
(** * The encoders and decoders of ByteArray (xupeng/bytearray.cc, lines 37-280)

    Fixed-width integers in the configured byte order, base-128 varints,
    zigzag, floats and length-prefixed strings.  The code is proved against
    the [ByteStream] contract, for a host of either byte order: an encoder
    [encodes] a byte string, a decoder [decodes] it, and both compose. *)

From S2P Require Import Prelude Endian ByteStream ByteArray.

Section Codec.
(** [PENG_BYTE_ORDER]. *)
Context (host : endian) {St : Type} `{BS : ByteStream St}.

(** [if (m_endian != PENG_BYTE_ORDER) value = byteswap(value);
    write(&value, sizeof(value));] *)
Definition write_value (T : ctype) (value : Z) : M St unit :=
  s ← get;
  let value := if decide (bs_endian s = host) then value else byteswap T value in
  bs_write (to_mem host T value).

(** Lines 37-81. *)
Definition writeFint8 (value : Z) : M St unit := bs_write (to_mem host int8_t value).
Definition writeFuint8 (value : Z) : M St unit := bs_write (to_mem host uint8_t value).
Definition writeFint16 : Z → M St unit := write_value int16_t.
Definition writeFuint16 : Z → M St unit := write_value uint16_t.
Definition writeFint32 : Z → M St unit := write_value int32_t.
Definition writeFuint32 : Z → M St unit := write_value uint32_t.
Definition writeFint64 : Z → M St unit := write_value int64_t.
Definition writeFuint64 : Z → M St unit := write_value uint64_t.

(** The macro [XX] of lines 181-188. *)
Definition read_value (T : ctype) : M St Z :=
  bs ← bs_read (Z.of_nat (sizeof T));
  let v := of_mem host T bs in
  s ← get;
  mret (if decide (bs_endian s = host) then v else byteswap T v).

(** Lines 169-200. *)
Definition readFint8 : M St Z := bs ← bs_read 1; mret (of_mem host int8_t bs).
Definition readFuint8 : M St Z := bs ← bs_read 1; mret (of_mem host uint8_t bs).
Definition readFint16 : M St Z := read_value int16_t.
Definition readFuint16 : M St Z := read_value uint16_t.
Definition readFint32 : M St Z := read_value int32_t.
Definition readFuint32 : M St Z := read_value uint32_t.
Definition readFint64 : M St Z := read_value int64_t.
Definition readFuint64 : M St Z := read_value uint64_t.

(** Lines 83-89.  [-v] and [v * 2] are signed: [None] is their overflow. *)
Definition EncodeZigzag32 (v : Z) : option Z :=
  if bool_decide (v < 0) then
    if bool_decide (- v < 2 ^ 31) then Some (u32 (u32 (- v) * 2 - 1)) else None
  else if bool_decide (v * 2 < 2 ^ 31) then Some (u32 (v * 2)) else None.

(** Lines 91-97: computed in 64 bits, returned as [uint32_t]. *)
Definition EncodeZigzag64 (v : Z) : option Z :=
  if bool_decide (v < 0) then
    if bool_decide (- v < 2 ^ 63) then Some (u32 (u64 (u64 (- v) * 2 - 1))) else None
  else if bool_decide (v * 2 < 2 ^ 63) then Some (u32 (v * 2)) else None.

(** Lines 99 and 101: [(v >> 1) ^ -(v & 1)] in unsigned arithmetic. *)
Definition DecodeZigzag32 (v : Z) : Z :=
  s32 (Z.lxor (Z.shiftr v 1) (u32 (- Z.land v 1))).
Definition DecodeZigzag64 (v : Z) : Z :=
  s64 (Z.lxor (Z.shiftr v 1) (u64 (- Z.land v 1))).

(** The loop of lines 110-114 and 125-129: the bytes stored in [tmp], which
    has [cap] elements; [None] is a store past its end. *)
Fixpoint varint_bytes (cap : nat) (value : Z) : option (list byte) :=
  match cap with
  | O => None
  | S cap' =>
      if bool_decide (0x80 <= value) then
        bs ← varint_bytes cap' (Z.shiftr value 7);
        Some (byte.of_Z (Z.lor (Z.land value 0x7f) 0x80) :: bs)
      else Some [byte.of_Z value]
  end.

(** Lines 107-116 and 122-131. *)
Definition writeUint32 (value : Z) : M St unit :=
  bs ← of_option "tmp" (varint_bytes 5 value); bs_write bs.
Definition writeUint64 (value : Z) : M St unit :=
  bs ← of_option "tmp" (varint_bytes 10 value); bs_write bs.

(** Lines 103-105 and 118-120. *)
Definition writeInt32 (value : Z) : M St unit :=
  v ← of_option "signed overflow" (EncodeZigzag32 value); writeUint32 v.
Definition writeInt64 (value : Z) : M St unit :=
  v ← of_option "signed overflow" (EncodeZigzag64 value); writeUint64 v.

(** The loops of lines 208-216 and 224-232, [for (i = 0; i < w; i += 7)] with
    [fuel] iterations left: 5 of them for 32 bits, 10 for 64. *)
Fixpoint read_varint (w : Z) (fuel : nat) (i result : Z) : M St Z :=
  match fuel with
  | O => mret result
  | S fuel' =>
      b ← readFuint8;
      if bool_decide (b < 0x80) then mret (Z.lor result (wrapu w (Z.shiftl b i)))
      else read_varint w fuel' (i + 7) (Z.lor result (wrapu w (Z.shiftl (Z.land b 0x7f) i)))
  end.

(** Lines 204-234. *)
Definition readUint32 : M St Z := read_varint 32 5 0 0.
Definition readUint64 : M St Z := read_varint 64 10 0 0.
Definition readInt32 : M St Z := v ← readUint32; mret (DecodeZigzag32 v).
Definition readInt64 : M St Z := v ← readUint64; mret (DecodeZigzag64 v).

(** Lines 133-143 and 236-248: a float is its bit pattern. *)
Definition writeFloat (pattern : Z) : M St unit := writeFuint32 pattern.
Definition writeDouble (pattern : Z) : M St unit := writeFuint64 pattern.
Definition readFloat : M St Z := readFuint32.
Definition readDouble : M St Z := readFuint64.

(** Lines 145-167: the size is converted to the type of the length field. *)
Definition writeStringF16 (value : list byte) : M St unit :=
  writeFuint16 (u16 (zlen value));; bs_write value.
Definition writeStringF32 (value : list byte) : M St unit :=
  writeFuint32 (u32 (zlen value));; bs_write value.
Definition writeStringF64 (value : list byte) : M St unit :=
  writeFuint64 (u64 (zlen value));; bs_write value.
Definition writeStringVint (value : list byte) : M St unit :=
  writeFuint64 (u64 (zlen value));; bs_write value.
Definition writeStringWithoutLength (value : list byte) : M St unit := bs_write value.

(** [buff.resize(len)]: [std::string::max_size] is 2^63 - 1. *)
Definition resize (len : Z) : M St unit :=
  if bool_decide (len < 2 ^ 63) then mret tt else throw (length_error "resize").

(** Lines 250-280. *)
Definition readStringF16 : M St (list byte) := len ← readFuint16; resize len;; bs_read len.
Definition readStringF32 : M St (list byte) := len ← readFuint32; resize len;; bs_read len.
Definition readStringF64 : M St (list byte) := len ← readFuint64; resize len;; bs_read len.
Definition readStringVint : M St (list byte) := len ← readFuint64; resize len;; bs_read len.

(** ** Encoding and decoding relations *)

(** With byte order [e], the call writes [bs] at the cursor. *)
Definition encodes (wr : M St unit) (e : endian) (bs : list byte) : Prop :=
  ∀ s, bs_inv s → bs_endian s = e → bs_room s (zlen bs) →
  ∃ s', wr s = Ok tt s' ∧ bs_inv s' ∧ bs_endian s' = e
        ∧ bs_view s' = put_bytes bs (bs_view s)
        ∧ (∀ n, bs_room s (zlen bs + n) → bs_room s' n).

(** With byte order [e], on a stream whose next bytes are [bs], the call
    consumes exactly [bs] and returns [a]. *)
Definition decodes {A} (rd : M St A) (e : endian) (bs : list byte) (a : A) : Prop :=
  ∀ s rest, bs_inv s → bs_endian s = e → after (bs_view s) = bs ++ rest →
  ∃ s', rd s = Ok a s' ∧ bs_inv s' ∧ bs_endian s' = e
        ∧ bs_view s' = Stream (before (bs_view s) ++ bs) rest.

Lemma encodes_write e bs : encodes (bs_write bs) e bs.
Proof.
  intros s Hi He Hr. destruct (bs_write_ok s bs Hi Hr) as (s' & E & H' & He' & Hv & Hroom).
  exists s'. split_and!; try done. congruence.
Qed.

Lemma encodes_seq w1 w2 e b1 b2 :
  encodes w1 e b1 → encodes w2 e b2 → encodes (w1;; w2) e (b1 ++ b2).
Proof.
  intros H1 H2 s Hi He Hr. rewrite zlen_app in Hr. pose proof (zlen_nonneg b2).
  destruct (H1 s) as (s1 & E1 & Hi1 & He1 & Hv1 & Hr1); [done..|by eapply bs_room_le; [|exact Hr]; lia|].
  destruct (H2 s1) as (s2 & E2 & Hi2 & He2 & Hv2 & Hr2); [auto..|].
  exists s2. mstep E1. split_and!; try done.
  - by rewrite Hv2, Hv1, put_bytes_app.
  - intros n. rewrite zlen_app, <- Z.add_assoc. auto.
Qed.

Lemma decodes_ret {A} e (a : A) : decodes (mret a) e [] a.
Proof.
  intros s rest Hi He Ha. exists s. split_and!; try done.
  rewrite app_nil_r. destruct (bs_view s). by simpl in *; subst.
Qed.

Lemma decodes_bind {A B} (rd : M St A) (k : A → M St B) e b1 b2 a b :
  decodes rd e b1 a → decodes (k a) e b2 b → decodes (rd ≫= k) e (b1 ++ b2) b.
Proof.
  intros H1 H2 s rest Hi He Ha. rewrite <- app_assoc in Ha.
  destruct (H1 s (b2 ++ rest)) as (s1 & E1 & Hi1 & He1 & Hv1); [done..|].
  destruct (H2 s1 rest) as (s2 & E2 & Hi2 & He2 & Hv2); [done..|by rewrite Hv1|].
  exists s2. mstep E1. split_and!; try done. by rewrite Hv2, Hv1; simpl; rewrite app_assoc.
Qed.

Lemma decodes_map {A B} (rd : M St A) (f : A → B) e bs a :
  decodes rd e bs a → decodes (x ← rd; mret (f x)) e bs (f a).
Proof.
  intros H. rewrite <- (app_nil_r bs). eapply decodes_bind; [done|]. apply decodes_ret.
Qed.

Lemma decodes_read e bs : bs ≠ [] → decodes (bs_read (zlen bs)) e bs bs.
Proof.
  intros Hne s rest Hi He Ha.
  assert (0 < zlen bs) by (destruct bs; [done|rewrite zlen_cons; pose proof (zlen_nonneg bs); lia]).
  destruct (bs_read_ok s (zlen bs)) as (s' & E & Hi' & He' & Hv); [done| |].
  { rewrite Ha, zlen_app. pose proof (zlen_nonneg rest). lia. }
  assert (Z.to_nat (zlen bs) = length bs) as Hn by (unfold zlen; lia).
  exists s'. split_and!; [|done|congruence|].
  - by rewrite E, Ha, Hn, take_app_length.
  - rewrite Hv. unfold advance. by rewrite Ha, Hn, take_app_length, drop_app_length.
Qed.
End Codec.

Section CodecProofs.
Context (host : endian) {St : Type} `{BS : ByteStream St}.

Lemma to_mem_nonempty e T v : to_mem e T v ≠ [].
Proof.
  intros H. pose proof (length_to_mem e T v) as Hl. rewrite H in Hl.
  pose proof (sizeof_pos T). simpl in Hl. lia.
Qed.

(** The wire format of a fixed-width integer: its digits in the configured
    order, whatever the host. *)
Lemma write_value_encodes T v e : encodes (write_value host T v) e (to_mem e T v).
Proof.
  intros s Hi He Hr. unfold write_value. mget.
  rewrite He, to_mem_order. by apply encodes_write.
Qed.

Lemma read_value_decodes T v e : decodes (read_value host T) e (to_mem e T v) (cast T v).
Proof.
  rewrite <- (app_nil_r (to_mem e T v)). eapply decodes_bind.
  { rewrite <- (zlen_to_mem e T v). apply decodes_read, to_mem_nonempty. }
  intros s rest Hi He Ha. mget. rewrite He, of_mem_order by apply length_to_mem.
  rewrite of_mem_to_mem. by apply (decodes_ret e).
Qed.

(** One-byte values have one representation. *)
Lemma to_mem_1 e1 e2 T v : sizeof T = 1%nat → to_mem e1 T v = to_mem e2 T v.
Proof. intros H. unfold to_mem. rewrite H. by destruct e1, e2. Qed.

Lemma writeFuint8_encodes v e : encodes (writeFuint8 host v) e (to_mem e uint8_t v).
Proof. rewrite (to_mem_1 e host) by done. apply encodes_write. Qed.

Lemma writeFint8_encodes v e : encodes (writeFint8 host v) e (to_mem e int8_t v).
Proof. rewrite (to_mem_1 e host) by done. apply encodes_write. Qed.

Lemma readFuint8_decodes_byte b e : decodes (readFuint8 host) e [b] (byte.unsigned b).
Proof.
  assert (of_mem host uint8_t [b] = byte.unsigned b) as <-.
  { pose proof (byte.unsigned_range b) as Hr. unfold of_mem. destruct host; simpl rev.
    all: rewrite le_combine_1; apply wrapu_small; unfold bits; simpl; lia. }
  apply (decodes_map (bs_read 1)). by apply (decodes_read e [b]).
Qed.

Lemma readFuint8_decodes v e : decodes (readFuint8 host) e (to_mem e uint8_t v) (cast uint8_t v).
Proof.
  rewrite (to_mem_1 e PENG_LITTLE_ENDIAN) by done.
  assert (byte.unsigned (byte.of_Z v) = cast uint8_t v) as <- by apply byte.unsigned_of_Z.
  apply readFuint8_decodes_byte.
Qed.

Lemma readFint8_decodes v e : decodes (readFint8 host) e (to_mem e int8_t v) (cast int8_t v).
Proof.
  rewrite (to_mem_1 e host) by done. rewrite <- (of_mem_to_mem host).
  apply (decodes_map (bs_read 1)).
  replace 1 with (zlen (to_mem host int8_t v)) by (by rewrite zlen_to_mem).
  apply decodes_read, to_mem_nonempty.
Qed.

(** *** Varints *)

Lemma low7_high v : Z.lor (Z.land v 0x7f) (Z.shiftl (Z.shiftr v 7) 7) = v.
Proof.
  apply Z.bits_inj'. intros i Hi. rewrite Z.lor_spec, Z.land_spec.
  change 0x7f with (Z.ones 7). rewrite Z.testbit_ones_nonneg by lia.
  destruct (Z.ltb_spec i 7).
  - rewrite Z.shiftl_spec_low, andb_true_r, orb_false_r by lia. done.
  - rewrite Z.shiftl_spec, Z.shiftr_spec, andb_false_r by lia. simpl. f_equal. lia.
Qed.

Lemma land_7f_bound v : 0 <= Z.land v 0x7f < 128.
Proof. change 0x7f with (Z.ones 7). rewrite Z.land_ones by lia. apply Z.mod_pos_bound. lia. Qed.

(** A continuation byte: it is at least 0x80 and carries the low seven bits. *)
Lemma continuation_byte v :
  let b := byte.unsigned (byte.of_Z (Z.lor (Z.land v 0x7f) 0x80)) in
  0x80 <= b ∧ Z.land b 0x7f = Z.land v 0x7f.
Proof.
  intros b. pose proof (land_7f_bound v) as Hb.
  assert (Z.lor (Z.land v 0x7f) 0x80 = Z.land v 0x7f + 0x80) as Ho.
  { assert (Z.land (Z.land v 0x7f) 0x80 = 0) as Hz
      by (rewrite <- Z.land_assoc; change (Z.land 0x7f 0x80) with 0; apply Z.land_0_r).
    by rewrite <- Z.lxor_lor, Z.add_nocarry_lxor. }
  unfold b. rewrite byte.unsigned_of_Z. unfold byte.wrap. rewrite Ho, Z.mod_small by lia.
  split; [lia|]. change 0x7f with (Z.ones 7) at 2. rewrite Z.land_ones by lia.
  change 0x80 with (1 * 2 ^ 7). rewrite Z.mod_add, Z.mod_small by lia. done.
Qed.

(** The encoder stores at most [cap] bytes on values of [7 * cap] bits. *)
Lemma varint_bytes_total cap v :
  (0 < cap)%nat → 0 <= v < 2 ^ (7 * Z.of_nat cap) →
  ∃ bs, varint_bytes cap v = Some bs ∧ (length bs <= cap)%nat ∧ bs ≠ [].
Proof.
  revert v. induction cap as [|cap IH]; intros v Hc Hv; [lia|].
  cbn [varint_bytes]. case_bool_decide as Hb.
  - destruct cap as [|cap].
    { simpl in Hv. lia. }
    destruct (IH (Z.shiftr v 7)) as (bs & -> & Hl & _); [lia| |].
    + rewrite Z.shiftr_div_pow2 by lia. split; [apply Z.div_pos; lia|].
      apply Z.div_lt_upper_bound; [lia|]. rewrite <- Z.pow_add_r by lia.
      eapply Z.lt_le_trans; [apply Hv|]. apply Z.pow_le_mono_r; lia.
    + eexists. split_and!; [done|simpl; lia|done].
  - eexists. split_and!; [done|simpl; lia|done].
Qed.

(** The decoder rebuilds the value from what the encoder stored. *)
Lemma read_varint_decodes w cap v bs i result e :
  0 <= i → 0 <= v → Z.shiftl v i < 2 ^ w → varint_bytes cap v = Some bs →
  decodes (read_varint host w cap i result) e bs (Z.lor result (Z.shiftl v i)).
Proof.
  revert v bs i result. induction cap as [|cap IH]; intros v bs i result Hi Hv Hw; [done|].
  cbn [varint_bytes read_varint]. case_bool_decide as Hb.
  - destruct (varint_bytes cap (Z.shiftr v 7)) as [bs'|] eqn:Hbs; [|done].
    intros [= <-]. destruct (continuation_byte v) as [Hge Hland].
    change (?b :: bs') with ([b] ++ bs'). eapply decodes_bind; [apply readFuint8_decodes_byte|].
    rewrite bool_decide_false by lia. rewrite Hland. pose proof (land_7f_bound v).
    assert (Z.shiftl (Z.land v 127) i <= Z.shiftl v i) as Hle.
    { rewrite !Z.shiftl_mul_pow2 by lia. apply Z.mul_le_mono_nonneg_r; [lia|].
      change 127 with (Z.ones 7). rewrite Z.land_ones by lia. apply Z.mod_le; lia. }
    rewrite wrapu_small by (split; [apply Z.shiftl_nonneg; lia|lia]).
    assert (Z.shiftl v i = Z.lor (Z.shiftl (Z.land v 127) i) (Z.shiftl (Z.shiftr v 7) (i + 7))) as Hs.
    { rewrite <- (low7_high v) at 1. rewrite Z.shiftl_lor. f_equal.
      rewrite Z.shiftl_shiftl by lia. f_equal. lia. }
    rewrite Hs, Z.lor_assoc. apply IH; [lia|by apply Z.shiftr_nonneg| |done].
    eapply Z.le_lt_trans; [|exact Hw]. rewrite !Z.shiftl_mul_pow2, Z.shiftr_div_pow2, Z.pow_add_r by lia.
    pose proof (Z.mul_div_le v (2 ^ 7)). pose proof (Z.pow_pos_nonneg 2 i). nia.
  - intros [= <-]. eapply (decodes_bind _ _ _ [_] []); [apply readFuint8_decodes_byte|].
    assert (byte.unsigned (byte.of_Z v) = v) as ->.
    { rewrite byte.unsigned_of_Z. apply Z.mod_small. lia. }
    rewrite bool_decide_true by lia.
    rewrite wrapu_small by (split; [apply Z.shiftl_nonneg|]; lia). apply decodes_ret.
Qed.

Lemma readUint_decodes w cap v bs e :
  0 <= v < 2 ^ w → varint_bytes cap v = Some bs → decodes (read_varint host w cap 0 0) e bs v.
Proof.
  intros Hv Hbs. rewrite <- (Z.shiftl_0_r v), <- (Z.lor_0_l (Z.shiftl v 0)).
  apply read_varint_decodes; [lia|lia|rewrite Z.shiftl_0_r; lia|done].
Qed.

Lemma writeUint32_encodes v e :
  0 <= v < 2 ^ 32 → ∃ bs, encodes (writeUint32 v) e bs ∧ decodes (readUint32 host) e bs v
                          ∧ zlen bs <= 5.
Proof.
  intros Hv. destruct (varint_bytes_total 5 v) as (bs & Hbs & Hl & _); [lia|simpl; lia|].
  exists bs. split_and!; [|by apply readUint_decodes|unfold zlen; lia].
  unfold writeUint32. rewrite Hbs. apply (encodes_write e bs).
Qed.

Lemma writeUint64_encodes v e :
  0 <= v < 2 ^ 64 → ∃ bs, encodes (writeUint64 v) e bs ∧ decodes (readUint64 host) e bs v
                          ∧ zlen bs <= 10.
Proof.
  intros Hv. destruct (varint_bytes_total 10 v) as (bs & Hbs & Hl & _); [lia|simpl; lia|].
  exists bs. split_and!; [|by apply readUint_decodes|unfold zlen; lia].
  unfold writeUint64. rewrite Hbs. apply (encodes_write e bs).
Qed.

(** *** Zigzag *)

Lemma wrapu_lxor_r w a b : 0 <= w → wrapu w (Z.lxor a (wrapu w b)) = wrapu w (Z.lxor a b).
Proof.
  intros Hw. unfold wrapu. apply Z.bits_inj'. intros i Hi. destruct (decide (i < w)).
  - rewrite !Z.mod_pow2_bits_low, !Z.lxor_spec, Z.mod_pow2_bits_low by lia. done.
  - by rewrite !Z.mod_pow2_bits_high by lia.
Qed.

(** Even codes are the non-negative numbers, odd codes the negative ones. *)
Lemma zigzag_decode w v :
  0 < w → wraps w (Z.lxor (Z.shiftr v 1) (wrapu w (- Z.land v 1)))
  = wraps w (if Z.odd v then - (v / 2) - 1 else v / 2).
Proof.
  intros Hw. rewrite <- wraps_wrapu, wrapu_lxor_r, wraps_wrapu by lia. f_equal.
  change 1 with (Z.ones 1) at 2. rewrite Z.land_ones, Z.shiftr_div_pow2 by lia.
  change (2 ^ 1) with 2. rewrite Zmod_odd. destruct (Z.odd v); simpl Z.opp.
  - rewrite Z.lxor_m1_r. unfold Z.lnot. lia.
  - apply Z.lxor_0_r.
Qed.

Lemma odd_2k k : Z.odd (2 * k) = false ∧ 2 * k / 2 = k.
Proof. split; [by rewrite Z.odd_mul|]. rewrite Z.mul_comm. by apply Z.div_mul. Qed.

Lemma odd_2k1 k : Z.odd (2 * k + 1) = true ∧ (2 * k + 1) / 2 = k.
Proof.
  split; [rewrite Z.add_comm; apply Z.odd_add_mul_2|].
  rewrite Z.mul_comm, Z.div_add_l by lia. change (1 / 2) with 0. lia.
Qed.

Lemma zigzag32 v :
  - 2 ^ 31 < v < 2 ^ 30 →
  ∃ z, EncodeZigzag32 v = Some z ∧ 0 <= z < 2 ^ 32 ∧ DecodeZigzag32 z = v.
Proof.
  intros Hv. unfold EncodeZigzag32, DecodeZigzag32. case_bool_decide.
  - rewrite bool_decide_true by lia. rewrite (wrapu_small 32 (- v)), wrapu_small by lia.
    eexists. split_and!; [done|lia..|]. rewrite zigzag_decode by lia.
    replace (- v * 2 - 1) with (2 * (- v - 1) + 1) by lia.
    destruct (odd_2k1 (- v - 1)) as [-> ->]. rewrite wraps_small; lia.
  - rewrite bool_decide_true, wrapu_small by lia.
    eexists. split_and!; [done|lia..|]. rewrite zigzag_decode, Z.mul_comm by lia.
    destruct (odd_2k v) as [-> ->]. apply wraps_small; lia.
Qed.

(** In range of the 32-bit result, the 64-bit encoder is invertible. *)
Lemma zigzag64 v :
  - 2 ^ 31 <= v < 2 ^ 31 →
  ∃ z, EncodeZigzag64 v = Some z ∧ 0 <= z < 2 ^ 32 ∧ DecodeZigzag64 z = v.
Proof.
  intros Hv. unfold EncodeZigzag64, DecodeZigzag64. case_bool_decide.
  - rewrite bool_decide_true by lia. rewrite (wrapu_small 64 (- v)), (wrapu_small 64), wrapu_small by lia.
    eexists. split_and!; [done|lia..|]. rewrite zigzag_decode by lia.
    replace (- v * 2 - 1) with (2 * (- v - 1) + 1) by lia.
    destruct (odd_2k1 (- v - 1)) as [-> ->]. rewrite wraps_small; lia.
  - rewrite bool_decide_true, wrapu_small by lia.
    eexists. split_and!; [done|lia..|]. rewrite zigzag_decode, Z.mul_comm by lia.
    destruct (odd_2k v) as [-> ->]. apply wraps_small; lia.
Qed.

(** *** Strings *)

(** Length prefix of type [T], then the bytes. *)
Lemma string_encodes T value e :
  encodes (write_value host T (wrapu (bits T) (zlen value));; bs_write value) e
          (to_mem e T (wrapu (bits T) (zlen value)) ++ value).
Proof. apply encodes_seq; [apply write_value_encodes|apply encodes_write]. Qed.

Lemma string_decodes T value e :
  is_signed T = false → value ≠ [] → zlen value < 2 ^ Z.min (bits T) 63 →
  decodes (len ← read_value host T; resize len;; bs_read len) e
          (to_mem e T (wrapu (bits T) (zlen value)) ++ value) value.
Proof.
  intros HT Hne Hl. eapply decodes_bind; [apply read_value_decodes|].
  pose proof (zlen_nonneg value). pose proof (bits_pos T).
  assert (2 ^ Z.min (bits T) 63 <= 2 ^ bits T) by (apply Z.pow_le_mono_r; lia).
  assert (2 ^ Z.min (bits T) 63 <= 2 ^ 63) by (apply Z.pow_le_mono_r; lia).
  rewrite cast_wrapu. unfold cast. rewrite HT, wrapu_small by lia.
  unfold resize. rewrite bool_decide_true by lia.
  change value with ([] ++ value) at 2. eapply decodes_bind; [apply decodes_ret|].
  by apply decodes_read.
Qed.
End CodecProofs.


(** ** Round trips through the buffer *)

Section RoundTrip.
Context (junk : nat → nat → byte).
#[local] Existing Instance bytearray_stream.
#[local] Instance stream_junk : ByteStream ByteArray := bytearray_stream junk.

(** Write, go back to where the cursor was, read: the value comes back, the
    cursor is where the write left it and the bytes are unchanged. *)
Definition reads_back {A} (wr : M ByteArray unit) (rd : M ByteArray A) (s : ByteArray) (a : A) :
    Prop :=
  ∃ s1 s2 s3, wr s = Ok tt s1 ∧ setPosition (getPosition s) s1 = Ok tt s2 ∧ rd s2 = Ok a s3
    ∧ wf s3 ∧ getPosition s3 = getPosition s1 ∧ data s3 = data s1.

Lemma reads_back_intro {A} wr (rd : M ByteArray A) bs a s :
  encodes wr (m_endian s) bs → decodes rd (m_endian s) bs a →
  wf s → room s (zlen bs) → reads_back wr rd s a.
Proof.
  intros Hw Hr H Hroom.
  destruct (Hw s) as (s1 & E1 & H1 & He1 & Hv1 & _); [done..|].
  cbn [bs_inv bs_endian bs_view bs_room bytearray_stream stream_junk] in *.
  pose proof (wf_position s H). pose proof (wf_position s1 H1) as Hp1.
  pose proof (wf_size s1 H1) as Hs1.
  assert (m_position s1 = m_position s + zlen bs) as Hpos.
  { rewrite <- (zlen_before s1 H1), Hv1. cbn [before put_bytes]. by rewrite zlen_app, (zlen_before s H). }
  pose proof (zlen_nonneg bs).
  destruct (setPosition_ok s1 (m_position s)) as (s2 & E2 & Hw2 & Hp2 & Hs2 & Hn2 & He2 & _);
    [done|lia|].
  pose proof (view_seek s1 s2 (m_position s)) as Hv2.
  assert (data s1 = before (view s) ++ bs ++ after (view s1)) as Hd1.
  { rewrite <- (contents_view s1), Hv1. apply contents_put_bytes. }
  assert (Z.to_nat (m_position s) = length (before (view s))) as Hlen.
  { pose proof (zlen_before s H) as Hz. unfold zlen in Hz. lia. }
  rewrite Hd1, Hlen, take_app_length, drop_app_length in Hv2.
  specialize (Hv2 ltac:(lia) Hp2 Hs2 Hn2).
  destruct (Hr s2 (after (view s1))) as (s3 & E3 & H3 & He3 & Hv3);
    [done|cbn; congruence|
     cbn [bs_view bytearray_stream stream_junk]; by rewrite Hv2|].
  cbn [bs_inv bs_endian bs_view bs_room bytearray_stream stream_junk] in *.
  exists s1, s2, s3. split_and!; try done.
  - unfold getPosition. rewrite <- (zlen_before s3 H3), Hv3, Hpos, Hv2. cbn [before].
    by rewrite zlen_app, (zlen_before s H).
  - rewrite <- (contents_view s3), Hv3, Hv2. unfold contents; cbn [before after].
    by rewrite Hd1, <- app_assoc.
Qed.
End RoundTrip.

(** The eight fixed-width writers and readers. *)
Definition writeF (host : endian) `{ByteStream St} (T : ctype) : Z → M St unit :=
  match T with
  | int8_t => writeFint8 host | uint8_t => writeFuint8 host
  | int16_t => writeFint16 host | uint16_t => writeFuint16 host
  | int32_t => writeFint32 host | uint32_t => writeFuint32 host
  | int64_t => writeFint64 host | uint64_t => writeFuint64 host
  end.

Definition readF (host : endian) `{ByteStream St} (T : ctype) : M St Z :=
  match T with
  | int8_t => readFint8 host | uint8_t => readFuint8 host
  | int16_t => readFint16 host | uint16_t => readFuint16 host
  | int32_t => readFint32 host | uint32_t => readFuint32 host
  | int64_t => readFint64 host | uint64_t => readFuint64 host
  end.

Lemma writeF_encodes host `{ByteStream St} T v e : encodes (writeF host T v) e (to_mem e T v).
Proof.
  destruct T; try apply write_value_encodes; [apply writeFint8_encodes|apply writeFuint8_encodes].
Qed.

Lemma readF_decodes host `{ByteStream St} T v e :
  decodes (readF host T) e (to_mem e T v) (cast T v).
Proof.
  destruct T; try apply read_value_decodes; [apply readFint8_decodes|apply readFuint8_decodes].
Qed.

(** C5: for each of the eight fixed-width integer types, every value, either host byte order
    and either configured byte order, writing the value and reading it at the old cursor
    gives it back, with the cursor and the bytes as the write left them. *)
Theorem fixed_roundtrip junk host T v s :
  in_type T v → wf s → room s 8 →
  reads_back (writeF host (H := bytearray_stream junk) T v)
             (readF host (H := bytearray_stream junk) T) s v.
Proof.
  intros Hv H Hroom. rewrite <- (cast_id T v Hv) at 2.
  apply (reads_back_intro junk _ _ (to_mem (m_endian s) T v)).
  - apply writeF_encodes.
  - apply readF_decodes.
  - done.
  - rewrite zlen_to_mem. unfold room in *. destruct T; simpl; lia.
Qed.

Lemma fixed_roundtrip_witness :
  in_type int32_t (-70000) ∧ wf ba1 ∧ room ba1 8
  ∧ reads_back (writeF PENG_LITTLE_ENDIAN (H := bytearray_stream junk0) int32_t (-70000))
               (readF PENG_LITTLE_ENDIAN (H := bytearray_stream junk0) int32_t) ba1 (-70000).
Proof.
  assert (in_type int32_t (-70000)) as Ht by (vm_compute; split; congruence).
  assert (room ba1 8) as Hr by (by vm_compute).
  split_and!; [exact Ht|apply ba1_wf|exact Hr|].
  exact (fixed_roundtrip junk0 PENG_LITTLE_ENDIAN int32_t (-70000) ba1 Ht ba1_wf Hr).
Defined.

(** The bytes a fixed-width write appends are the value's digits in the configured byte
    order, independently of the byte order of the host. *)
Theorem fixed_wire_format junk host T v s :
  wf s → room s 8 →
  ∃ s', writeF host (H := bytearray_stream junk) T v s = Ok tt s'
        ∧ wf s' ∧ view s' = put_bytes (to_mem (m_endian s) T v) (view s).
Proof.
  intros H Hroom.
  destruct (writeF_encodes host (H := bytearray_stream junk) T v (m_endian s) s)
    as (s' & E & H' & _ & Hv & _); [done..| |].
  - rewrite zlen_to_mem. simpl. unfold room in *. destruct T; simpl; lia.
  - by exists s'.
Qed.

Lemma fixed_wire_format_witness :
  wf ba0 ∧ room ba0 8
  ∧ ∃ s', writeF PENG_LITTLE_ENDIAN (H := bytearray_stream junk0) uint16_t 0x1234 ba0 = Ok tt s'
          ∧ data s' = bytes [0x12; 0x34].
Proof.
  assert (room ba0 8) as Hr by (by vm_compute).
  split_and!; [apply ba0_wf|exact Hr|].
  destruct (fixed_wire_format junk0 PENG_LITTLE_ENDIAN uint16_t 0x1234 ba0 ba0_wf Hr)
    as (s' & E & _ & Hv).
  exists s'. split; [exact E|]. rewrite <- contents_view, Hv. vm_compute. reflexivity.
Defined.

(** C6: every 32-bit and every 64-bit unsigned value written as a base-128 varint (never
    past the end of the 5- or 10-byte temporary) is read back. *)
Theorem varint_roundtrip junk host v s :
  wf s → room s 10 →
  (0 <= v < 2 ^ 32 →
   reads_back (writeUint32 (BS := bytearray_stream junk) v)
              (readUint32 host (BS := bytearray_stream junk)) s v)
  ∧ (0 <= v < 2 ^ 64 →
   reads_back (writeUint64 (BS := bytearray_stream junk) v)
              (readUint64 host (BS := bytearray_stream junk)) s v).
Proof.
  intros H Hroom. split; intros Hv.
  - destruct (writeUint32_encodes host (BS := bytearray_stream junk) v (m_endian s) Hv)
      as (bs & He & Hd & Hl).
    apply (reads_back_intro junk _ _ bs); try done. unfold room in *; lia.
  - destruct (writeUint64_encodes host (BS := bytearray_stream junk) v (m_endian s) Hv)
      as (bs & He & Hd & Hl).
    apply (reads_back_intro junk _ _ bs); try done. unfold room in *; lia.
Qed.

Lemma varint_roundtrip_witness :
  wf ba1 ∧ room ba1 10
  ∧ reads_back (writeUint64 (BS := bytearray_stream junk0) (2 ^ 64 - 1))
      (readUint64 PENG_LITTLE_ENDIAN (BS := bytearray_stream junk0)) ba1 (2 ^ 64 - 1).
Proof.
  assert (room ba1 10) as Hr by (by vm_compute).
  split_and!; [apply ba1_wf|exact Hr|].
  apply (varint_roundtrip junk0 PENG_LITTLE_ENDIAN (2 ^ 64 - 1) ba1 ba1_wf Hr). lia.
Defined.

(** [writeInt32] and [readInt32] round-trip every value above -2^31 and below 2^30, and
    writeInt64/readInt64 every value that fits in 32 signed bits. *)
Theorem zigzag_roundtrip junk host v s :
  wf s → room s 10 →
  (- 2 ^ 31 < v < 2 ^ 30 →
   reads_back (writeInt32 (BS := bytearray_stream junk) v)
              (readInt32 host (BS := bytearray_stream junk)) s v)
  ∧ (- 2 ^ 31 <= v < 2 ^ 31 →
   reads_back (writeInt64 (BS := bytearray_stream junk) v)
              (readInt64 host (BS := bytearray_stream junk)) s v).
Proof.
  intros H Hroom. split; intros Hv.
  - destruct (zigzag32 v Hv) as (z & Ez & Hz & Hdec).
    destruct (writeUint32_encodes host (BS := bytearray_stream junk) z (m_endian s) Hz)
      as (bs & He & Hd & Hl).
    apply (reads_back_intro junk _ _ bs); [|rewrite <- Hdec; by apply decodes_map|done|].
    + unfold writeInt32. by rewrite Ez.
    + unfold room in *; lia.
  - destruct (zigzag64 v Hv) as (z & Ez & Hz & Hdec).
    destruct (writeUint64_encodes host (BS := bytearray_stream junk) z (m_endian s))
      as (bs & He & Hd & Hl); [lia|].
    apply (reads_back_intro junk _ _ bs); [|rewrite <- Hdec; by apply decodes_map|done|].
    + unfold writeInt64. by rewrite Ez.
    + unfold room in *; lia.
Qed.

Lemma zigzag_roundtrip_witness :
  wf ba1 ∧ room ba1 10
  ∧ reads_back (writeInt64 (BS := bytearray_stream junk0) (- 2 ^ 31))
      (readInt64 PENG_LITTLE_ENDIAN (BS := bytearray_stream junk0)) ba1 (- 2 ^ 31).
Proof.
  assert (room ba1 10) as Hr by (by vm_compute).
  split_and!; [apply ba1_wf|exact Hr|].
  apply (zigzag_roundtrip junk0 PENG_LITTLE_ENDIAN (- 2 ^ 31) ba1 ba1_wf Hr). lia.
Defined.

(** Finding: [EncodeZigzag64] returns [uint32_t], so 64-bit values lose their
    high half: 2^40 is read back as 0. *)
Example writeInt64_truncates :
  ∃ s, (writeInt64 (BS := bytearray_stream junk0) (2 ^ 40);; setPosition 0;;
        readInt64 PENG_LITTLE_ENDIAN (BS := bytearray_stream junk0)) ba0 = Ok 0 s.
Proof. eexists. vm_compute. reflexivity. Qed.

(** Finding: [v * 2] overflows [int32_t] from 2^30 on. *)
Example writeInt32_overflow :
  writeInt32 (BS := bytearray_stream junk0) (2 ^ 30) ba0 = Undef "signed overflow".
Proof. vm_compute. reflexivity. Qed.

(** C7: a non-empty string is read back by each of the four length-prefixed formats, the 16-
    and 32-bit ones for lengths that fit their prefix. *)
Theorem string_roundtrip junk host value s :
  value ≠ [] → wf s → room s (8 + zlen value) →
  (zlen value < 2 ^ 16 →
   reads_back (writeStringF16 host (BS := bytearray_stream junk) value)
              (readStringF16 host (BS := bytearray_stream junk)) s value)
  ∧ (zlen value < 2 ^ 32 →
   reads_back (writeStringF32 host (BS := bytearray_stream junk) value)
              (readStringF32 host (BS := bytearray_stream junk)) s value)
  ∧ reads_back (writeStringF64 host (BS := bytearray_stream junk) value)
              (readStringF64 host (BS := bytearray_stream junk)) s value
  ∧ reads_back (writeStringVint host (BS := bytearray_stream junk) value)
              (readStringVint host (BS := bytearray_stream junk)) s value.
Proof.
  intros Hne H Hroom.
  assert (∀ T, is_signed T = false → zlen value < 2 ^ Z.min (bits T) 63 →
    reads_back (write_value host (BS := bytearray_stream junk) T (wrapu (bits T) (zlen value));;
                bs_write (ByteStream := bytearray_stream junk) value)
      (len ← read_value host (BS := bytearray_stream junk) T; resize len;;
       bs_read (ByteStream := bytearray_stream junk) len) s value) as Hgen.
  { intros T HT Hl. eapply (reads_back_intro junk).
    - apply (string_encodes host (BS := bytearray_stream junk)).
    - by apply (string_decodes host (BS := bytearray_stream junk)).
    - done.
    - rewrite zlen_app, zlen_to_mem. unfold room in *. destruct T; simpl; lia. }
  pose proof (wf_position s H). pose proof (wf_base s H). unfold room in Hroom.
  split_and!; [intros Hl..| |].
  - by apply (Hgen uint16_t).
  - by apply (Hgen uint32_t).
  - apply (Hgen uint64_t); [done|]. change (2 ^ Z.min (bits uint64_t) 63) with (2 ^ 63). lia.
  - apply (Hgen uint64_t); [done|]. change (2 ^ Z.min (bits uint64_t) 63) with (2 ^ 63). lia.
Qed.

Lemma string_roundtrip_witness :
  bytes [104; 105] ≠ [] ∧ wf ba1 ∧ room ba1 (8 + zlen (bytes [104; 105]))
  ∧ reads_back (writeStringF16 PENG_LITTLE_ENDIAN (BS := bytearray_stream junk0) (bytes [104; 105]))
      (readStringF16 PENG_LITTLE_ENDIAN (BS := bytearray_stream junk0)) ba1 (bytes [104; 105]).
Proof.
  assert (bytes [104; 105] ≠ []) as Hne by discriminate.
  assert (room ba1 (8 + zlen (bytes [104; 105]))) as Hr by (by vm_compute).
  split_and!; [exact Hne|apply ba1_wf|exact Hr|].
  destruct (string_roundtrip junk0 PENG_LITTLE_ENDIAN (bytes [104; 105]) ba1 Hne ba1_wf Hr) as [H16 _].
  apply H16. by vm_compute.
Defined.

(** Finding: an empty string whose length field ends exactly at the end of the
    last node cannot be read back: [read] dereferences the null [m_cur]. *)
Example readStringF32_empty_at_end :
  (writeStringF32 PENG_LITTLE_ENDIAN (BS := bytearray_stream junk0) [];; setPosition 0;;
   readStringF32 PENG_LITTLE_ENDIAN (BS := bytearray_stream junk0)) ba0 = Undef "m_cur is null".
Proof. vm_compute. reflexivity. Qed.

(** ** Varints on arbitrary bytes *)

(** What the format says of a byte sequence, without reference to the loops:
    the bytes of a varint are those up to and including the first one below
    0x80, and at most [max] of them; [None] when the sequence ends before. *)
Fixpoint varint_prefix (max : nat) (bs : list byte) : option (list byte) :=
  match max, bs with
  | O, _ => Some []
  | S _, [] => None
  | S max', b :: bs' =>
      if bool_decide (byte.unsigned b < 128) then Some [b]
      else p ← varint_prefix max' bs'; Some (b :: p)
  end.

(** Their value: seven bits a byte, the first byte the least significant. *)
Fixpoint base128 (bs : list byte) : Z :=
  match bs with
  | [] => 0
  | b :: bs' => byte.unsigned b mod 128 + 128 * base128 bs'
  end.

(** The number of a zigzag code: 0, -1, 1, -2, 2, ... *)
Definition unzigzag (z : Z) : Z := if Z.odd z then - (z / 2) - 1 else z / 2.

Section Varints.
Context (host : endian) {St : Type} `{BS : ByteStream St}.

(** On any bytes after the cursor, the call consumes the varint that starts
    there and returns [f] of its value, or consumes them all and throws. *)
Definition reads_varint (rd : M St Z) (max : nat) (f : Z → Z) (s : St) : Prop :=
  match varint_prefix max (after (bs_view s)) with
  | Some p => ∃ rest s', after (bs_view s) = p ++ rest ∧ rd s = Ok (f (base128 p)) s'
      ∧ bs_inv s' ∧ bs_endian s' = bs_endian s
      ∧ bs_view s' = Stream (before (bs_view s) ++ p) rest
  | None => ∃ s', rd s = Throw (out_of_range "not enough len") s'
      ∧ bs_inv s' ∧ bs_endian s' = bs_endian s
      ∧ bs_view s' = Stream (before (bs_view s) ++ after (bs_view s)) []
  end.

Lemma wrapu_lor w a b : 0 <= w → Z.lor (wrapu w a) (wrapu w b) = wrapu w (Z.lor a b).
Proof.
  intros Hw. unfold wrapu. apply Z.bits_inj'. intros i Hi. destruct (decide (i < w)).
  - by rewrite Z.lor_spec, !Z.mod_pow2_bits_low, Z.lor_spec by lia.
  - by rewrite Z.lor_spec, !Z.mod_pow2_bits_high by lia.
Qed.

Lemma lor_shiftl_add r g i : 0 <= i → 0 <= r < 2 ^ i → Z.lor r (Z.shiftl g i) = r + g * 2 ^ i.
Proof.
  intros Hi Hr. rewrite <- Z.shiftl_mul_pow2 by done.
  assert (Z.land r (Z.shiftl g i) = 0) as Hz.
  { apply Z.bits_inj'. intros j Hj. rewrite Z.land_spec, Z.bits_0. destruct (decide (j < i)).
    - by rewrite (Z.shiftl_spec_low g), andb_false_r by lia.
    - rewrite <- (Z.mod_small r (2 ^ i)), Z.mod_pow2_bits_high by lia. done. }
  by rewrite <- Z.lxor_lor, Z.add_nocarry_lxor.
Qed.

(** One iteration adds seven bits to the [i] bits read so far. *)
Lemma varint_group w r b i : 0 <= w → 0 <= i → 0 <= r < 2 ^ i →
  Z.lor (wrapu w r) (wrapu w (Z.shiftl (Z.land b 0x7f) i)) = wrapu w (r + b mod 128 * 2 ^ i)
  ∧ 0 <= r + b mod 128 * 2 ^ i < 2 ^ (i + 7).
Proof.
  intros Hw Hi Hr. rewrite wrapu_lor by done. change 0x7f with (Z.ones 7).
  rewrite Z.land_ones, lor_shiftl_add by lia. change (2 ^ 7) with 128. split; [done|].
  rewrite Z.pow_add_r by lia. pose proof (Z.mod_pos_bound b 128). nia.
Qed.

Lemma read_varint_reads w fuel : 0 <= w → ∀ i r s, 0 <= i → 0 <= r < 2 ^ i → bs_inv s →
  reads_varint (read_varint host w fuel i (wrapu w r)) fuel (λ v, wrapu w (r + v * 2 ^ i)) s.
Proof.
  intros Hw. induction fuel as [|fuel IH]; intros i r s Hi Hr Hs; unfold reads_varint.
  { simpl. eexists _, s. split_and!; [done|simpl; do 2 f_equal; lia|done..|].
    rewrite app_nil_r. by destruct (bs_view s). }
  destruct (after (bs_view s)) as [|b bs] eqn:Ha; simpl.
  { exists s. rewrite app_nil_r. split_and!; [|done..|by destruct (bs_view s); simpl in *; subst].
    apply bind_throw, bind_throw, bs_read_short; [done|rewrite Ha; done]. }
  destruct (readFuint8_decodes_byte host b (bs_endian s) s bs) as (s1 & E1 & Hs1 & He1 & Hv1); [done..|].
  rewrite (bind_ok _ _ _ _ _ E1). destruct (varint_group w r (byte.unsigned b) i) as [Hg Hb]; [done..|].
  pose proof (byte.unsigned_range b) as Hub. case_bool_decide as Hlt.
  { eexists bs, s1. split_and!; [done| |done..]. cbn [base128].
    replace (r + _ * 2 ^ i) with (r + byte.unsigned b mod 128 * 2 ^ i) by lia. rewrite <- Hg.
    change 0x7f with (Z.ones 7). rewrite Z.land_ones, (Z.mod_small (byte.unsigned b) (2 ^ 7)) by lia. done. }
  rewrite Hg. pose proof (IH (i + 7) _ s1 ltac:(lia) Hb Hs1) as H. unfold reads_varint in H.
  rewrite Hv1 in H. simpl in H. destruct (varint_prefix fuel bs) as [p|]; simpl.
  - destruct H as (rest & s2 & -> & E2 & H2 & He2 & Hv2). eexists rest, s2.
    split_and!; [done| |done|congruence|by rewrite Hv2, <- app_assoc].
    rewrite E2. do 2 f_equal. rewrite Z.pow_add_r by lia. change (2 ^ 7) with 128. lia.
  - destruct H as (s2 & E2 & H2 & He2 & Hv2). exists s2.
    split_and!; [done|done|congruence|by rewrite Hv2, <- app_assoc].
Qed.

Lemma reads_varint_map rd max f g s :
  reads_varint rd max f s → reads_varint (v ← rd; mret (g v)) max (λ v, g (f v)) s.
Proof.
  unfold reads_varint. destruct (varint_prefix max _) as [p|].
  - intros (rest & s' & Hp & E & H). exists rest, s'. split; [done|]. by rewrite (bind_ok _ _ _ _ _ E).
  - intros (s' & E & H). exists s'. split; [|done]. by apply bind_throw.
Qed.

Lemma reads_varint_ext rd max f g s :
  (∀ v, f v = g v) → reads_varint rd max f s → reads_varint rd max g s.
Proof.
  intros Hfg. unfold reads_varint. destruct (varint_prefix max _) as [p|]; [|done]. by rewrite Hfg.
Qed.
End Varints.

Lemma unzigzag_range w v : 0 < w → wraps w (unzigzag (wrapu w v)) = unzigzag (wrapu w v).
Proof.
  intros Hw. pose proof (wrapu_range w v). apply wraps_small; [done|]. unfold unzigzag.
  assert (2 ^ w = 2 * 2 ^ (w - 1)) as E by (rewrite <- Z.pow_succ_r by lia; f_equal; lia).
  assert (0 <= wrapu w v / 2 < 2 ^ (w - 1)).
  { split; [apply Z.div_pos; lia|]. apply Z.div_lt_upper_bound; lia. }
  case_match; lia.
Qed.

(** C8: on any bytes after the cursor of a well-formed buffer, readUint32 and readUint64
    consume exactly the bytes up to the first one below 0x80, at most 5 and 10 of them, and
    return the number whose base-128 digits those bytes carry, least significant first,
    modulo 2^32 and 2^64; readInt32 and readInt64 return the number with that zigzag code;
    when the bytes run out before, all four throw out_of_range with the cursor at the end.
    *)
Theorem varint_readers junk host s : wf s →
  let BS := bytearray_stream junk in
  reads_varint (readUint32 host (BS := BS)) 5 (λ v, v mod 2 ^ 32) s
  ∧ reads_varint (readUint64 host (BS := BS)) 10 (λ v, v mod 2 ^ 64) s
  ∧ reads_varint (readInt32 host (BS := BS)) 5 (λ v, unzigzag (v mod 2 ^ 32)) s
  ∧ reads_varint (readInt64 host (BS := BS)) 10 (λ v, unzigzag (v mod 2 ^ 64)) s.
Proof.
  intros H BS.
  assert (∀ w fuel, 0 <= w → reads_varint (read_varint host w fuel 0 0 (BS := BS)) fuel (wrapu w) s) as Hr.
  { intros w fuel Hw. eapply reads_varint_ext; [|apply (read_varint_reads host w fuel Hw 0 0 s); [lia..|exact H]].
    intros v. cbv beta. f_equal. lia. }
  split_and!; [by apply Hr..| |].
  - eapply reads_varint_ext; [|eapply reads_varint_map, (Hr 32 5%nat); lia].
    intros v. cbv beta. unfold DecodeZigzag32. rewrite zigzag_decode by lia. by apply (unzigzag_range 32).
  - eapply reads_varint_ext; [|eapply reads_varint_map, (Hr 64 10%nat); lia].
    intros v. cbv beta. unfold DecodeZigzag64. rewrite zigzag_decode by lia. by apply (unzigzag_range 64).
Qed.

(** Five bytes with all bits set have the value 2^35 - 1, of which 32 bits
    are kept; the sixth byte is left unread. *)
Lemma varint_readers_witness :
  ∃ s s', wf s ∧ readUint32 PENG_LITTLE_ENDIAN (BS := bytearray_stream junk0) s = Ok (2 ^ 32 - 1) s'
    ∧ after (view s') = bytes [7].
Proof.
  destruct (bs_write_ok (ByteStream := bytearray_stream junk0) ba1 (bytes [255; 255; 255; 255; 255; 7]))
    as (s1 & E1 & H1 & _ & _); [exact ba1_wf|by vm_compute|].
  destruct (setPosition_ok s1 1) as (s2 & E2 & H2 & _); [exact H1| |].
  { clear -E1. vm_compute in E1. injection E1 as <-. by vm_compute. }
  destruct (varint_readers junk0 PENG_LITTLE_ENDIAN s2 H2) as [Hr _].
  clear H1. vm_compute in E1. injection E1 as <-. vm_compute in E2. injection E2 as <-.
  unfold reads_varint in Hr. set (p := varint_prefix 5 _) in Hr.
  assert (p = Some (bytes [255; 255; 255; 255; 255])) as Hp by (vm_compute; reflexivity).
  rewrite Hp in Hr. destruct Hr as (rest & s' & Hrest & E & _ & _ & Hv).
  eexists _, s'. split_and!; [exact H2|exact E|]. cbn [bs_view bytearray_stream] in Hv. rewrite Hv.
  vm_compute in Hrest. by injection Hrest as <-.
Defined.
