(* ===== verification/Util.v ===== *)
(** * Utilities (util.h, util.cc)

    The clocks over the [timeval] that [gettimeofday] fills in, the text of a
    backtrace over what [backtrace_symbols] returns, and the removal of a file
    over the names that exist.  [GetThreadId] and [GetFiberId] are a system
    call and the identifier of the running fiber. *)

From S2P Require Import Prelude.

(** [tv_sec] and [tv_usec] are [long]; the literal of [GetCurrentUS] makes the
    product unsigned. *)
Definition GetCurrentMS (tv_sec tv_usec : Z) : Z := u64 (tv_sec * 1000 + Z.quot tv_usec 1000).
Definition GetCurrentUS (tv_sec tv_usec : Z) : Z := u64 (u64 (tv_sec * 1000) * 1000 + tv_usec).

(** [Backtrace]: the frames after the first [skip] are appended to [bt].
    [strings] is what [backtrace_symbols] returned for the [s] frames that
    [backtrace] found; a null pointer is logged and then followed. *)
Definition Backtrace (strings : option (list text)) (s skip : Z) : M (list text) unit :=
  let first := u64 skip in
  match strings with
  | None => if s <=? first then mret tt else undef "strings is null"
  | Some l => modify (λ bt, bt ++ drop (Z.to_nat first) l)
  end.

Definition newline : text := [Ascii.ascii_of_N 10].

Definition BacktraceToString (strings : option (list text)) (s skip : Z) (prefix : text) : M (list text) text :=
  put [];;
  Backtrace strings s skip;;
  bt ← get;
  mret (concat ((λ b, prefix ++ b ++ newline) <$> bt)).

(** [FSUtil::Unlink] over the names that exist; [__lstat] fails for a name
    that does not, and so does [unlink]. *)
Definition Unlink (filename : text) (exist : bool) : M (gset text) bool :=
  files ← get;
  if negb exist && negb (bool_decide (filename ∈ files)) then mret true
  else if bool_decide (filename ∈ files) then put (files ∖ {[ filename ]});; mret true
  else mret false.

(** ** The clocks *)

(** A time before the year 292000, as [gettimeofday] stores it. *)
Definition time_ok (tv_sec tv_usec : Z) : Prop := 0 <= tv_sec < 9223372036854 ∧ 0 <= tv_usec < 1000000.

Lemma clock_values sec usec : time_ok sec usec →
  GetCurrentMS sec usec = sec * 1000 + usec / 1000 ∧ GetCurrentUS sec usec = sec * 1000000 + usec.
Proof.
  intros [Hs Hu]. unfold GetCurrentMS, GetCurrentUS. rewrite Z.quot_div_nonneg by lia.
  assert (0 <= usec / 1000 < 1000) by (split; [apply Z.div_pos; lia|apply Z.div_lt_upper_bound; lia]).
  assert (2 ^ 64 = 18446744073709551616) as Hw by done.
  rewrite (wrapu_small 64 (sec * 1000)) by (rewrite Hw; lia). rewrite !wrapu_small by (rewrite Hw; lia). lia.
Qed.

(** The millisecond clock is the microsecond clock divided by 1000, and both
    order times as [timeval]s. *)
Theorem clocks_agree sec usec sec' usec' : time_ok sec usec → time_ok sec' usec' →
  GetCurrentMS sec usec = GetCurrentUS sec usec / 1000 ∧
  (GetCurrentUS sec usec < GetCurrentUS sec' usec' ↔ sec < sec' ∨ (sec = sec' ∧ usec < usec')).
Proof.
  intros H H'. destruct (clock_values _ _ H) as [-> ->], (clock_values _ _ H') as [_ ->].
  destruct H as [Hs Hu], H' as [Hs' Hu']. split; [|lia].
  replace (sec * 1000000 + usec) with (sec * 1000 * 1000 + usec) by lia. rewrite Z.div_add_l by lia. done.
Qed.

(** ** Files *)

(** [Unlink] leaves no file of that name and no other changed; without
    [exist] it always succeeds. *)
Theorem Unlink_spec filename exist files :
  Unlink filename exist files =
  Ok (negb exist || bool_decide (filename ∈ files)) (files ∖ {[ filename ]}).
Proof.
  unfold Unlink. rewrite bind_get. case_bool_decide as H.
  - rewrite andb_false_r, orb_true_r. done.
  - rewrite orb_false_r. assert (files ∖ {[ filename ]} = files) as -> by set_solver. by destruct exist.
Qed.

(** The first two frames are left out, and a missing table of symbols is
    followed. *)
Example backtrace_skips :
  BacktraceToString (Some [txt "a"; txt "b"; txt "c"]) 3 2 (txt "> ") [] = Ok (txt "> c" ++ newline) [txt "c"] ∧
  Backtrace None 3 2 [] = Undef "strings is null".
Proof. split; reflexivity. Qed.
