(* ===== verification/Timer.v ===== *)
(** * Timers (timer.h, timer.cc)

    A [Timer] is a heap object shared by its user and by the manager, so the
    model keeps a heap of timers by address, and the manager's ordered set
    [m_timers] holds addresses in the order of [Timer::Comparator].  Every
    operation takes the value [GetCurrentMS] returns to it as [now] and, where
    the code allocates, the address the allocator returns.  Times are
    [uint64_t]: sums and differences wrap.  One operation is one critical
    section of [m_mutex]. *)

From S2P Require Import Prelude.

Abbreviation ptr := Z (only parsing).

(** What a [std::function<void()>] of a timer holds: a function of the user,
    or [std::bind(&OnTimer, weak_cond, cb)]; an empty function is [None]. *)
Inductive callback :=
| Fn (id : Z)
| BindOnTimer (weak_cond : Z) (cb : option callback).

Record Timer := mkTimer {
  m_recurring : bool;
  m_ms : Z;
  m_next : Z;
  m_cb : option callback
}.

Record TimerManager := mkTM {
  m_timers : list ptr;
  m_tickled : bool;
  m_previouseTime : Z;
  heap : gmap ptr Timer;
  (** number of [onTimerInsertedAtFront] calls made so far *)
  tickles : nat
}.

Definition set_timers (l : list ptr) (s : TimerManager) : TimerManager :=
  mkTM l (m_tickled s) (m_previouseTime s) (heap s) (tickles s).
Definition set_tickled (b : bool) (s : TimerManager) : TimerManager :=
  mkTM (m_timers s) b (m_previouseTime s) (heap s) (tickles s).
Definition set_previous (z : Z) (s : TimerManager) : TimerManager :=
  mkTM (m_timers s) (m_tickled s) z (heap s) (tickles s).
Definition set_obj (p : ptr) (t : Timer) (s : TimerManager) : TimerManager :=
  mkTM (m_timers s) (m_tickled s) (m_previouseTime s) (<[p := t]> (heap s)) (tickles s).
Definition onTimerInsertedAtFront (s : TimerManager) : TimerManager :=
  mkTM (m_timers s) (m_tickled s) (m_previouseTime s) (heap s) (S (tickles s)).

(** ** The ordered set *)

Definition deref (h : gmap ptr Timer) (p : ptr) : Timer :=
  default (mkTimer false 0 0 None) (h !! p).

Definition Comparator (h : gmap ptr Timer) (lhs rhs : option ptr) : bool :=
  match lhs, rhs with
  | None, None => false
  | None, Some _ => true
  | Some _, None => false
  | Some l, Some r =>
      if m_next (deref h l) <? m_next (deref h r) then true
      else if m_next (deref h r) <? m_next (deref h l) then false
      else l <? r
  end.

Definition less (h : gmap ptr Timer) (p q : ptr) : bool := Comparator h (Some p) (Some q).

(** [std::set::insert]: an element equivalent to [x] is kept. *)
Fixpoint set_insert (h : gmap ptr Timer) (x : ptr) (l : list ptr) : list ptr :=
  match l with
  | [] => [x]
  | y :: r => if less h x y then x :: y :: r
              else if less h y x then y :: set_insert h x r
              else y :: r
  end.

(** [std::set::find], [None] being [end()]. *)
Fixpoint set_find (h : gmap ptr Timer) (x : ptr) (l : list ptr) : option nat :=
  match l with
  | [] => None
  | y :: r => if negb (less h x y) && negb (less h y x) then Some 0%nat
              else S <$> set_find h x r
  end.

Fixpoint prefix_len (f : ptr → bool) (l : list ptr) : nat :=
  match l with
  | [] => 0
  | x :: r => if f x then S (prefix_len f r) else 0
  end.

(** [std::set::lower_bound] as the number of elements before it. *)
Definition lower_bound (h : gmap ptr Timer) (x : ptr) (l : list ptr) : nat :=
  prefix_len (λ y, less h y x) l.

Definition erase (it : option nat) : M TimerManager unit :=
  match it with
  | None => undef "erase(end())"
  | Some i => modify (λ s, set_timers (delete i (m_timers s)) s)
  end.

Definition find_timer (p : ptr) : M TimerManager (option nat) :=
  gets (λ s, set_find (heap s) p (m_timers s)).

(** ** TimerManager *)

Definition new_TimerManager (now : Z) : TimerManager := mkTM [] false now ∅ 0.

Definition new_Timer (p : ptr) (ms : Z) (cb : option callback) (recurring : bool) (now : Z) :
    M TimerManager unit :=
  modify (set_obj p (mkTimer recurring ms (u64 (now + ms)) cb)).

Definition Timer_at (next : Z) : Timer := mkTimer false 0 next None.

(** [addTimer(val, lock)], called with the lock held. *)
Definition addTimer_locked (val : ptr) : M TimerManager unit :=
  modify (λ s, set_timers (set_insert (heap s) val (m_timers s)) s);;
  s ← get;
  let at_front := bool_decide (head (m_timers s) = Some val) && negb (m_tickled s) in
  when at_front (modify (set_tickled true));;
  when at_front (modify onTimerInsertedAtFront).

Definition addTimer (p : ptr) (ms : Z) (cb : option callback) (recurring : bool) (now : Z) :
    M TimerManager ptr :=
  new_Timer p ms cb recurring now;;
  addTimer_locked p;;
  mret p.

Definition addConditionTimer (p : ptr) (ms : Z) (cb : option callback) (weak_cond : Z)
    (recurring : bool) (now : Z) : M TimerManager ptr :=
  addTimer p ms (Some (BindOnTimer weak_cond cb)) recurring now.

(** Calling a timer's function: [alive w] says that [w.lock()] is not null.
    The result is the user function called, if any; calling an empty function
    throws [std::bad_function_call]. *)
Fixpoint OnTimer (alive : Z → bool) (cb : callback) : option (option Z) :=
  match cb with
  | Fn id => Some (Some id)
  | BindOnTimer w c =>
      if alive w then match c with Some c' => OnTimer alive c' | None => None end
      else Some None
  end.

Definition cancel (p : ptr) : M TimerManager bool :=
  s ← get;
  match m_cb (deref (heap s) p) with
  | Some _ =>
      let t := deref (heap s) p in
      modify (set_obj p (mkTimer (m_recurring t) (m_ms t) (m_next t) None));;
      it ← find_timer p;
      erase it;;
      mret true
  | None => mret false
  end.

Definition refresh (p : ptr) (now : Z) : M TimerManager bool :=
  s ← get;
  let t := deref (heap s) p in
  match m_cb t with
  | None => mret false
  | Some _ =>
      it ← find_timer p;
      match it with
      | None => mret false
      | Some _ =>
          erase it;;
          modify (set_obj p (mkTimer (m_recurring t) (m_ms t) (u64 (now + m_ms t)) (m_cb t)));;
          modify (λ s, set_timers (set_insert (heap s) p (m_timers s)) s);;
          mret true
      end
  end.

Definition reset (p : ptr) (ms : Z) (from_now : bool) (now : Z) : M TimerManager bool :=
  s ← get;
  let t := deref (heap s) p in
  if (ms =? m_ms t) && negb from_now then mret true
  else match m_cb t with
  | None => mret false
  | Some _ =>
      it ← find_timer p;
      match it with
      | None => mret false
      | Some _ =>
          erase it;;
          let start := if from_now then now else u64 (m_next t - m_ms t) in
          modify (set_obj p (mkTimer (m_recurring t) ms (u64 (start + ms)) (m_cb t)));;
          addTimer_locked p;;
          mret true
      end
  end.

Definition getNextTimer (now : Z) : M TimerManager Z :=
  modify (set_tickled false);;
  s ← get;
  match m_timers s with
  | [] => mret (2 ^ 64 - 1)
  | p :: _ =>
      let next := m_next (deref (heap s) p) in
      if next <=? now then mret 0 else mret (u64 (next - now))
  end.

Definition detectClockRollover (now : Z) : M TimerManager bool :=
  s ← get;
  let prev := m_previouseTime s in
  modify (set_previous now);;
  mret ((now <? prev) && (now <? u64 (prev - 60 * 60 * 1000))).

(** The loop over the expired timers. *)
Fixpoint expire_loop (now : Z) (expired : list ptr) (cbs : list (option callback)) :
    M TimerManager (list (option callback)) :=
  match expired with
  | [] => mret cbs
  | p :: r =>
      s ← get;
      let t := deref (heap s) p in
      (if m_recurring t then
         modify (set_obj p (mkTimer (m_recurring t) (m_ms t) (u64 (now + m_ms t)) (m_cb t)));;
         modify (λ s, set_timers (set_insert (heap s) p (m_timers s)) s)
       else
         modify (set_obj p (mkTimer (m_recurring t) (m_ms t) (m_next t) None)));;
      expire_loop now r (cbs ++ [m_cb t])
  end.

(** [now_timer] lives at [pnow] only while the call compares with it. *)
Definition listExpiredCb (pnow : ptr) (now : Z) (cbs : list (option callback)) :
    M TimerManager (list (option callback)) :=
  s ← get;
  match m_timers s with
  | [] => mret cbs
  | p :: _ =>
      rollover ← detectClockRollover now;
      if negb rollover && (now <? m_next (deref (heap s) p)) then mret cbs
      else
        let h := <[pnow := Timer_at now]> (heap s) in
        let l := m_timers s in
        let it := if rollover : bool then length l else lower_bound h pnow l in
        let it := (it + prefix_len (λ q, Z.eqb (m_next (deref h q)) now) (drop it l))%nat in
        modify (set_timers (drop it l));;
        expire_loop now (take it l) cbs
  end.

Definition hasTimer : M TimerManager bool :=
  gets (λ s, match m_timers s with [] => false | _ => true end).

(** The last user reference to a timer outside the set goes away. *)
Definition release (p : ptr) : M TimerManager unit :=
  modify (λ s, mkTM (m_timers s) (m_tickled s) (m_previouseTime s) (delete p (heap s)) (tickles s)).

(** ** The comparator is a strict total order, the set operations keep it *)

Definition key (h : gmap ptr Timer) (p : ptr) : Z := m_next (deref h p).

Lemma less_spec h p q :
  less h p q = true ↔ key h p < key h q ∨ (key h p = key h q ∧ p < q).
Proof. unfold less, Comparator, key. repeat case_match; lia. Qed.

Lemma less_equiv h p q : less h p q = false → less h q p = false → p = q.
Proof.
  intros H1 H2. destruct (decide (p = q)) as [|Hne]; [done|].
  destruct (decide (key h p < key h q ∨ (key h p = key h q ∧ p < q))) as [H|H].
  - apply less_spec in H. congruence.
  - assert (less h q p = true) by (apply less_spec; lia). congruence.
Qed.

#[global] Instance less_trans h : Transitive (λ p q, less h p q = true).
Proof. intros x y z. rewrite !less_spec. lia. Qed.

Definition ordered (h : gmap ptr Timer) (l : list ptr) : Prop :=
  StronglySorted (λ p q, less h p q = true) l.

Lemma key_insert_ne h p q t : p ≠ q → key (<[p := t]> h) q = key h q.
Proof. intros. unfold key, deref. by rewrite lookup_insert_ne. Qed.

Lemma key_insert_eq h p t : key (<[p := t]> h) p = m_next t.
Proof. unfold key, deref. by rewrite lookup_insert_eq. Qed.

Lemma less_ext h h' p q : key h p = key h' p → key h q = key h' q → less h p q = less h' p q.
Proof. unfold less, Comparator, key. by intros -> ->. Qed.

Lemma ordered_ext h h' l : (∀ p, p ∈ l → key h p = key h' p) → ordered h l → ordered h' l.
Proof.
  intros He. induction 1 as [|x l Hl IH Hx]; constructor.
  - apply IH. intros. apply He. by right.
  - rewrite list.Forall_forall in Hx |- *. intros y Hy.
    rewrite <- (less_ext h h'); [by apply Hx|..]; apply He; set_solver.
Qed.

Lemma ordered_insert_obj h l p t : p ∉ l → ordered h l → ordered (<[p := t]> h) l.
Proof.
  intros Hp. apply ordered_ext. intros q Hq. symmetry. apply key_insert_ne. by intros ->.
Qed.

Lemma ordered_NoDup h l : ordered h l → NoDup l.
Proof.
  induction 1 as [|x l Hl IH Hx]; constructor; [|done].
  intros Hin. rewrite list.Forall_forall in Hx. pose proof (Hx x Hin) as Hl'%less_spec. lia.
Qed.

Lemma elem_of_set_insert h x l q : q ∈ set_insert h x l ↔ q = x ∨ q ∈ l.
Proof.
  induction l as [|y r IH]; simpl; [set_solver|].
  destruct (less h x y) eqn:E1; [set_solver|].
  destruct (less h y x) eqn:E2; [set_solver|].
  pose proof (less_equiv h x y E1 E2) as ->. set_solver.
Qed.

Lemma ordered_set_insert h x l : ordered h l → ordered h (set_insert h x l).
Proof.
  induction 1 as [|y r Hr IH Hy]; simpl; [by repeat constructor|].
  destruct (less h x y) eqn:E1.
  - repeat constructor; try done.
    eapply list.Forall_impl; [exact Hy|]. intros z Hz. by apply (less_trans h x y z).
  - destruct (less h y x) eqn:E2; [|by constructor].
    constructor; [done|]. rewrite list.Forall_forall in Hy |- *. intros z.
    rewrite elem_of_set_insert. intros [->|Hz]; auto.
Qed.

Lemma set_find_Some h x l i : set_find h x l = Some i → l !! i = Some x.
Proof.
  revert i. induction l as [|y r IH]; intros i; simpl; [done|].
  destruct (negb (less h x y) && negb (less h y x)) eqn:E.
  - intros [= <-]. apply andb_true_iff in E as [E1 E2].
    simpl. f_equal. symmetry. apply (less_equiv h); by apply negb_true_iff.
  - intros (j & Hj & ->)%fmap_Some. by apply IH.
Qed.

Lemma set_find_elem h x l : x ∈ l → ∃ i, set_find h x l = Some i.
Proof.
  induction l as [|y r IH]; [set_solver|]. simpl. intros Hin.
  destruct (negb (less h x y) && negb (less h y x)) eqn:E; [eauto|].
  apply elem_of_cons in Hin as [->|Hin].
  - assert (less h y y = false) as Hi.
    { destruct (less h y y) eqn:Hi; [apply less_spec in Hi; lia|done]. }
    rewrite Hi in E. done.
  - destruct (IH Hin) as [i ->]. by exists (S i).
Qed.

Lemma ordered_app h l1 l2 :
  ordered h (l1 ++ l2) ↔
  (∀ p q, p ∈ l1 → q ∈ l2 → less h p q = true) ∧ ordered h l1 ∧ ordered h l2.
Proof. apply StronglySorted_app. Qed.

(** Erasing what [find] returned removes that element and no other. *)
Lemma delete_found h l x i :
  ordered h l → l !! i = Some x →
  ordered h (delete i l) ∧ ∀ q, q ∈ delete i l ↔ q ∈ l ∧ q ≠ x.
Proof.
  intros Hl Hi. pose proof (ordered_NoDup h l Hl) as Hnd.
  pose proof (take_drop_middle l i x Hi) as Hm. rewrite delete_take_drop.
  rewrite <- Hm in Hl, Hnd. apply ordered_app in Hl as (H3 & H1 & H2).
  apply StronglySorted_inv in H2 as [H2 H2'].
  split.
  - apply ordered_app. split_and!; [|done|done]. intros p q Hp Hq. apply H3; [done|by right].
  - intros q. rewrite <- Hm at 3.
    apply list.NoDup_app in Hnd as (Hn1 & Hn2 & Hn3). apply list.NoDup_cons in Hn3 as [Hn3 _].
    rewrite !elem_of_app, elem_of_cons. split.
    + intros [Hq|Hq]; (split; [tauto|]); intros ->; [|done]. by apply (Hn2 x Hq); left.
    + naive_solver.
Qed.

(** ** Invariant *)

Definition u64_ok (z : Z) : Prop := 0 <= z < 2 ^ 64.

Record wf (s : TimerManager) : Prop := {
  wf_ordered : ordered (heap s) (m_timers s);
  wf_alive : ∀ p, p ∈ m_timers s → is_Some (heap s !! p);
  wf_cb : ∀ p t, heap s !! p = Some t → is_Some (m_cb t) → p ∈ m_timers s;
  wf_u64 : ∀ p t, heap s !! p = Some t → u64_ok (m_next t) ∧ u64_ok (m_ms t)
}.

Lemma u64_ok_wrap z : u64_ok (u64 z).
Proof. by apply wrapu_range. Qed.

Lemma deref_eq h p t : h !! p = Some t → deref h p = t.
Proof. unfold deref. by intros ->. Qed.

(** The invariant while the timers of [out] have been taken out of the set. *)
Record wf_but (out : list ptr) (s : TimerManager) : Prop := {
  but_ordered : ordered (heap s) (m_timers s);
  but_out : ∀ p, p ∈ out → p ∉ m_timers s;
  but_alive : ∀ p, p ∈ m_timers s → is_Some (heap s !! p);
  but_cb : ∀ p t, heap s !! p = Some t → is_Some (m_cb t) → p ∈ m_timers s ∨ p ∈ out;
  but_u64 : ∀ p t, heap s !! p = Some t → u64_ok (m_next t) ∧ u64_ok (m_ms t)
}.

Lemma wf_but_nil s : wf_but [] s → wf s.
Proof. intros []. split; try done. intros p t Hp Hc. destruct (but_cb0 p t Hp Hc); set_solver. Qed.

(** Re-keying a timer that is out of the set and inserting it: what
    [addTimer], [refresh], [reset] and the expiry loop share. *)
Lemma wf_insert out s p t :
  wf_but (p :: out) s → p ∉ out → u64_ok (m_next t) → u64_ok (m_ms t) →
  let s1 := set_obj p t s in
  wf_but out (set_timers (set_insert (heap s1) p (m_timers s1)) s1).
Proof.
  intros [Ho Hp Ha Hcb Hu] Hout Hn Hm.
  split; cbn [heap m_timers set_timers set_obj].
  - apply ordered_set_insert, ordered_insert_obj; [|done]. apply Hp. by left.
  - intros q Hq. rewrite elem_of_set_insert. intros [->|Hq']; [done|].
    apply (Hp q); [by right|done].
  - intros q. rewrite elem_of_set_insert. intros [->|Hq].
    + rewrite lookup_insert_eq. eauto.
    + rewrite lookup_insert_ne; [auto|]. intros <-. apply (Hp p); [by left|done].
  - intros q u Hq Hs. rewrite elem_of_set_insert.
    destruct (decide (q = p)) as [->|Hne]; [by left; left|].
    rewrite lookup_insert_ne in Hq by done. destruct (Hcb q u Hq Hs); set_solver.
  - intros q u Hq. destruct (decide (q = p)) as [->|Hne].
    + rewrite lookup_insert_eq in Hq. by simplify_eq.
    + rewrite lookup_insert_ne in Hq by done. eauto.
Qed.

(** Clearing the callback of a timer that stays out. *)
Lemma wf_drop out s p t :
  wf_but (p :: out) s → m_cb t = None → u64_ok (m_next t) → u64_ok (m_ms t) →
  wf_but out (set_obj p t s).
Proof.
  intros [Ho Hp Ha Hcb Hu] Hc Hn Hm.
  split; cbn [heap m_timers set_timers set_obj].
  - apply ordered_insert_obj; [|done]. apply Hp. by left.
  - intros q Hq. apply Hp. by right.
  - intros q Hq. rewrite lookup_insert_ne; [auto|]. intros <-. apply (Hp p); [by left|done].
  - intros q u Hq Hs. destruct (decide (q = p)) as [->|Hne].
    + rewrite lookup_insert_eq in Hq. simplify_eq. rewrite Hc in Hs. by destruct Hs.
    + rewrite lookup_insert_ne in Hq by done. destruct (Hcb q u Hq Hs); set_solver.
  - intros q u Hq. destruct (decide (q = p)) as [->|Hne].
    + rewrite lookup_insert_eq in Hq. by simplify_eq.
    + rewrite lookup_insert_ne in Hq by done. eauto.
Qed.

Lemma wf_tickle s b n :
  wf s → wf (mkTM (m_timers s) b (m_previouseTime s) (heap s) n).
Proof. intros []. by split. Qed.

Lemma wf_previous s z : wf s → wf (set_previous z s).
Proof. intros []. by split. Qed.

(** ** What each operation does *)

Definition at_front (p : ptr) (s : TimerManager) : bool :=
  bool_decide (head (m_timers s) = Some p) && negb (m_tickled s).

(** The tickle that follows an insertion. *)
Definition tickle (p : ptr) (s : TimerManager) : TimerManager :=
  if at_front p s then onTimerInsertedAtFront (set_tickled true s) else s.

Definition inserted (p : ptr) (s : TimerManager) : TimerManager :=
  set_timers (set_insert (heap s) p (m_timers s)) s.

Lemma addTimer_locked_run p s : addTimer_locked p s = Ok tt (tickle p (inserted p s)).
Proof.
  unfold addTimer_locked, tickle, inserted, at_front. mrun. cbn [set_timers m_timers m_tickled].
  by destruct (bool_decide _ && _).
Qed.

Lemma tickle_timers p s : m_timers (tickle p s) = m_timers s.
Proof. unfold tickle. by case_match. Qed.
Lemma tickle_heap p s : heap (tickle p s) = heap s.
Proof. unfold tickle. by case_match. Qed.
Lemma tickle_previous p s : m_previouseTime (tickle p s) = m_previouseTime s.
Proof. unfold tickle. by case_match. Qed.
Lemma tickle_wf p s : wf s → wf (tickle p s).
Proof. unfold tickle. intros. case_match; [by apply (wf_tickle s)|done]. Qed.

(** The set with [p] taken out. *)
Definition taken_out (p : ptr) (s s' : TimerManager) : Prop :=
  ∃ l, s' = set_timers l s ∧ ordered (heap s) l ∧ ∀ q, q ∈ l ↔ q ∈ m_timers s ∧ q ≠ p.

Lemma erase_found s p :
  ordered (heap s) (m_timers s) → p ∈ m_timers s →
  ∃ i s', set_find (heap s) p (m_timers s) = Some i ∧
    erase (Some i) s = Ok tt s' ∧ taken_out p s s'.
Proof.
  intros Ho Hp. destruct (set_find_elem (heap s) p _ Hp) as [i Hi].
  destruct (delete_found _ _ _ _ Ho (set_find_Some _ _ _ _ Hi)) as [Ho' Hq].
  eexists i, _. split_and!; [done|done|]. by eexists.
Qed.

(** What an operation on the timer [p] leaves: [p] has become [t], every other
    timer is as it was and in the set if it was. *)
Record moved (p : ptr) (t : Timer) (s s' : TimerManager) : Prop := {
  moved_heap : heap s' = <[p := t]> (heap s);
  moved_in : p ∈ m_timers s' ↔ is_Some (m_cb t);
  moved_other : ∀ q, q ≠ p → q ∈ m_timers s' ↔ q ∈ m_timers s;
  moved_previous : m_previouseTime s' = m_previouseTime s
}.

Lemma reinsert_wf s s1 p t :
  wf s → taken_out p s s1 → u64_ok (m_next t) → u64_ok (m_ms t) → is_Some (m_cb t) →
  wf (inserted p (set_obj p t s1)) ∧ moved p t s (inserted p (set_obj p t s1)).
Proof.
  intros Hwf (l & -> & Ho & Hl) Hn Hm Hs. split.
  - apply wf_but_nil, (wf_insert [] (set_timers l s)); [|set_solver|done|done].
    split; cbn [heap m_timers set_timers]; try done.
    + intros q [->|[]%not_elem_of_nil]%elem_of_cons. rewrite Hl. tauto.
    + intros q [Hq _]%Hl. by apply (wf_alive s Hwf).
    + intros q u Hq Hc. destruct (decide (q = p)) as [->|Hne]; [by right; left|left].
      apply Hl. split; [|done]. by eapply wf_cb.
    + apply (wf_u64 s Hwf).
  - split; cbn [inserted set_obj set_timers heap m_timers m_previouseTime]; [done|..].
    + rewrite elem_of_set_insert. tauto.
    + intros q Hq. rewrite elem_of_set_insert, Hl. tauto.
    + done.
Qed.

Definition cleared (t : Timer) : Timer := mkTimer (m_recurring t) (m_ms t) (m_next t) None.
Definition restarted (now : Z) (t : Timer) : Timer :=
  mkTimer (m_recurring t) (m_ms t) (u64 (now + m_ms t)) (m_cb t).

Lemma key_cleared h p t q : h !! p = Some t → key (<[p := cleared t]> h) q = key h q.
Proof.
  intros H. destruct (decide (q = p)) as [->|Hne]; [|by apply key_insert_ne].
  rewrite key_insert_eq. unfold key. by rewrite (deref_eq h p t H).
Qed.

Lemma cancel_run s p t :
  wf s → heap s !! p = Some t → is_Some (m_cb t) →
  ∃ s', cancel p s = Ok true s' ∧ wf s' ∧ moved p (cleared t) s s' ∧
        m_tickled s' = m_tickled s ∧ tickles s' = tickles s.
Proof.
  intros Hwf Hp [f Hf]. pose proof (wf_cb s Hwf p t Hp ltac:(eauto)) as Hin.
  set (s1 := set_obj p (cleared t) s).
  assert (ordered (heap s1) (m_timers s1)) as Ho.
  { apply (ordered_ext (heap s)); [|apply Hwf]. intros q _. symmetry. by apply key_cleared. }
  destruct (erase_found s1 p Ho Hin) as (i & s2 & Hi & He & l & -> & Hl & Hq).
  exists (set_timers l s1). split_and!; [| | |done|done].
  - unfold cancel. mget. rewrite (deref_eq _ _ _ Hp), Hf.
    rewrite bind_modify. fold (cleared t). fold s1. unfold find_timer, gets.
    unfold mbind at 1. unfold M_bind at 1. rewrite Hi. by mstep He.
  - subst s1. cbn [m_timers set_obj heap] in *. split; cbn [heap m_timers set_timers set_obj].
    + done.
    + intros q [Hq1 _]%Hq. destruct (decide (q = p)) as [->|Hne].
      * rewrite lookup_insert_eq. eauto.
      * rewrite lookup_insert_ne by done. by apply (wf_alive s).
    + intros q u Hqu Hs. apply Hq. destruct (decide (q = p)) as [->|Hne].
      * rewrite lookup_insert_eq in Hqu. simplify_eq. by destruct Hs.
      * rewrite lookup_insert_ne in Hqu by done. split; [by eapply wf_cb|done].
    + intros q u Hqu. destruct (decide (q = p)) as [->|Hne].
      * rewrite lookup_insert_eq in Hqu. simplify_eq. by apply (wf_u64 s Hwf p t).
      * rewrite lookup_insert_ne in Hqu by done. by apply (wf_u64 s Hwf q).
  - split; cbn; [done| | |done].
    + rewrite Hq. split; [naive_solver|]. by intros [? ?].
    + intros q Hne. rewrite Hq. cbn. tauto.
Qed.

Lemma refresh_run s p t now :
  wf s → heap s !! p = Some t → is_Some (m_cb t) →
  ∃ s', refresh p now s = Ok true s' ∧ wf s' ∧ moved p (restarted now t) s s' ∧
        m_tickled s' = m_tickled s ∧ tickles s' = tickles s.
Proof.
  intros Hwf Hp [f Hf]. pose proof (wf_cb s Hwf p t Hp ltac:(eauto)) as Hin.
  destruct (erase_found s p (wf_ordered s Hwf) Hin) as (i & s1 & Hi & He & Ht).
  pose proof (reinsert_wf s s1 p (restarted now t) Hwf Ht (u64_ok_wrap _)
    (proj2 (wf_u64 s Hwf p t Hp)) ltac:(cbn; eauto)) as [Hwf' Hmv].
  eexists. split_and!; [|exact Hwf'|exact Hmv|..].
  - unfold refresh. mget. rewrite (deref_eq _ _ _ Hp), Hf.
    unfold find_timer, gets. unfold mbind at 1. unfold M_bind at 1. rewrite Hi. mstep He.
    rewrite !bind_modify. unfold restarted. by rewrite Hf.
  - by destruct Ht as (l & -> & _).
  - by destruct Ht as (l & -> & _).
Qed.

Definition reset_to (ms : Z) (from_now : bool) (now : Z) (t : Timer) : Timer :=
  mkTimer (m_recurring t) ms
    (u64 ((if from_now then now else u64 (m_next t - m_ms t)) + ms)) (m_cb t).

Lemma reset_run s p t ms from_now now :
  wf s → heap s !! p = Some t → is_Some (m_cb t) → u64_ok ms →
  (ms = m_ms t ∧ from_now = false ∧ reset p ms from_now now s = Ok true s) ∨
  ∃ s1, reset p ms from_now now s = Ok true (tickle p s1) ∧ wf s1 ∧
        moved p (reset_to ms from_now now t) s s1 ∧
        m_tickled s1 = m_tickled s ∧ tickles s1 = tickles s.
Proof.
  intros Hwf Hp [f Hf] Hms. unfold reset. mget. rewrite (deref_eq _ _ _ Hp).
  destruct ((ms =? m_ms t) && negb from_now) eqn:E.
  { left. apply andb_true_iff in E as [E1 E2]. split_and!; [lia|by destruct from_now|done]. }
  right. pose proof (wf_cb s Hwf p t Hp ltac:(eauto)) as Hin.
  destruct (erase_found s p (wf_ordered s Hwf) Hin) as (i & s1 & Hi & He & Ht).
  pose proof (reinsert_wf s s1 p (reset_to ms from_now now t) Hwf Ht (u64_ok_wrap _)
    Hms ltac:(cbn; eauto)) as [Hwf' Hmv].
  eexists. split_and!; [|exact Hwf'|exact Hmv|..].
  - rewrite Hf. unfold find_timer, gets. unfold mbind at 1. unfold M_bind at 1. rewrite Hi.
    mstep He. rewrite bind_modify.
    rewrite (bind_ok _ _ _ _ _ (addTimer_locked_run _ _)). unfold reset_to. by rewrite Hf.
  - by destruct Ht as (l & -> & _).
  - by destruct Ht as (l & -> & _).
Qed.

Lemma addTimer_run s p ms cb recurring now :
  wf s → heap s !! p = None → u64_ok ms →
  let s1 := inserted p (set_obj p (mkTimer recurring ms (u64 (now + ms)) cb) s) in
  addTimer p ms cb recurring now s = Ok p (tickle p s1) ∧ wf s1 ∧
  (∀ q, q ∈ m_timers s1 ↔ q = p ∨ q ∈ m_timers s).
Proof.
  intros Hwf Hp Hms s1. split_and!.
  - unfold addTimer, new_Timer. rewrite bind_modify.
    by rewrite (bind_ok _ _ _ _ _ (addTimer_locked_run _ _)).
  - apply wf_but_nil, wf_insert; [|set_solver|apply u64_ok_wrap|done].
    destruct Hwf. split; try done.
    + intros q [->|[]%not_elem_of_nil]%elem_of_cons Hin.
      destruct (wf_alive0 p Hin). congruence.
    + eauto.
  - intros q. apply elem_of_set_insert.
Qed.

(** *** Expiry *)

Definition expired_obj (now : Z) (t : Timer) : Timer :=
  if m_recurring t then restarted now t else cleared t.

(** The state after the expiry loop over [es]. *)
Record expired_to (now : Z) (es : list ptr) (s s' : TimerManager) : Prop := {
  exp_timers : ∀ q, q ∈ m_timers s' ↔
    q ∈ m_timers s ∨ (q ∈ es ∧ m_recurring (deref (heap s) q) = true);
  exp_heap : ∀ q, heap s' !! q =
    if decide (q ∈ es) then expired_obj now <$> heap s !! q else heap s !! q;
  exp_same : m_tickled s' = m_tickled s ∧ tickles s' = tickles s ∧
             m_previouseTime s' = m_previouseTime s
}.

Lemma deref_insert_ne h p q t : q ≠ p → deref (<[p := t]> h) q = deref h q.
Proof. intros. unfold deref. by rewrite lookup_insert_ne by done. Qed.

Lemma expire_step_wf now p es s t :
  wf_but (p :: es) s → p ∉ es → heap s !! p = Some t →
  let s1 := if m_recurring t then inserted p (set_obj p (restarted now t) s)
            else set_obj p (cleared t) s in
  wf_but es s1 ∧ heap s1 = <[p := expired_obj now t]> (heap s) ∧
  (∀ q, q ∈ m_timers s1 ↔ (q = p ∧ m_recurring t = true) ∨ q ∈ m_timers s) ∧
  m_tickled s1 = m_tickled s ∧ tickles s1 = tickles s ∧ m_previouseTime s1 = m_previouseTime s.
Proof.
  intros Hwf Hp Ht s1. pose proof (but_u64 _ _ Hwf p t Ht) as [Hn Hm]. subst s1.
  unfold expired_obj. destruct (m_recurring t) eqn:Er.
  - split_and!; try done.
    + apply wf_insert; [done|done|apply u64_ok_wrap|done].
    + intros q. cbn [inserted set_timers m_timers set_obj].
      rewrite elem_of_set_insert. tauto.
  - split_and!; try done.
    + by apply wf_drop.
    + intros q. cbn [m_timers set_obj]. naive_solver.
Qed.

Lemma expire_loop_run now es : ∀ cbs s,
  wf_but es s → NoDup es → (∀ p, p ∈ es → is_Some (heap s !! p)) →
  ∃ s', expire_loop now es cbs s = Ok (cbs ++ ((λ p, m_cb (deref (heap s) p)) <$> es)) s' ∧
        wf s' ∧ expired_to now es s s'.
Proof.
  induction es as [|p es IH]; intros cbs s Hwf Hnd Ha.
  { exists s. split_and!; [by rewrite app_nil_r|by apply wf_but_nil|].
    split; [|done|done]. set_solver. }
  apply list.NoDup_cons in Hnd as [Hp Hnd]. destruct (Ha p ltac:(by left)) as [t Ht].
  destruct (expire_step_wf now p es s t Hwf Hp Ht) as (Hwf1 & Hh & Hm & Hk & Htk & Hpr).
  set (s1 := if m_recurring t then _ else _) in *.
  destruct (IH (cbs ++ [m_cb t]) s1 Hwf1 Hnd) as (s' & Hrun & Hwf' & He).
  { intros q Hq. rewrite Hh, lookup_insert_ne by (by intros <-). apply Ha. by right. }
  exists s'. split_and!; [|done|].
  - simpl. mget. rewrite (deref_eq _ _ _ Ht). rewrite (bind_ok _ _ _ tt s1).
    2: { subst s1. unfold restarted, cleared. by destruct (m_recurring t). }
    rewrite Hrun, <- app_assoc. simpl. do 3 f_equal.
    apply list_fmap_ext. intros i q Hq%list_elem_of_lookup_2. rewrite Hh.
    rewrite deref_insert_ne; [done|]. by intros ->.
  - destruct He as [He1 He2 (He3 & He4 & He5)]. split; [| |split_and!; congruence].
    + intros q. rewrite He1, Hm, elem_of_cons, Hh.
      destruct (decide (q = p)) as [->|Hne].
      * rewrite (deref_eq _ _ _ Ht). naive_solver.
      * rewrite deref_insert_ne by done. naive_solver.
    + intros q. rewrite He2, Hh. destruct (decide (q = p)) as [->|Hne].
      * rewrite decide_False by done. rewrite decide_True by (by left).
        by rewrite lookup_insert_eq, Ht.
      * rewrite lookup_insert_ne by done.
        destruct (decide (q ∈ es)); [rewrite decide_True by (by right)|
          rewrite decide_False by set_solver]; done.
Qed.

Lemma prefix_len_take f l x : x ∈ take (prefix_len f l) l → f x = true.
Proof.
  induction l as [|y l IH]; simpl; [set_solver|].
  destruct (f y) eqn:E; simpl; [|set_solver]. intros [->|H]%elem_of_cons; auto.
Qed.

Lemma prefix_len_drop f l x r : drop (prefix_len f l) l = x :: r → f x = false.
Proof.
  induction l as [|y l IH]; simpl; [done|].
  destruct (f y) eqn:E; simpl; [done|]. by intros [= <- <-].
Qed.

Lemma prefix_len_all f l : (∀ x, x ∈ l → f x = true) → prefix_len f l = length l.
Proof.
  induction l as [|y l IH]; intros H; simpl; [done|].
  rewrite (H y) by (by left). f_equal. apply IH. set_solver.
Qed.

(** The timers [listExpiredCb] finds due: all of them after a clock rollover. *)
Definition rolled (now : Z) (s : TimerManager) : bool :=
  (now <? m_previouseTime s) && (now <? u64 (m_previouseTime s - 3600000)).

Definition due (now : Z) (s : TimerManager) : list ptr :=
  if rolled now s then m_timers s else filter (λ p, key (heap s) p <= now) (m_timers s).

(** The iterator the code computes. *)
Definition cut (h : gmap ptr Timer) (pnow : ptr) (now : Z) (l : list ptr) (it : nat) : nat :=
  it + prefix_len (λ q, Z.eqb (m_next (deref h q)) now) (drop it l).

Lemma ordered_tail h x l y : ordered h (x :: l) → y ∈ l → key h x <= key h y.
Proof.
  intros [_ Hx]%StronglySorted_inv Hy. rewrite list.Forall_forall in Hx.
  pose proof (Hx y Hy) as H%less_spec. lia.
Qed.

(** The cut separates the timers due at [now] from the later ones. *)
Lemma cut_due h pnow now l :
  m_next (deref h pnow) = now → ordered h l →
  let n := cut h pnow now l (lower_bound h pnow l) in
  (∀ q, q ∈ take n l → key h q <= now) ∧ (∀ q, q ∈ drop n l → now < key h q).
Proof.
  intros Hnow Ho n. set (it := lower_bound h pnow l) in n.
  set (f := λ q, Z.eqb (m_next (deref h q)) now) in n.
  assert (n = it + prefix_len f (drop it l))%nat as Hn by done. split.
  - intros q. rewrite Hn, <- take_take_drop, elem_of_app. intros [Hq|Hq].
    + apply prefix_len_take, less_spec in Hq. unfold key in *. lia.
    + apply prefix_len_take in Hq. unfold f, key in *. lia.
  - rewrite Hn, <- drop_drop. intros q Hq.
    pose proof Ho as Ho'. rewrite <- (take_drop it l) in Ho'.
    apply ordered_app in Ho' as (_ & _ & Hd).
    destruct (drop it l) as [|z r] eqn:Ed; [set_solver|].
    apply prefix_len_drop in Ed as Hz. clear Hn n.
    assert (now <= key h z) as Hkz.
    { destruct (decide (now <= key h z)) as [|Hlt]; [done|].
      assert (less h z pnow = true) as Hc by (apply less_spec; unfold key in *; lia).
      by rewrite Hc in Hz. }
    assert (∀ y, y ∈ z :: r → now <= key h y) as Hge.
    { intros y [->|Hy]%elem_of_cons; [done|]. pose proof (ordered_tail _ _ _ _ Hd Hy). lia. }
    destruct (drop (prefix_len f (z :: r)) (z :: r)) as [|y r'] eqn:Ey; [set_solver|].
    apply prefix_len_drop in Ey as Hy. unfold f in Hy.
    rewrite <- (take_drop (prefix_len f (z :: r)) (z :: r)), Ey in Hd, Hge.
    apply ordered_app in Hd as (_ & _ & Hd).
    assert (now <= key h y) by (apply Hge; set_solver).
    assert (now < key h y) by (unfold key in *; lia).
    apply elem_of_cons in Hq as [->|Hq]; [done|].
    pose proof (ordered_tail _ _ _ _ Hd Hq). lia.
Qed.

Lemma filter_cut (f : ptr → Prop) `{!∀ x, Decision (f x)} l1 l2 :
  (∀ q, q ∈ l1 → f q) → (∀ q, q ∈ l2 → ¬ f q) → filter f (l1 ++ l2) = l1.
Proof.
  intros H1 H2. induction l1 as [|x l1 IH]; simpl.
  - induction l2 as [|y l2 IH2]; [done|]. rewrite filter_cons_False by (apply H2; by left).
    apply IH2. set_solver.
  - rewrite filter_cons_True by (apply H1; by left). f_equal. apply IH. set_solver.
Qed.

Lemma filter_none (f : ptr → Prop) `{!∀ x, Decision (f x)} l :
  (∀ q, q ∈ l → ¬ f q) → filter f l = [].
Proof. apply (filter_cut f []). set_solver. Qed.

(** What [listExpiredCb] takes out of the set. *)
Lemma expired_due s pnow now :
  wf s → heap s !! pnow = None →
  let h := <[pnow := Timer_at now]> (heap s) in
  let it := if rolled now s then length (m_timers s) else lower_bound h pnow (m_timers s) in
  take (cut h pnow now (m_timers s) it) (m_timers s) = due now s.
Proof.
  intros Hwf Hp h it. unfold due. subst it. destruct (rolled now s).
  { unfold cut. rewrite drop_all. simpl. rewrite Nat.add_0_r. apply firstn_all. }
  set (l := m_timers s).
  assert (pnow ∉ l) as Hnin by (intros Hin; destruct (wf_alive s Hwf _ Hin); congruence).
  assert (∀ q, q ∈ l → key h q = key (heap s) q) as Hk.
  { intros q Hq. apply key_insert_ne. by intros <-. }
  destruct (cut_due h pnow now l) as [H1 H2].
  { unfold h, deref. by rewrite lookup_insert_eq. }
  { apply ordered_insert_obj; [done|apply Hwf]. }
  set (n := cut _ _ _ _ _) in *.
  rewrite <- (take_drop n l) at 2. symmetry. apply filter_cut.
  - intros q Hq. rewrite <- Hk; [by apply H1|]. by eapply subseteq_take.
  - intros q Hq. rewrite <- Hk; [by apply Z.lt_nge, H2|]. by eapply subseteq_drop.
Qed.

Lemma due_subseteq now s : ∀ q, q ∈ due now s → q ∈ m_timers s.
Proof. intros q. unfold due. case_match; [done|]. by intros [_ ?]%list_elem_of_filter. Qed.

Lemma due_sorted now s :
  wf s → StronglySorted (λ p q, key (heap s) p <= key (heap s) q) (due now s).
Proof.
  intros [Ho _ _ _]. unfold due. induction Ho as [|x l Hl IH Hx].
  { destruct (rolled now s); constructor. }
  assert (∀ y, y ∈ l → key (heap s) x <= key (heap s) y) as Hxy.
  { rewrite list.Forall_forall in Hx. intros y Hy. pose proof (Hx y Hy) as H%less_spec. lia. }
  destruct (rolled now s).
  - constructor; [done|]. by apply list.Forall_forall.
  - destruct (decide (key (heap s) x <= now)).
    + rewrite filter_cons_True by done. constructor; [done|].
      apply list.Forall_forall. intros y [_ Hy]%list_elem_of_filter. auto.
    + by rewrite filter_cons_False by done.
Qed.

(** State after [listExpiredCb], whichever way it returns. *)
Record expiry (now : Z) (s s' : TimerManager) : Prop := {
  expiry_timers : ∀ q, q ∈ m_timers s' ↔
    (q ∈ m_timers s ∧ q ∉ due now s) ∨
    (q ∈ due now s ∧ m_recurring (deref (heap s) q) = true);
  expiry_heap : ∀ q, heap s' !! q =
    if decide (q ∈ due now s) then expired_obj now <$> heap s !! q else heap s !! q;
  expiry_tickle : m_tickled s' = m_tickled s ∧ tickles s' = tickles s;
  expiry_previous : m_previouseTime s' =
    match m_timers s with [] => m_previouseTime s | _ => now end
}.

Lemma expiry_nothing now s z :
  due now s = [] → z = match m_timers s with [] => m_previouseTime s | _ => now end →
  expiry now s (set_previous z s).
Proof.
  intros Hd Hz. split; cbn [m_timers heap set_previous m_previouseTime]; rewrite ?Hd; [|done..].
  set_solver.
Qed.

Lemma previous_same s : set_previous (m_previouseTime s) s = s.
Proof. by destruct s. Qed.

Lemma set_timers_but n now s :
  wf s → wf_but (take n (m_timers s)) (set_timers (drop n (m_timers s)) (set_previous now s)).
Proof.
  intros []. rewrite <- (take_drop n (m_timers s)) in wf_ordered0.
  pose proof (ordered_NoDup _ _ wf_ordered0) as (_ & Hd & _)%list.NoDup_app.
  apply ordered_app in wf_ordered0 as (_ & _ & Ho).
  split; cbn [m_timers heap set_timers set_previous]; try done.
  - intros p Hp. apply wf_alive0. by eapply subseteq_drop.
  - intros p t Hp Hc. specialize (wf_cb0 p t Hp Hc).
    rewrite <- (take_drop n (m_timers s)), elem_of_app in wf_cb0. tauto.
Qed.

Lemma listExpiredCb_run s pnow now cbs :
  wf s → heap s !! pnow = None →
  ∃ s', listExpiredCb pnow now cbs s =
          Ok (cbs ++ ((λ p, m_cb (deref (heap s) p)) <$> due now s)) s' ∧
        wf s' ∧ expiry now s s'.
Proof.
  intros Hwf Hp. unfold listExpiredCb. mget.
  destruct (m_timers s) as [|p l] eqn:El.
  { assert (due now s = []) as Hd by (unfold due; rewrite El; by case_match).
    exists s. rewrite Hd. cbn [fmap list_fmap]. rewrite app_nil_r. split_and!; [done|done|].
    rewrite <- (previous_same s) at 2. apply expiry_nothing; [done|by rewrite El]. }
  unfold detectClockRollover. rewrite bind_ok with (a := rolled now s) (s' := set_previous now s)
    by done.
  destruct (negb (rolled now s) && (now <? m_next (deref (heap s) p))) eqn:Eb.
  { apply andb_true_iff in Eb as [Er%negb_true_iff Eb].
    assert (due now s = []) as Hd.
    { unfold due. rewrite Er. apply filter_none. rewrite El.
      pose proof (wf_ordered s Hwf) as Ho. rewrite El in Ho.
      intros q [->|Hq]%elem_of_cons; [unfold key; lia|].
      pose proof (ordered_tail _ _ _ _ Ho Hq) as Hle. unfold key in *. lia. }
    exists (set_previous now s). rewrite Hd. cbn [fmap list_fmap]. rewrite app_nil_r.
    split_and!; [done|by apply wf_previous|]. apply expiry_nothing; [done|by rewrite El]. }
  rewrite <- El. clear Eb. rewrite bind_modify.
  set (h := <[pnow := _]> _). set (it := if rolled now s then _ else _).
  fold (cut h pnow now (m_timers s) it).
  pose proof (expired_due s pnow now Hwf Hp) as Hd. cbv zeta in Hd. fold h it in Hd.
  set (n := cut _ _ _ _ _) in *. clearbody n.
  pose proof (set_timers_but n now s Hwf) as Hbut.
  pose proof (ordered_NoDup _ _ (wf_ordered s Hwf)) as Hnd.
  rewrite <- (take_drop n (m_timers s)) in Hnd.
  apply list.NoDup_app in Hnd as (Hnd & Hdisj & _). rewrite Hd in Hbut, Hnd, Hdisj.
  destruct (expire_loop_run now (due now s) cbs _ Hbut Hnd) as (s' & Hrun & Hwf' & He).
  { intros q Hq. cbn. by apply (wf_alive s Hwf), (due_subseteq now). }
  exists s'. rewrite Hd. split_and!; [exact Hrun|done|].
  destruct He as [He1 He2 (He3 & He4 & He5)]. split; [|exact He2|done|by rewrite El].
  intros q. rewrite He1. cbn [m_timers set_timers set_previous heap].
  rewrite <- (take_drop n (m_timers s)) at 2. rewrite elem_of_app, Hd. naive_solver.
Qed.

(** ** Sequences of operations *)

Inductive op :=
| OpAdd (p : ptr) (ms : Z) (cb : option callback) (recurring : bool) (now : Z)
| OpAddCond (p : ptr) (ms : Z) (cb : option callback) (weak_cond : Z) (recurring : bool) (now : Z)
| OpCancel (p : ptr)
| OpRefresh (p : ptr) (now : Z)
| OpReset (p : ptr) (ms : Z) (from_now : bool) (now : Z)
| OpNext (now : Z)
| OpExpired (pnow : ptr) (now : Z)
| OpHas
| OpRelease (p : ptr).

Definition exec (o : op) : M TimerManager unit :=
  match o with
  | OpAdd p ms cb recurring now => addTimer p ms cb recurring now;; mret tt
  | OpAddCond p ms cb w recurring now => addConditionTimer p ms cb w recurring now;; mret tt
  | OpCancel p => cancel p;; mret tt
  | OpRefresh p now => refresh p now;; mret tt
  | OpReset p ms from_now now => reset p ms from_now now;; mret tt
  | OpNext now => getNextTimer now;; mret tt
  | OpExpired pnow now => listExpiredCb pnow now [];; mret tt
  | OpHas => hasTimer;; mret tt
  | OpRelease p => release p
  end.

(** The allocator returns unused addresses, users hold live timers and pass
    [uint64_t] intervals, and a timer is freed only when the set does not hold it. *)
Definition legal (o : op) (s : TimerManager) : Prop :=
  match o with
  | OpAdd p ms _ _ _ | OpAddCond p ms _ _ _ _ => heap s !! p = None ∧ u64_ok ms
  | OpCancel p | OpRefresh p _ => is_Some (heap s !! p)
  | OpReset p ms _ _ => is_Some (heap s !! p) ∧ u64_ok ms
  | OpExpired pnow _ => heap s !! pnow = None
  | OpNext _ | OpHas => True
  | OpRelease p => p ∉ m_timers s
  end.

(** A sequence of operations, each legal in the state it is called in. *)
Fixpoint exec_seq (ops : list op) : M TimerManager unit :=
  match ops with [] => mret tt | o :: r => exec o;; exec_seq r end.

Fixpoint legal_seq (ops : list op) (s : TimerManager) : Prop :=
  match ops with
  | [] => True
  | o :: r => legal o s ∧ match exec o s with Ok _ s1 => legal_seq r s1 | _ => True end
  end.

Lemma exec_idle_timer s p t o :
  heap s !! p = Some t → m_cb t = None →
  match o with OpCancel q | OpRefresh q _ | OpReset q _ _ _ => q = p | _ => False end →
  exec o s = Ok tt s.
Proof.
  intros Hp Hc Ho.
  destruct o as [| |q|q now|q ms b now| | | |]; try done; subst q; cbn [exec];
    unfold cancel, refresh, reset; mrun; rewrite (deref_eq _ _ _ Hp), Hc; [done..|].
  by destruct (_ && _).
Qed.

Lemma getNextTimer_run s now : ∃ r, getNextTimer now s = Ok r (set_tickled false s).
Proof. unfold getNextTimer. mrun. cbn. case_match; [eauto|]. case_match; eauto. Qed.

Lemma release_wf s p : wf s → p ∉ m_timers s →
  wf (mkTM (m_timers s) (m_tickled s) (m_previouseTime s) (delete p (heap s)) (tickles s)).
Proof.
  intros [] Hp. split; cbn [m_timers heap].
  - eapply ordered_ext; [|done]. intros q Hq. unfold key, deref.
    by rewrite lookup_delete_ne by (by intros ->).
  - intros q Hq. rewrite lookup_delete_ne by (by intros ->). auto.
  - intros q t [_ Hq]%lookup_delete_Some. eauto.
  - intros q t [_ Hq]%lookup_delete_Some. eauto.
Qed.

Lemma ops_run o s : wf s → legal o s → ∃ s', exec o s = Ok tt s' ∧ wf s'.
Proof.
  intros Hwf Hl.
  destruct o as [p ms cb b now|p ms cb w b now|p|p now|p ms b now|now|pnow now| |p];
    cbn [legal exec] in *.
  - destruct Hl as [Hp Hms]. destruct (addTimer_run s p ms cb b now Hwf Hp Hms) as (E & H & _).
    mstep E. eexists. split; [done|by apply tickle_wf].
  - destruct Hl as [Hp Hms]. unfold addConditionTimer.
    destruct (addTimer_run s p ms (Some (BindOnTimer w cb)) b now Hwf Hp Hms) as (E & H & _).
    mstep E. eexists. split; [done|by apply tickle_wf].
  - destruct Hl as [t Ht]. destruct (m_cb t) eqn:Ec.
    + destruct (cancel_run s p t Hwf Ht ltac:(eauto)) as (s' & E & H & _). mstep E. by exists s'.
    + exists s. split; [by apply (exec_idle_timer s p t (OpCancel p))|done].
  - destruct Hl as [t Ht]. destruct (m_cb t) eqn:Ec.
    + destruct (refresh_run s p t now Hwf Ht ltac:(eauto)) as (s' & E & H & _).
      mstep E. by exists s'.
    + exists s. split; [by apply (exec_idle_timer s p t (OpRefresh p now))|done].
  - destruct Hl as [[t Ht] Hms]. destruct (m_cb t) eqn:Ec.
    + destruct (reset_run s p t ms b now Hwf Ht ltac:(eauto) Hms)
        as [(_ & _ & E)|(s' & E & H & _)]; mstep E; eexists; (split; [done|]); [done|].
      by apply tickle_wf.
    + exists s. split; [by apply (exec_idle_timer s p t (OpReset p ms b now))|done].
  - destruct (getNextTimer_run s now) as [r E]. mstep E. eexists. split; [done|by apply (wf_tickle s)].
  - destruct (listExpiredCb_run s pnow now [] Hwf Hl) as (s' & E & H & _). mstep E. by exists s'.
  - by exists s.
  - eexists. split; [done|by apply release_wf].
Qed.

Lemma ops_seq_run ops : ∀ s, wf s → legal_seq ops s → ∃ s', exec_seq ops s = Ok tt s' ∧ wf s'.
Proof.
  induction ops as [|o ops IH]; intros s Hwf Hl; simpl in *; [by exists s|].
  destruct Hl as [Ho Hl]. destruct (ops_run o s Hwf Ho) as (s1 & E & Hwf1).
  mstep E. rewrite E in Hl. by apply IH.
Qed.

Lemma new_TimerManager_wf now : wf (new_TimerManager now).
Proof. split; cbn; [constructor|set_solver|..]; intros p t Hp; by rewrite lookup_empty in Hp. Qed.

(** C10: every sequence of timer operations from a new manager, with live timers and fresh
    addresses, returns normally (cancel never erases the end iterator) and leaves the set
    strictly ordered by the comparator, without duplicates, holding only live timers and
    every timer that still has its callback. *)
Theorem timer_ops_safe now ops :
  legal_seq ops (new_TimerManager now) →
  ∃ s', exec_seq ops (new_TimerManager now) = Ok tt s' ∧ wf s' ∧ NoDup (m_timers s').
Proof.
  intros Hl.
  destruct (ops_seq_run ops _ (new_TimerManager_wf now) Hl) as (s' & E & H).
  exists s'. split_and!; [done|done|]. by eapply ordered_NoDup, wf_ordered.
Qed.

(** C11: listExpiredCb appends the callbacks of exactly the timers due (deadline at most
    now, or all of them after a clock rollover) in order of deadline, re-arms the recurring
    ones at now plus their interval, clears and drops the others, and leaves every other
    timer as it was. *)
Theorem listExpiredCb_exact s pnow now cbs :
  wf s → heap s !! pnow = None →
  ∃ s', listExpiredCb pnow now cbs s =
          Ok (cbs ++ ((λ p, m_cb (deref (heap s) p)) <$> due now s)) s' ∧
    wf s' ∧
    StronglySorted (λ p q, key (heap s) p <= key (heap s) q) (due now s) ∧
    (rolled now s = false → ∀ q, q ∈ due now s ↔ q ∈ m_timers s ∧ key (heap s) q <= now) ∧
    expiry now s s'.
Proof.
  intros Hwf Hp. destruct (listExpiredCb_run s pnow now cbs Hwf Hp) as (s' & E & H & He).
  exists s'. split_and!; [done|done| | |done].
  - by apply due_sorted.
  - intros Hr q. unfold due. rewrite Hr, list_elem_of_filter. tauto.
Qed.

(** [getNextTimer] returns a lower bound of the time to every deadline. *)
Lemma ordered_min s p l :
  wf s → m_timers s = p :: l → ∀ q, q ∈ m_timers s → key (heap s) p <= key (heap s) q.
Proof.
  intros Hwf El q. pose proof (wf_ordered s Hwf) as Ho. rewrite El in Ho |- *.
  intros [->|Hq]%elem_of_cons; [lia|]. by apply (ordered_tail _ _ l).
Qed.

Lemma next_run s now p l :
  wf s → u64_ok now → m_timers s = p :: l →
  getNextTimer now s = Ok (Z.max 0 (key (heap s) p - now)) (set_tickled false s).
Proof.
  intros Hwf Hnow El. unfold getNextTimer. rewrite bind_modify. mget.
  cbn [m_timers heap set_tickled]. rewrite El. fold (key (heap s) p).
  pose proof (wf_alive s Hwf p ltac:(rewrite El; by left)) as [t Ht].
  pose proof (wf_u64 s Hwf p t Ht) as [Hn _]. unfold u64_ok in *.
  assert (key (heap s) p = m_next t) as Hk by (unfold key; by rewrite (deref_eq _ _ _ Ht)).
  case_match.
  - by rewrite Z.max_l by lia.
  - rewrite wrapu_small by lia. by rewrite Z.max_r by lia.
Qed.

(** getNextTimer clears m_tickled and returns the time to the earliest deadline, 0 when
    it has passed and 2^64-1 when there is no timer. *)
Theorem getNextTimer_spec s now :
  wf s → u64_ok now →
  ∃ r, getNextTimer now s = Ok r (set_tickled false s) ∧
    match m_timers s with
    | [] => r = 2 ^ 64 - 1
    | _ => (∃ p, p ∈ m_timers s ∧ r = Z.max 0 (key (heap s) p - now)) ∧
           (∀ p, p ∈ m_timers s → r <= Z.max 0 (key (heap s) p - now))
    end.
Proof.
  intros Hwf Hnow. destruct (m_timers s) as [|p l] eqn:El.
  { eexists. split; [|done]. unfold getNextTimer. mrun. cbn. by rewrite El. }
  eexists. split; [by apply (next_run s now p l)|]. rewrite <- El. split.
  - exists p. split; [rewrite El; by left|done].
  - intros q Hq. pose proof (ordered_min s p l Hwf El q Hq). lia.
Qed.

(** Cancel of a live timer returns true exactly when it still had its callback, takes
    it and nothing else out of the set, and a second cancel returns false and changes
    nothing. *)
Theorem cancel_once s p t :
  wf s → heap s !! p = Some t →
  ∃ s', cancel p s = Ok (bool_decide (is_Some (m_cb t))) s' ∧ wf s' ∧
    cancel p s' = Ok false s' ∧
    (is_Some (m_cb t) → ∀ q, q ∈ m_timers s' ↔ q ∈ m_timers s ∧ q ≠ p) ∧
    (∀ q, q ≠ p → heap s' !! q = heap s !! q).
Proof.
  intros Hwf Hp. assert (∀ s' t', heap s' !! p = Some t' → m_cb t' = None →
    cancel p s' = Ok false s') as Hidle.
  { intros s' t' Hp' Hc'. unfold cancel. mrun. by rewrite (deref_eq _ _ _ Hp'), Hc'. }
  destruct (m_cb t) as [f|] eqn:Ec.
  - destruct (cancel_run s p t Hwf Hp ltac:(eauto)) as (s' & E & Hwf' & [Hh Hin Hot _] & _).
    exists s'. split_and!; [by rewrite bool_decide_eq_true_2 by eauto|done| | |].
    + apply (Hidle s' (cleared t)); [|done]. by rewrite Hh, lookup_insert_eq.
    + intros _ q. destruct (decide (q = p)) as [->|Hne]; [|rewrite (Hot q Hne); tauto].
      rewrite Hin. split; [by intros [? ?]|tauto].
    + intros q Hne. by rewrite Hh, lookup_insert_ne by done.
  - exists s. rewrite bool_decide_eq_false_2 by (by intros [? ?]).
    split_and!; [by apply (Hidle s t)|done|by apply (Hidle s t)|by intros [? ?]|done].
Qed.

(** ** Wake-ups

    A thread sleeps for what [getNextTimer] returned; a timer that is due
    earlier must wake it through [onTimerInsertedAtFront]. *)

(** The clock reading an operation makes, and the intervals it passes: no sum
    of a reading and an interval of at most [B] overflows. *)
Definition clocked (B now : Z) (o : op) : Prop :=
  0 <= now ∧ now + B < 2 ^ 64 ∧
  match o with
  | OpAdd _ ms _ _ n | OpAddCond _ ms _ _ _ n | OpReset _ ms _ n => n = now ∧ ms <= B
  | OpRefresh _ n | OpNext n | OpExpired _ n => n = now
  | OpCancel _ | OpHas | OpRelease _ => True
  end.

(** Operations of any threads, in the order of their critical sections, under
    a clock that does not go back. *)
Inductive steps (B : Z) : Z → TimerManager → TimerManager → Prop :=
| steps_refl last s : steps B last s s
| steps_op last now o s s1 s2 :
    last <= now → clocked B now o → legal o s → exec o s = Ok tt s1 →
    steps B now s1 s2 → steps B last s s2.

(** Every timer was started at a clock reading of at most [last]. *)
Record on_time (B last : Z) (s : TimerManager) : Prop := {
  ot_start : ∀ p t, heap s !! p = Some t → 0 <= m_next t - m_ms t <= last;
  ot_bound : ∀ p t, heap s !! p = Some t → m_ms t <= B;
  ot_previous : m_previouseTime s <= last
}.

(** Either a wake-up was sent since [n], or the next one still will be and
    nothing is due before [d]. *)
Definition covered (d : Z) (n : nat) (s : TimerManager) : Prop :=
  (n < tickles s)%nat ∨
  (tickles s = n ∧ m_tickled s = false ∧ ∀ p, p ∈ m_timers s → d <= key (heap s) p).

Lemma tickle_covered d n p s :
  wf s → p ∈ m_timers s →
  (n < tickles s)%nat ∨ (tickles s = n ∧ m_tickled s = false ∧
    ∀ q, q ∈ m_timers s → q ≠ p → d <= key (heap s) q) →
  covered d n (tickle p s).
Proof.
  intros Hwf Hp Hn. unfold covered, tickle, at_front.
  destruct Hn as [Hn|(Hn & Hk & Hd)]; [left; case_match; cbn; lia|].
  rewrite Hk. destruct (m_timers s) as [|q l] eqn:El; [set_solver|].
  cbn [head negb]. rewrite andb_true_r. case_bool_decide as Hq; [left; cbn; lia|].
  right. split_and!; [done|done|]. rewrite El.
  assert (p ∈ l) as Hpl by (apply elem_of_cons in Hp as [->|?]; done).
  pose proof (wf_ordered s Hwf) as Ho. rewrite El in Ho.
  assert (d <= key (heap s) q) by (apply Hd; [by left|congruence]).
  intros r [->|Hr]%elem_of_cons; [done|]. pose proof (ordered_tail _ _ _ _ Ho Hr). lia.
Qed.

Lemma covered_mono d n s s' :
  tickles s' = tickles s → (m_tickled s = false → m_tickled s' = false) →
  (∀ p, p ∈ m_timers s' → (∀ q, q ∈ m_timers s → d <= key (heap s) q) → d <= key (heap s') p) →
  covered d n s → covered d n s'.
Proof. unfold covered. intros -> Hk Hp. naive_solver. Qed.

Lemma on_time_insert B last now s s' p t :
  on_time B last s → last <= now → heap s' = <[p := t]> (heap s) →
  m_previouseTime s' = m_previouseTime s →
  0 <= m_next t - m_ms t <= now → m_ms t <= B → on_time B now s'.
Proof.
  intros [H1 H2 H3] Hn Hh Hp Ht Hb. split; [intros q u|intros q u|lia].
  all: rewrite Hh; destruct (decide (q = p)) as [->|Hne];
    [rewrite lookup_insert_eq; intros; by simplify_eq|rewrite lookup_insert_ne by done].
  - intros Hq. specialize (H1 q u Hq). lia.
  - apply H2.
Qed.

Lemma on_time_later B last now s s' :
  on_time B last s → last <= now →
  (∀ q u, heap s' !! q = Some u → heap s !! q = Some u) →
  m_previouseTime s' <= now → on_time B now s'.
Proof.
  intros [H1 H2 H3] Hn Hh Hp. split; [intros q u Hq|intros q u Hq|done].
  - specialize (H1 q u (Hh q u Hq)). lia.
  - eauto.
Qed.

Lemma tickle_on_time B now p s : on_time B now s → on_time B now (tickle p s).
Proof.
  intros H. eapply on_time_later; [exact H|lia| |].
  - by rewrite tickle_heap.
  - rewrite tickle_previous. apply H.
Qed.

Lemma add_covered B d n last now s p ms cb b :
  wf s → on_time B last s → covered d n s → last <= now → 0 <= now → now + B < 2 ^ 64 →
  ms <= B → u64_ok ms → heap s !! p = None →
  ∃ s', addTimer p ms cb b now s = Ok p s' ∧ wf s' ∧ on_time B now s' ∧ covered d n s'.
Proof.
  intros Hwf Hot Hc Hln Hn HB Hms Hu Hp.
  destruct (addTimer_run s p ms cb b now Hwf Hp Hu) as (E & Hwf1 & Hin).
  eexists. split_and!; [exact E|by apply tickle_wf| |]; unfold u64_ok in *.
  - apply tickle_on_time. eapply on_time_insert; [done|done|done|done|..]; cbn; [|done].
    rewrite wrapu_small by lia. lia.
  - apply tickle_covered; [done|by apply Hin; left|].
    destruct Hc as [Hc|(Hc & Hk & Hd)]; [by left|right]. split_and!; [done|done|].
    intros q Hq Hne. cbn. rewrite key_insert_ne by done. apply Hd.
    apply Hin in Hq as [?|?]; done.
Qed.

Lemma moved_key p t s s' q : moved p t s s' → q ≠ p → key (heap s') q = key (heap s) q.
Proof. intros [Hh _ _ _] Hne. rewrite Hh. by apply key_insert_ne. Qed.

Lemma key_lookup h p t : h !! p = Some t → key h p = m_next t.
Proof. intros H. unfold key. by rewrite (deref_eq h p t H). Qed.

Lemma moved_covered d n p t s s' :
  moved p t s s' → m_tickled s' = m_tickled s → tickles s' = tickles s →
  (p ∈ m_timers s' → (∀ q, q ∈ m_timers s → d <= key (heap s) q) → d <= m_next t) →
  covered d n s → covered d n s'.
Proof.
  intros Hm Hk Ht Hp. apply covered_mono; [done|by rewrite Hk|].
  intros q Hq Hall. destruct (decide (q = p)) as [->|Hne].
  - rewrite (moved_heap _ _ _ _ Hm), key_insert_eq. auto.
  - rewrite (moved_key p t s s' q) by done. apply Hall. by apply (moved_other _ _ _ _ Hm).
Qed.

Lemma expired_covered B d n last now s s' pnow :
  wf s → on_time B last s → covered d n s → last <= now → 0 <= now → now + B < 2 ^ 64 →
  expiry now s s' → heap s !! pnow = None → on_time B now s' ∧ covered d n s'.
Proof.
  intros Hwf [H1 H2 H3] Hc Hln Hn HB [He1 He2 [He3 He4] He5] Hp.
  assert (rolled now s = false) as Hr by (unfold rolled; lia).
  assert (∀ q u, heap s !! q = Some u → u64 (now + m_ms u) = now + m_ms u) as Hu.
  { intros q u Hq. pose proof (H2 q u Hq). pose proof (wf_u64 s Hwf q u Hq) as [_ Hm].
    unfold u64_ok in Hm. apply wrapu_small. lia. }
  assert (∀ q u', heap s' !! q = Some u' → ∃ u, heap s !! q = Some u ∧ m_ms u' = m_ms u ∧
    (m_next u' = m_next u ∨ m_next u' = now + m_ms u)) as Hh.
  { intros q u'. rewrite He2. destruct (decide (q ∈ due now s)); [|eauto].
    intros (u & Hq & ->)%fmap_Some. exists u. rewrite <- (Hu q u Hq).
    unfold expired_obj. destruct (m_recurring u); eauto. }
  split; [split|].
  - intros q u' (u & Hq & -> & Hx)%Hh. specialize (H1 q u Hq). lia.
  - intros q u' (u & Hq & -> & _)%Hh. eauto.
  - rewrite He5. case_match; lia.
  - revert Hc. apply covered_mono; [done|by rewrite He3|]. intros q Hq Hall.
    assert (q ∈ m_timers s) as Hin.
    { apply He1 in Hq as [[? _]|[? _]]; [done|by eapply due_subseteq]. }
    destruct (wf_alive s Hwf q Hin) as [u Hu']. pose proof (Hall q Hin) as Hd.
    rewrite (key_lookup _ _ _ Hu') in Hd. specialize (He2 q). specialize (H1 q u Hu').
    destruct (decide (q ∈ due now s)) as [Hdue|].
    + unfold due in Hdue. rewrite Hr in Hdue. apply list_elem_of_filter in Hdue as [Hle _].
      rewrite (key_lookup _ _ _ Hu') in Hle. pose proof (wf_u64 s Hwf q u Hu') as [_ Hm].
      unfold u64_ok in Hm. rewrite Hu' in He2. simpl in He2. rewrite (key_lookup _ _ _ He2).
      unfold expired_obj. destruct (m_recurring u); cbn; [|lia]. rewrite (Hu q u Hu'). lia.
    + rewrite Hu' in He2. by rewrite (key_lookup _ _ _ He2).
Qed.

(** One step of a timely sequence; [H .. HB] are what every case shares. *)
Section step.
Context (B d now : Z) (n : nat) (s : TimerManager).
Hypotheses (Hwf : wf s) (Hot : on_time B now s) (Hc : covered d n s)
  (Hn : 0 <= now) (HB : now + B < 2 ^ 64).

Lemma cancel_covered p s1 :
  is_Some (heap s !! p) → exec (OpCancel p) s = Ok tt s1 → on_time B now s1 ∧ covered d n s1.
Proof.
  intros [t Ht]. destruct (m_cb t) eqn:Ec.
  - destruct (cancel_run s p t Hwf Ht ltac:(eauto)) as (s' & E & _ & Hm & Hk & Htk).
    cbn [exec]. mstep E. intros [= <-]. destruct Hot as [H1 H2 _]. specialize (H1 p t Ht). split.
    + eapply (on_time_insert B now); [done|lia|apply Hm|apply Hm|cbn; lia|cbn; eauto].
    + eapply moved_covered; [done..| |done]. intros Hin. by apply Hm in Hin as [? ?].
  - rewrite (exec_idle_timer s p t (OpCancel p)) by done. by intros [= <-].
Qed.

Lemma refresh_covered p s1 :
  is_Some (heap s !! p) → exec (OpRefresh p now) s = Ok tt s1 →
  on_time B now s1 ∧ covered d n s1.
Proof.
  intros [t Ht]. destruct (m_cb t) eqn:Ec.
  - destruct (refresh_run s p t now Hwf Ht ltac:(eauto)) as (s' & E & _ & Hm & Hk & Htk).
    cbn [exec]. mstep E. intros [= <-]. destruct Hot as [H1 H2 _].
    specialize (H1 p t Ht). specialize (H2 p t Ht).
    pose proof (wf_u64 s Hwf p t Ht) as [Hv1 Hv2]. unfold u64_ok in *.
    assert (m_next (restarted now t) = now + m_ms t) as Hnx by (cbn; apply wrapu_small; lia).
    split.
    + eapply (on_time_insert B now); [done|lia|apply Hm|apply Hm|rewrite Hnx; cbn; lia|done].
    + eapply moved_covered; [done..| |done]. intros _ Hall.
      specialize (Hall p (wf_cb s Hwf p t Ht ltac:(rewrite Ec; eauto))).
      rewrite (key_lookup _ _ _ Ht) in Hall. lia.
  - rewrite (exec_idle_timer s p t (OpRefresh p now)) by done. by intros [= <-].
Qed.

Lemma reset_covered p ms b s1 :
  is_Some (heap s !! p) → u64_ok ms → ms <= B → exec (OpReset p ms b now) s = Ok tt s1 →
  on_time B now s1 ∧ covered d n s1.
Proof.
  intros [t Ht] Hms Hb. destruct (m_cb t) eqn:Ec.
  - destruct (reset_run s p t ms b now Hwf Ht ltac:(eauto) Hms)
      as [(_ & _ & E)|(s' & E & Hwf' & Hm & Hk & Htk)];
      cbn [exec]; mstep E; intros [= <-]; [done|].
    destruct Hot as [H1 H2 _]. specialize (H1 p t Ht).
    pose proof (wf_u64 s Hwf p t Ht) as [Hv1 Hv2]. unfold u64_ok in *. split.
    + apply tickle_on_time.
      eapply (on_time_insert B now); [done|lia|apply Hm|apply Hm| |done]. cbn.
      destruct b; rewrite !wrapu_small; try lia; rewrite wrapu_small; lia.
    + apply tickle_covered; [done|by apply Hm; cbn; rewrite Ec; eauto|].
      destruct Hc as [Hc'|(Hc' & Hk' & Hd)]; [left; lia|right]. split_and!; [lia|congruence|].
      intros q Hq Hne. rewrite (moved_key _ _ _ _ _ Hm Hne). apply Hd.
      by apply (moved_other _ _ _ _ Hm).
  - rewrite (exec_idle_timer s p t (OpReset p ms b now)) by done. by intros [= <-].
Qed.

Lemma add_step_covered p ms cb b s1 :
  heap s !! p = None ∧ u64_ok ms → ms <= B → exec (OpAdd p ms cb b now) s = Ok tt s1 →
  on_time B now s1 ∧ covered d n s1.
Proof.
  intros [Hp Hms] Hb.
  destruct (add_covered B d n now now s p ms cb b) as (s' & E & _ & H); try done.
  cbn [exec]. mstep E. by intros [= <-].
Qed.

Lemma step_covered o s1 :
  clocked B now o → legal o s → exec o s = Ok tt s1 → on_time B now s1 ∧ covered d n s1.
Proof.
  intros (_ & _ & Ho) Hl.
  destruct o as [p ms cb b n'|p ms cb w b n'|p|p n'|p ms b n'|n'|pnow n'| |p]; cbn [legal] in Hl.
  - destruct Ho as [-> Hb]. by apply add_step_covered.
  - destruct Ho as [-> Hb]. by apply (add_step_covered p ms (Some (BindOnTimer w cb)) b s1).
  - by apply cancel_covered.
  - subst n'. by apply refresh_covered.
  - destruct Hl, Ho as [-> Hb]. by apply reset_covered.
  - subst n'. destruct (getNextTimer_run s now) as [r E]. cbn [exec]. mstep E. intros [= <-].
    split; [|eapply covered_mono; [..|exact Hc]; cbn; auto].
    eapply (on_time_later B now); [done|lia|done|apply Hot].
  - subst n'. destruct (listExpiredCb_run s pnow now [] Hwf Hl) as (s' & E & H & He).
    cbn [exec]. mstep E. intros [= <-]. by apply (expired_covered B d n now now s s' pnow).
  - by intros [= <-].
  - intros [= <-]. split.
    + eapply (on_time_later B now); [done|lia|cbn|apply Hot].
      by intros q u [_ ?]%lookup_delete_Some.
    + apply (covered_mono d n s); [done|done| |exact Hc]. cbn. intros q Hq Hall.
      unfold key, deref. rewrite lookup_delete_ne by (by intros ->). by apply Hall.
Qed.
End step.

Lemma ops_wf o s s1 : wf s → legal o s → exec o s = Ok tt s1 → wf s1.
Proof. intros Hwf Hl He. destruct (ops_run o s Hwf Hl) as (s' & E & H). congruence. Qed.

Lemma steps_covered B d n last s s2 :
  steps B last s s2 → wf s → on_time B last s → covered d n s → covered d n s2.
Proof.
  induction 1 as [|last now o s s1 s2 Hln Hcl Hl He Hs IH]; intros Hwf Hot Hc; [done|].
  assert (on_time B now s) as Hot' by (eapply on_time_later; [done|done|done|]; destruct Hot; lia).
  destruct (step_covered B d now n s Hwf Hot' Hc (proj1 Hcl) (proj1 (proj2 Hcl)) o s1 Hcl Hl He).
  apply IH; [by eapply ops_wf|done|done].
Qed.

(** C12: after getNextTimer returned r to a thread that sleeps, every sequence of timer
    operations under a clock that does not go back either calls onTimerInsertedAtFront or
    leaves no timer due before the end of that sleep. *)
Theorem no_missed_wakeup B now s r s1 s2 :
  wf s → on_time B now s → u64_ok now →
  getNextTimer now s = Ok r s1 → steps B now s1 s2 →
  r = 0 ∨ (tickles s1 < tickles s2)%nat ∨ ∀ p, p ∈ m_timers s2 → now + r <= key (heap s2) p.
Proof.
  intros Hwf Hot Hnow Hr Hs. destruct (decide (r = 0)) as [|Hr0]; [by left|right].
  assert (s1 = set_tickled false s) as -> by (destruct (getNextTimer_run s now); congruence).
  cut (covered (now + r) (tickles s) s2).
  { intros [H|(_ & _ & H)]; [by left|by right]. }
  apply (steps_covered _ _ _ _ _ _ Hs).
  - by apply (wf_tickle s).
  - by destruct Hot; split.
  - right. split_and!; [done|done|]. cbn. intros p Hp.
    destruct (m_timers s) as [|q l] eqn:El; [set_solver|].
    rewrite (next_run s now q l Hwf Hnow El) in Hr. rewrite <- El in Hp.
    pose proof (ordered_min s q l Hwf El p Hp). simplify_eq. lia.
Qed.

(** ** A concrete run *)

Definition tm0 : TimerManager := new_TimerManager 1000000.

(** Timers at 1000010 (recurring, every 10 ms), 1000025 and 1000005. *)
Definition tm_ops : list op :=
  [OpAdd 64 10 (Some (Fn 1)) true 1000000; OpAdd 96 25 (Some (Fn 2)) false 1000000;
   OpAddCond 32 5 (Some (Fn 3)) 7 false 1000000].

Definition tm1 : TimerManager :=
  match exec_seq tm_ops tm0 with Ok _ s => s | _ => tm0 end.

Lemma tm1_run : exec_seq tm_ops tm0 = Ok tt tm1.
Proof. reflexivity. Qed.

Lemma tm_legal : legal_seq tm_ops tm0.
Proof. vm_compute. repeat split; discriminate. Qed.

Lemma timer_ops_safe_witness :
  ∃ s', exec_seq tm_ops tm0 = Ok tt s' ∧ wf s' ∧ NoDup (m_timers s').
Proof. exact (timer_ops_safe 1000000 tm_ops tm_legal). Defined.

Lemma tm1_wf : wf tm1.
Proof.
  destruct (ops_seq_run tm_ops tm0 (new_TimerManager_wf _) tm_legal) as (s' & E & H).
  rewrite tm1_run in E. by injection E as ->.
Qed.

Example tm1_next : getNextTimer 1000001 tm1 = Ok 4 (set_tickled false tm1).
Proof. reflexivity. Qed.

Lemma listExpiredCb_exact_witness :
  ∃ s', listExpiredCb 128 1000010 [] tm1 =
          Ok [Some (BindOnTimer 7 (Some (Fn 3))); Some (Fn 1)] s' ∧
        m_timers s' = [64; 96] ∧ wf s'.
Proof.
  destruct (listExpiredCb_exact tm1 128 1000010 [] tm1_wf eq_refl) as (s' & E & H & _).
  exists s'. split; [rewrite E; vm_compute; reflexivity|]. split; [|exact H].
  assert (∃ r t, listExpiredCb 128 1000010 [] tm1 = Ok r t ∧ m_timers t = [64; 96]) as (r & t & E' & Ht)
    by (eexists _, _; split; [vm_compute; reflexivity|reflexivity]).
  rewrite E in E'. injection E' as _ ->. exact Ht.
Defined.

Lemma getNextTimer_spec_witness :
  ∃ r, getNextTimer 1000001 tm1 = Ok r (set_tickled false tm1) ∧
       ∀ p, p ∈ m_timers tm1 → r <= Z.max 0 (key (heap tm1) p - 1000001).
Proof.
  destruct (getNextTimer_spec tm1 1000001 tm1_wf) as (r & E & H); [split; [|reflexivity]; discriminate|].
  exists r. split; [exact E|]. exact (proj2 H).
Defined.

Lemma cancel_once_witness :
  ∃ s', cancel 64 tm1 = Ok true s' ∧ wf s' ∧ cancel 64 s' = Ok false s'.
Proof.
  destruct (cancel_once tm1 64 (mkTimer true 10 1000010 (Some (Fn 1))) tm1_wf eq_refl)
    as (s' & E & H & H' & _).
  exists s'. split; [exact E|]. split; [exact H|exact H'].
Defined.

Lemma tm1_on_time : on_time 100 1000001 tm1.
Proof.
  assert (map_Forall (λ _ t, 0 <= m_next t - m_ms t <= 1000001 ∧ m_ms t <= 100) (heap tm1)) as H
    by (apply (bool_decide_unpack _); by vm_compute).
  split; [intros p t Hp; by apply (H p t)|intros p t Hp; by apply (H p t)|by vm_compute].
Qed.

(** A timer added at the front after [getNextTimer] sends the wake-up. *)
Lemma no_missed_wakeup_witness :
  ∃ s1 s2, getNextTimer 1000001 tm1 = Ok 4 s1 ∧ steps 100 1000001 s1 s2 ∧
    (tickles s1 < tickles s2)%nat.
Proof.
  set (s1 := set_tickled false tm1).
  assert (∃ s2, exec (OpAdd 16 1 (Some (Fn 4)) false 1000002) s1 = Ok tt s2 ∧
                m_timers s2 = [16; 32; 64; 96] ∧ key (heap s2) 16 = 1000003)
    as (s2 & E & Hm & Hk) by (eexists; split; [vm_compute; reflexivity|split; reflexivity]).
  assert (steps 100 1000001 s1 s2) as Hs.
  { eapply steps_op with (now := 1000002); [lia| | |exact E|constructor].
    - repeat split; lia.
    - split; [reflexivity|split; [lia|reflexivity]]. }
  exists s1, s2. split; [exact tm1_next|]. split; [exact Hs|].
  destruct (no_missed_wakeup 100 1000001 tm1 4 s1 s2 tm1_wf) as [H|[H|H]].
  - exact tm1_on_time.
  - split; [discriminate|reflexivity].
  - exact tm1_next.
  - exact Hs.
  - discriminate H.
  - exact H.
  - specialize (H 16). rewrite Hm, Hk in H. exfalso. specialize (H ltac:(by left)). lia.
Defined.

(** Below the first hour of the epoch the rollover test underflows: a clock
    step back of one millisecond expires a timer that is an hour away. *)
Example rollover_underflow :
  let s := mkTM [64] false 1000 (<[64 := mkTimer false 3600000 3601000 (Some (Fn 1))]> ∅) 0 in
  match listExpiredCb 128 999 [] s with Ok r _ => r | _ => [] end = [Some (Fn 1)].
Proof. reflexivity. Qed.
