(* ===== verification/Fiber.v ===== *)
(** * Fibers (fiber.h, fiber.cc)

    The fibers of a process on a heap, with the thread-local variables of one
    thread.  [active] is the fiber whose registers and stack the thread is on,
    and [m_ctx] says where a saved context resumes: a [swapcontext] that saves
    the running registers into a fiber other than the running one, or that
    resumes a context never saved, has undefined behaviour.  [getcontext] and
    [swapcontext] succeed: the assertions on their results are not modelled. *)

From S2P Require Import Prelude.

Inductive State := INIT | HOLD | EXEC | TERM | READY | EXCEPT.

#[global] Instance State_eq_dec : EqDecision State.
Proof. solve_decision. Defined.

(** The two entry functions handed to [makecontext]. *)
Inductive entry := MainFunc | CallerMainFunc.

#[global] Instance entry_eq_dec : EqDecision entry.
Proof. solve_decision. Defined.

(** What a saved context resumes. *)
Inductive context :=
| Unsaved            (* [getcontext] only: the fiber of a thread's own stack *)
| Start (e : entry)  (* [makecontext] *)
| Saved              (* suspended in a [swapcontext] inside the callback *)
| Finished.          (* suspended in the last [swapcontext] of its entry function *)

#[global] Instance context_eq_dec : EqDecision context.
Proof. solve_decision. Defined.

Record Fiber := mkFiber {
  m_id : Z;
  m_stacksize : Z;
  m_state : State;
  m_ctx : context;
  m_stack : bool;
  m_cb : option Z
}.

Abbreviation fptr := Z (only parsing).

Record world := mkWorld {
  fibers : gmap fptr Fiber;
  s_fiber_id : Z;
  s_fiber_count : Z;
  t_fiber : option fptr;
  t_threadFiber : option fptr;
  (** [t_fiber] of scheduler.cc, returned by [Scheduler::GetMainFiber] *)
  mainFiber : option fptr;
  active : option fptr
}.

Definition set_fibers (m : gmap fptr Fiber) (w : world) : world :=
  mkWorld m (s_fiber_id w) (s_fiber_count w) (t_fiber w) (t_threadFiber w) (mainFiber w) (active w).
Definition set_counters (i c : Z) (w : world) : world :=
  mkWorld (fibers w) i c (t_fiber w) (t_threadFiber w) (mainFiber w) (active w).
Definition set_t_fiber (f : option fptr) (w : world) : world :=
  mkWorld (fibers w) (s_fiber_id w) (s_fiber_count w) f (t_threadFiber w) (mainFiber w) (active w).
Definition set_t_threadFiber (f : option fptr) (w : world) : world :=
  mkWorld (fibers w) (s_fiber_id w) (s_fiber_count w) (t_fiber w) f (mainFiber w) (active w).
Definition set_active (f : option fptr) (w : world) : world :=
  mkWorld (fibers w) (s_fiber_id w) (s_fiber_count w) (t_fiber w) (t_threadFiber w) (mainFiber w) f.

Definition with_state (st : State) (f : Fiber) : Fiber :=
  mkFiber (m_id f) (m_stacksize f) st (m_ctx f) (m_stack f) (m_cb f).
Definition with_ctx (c : context) (f : Fiber) : Fiber :=
  mkFiber (m_id f) (m_stacksize f) (m_state f) c (m_stack f) (m_cb f).
Definition with_cb (cb : option Z) (f : Fiber) : Fiber :=
  mkFiber (m_id f) (m_stacksize f) (m_state f) (m_ctx f) (m_stack f) cb.

Definition fiber_at (p : fptr) : M world Fiber :=
  w ← get; of_option "dangling fiber" (fibers w !! p).
Definition update (p : fptr) (g : Fiber → Fiber) : M world unit :=
  f ← fiber_at p; modify (λ w, set_fibers (<[p := g f]> (fibers w)) w).

(** ** Operations *)

Definition SetThis (f : option fptr) : M world unit := modify (set_t_fiber f).

Definition GetFiberId : M world Z :=
  w ← get;
  match t_fiber w with
  | Some p => f ← fiber_at p; mret (m_id f)
  | None => mret 0
  end.

(** [Fiber::Fiber()] at the address [p]: the fiber of the thread's own stack. *)
Definition new_main_Fiber (p : fptr) : M world unit :=
  modify (λ w, set_fibers (<[p := mkFiber 0 0 EXEC Unsaved false None]> (fibers w)) w);;
  SetThis (Some p);;
  modify (λ w, set_counters (s_fiber_id w) (u64 (s_fiber_count w + 1)) w).

(** [Fiber::Fiber(cb, stacksize, use_caller)] at the address [p];
    [g_fiber_stack_size] is the configured size, and [m_stacksize] has 32 bits. *)
Definition new_Fiber (g_fiber_stack_size : Z) (p : fptr) (cb : option Z) (stacksize : Z)
    (use_caller : bool) : M world unit :=
  modify (λ w, set_counters (u64 (s_fiber_id w + 1)) (u64 (s_fiber_count w + 1)) w);;
  w ← get;
  let size := u32 (if stacksize =? 0 then g_fiber_stack_size else stacksize) in
  let e := if use_caller then CallerMainFunc else MainFunc in
  modify (set_fibers (<[p := mkFiber (s_fiber_id w) size INIT (Start e) true cb]> (fibers w))).

(** The states in which a fiber's stack is not in use. *)
Definition resettable (st : State) : bool :=
  bool_decide (st = TERM) || bool_decide (st = EXCEPT) || bool_decide (st = INIT).

(** [Fiber::~Fiber]. *)
Definition delete_Fiber (p : fptr) : M world unit :=
  f ← fiber_at p;
  modify (λ w, set_counters (s_fiber_id w) (u64 (s_fiber_count w - 1)) w);;
  (if m_stack f then
     peng_assert (resettable (m_state f)) "m_state == TERM || m_state == EXCEPT || m_state == INIT"
   else
     peng_assert (bool_decide (m_cb f = None)) "!m_cb";;
     peng_assert (bool_decide (m_state f = EXEC)) "m_state == EXEC";;
     w ← get;
     when (bool_decide (t_fiber w = Some p)) (SetThis None));;
  modify (λ w, set_fibers (delete p (fibers w)) w).

Definition reset (p : fptr) (cb : option Z) : M world unit :=
  f ← fiber_at p;
  peng_assert (m_stack f) "m_stack";;
  peng_assert (resettable (m_state f)) "m_state == TERM || m_state == EXCEPT || m_state == INIT";;
  update p (λ f, with_state INIT (with_ctx (Start MainFunc) (with_cb cb f))).

(** [swapcontext(&from->m_ctx, &to->m_ctx)], [k] being where [from] will resume. *)
Definition swapcontext (from to : fptr) (k : context) : M world unit :=
  w ← get;
  if negb (bool_decide (active w = Some from)) then undef "swapcontext saves into another fiber"
  else
    update from (with_ctx k);;
    t ← fiber_at to;
    match m_ctx t with
    | Unsaved => undef "swapcontext to a context never saved"
    | Finished => λ _, Abort "never reach"
    | Start _ | Saved => modify (set_active (Some to))
    end.

Definition main_fiber : M world fptr :=
  w ← get; of_option "Scheduler::GetMainFiber() is null" (mainFiber w).
Definition thread_fiber : M world fptr :=
  w ← get; of_option "t_threadFiber is null" (t_threadFiber w).

Definition call (p : fptr) : M world unit :=
  SetThis (Some p);;
  update p (with_state EXEC);;
  t ← thread_fiber;
  swapcontext t p Saved.

Definition back (p : fptr) (k : context) : M world unit :=
  t ← thread_fiber;
  SetThis (Some t);;
  swapcontext p t k.

Definition swapIn (p : fptr) : M world unit :=
  SetThis (Some p);;
  f ← fiber_at p;
  peng_assert (negb (bool_decide (m_state f = EXEC))) "m_state != EXEC";;
  update p (with_state EXEC);;
  m ← main_fiber;
  swapcontext m p Saved.

Definition swapOut (p : fptr) (k : context) : M world unit :=
  w ← get;
  SetThis (mainFiber w);;
  m ← main_fiber;
  swapcontext p m k.

(** [Fiber::GetThis]; a main fiber it creates goes to the address [p]. *)
Definition GetThis (p : fptr) : M world fptr :=
  w ← get;
  match t_fiber w with
  | Some f => mret f
  | None =>
      new_main_Fiber p;;
      modify (set_t_threadFiber (Some p));;
      (* the thread's stack is now the stack of this fiber *)
      modify (set_active (Some p));;
      mret p
  end.

Definition YieldToReady (p : fptr) : M world unit :=
  cur ← GetThis p;
  f ← fiber_at cur;
  peng_assert (bool_decide (m_state f = EXEC)) "cur->m_state == EXEC";;
  update cur (with_state READY);;
  swapOut cur Saved.

Definition YieldToHold (p : fptr) : M world unit :=
  cur ← GetThis p;
  f ← fiber_at cur;
  peng_assert (bool_decide (m_state f = EXEC)) "cur->m_state == EXEC";;
  swapOut cur Saved.

Definition TotalFibers : M world Z := gets s_fiber_count.

(** How the callback of a fiber ends. *)
Inductive ending := Returned | Threw.

(** The body of [MainFunc] and [CallerMainFunc] after [m_cb()] has ended as
    [e]: an empty [m_cb] throws [std::bad_function_call], caught like any other. *)
Definition finish_cb (e : ending) (cur : fptr) : M world unit :=
  f ← fiber_at cur;
  match m_cb f, e with
  | Some _, Returned => update cur (with_cb None);; update cur (with_state TERM)
  | _, _ => update cur (with_state EXCEPT)
  end.

Definition MainFunc_end (p : fptr) (e : ending) : M world unit :=
  cur ← GetThis p;
  finish_cb e cur;;
  swapOut cur Finished.

Definition CallerMainFunc_end (p : fptr) (e : ending) : M world unit :=
  cur ← GetThis p;
  finish_cb e cur;;
  back cur Finished.

(** ** Runs of the primitives *)

Lemma fiber_at_run w p f : fibers w !! p = Some f → fiber_at p w = Ok f w.
Proof. intros H. unfold fiber_at. mrun. by rewrite H. Qed.

Lemma update_run w p f g :
  fibers w !! p = Some f → update p g w = Ok tt (set_fibers (<[p := g f]> (fibers w)) w).
Proof. intros H. unfold update. by mstep (fiber_at_run w p f H). Qed.

Lemma fiber_at_ok w p f w' : fiber_at p w = Ok f w' → w' = w ∧ fibers w !! p = Some f.
Proof. unfold fiber_at. mrun. case_match; naive_solver. Qed.

Lemma update_ok w p g u w' :
  update p g w = Ok u w' →
  ∃ f, fibers w !! p = Some f ∧ w' = set_fibers (<[p := g f]> (fibers w)) w.
Proof.
  unfold update. intros H. minv H. apply fiber_at_ok in E as [-> E]. exists a.
  split; [done|]. by injection H as _ <-.
Qed.

Definition resumable (c : context) : bool :=
  match c with Start _ | Saved => true | Unsaved | Finished => false end.

Lemma swapcontext_run w a b k fa fb :
  active w = Some a → fibers w !! a = Some fa → fibers w !! b = Some fb → a ≠ b →
  resumable (m_ctx fb) = true →
  swapcontext a b k w =
    Ok tt (set_active (Some b) (set_fibers (<[a := with_ctx k fa]> (fibers w)) w)).
Proof.
  intros Ha Hfa Hfb Hne Hc. unfold swapcontext. mget. rewrite Ha, bool_decide_eq_true_2 by done.
  simpl. mstep (update_run w a fa (with_ctx k) Hfa).
  rewrite (bind_ok _ _ _ fb (set_fibers (<[a := with_ctx k fa]> (fibers w)) w)).
  - destruct (m_ctx fb); done.
  - apply fiber_at_run. cbn. by rewrite lookup_insert_ne.
Qed.

Lemma swapcontext_ok w a b k u w' :
  swapcontext a b k w = Ok u w' →
  ∃ fa fb, active w = Some a ∧ fibers w !! a = Some fa ∧
    <[a := with_ctx k fa]> (fibers w) !! b = Some fb ∧ resumable (m_ctx fb) = true ∧
    w' = set_active (Some b) (set_fibers (<[a := with_ctx k fa]> (fibers w)) w).
Proof.
  unfold swapcontext. mget. case_bool_decide as Ha; simpl; [|done].
  intros H. minv H. apply update_ok in E as (fa & Hfa & ->).
  minv H. apply fiber_at_ok in E as [-> Hb]. cbn in Hb.
  exists fa, a1. split_and!; [done|done|done|..]; destruct (m_ctx a1); try done; by injection H.
Qed.

(** The fiber after its callback ended. *)
Definition finished (e : ending) (f : Fiber) : Fiber :=
  match m_cb f, e with
  | Some _, Returned => with_state TERM (with_cb None f)
  | _, _ => with_state EXCEPT f
  end.

Lemma finish_cb_run w p f e :
  fibers w !! p = Some f →
  finish_cb e p w = Ok tt (set_fibers (<[p := finished e f]> (fibers w)) w).
Proof.
  intros H. unfold finish_cb, finished. mstep (fiber_at_run w p f H).
  destruct (m_cb f) as [c|] eqn:E; [destruct e|].
  - mstep (update_run w p f (with_cb None) H).
    rewrite (update_run _ p (with_cb None f)) by (cbn; by rewrite lookup_insert_eq).
    unfold set_fibers. cbn. by rewrite insert_insert_eq.
  - by rewrite (update_run w p f).
  - by rewrite (update_run w p f).
Qed.

(** ** A slice of a fiber on a scheduler thread *)

Inductive slice_end := ToReady | ToHold | ToEnd (e : ending).

(** [swapIn], the callback up to its next yield or its end, and the switch back. *)
Definition slice (p : fptr) (e : slice_end) : M world unit :=
  swapIn p;;
  match e with
  | ToReady => YieldToReady p
  | ToHold => YieldToHold p
  | ToEnd r => MainFunc_end p r
  end.

(** The fiber after a slice that ended so. *)
Definition after_slice (e : slice_end) (f : Fiber) : Fiber :=
  match e with
  | ToReady => with_state READY (with_ctx Saved f)
  | ToHold => with_state EXEC (with_ctx Saved f)
  | ToEnd r => with_ctx Finished (finished r f)
  end.

Definition at_main (m : fptr) (fm : Fiber) (w : world) : Prop :=
  mainFiber w = Some m ∧ active w = Some m ∧ fibers w !! m = Some fm.

Section slices.
Context (m p : fptr) (fm f : Fiber) (w : world).
Hypotheses (Hm : at_main m fm w) (Hp : fibers w !! p = Some f) (Hne : p ≠ m).

Definition running : world :=
  mkWorld (<[m := with_ctx Saved fm]> (<[p := with_state EXEC f]> (fibers w)))
    (s_fiber_id w) (s_fiber_count w) (Some p) (t_threadFiber w) (Some m) (Some p).

Lemma swapIn_run :
  m_state f ≠ EXEC → resumable (m_ctx f) = true → swapIn p w = Ok tt running.
Proof.
  intros Hs Hc. destruct Hm as (Hmf & Ha & Hfm). unfold swapIn, SetThis.
  rewrite bind_modify. mstep (fiber_at_run (set_t_fiber (Some p) w) p f Hp).
  rewrite bool_decide_eq_false_2 by done.
  rewrite (bind_ok _ _ _ tt (set_t_fiber (Some p) w)) by done.
  mstep (update_run (set_t_fiber (Some p) w) p f (with_state EXEC) Hp).
  unfold main_fiber. rewrite (bind_ok _ _ _ m (set_fibers (<[p := with_state EXEC f]> (fibers w))
    (set_t_fiber (Some p) w))) by (mrun; cbn; by rewrite Hmf).
  rewrite (swapcontext_run _ m p Saved fm (with_state EXEC f)); cbn.
  - unfold set_active, set_fibers, set_t_fiber, running. cbn. by rewrite Hmf.
  - done.
  - by rewrite lookup_insert_ne.
  - by rewrite lookup_insert_eq.
  - done.
  - done.
Qed.

(** Leaving the running fiber, rewritten by [g], for the main fiber. *)
Lemma swapOut_run k (g : Fiber → Fiber) :
  swapOut p k (set_fibers (<[p := g (with_state EXEC f)]> (fibers running)) running) =
  Ok tt (mkWorld (<[p := with_ctx k (g (with_state EXEC f))]>
                   (<[m := with_ctx Saved fm]> (fibers w)))
    (s_fiber_id w) (s_fiber_count w) (Some m) (t_threadFiber w) (Some m) (Some m)).
Proof.
  unfold swapOut. mget. unfold SetThis. rewrite bind_modify. unfold main_fiber.
  rewrite (bind_ok _ _ _ m (set_t_fiber (Some m)
    (set_fibers (<[p := g (with_state EXEC f)]> (fibers running)) running))) by done.
  rewrite (swapcontext_run _ p m k (g (with_state EXEC f)) (with_ctx Saved fm)); cbn; try done.
  - unfold set_active, set_fibers. cbn. do 2 f_equal.
    rewrite insert_insert_eq, insert_insert_ne by done. rewrite insert_insert_eq. by apply insert_insert_ne.
  - by rewrite lookup_insert_eq.
  - rewrite lookup_insert_ne by done. by rewrite lookup_insert_eq.
Qed.
End slices.

Lemma slice_run m fm p f w e :
  at_main m fm w → fibers w !! p = Some f → p ≠ m →
  m_state f ≠ EXEC → resumable (m_ctx f) = true →
  slice p e w =
    Ok tt (mkWorld (<[p := after_slice e f]> (<[m := with_ctx Saved fm]> (fibers w)))
      (s_fiber_id w) (s_fiber_count w) (Some m) (t_threadFiber w) (Some m) (Some m)).
Proof.
  intros Hm Hp Hne Hs Hc. unfold slice. mstep (swapIn_run m p fm f w Hm Hp Hne Hs Hc).
  assert (fibers (running m p fm f w) !! p = Some (with_state EXEC f)) as Hr.
  { cbn. rewrite lookup_insert_ne by done. by rewrite lookup_insert_eq. }
  pose proof (swapOut_run m p fm f w Hne) as Hout.
  destruct e as [| |r]; unfold YieldToReady, YieldToHold, MainFunc_end, GetThis.
  - rewrite (bind_ok _ _ _ p (running m p fm f w)) by done.
    mstep (fiber_at_run _ p _ Hr). rewrite (bind_ok _ _ _ tt (running m p fm f w)) by done.
    mstep (update_run _ p _ (with_state READY) Hr). by rewrite (Hout Saved (with_state READY)).
  - rewrite (bind_ok _ _ _ p (running m p fm f w)) by done.
    mstep (fiber_at_run _ p _ Hr). rewrite (bind_ok _ _ _ tt (running m p fm f w)) by done.
    etrans; [|exact (Hout Saved id)]. f_equal. unfold set_fibers, running. cbn. f_equal.
    by rewrite insert_insert_ne, insert_insert_eq.
  - rewrite (bind_ok _ _ _ p (running m p fm f w)) by done.
    mstep (finish_cb_run _ p _ r Hr). rewrite (Hout Finished (finished r)).
    unfold after_slice, finished. cbn [m_cb with_state].
    by destruct (m_cb f), r.
Qed.

(** What the scheduler does to a fiber that came back without yielding ready
    or ending (scheduler.cc, lines 176-181). *)
Definition hold (p : fptr) : M world unit :=
  f ← fiber_at p;
  when (negb (bool_decide (m_state f = READY) || bool_decide (m_state f = TERM) ||
              bool_decide (m_state f = EXCEPT)))
    (update p (with_state HOLD)).

(** The fiber after a turn of the scheduler that ended so. *)
Definition after_turn (e : slice_end) (f : Fiber) : Fiber :=
  match e with
  | ToReady => with_state READY (with_ctx Saved f)
  | ToHold => with_state HOLD (with_ctx Saved f)
  | ToEnd r => with_ctx Finished (finished r f)
  end.

Lemma hold_run p f w : fibers w !! p = Some f → m_state f ≠ INIT → m_state f ≠ HOLD →
  hold p w = Ok tt (set_fibers (<[p := match m_state f with EXEC => with_state HOLD f | _ => f end]> (fibers w)) w).
Proof.
  intros Hp Hi Hh. unfold hold. mstep (fiber_at_run w p f Hp).
  destruct (m_state f) eqn:E; try done; unfold when; simpl.
  - exact (update_run w p f _ Hp).
  - unfold set_fibers. rewrite (insert_id (fibers w)) by done. by destruct w.
  - unfold set_fibers. rewrite (insert_id (fibers w)) by done. by destruct w.
  - unfold set_fibers. rewrite (insert_id (fibers w)) by done. by destruct w.
Qed.

(** C13: one turn of a scheduler thread with a fiber that is not running and can resume
    (swapIn, the callback up to its next yield or its end, the switch back, and the state
    the scheduler then assigns) returns to the scheduler's main fiber with the fiber READY
    after YieldToReady, HOLD after YieldToHold, TERM with its callback cleared when the
    callback returned and EXCEPT when it threw, and every other fiber unchanged. *)
Theorem fiber_slice m fm p f w e :
  at_main m fm w → fibers w !! p = Some f → p ≠ m →
  m_state f ≠ EXEC → resumable (m_ctx f) = true →
  (slice p e;; hold p) w =
    Ok tt (mkWorld (<[p := after_turn e f]> (<[m := with_ctx Saved fm]> (fibers w)))
      (s_fiber_id w) (s_fiber_count w) (Some m) (t_threadFiber w) (Some m) (Some m)).
Proof.
  intros Hm Hp Hne Hs Hc. mstep (slice_run m fm p f w e Hm Hp Hne Hs Hc).
  rewrite (hold_run p (after_slice e f)).
  - unfold set_fibers. cbn. rewrite insert_insert_eq. do 3 f_equal.
    destruct e as [| |r]; try done. unfold after_slice, after_turn, finished. by destruct (m_cb f), r.
  - cbn. by rewrite lookup_insert_eq.
  - destruct e as [| |r]; try done. unfold after_slice, finished. by destruct (m_cb f), r.
  - destruct e as [| |r]; try done. unfold after_slice, finished. by destruct (m_cb f), r.
Qed.

(** ** Life cycle and accounting over any sequence of operations *)

(** The scheduler stores its main fiber (scheduler.cc, lines 26 and 132). *)
Definition set_mainFiber (f : option fptr) : M world unit :=
  modify (λ w, mkWorld (fibers w) (s_fiber_id w) (s_fiber_count w) (t_fiber w)
                 (t_threadFiber w) f (active w)).

Inductive fop :=
| ONew (stack_size : Z) (p : fptr) (cb : option Z) (stacksize : Z) (use_caller : bool)
| ODelete (p : fptr)
| OReset (p : fptr) (cb : option Z)
| OCall (p : fptr)
| OBack (p : fptr)
| OSwapIn (p : fptr)
| OSwapOut (p : fptr)
| OGetThis (p : fptr)
| OYieldToReady (p : fptr)
| OYieldToHold (p : fptr)
| OMainEnd (p : fptr) (e : ending)
| OCallerEnd (p : fptr) (e : ending)
| OHold (p : fptr)
| OSetMain (f : option fptr).

Definition fexec (o : fop) : M world unit :=
  match o with
  | ONew size p cb st uc => new_Fiber size p cb st uc
  | ODelete p => delete_Fiber p
  | OReset p cb => reset p cb
  | OCall p => call p
  | OBack p => back p Saved
  | OSwapIn p => swapIn p
  | OSwapOut p => swapOut p Saved
  | OGetThis p => GetThis p;; mret tt
  | OYieldToReady p => YieldToReady p
  | OYieldToHold p => YieldToHold p
  | OMainEnd p e => MainFunc_end p e
  | OCallerEnd p e => CallerMainFunc_end p e
  | OHold p => hold p
  | OSetMain f => set_mainFiber f
  end.

(** The allocator returns an unused address. *)
Definition flegal (o : fop) (w : world) : Prop :=
  match o with
  | ONew _ p _ _ _ | OGetThis p | OYieldToReady p | OYieldToHold p
  | OMainEnd p _ | OCallerEnd p _ => fibers w !! p = None
  | _ => True
  end.

Inductive freach : nat → world → Prop :=
| freach_init : freach 0 (mkWorld ∅ 0 0 None None None None)
| freach_step n o w w' : freach n w → flegal o w → fexec o w = Ok tt w' → freach (S n) w'.

Definition terminal (st : State) : bool := bool_decide (st = TERM) || bool_decide (st = EXCEPT).

(** A context is finished exactly when its fiber ended, and the running one has not. *)
Definition ctx_ok (f : Fiber) : Prop := m_ctx f = Finished ↔ terminal (m_state f) = true.

Record winv (w : world) : Prop := {
  winv_ctx : ∀ p f, fibers w !! p = Some f → ctx_ok f;
  winv_active : ∀ a f, active w = Some a → fibers w !! a = Some f → terminal (m_state f) = false
}.

(** How an operation may change the state of a fiber: an ended fiber stays
    ended or is reset, and only an ended or a new one is reset. *)
Definition may (a b : State) : Prop :=
  match a with
  | TERM | EXCEPT => b = a ∨ b = INIT
  | EXEC | HOLD | READY => b ≠ INIT
  | INIT => True
  end.

Definition evolves (w w' : world) : Prop :=
  ∀ p f f', fibers w !! p = Some f → fibers w' !! p = Some f' → may (m_state f) (m_state f').

(** One fiber was rewritten, the running fiber is now [a]. *)
Lemma evolves_insert w w' p f g a :
  winv w → fibers w !! p = Some f → fibers w' = <[p := g]> (fibers w) → active w' = a →
  ctx_ok g → may (m_state f) (m_state g) →
  (∀ b h, a = Some b → fibers w' !! b = Some h → terminal (m_state h) = false) →
  winv w' ∧ evolves w w'.
Proof.
  intros [H1 H2] Hp Hf Ha Hg Hm Hact. split; [split|].
  - intros q h. rewrite Hf. destruct (decide (q = p)) as [->|Hne].
    + rewrite lookup_insert_eq. by intros [= <-].
    + rewrite lookup_insert_ne by done. eauto.
  - rewrite Ha. exact Hact.
  - intros q h h'. rewrite Hf. destruct (decide (q = p)) as [->|Hne].
    + rewrite lookup_insert_eq. intros ? [= <-]. by simplify_eq.
    + rewrite lookup_insert_ne by done. intros. simplify_eq. by destruct (m_state h); simpl; auto.
Qed.

(** The thread left [a], resuming later as [k], for [b]. *)
Definition switched (a b : fptr) (k : context) (w w' : world) : Prop :=
  active w = Some a ∧
  ∃ fa fb, fibers w !! a = Some fa ∧ <[a := with_ctx k fa]> (fibers w) !! b = Some fb ∧
    resumable (m_ctx fb) = true ∧ fibers w' = <[a := with_ctx k fa]> (fibers w) ∧
    active w' = Some b ∧ s_fiber_id w' = s_fiber_id w ∧ s_fiber_count w' = s_fiber_count w.

Lemma swapcontext_switched w a b k u w' : swapcontext a b k w = Ok u w' → switched a b k w w'.
Proof.
  intros (fa & fb & Ha & Hfa & Hfb & Hr & ->)%swapcontext_ok. split; [done|].
  by exists fa, fb.
Qed.

Lemma swapOut_ok w p k u w' : swapOut p k w = Ok u w' → ∃ m, switched p m k w w'.
Proof.
  unfold swapOut. mget. unfold SetThis. rewrite bind_modify. intros H. minv H.
  assert (s = set_t_fiber (mainFiber w) w) as ->.
  { revert E. unfold main_fiber. mrun. cbn. case_match; naive_solver. }
  exists a. by apply swapcontext_switched in H.
Qed.

Lemma back_ok w p k u w' : back p k w = Ok u w' → ∃ m, switched p m k w w'.
Proof.
  unfold back. intros H. minv H.
  assert (s = w) as ->.
  { revert E. unfold thread_fiber. mrun. case_match; naive_solver. }
  unfold SetThis in H. rewrite bind_modify in H. exists a. by apply swapcontext_switched in H.
Qed.

(** The world a switch to the fiber [p], now [EXEC], starts from. *)
Definition entering (p : fptr) (f : Fiber) (w : world) : world :=
  set_fibers (<[p := with_state EXEC f]> (fibers w)) (set_t_fiber (Some p) w).

Lemma call_ok w p u w' :
  call p w = Ok u w' → ∃ f m, fibers w !! p = Some f ∧ switched m p Saved (entering p f w) w'.
Proof.
  unfold call, SetThis. rewrite bind_modify. intros H. minv H.
  apply update_ok in E as (f & Hf & ->). minv H.
  assert (s = entering p f w) as ->.
  { revert E. unfold thread_fiber. mrun. cbn. case_match; naive_solver. }
  exists f, a0. split; [done|]. by apply swapcontext_switched in H.
Qed.

Lemma swapIn_ok w p u w' :
  swapIn p w = Ok u w' →
  ∃ f m, fibers w !! p = Some f ∧ m_state f ≠ EXEC ∧ switched m p Saved (entering p f w) w'.
Proof.
  unfold swapIn, SetThis. rewrite bind_modify. intros H. minv H.
  apply fiber_at_ok in E as [-> Hf]. minv H.
  assert (s = set_t_fiber (Some p) w ∧ m_state a ≠ EXEC) as [-> Hs].
  { revert E. unfold peng_assert. case_bool_decide; naive_solver. }
  minv H. apply update_ok in E0 as (f & Hf' & ->). cbn in Hf, Hf'.
  rewrite Hf in Hf'. injection Hf' as <-.
  minv H. assert (s = entering p a w) as ->.
  { revert E0. unfold main_fiber. mrun. cbn. case_match; naive_solver. }
  exists a, a2. split_and!; [done|done|]. by apply swapcontext_switched in H.
Qed.

(** [GetThis] either finds the current fiber or makes the thread's own one at [p]. *)
Definition got_this (p a : fptr) (w w' : world) : Prop :=
  (t_fiber w = Some a ∧ w' = w) ∨
  (a = p ∧ t_fiber w = None ∧
   w' = mkWorld (<[p := mkFiber 0 0 EXEC Unsaved false None]> (fibers w)) (s_fiber_id w)
          (u64 (s_fiber_count w + 1)) (Some p) (Some p) (mainFiber w) (Some p)).

Lemma GetThis_ok w p a w' : GetThis p w = Ok a w' → got_this p a w w'.
Proof.
  unfold GetThis. mget. destruct (t_fiber w) eqn:Et.
  - intros [= <- <-]. by left.
  - intros [= <- <-]. by right.
Qed.

Lemma may_refl st : may st st.
Proof. destruct st; simpl; auto. Qed.

Lemma may_resumed f b : ctx_ok f → m_ctx f ≠ Finished → b ≠ INIT → may (m_state f) b.
Proof. unfold ctx_ok, terminal. destruct (m_state f); simpl; intros; tauto. Qed.

Lemma winv_intro w w' :
  (∀ p f', fibers w' !! p = Some f' → ctx_ok f' ∧
     ∀ f, fibers w !! p = Some f → may (m_state f) (m_state f')) →
  (∀ a f, active w' = Some a → fibers w' !! a = Some f → terminal (m_state f) = false) →
  winv w' ∧ evolves w w'.
Proof.
  intros H Ha. split; [split; [|done]|].
  - intros p f' Hp. by apply H in Hp as [? _].
  - intros p f f' Hf Hf'. by apply (H p f').
Qed.

Lemma resumable_finished c : resumable c = true → c ≠ Finished.
Proof. by destruct c. Qed.

(** Leaving the running fiber after it was rewritten as [g]. *)
Lemma leave_winv w w' cur m f g k :
  winv w → active w = Some cur → fibers w !! cur = Some f →
  ctx_ok (with_ctx k g) → may (m_state f) (m_state g) →
  switched cur m k (set_fibers (<[cur := g]> (fibers w)) w) w' → winv w' ∧ evolves w w'.
Proof.
  intros [H1 H2] Ha Hf Hc Hm (_ & fa & fb & Hfa & Hfb & Hr & Hw & Hact & _).
  cbn in Hfa, Hfb, Hw. rewrite lookup_insert_eq in Hfa. injection Hfa as <-.
  rewrite insert_insert_eq in Hfb, Hw. assert (∀ p f', fibers w' !! p = Some f' → ctx_ok f') as Hok.
  { intros p f'. rewrite Hw. destruct (decide (p = cur)) as [->|Hne].
    - rewrite lookup_insert_eq. by intros [= <-].
    - rewrite lookup_insert_ne by done. eauto. }
  apply winv_intro.
  - intros p f' Hp. split; [eauto|]. intros h Hh. revert Hp. rewrite Hw.
    destruct (decide (p = cur)) as [->|Hne].
    + rewrite lookup_insert_eq. intros [= <-]. by simplify_eq.
    + rewrite lookup_insert_ne by done. intros. simplify_eq. apply may_refl.
  - intros a h Ha' Hh. assert (a = m) as -> by congruence. rewrite Hw in Hh.
    rewrite Hfb in Hh. simplify_eq. apply not_true_iff_false. intros Ht.
    apply resumable_finished in Hr. apply Hr, (Hok m); [by rewrite Hw|done].
Qed.

(** Entering a fiber. *)
Lemma enter_winv w w' p m f :
  winv w → fibers w !! p = Some f → switched m p Saved (entering p f w) w' →
  winv w' ∧ evolves w w'.
Proof.
  intros [H1 H2] Hf (Ha & fa & fb & Hfa & Hfb & Hr & Hw & Hact & _). cbn in *.
  assert (m_ctx f ≠ Finished) as Hnf.
  { destruct (decide (p = m)) as [->|Hne].
    - intros Hc. apply (H1 m f Hf) in Hc. by rewrite (H2 m f Ha Hf) in Hc.
    - rewrite lookup_insert_ne, lookup_insert_eq in Hfb by done. simplify_eq.
      by apply resumable_finished. }
  assert (ctx_ok (with_state EXEC f)) as Hok by (split; [done|by intros ?]).
  assert (∀ q h, <[p := with_state EXEC f]> (fibers w) !! q = Some h → ctx_ok h ∧
    (∀ h0, fibers w !! q = Some h0 → may (m_state h0) (m_state h)) ∧
    (active w = Some q → terminal (m_state h) = false)) as Hmid.
  { intros q h. destruct (decide (q = p)) as [->|Hne].
    - rewrite lookup_insert_eq. intros [= <-]. split_and!; [done| |done].
      intros h0 Hh0. simplify_eq. apply may_resumed; eauto.
    - rewrite lookup_insert_ne by done. intros Hq. split_and!; [eauto| |eauto].
      intros. simplify_eq. apply may_refl. }
  apply winv_intro.
  - intros q h. rewrite Hw. destruct (decide (q = m)) as [->|Hne].
    + rewrite lookup_insert_eq. intros [= <-]. destruct (Hmid m fa Hfa) as (Hm1 & Hm2 & Hm3).
      split; [|done]. split; [done|]. cbn. by rewrite Hm3.
    + rewrite lookup_insert_ne by done. intros Hq. by destruct (Hmid q h Hq) as (? & ? & _).
  - intros a h Ha' Hh. assert (a = p) as -> by congruence. rewrite Hw in Hh.
    destruct (decide (p = m)) as [->|Hne].
    + rewrite lookup_insert_eq in Hh. rewrite lookup_insert_eq in Hfa. by simplify_eq.
    + rewrite lookup_insert_ne, lookup_insert_eq in Hh by done. by simplify_eq.
Qed.

Lemma got_this_winv p a w w1 :
  winv w → fibers w !! p = None → got_this p a w w1 → winv w1 ∧ evolves w w1.
Proof.
  intros Hw Hp [[_ ->]|(-> & _ & ->)].
  - split; [done|]. intros q f f' ??. simplify_eq. apply may_refl.
  - destruct Hw as [H1 H2]. apply winv_intro; cbn.
    + intros q f'. destruct (decide (q = p)) as [->|Hne].
      * rewrite lookup_insert_eq. intros [= <-]. split; [by split|]. intros f Hf. congruence.
      * rewrite lookup_insert_ne by done. intros Hq. split; [eauto|].
        intros f Hf. simplify_eq. apply may_refl.
    + intros b f [= <-]. rewrite lookup_insert_eq. by intros [= <-].
Qed.

Lemma got_this_evolves p a w w1 w' :
  fibers w !! p = None → got_this p a w w1 → evolves w1 w' → evolves w w'.
Proof.
  intros Hp [[_ ->]|(-> & _ & ->)] H; [done|].
  intros q f f' Hf. apply H. cbn. rewrite lookup_insert_ne; [done|]. congruence.
Qed.

Lemma assert_ok (b : bool) s (w w' : world) u : peng_assert b s w = Ok u w' → b = true ∧ w' = w.
Proof. unfold peng_assert. destruct b; naive_solver. Qed.

Lemma finish_cb_ok w p e u w' :
  finish_cb e p w = Ok u w' →
  ∃ f, fibers w !! p = Some f ∧ w' = set_fibers (<[p := finished e f]> (fibers w)) w.
Proof.
  intros H. destruct (fibers w !! p) as [f|] eqn:Hf.
  - exists f. split; [done|]. rewrite (finish_cb_run w p f e Hf) in H. by injection H.
  - unfold finish_cb in H. minv H. apply fiber_at_ok in E as [_ E]. congruence.
Qed.

(** What the operations that leave the running fiber have in common: the
    current fiber is found, rewritten by [g] and left. *)
Lemma leave_ops o p w w' :
  fibers w !! p = None → fexec o w = Ok tt w' →
  match o with
  | OYieldToReady q | OYieldToHold q | OMainEnd q _ | OCallerEnd q _ => q = p
  | _ => False
  end →
  ∃ cur w1 f g k m, got_this p cur w w1 ∧ fibers w1 !! cur = Some f ∧
    switched cur m k (set_fibers (<[cur := g]> (fibers w1)) w1) w' ∧
    m_id g = m_id f ∧ m_stack g = m_stack f ∧
    ((k = Saved ∧ m_state f = EXEC ∧ (m_state g = EXEC ∨ m_state g = READY)) ∨
     (k = Finished ∧ terminal (m_state g) = true)).
Proof.
  intros Hp H Ho. destruct o; try done; subst; cbn [fexec] in H;
    unfold YieldToReady, YieldToHold, MainFunc_end, CallerMainFunc_end in H;
    minv H; apply GetThis_ok in E.
  - minv H. apply fiber_at_ok in E0 as [-> Hf]. minv H. apply assert_ok in E0 as [Hs ->].
    minv H. apply update_ok in E0 as (f & Hf' & ->). simplify_eq.
    apply swapOut_ok in H as [m H]. exists a, s, a0, (with_state READY a0), Saved, m.
    split_and!; try done. left. split_and!; [done|by apply bool_decide_eq_true_1 in Hs|by right].
  - minv H. apply fiber_at_ok in E0 as [-> Hf]. minv H. apply assert_ok in E0 as [Hs ->].
    apply swapOut_ok in H as [m H]. exists a, s, a0, a0, Saved, m.
    apply bool_decide_eq_true_1 in Hs. split_and!; try done; [|by left; auto].
    rewrite insert_id by done. by destruct s.
  - minv H. apply finish_cb_ok in E0 as (f & Hf & ->). apply swapOut_ok in H as [m H].
    exists a, s, f, (finished e f), Finished, m. unfold finished.
    split_and!; try done; [..|right; split; [done|]]; by destruct (m_cb f), e.
  - minv H. apply finish_cb_ok in E0 as (f & Hf & ->). apply back_ok in H as [m H].
    exists a, s, f, (finished e f), Finished, m. unfold finished.
    split_and!; try done; [..|right; split; [done|]]; by destruct (m_cb f), e.
Qed.

Lemma leave_ops_winv o p w w' :
  winv w → fibers w !! p = None → fexec o w = Ok tt w' →
  match o with
  | OYieldToReady q | OYieldToHold q | OMainEnd q _ | OCallerEnd q _ => q = p
  | _ => False
  end → winv w' ∧ evolves w w'.
Proof.
  intros Hw Hp H Ho.
  destruct (leave_ops o p w w' Hp H Ho) as (cur & w1 & f & g & k & m & Hg & Hf & Hs & _ & _ & Hk).
  destruct (got_this_winv p cur w w1 Hw Hp Hg) as [Hw1 _].
  assert (active w1 = Some cur) as Ha by apply Hs.
  pose proof (winv_active _ Hw1 _ _ Ha Hf) as Ht. pose proof (winv_ctx _ Hw1 _ _ Hf) as Hc.
  destruct (leave_winv w1 w' cur m f g k Hw1 Ha Hf) as [Hw' He]; [| |done|].
  - destruct Hk as [(-> & _ & Hgs)|[-> Hgs]]; split; cbn; try done.
    by destruct Hgs as [-> | ->].
  - apply may_resumed; [done| |].
    + intros Hfin. apply Hc in Hfin. congruence.
    + destruct Hk as [(_ & _ & [-> | ->])|[_ Hgs]]; [done..|]. by destruct (m_state g).
  - split; [done|]. by eapply got_this_evolves.
Qed.

(** An operation that rewrote one fiber and stayed on the same stack. *)
Lemma update_winv w w' p f g :
  winv w → fibers w !! p = Some f → fibers w' = <[p := g]> (fibers w) → active w' = active w →
  ctx_ok g → may (m_state f) (m_state g) →
  (terminal (m_state g) = true → terminal (m_state f) = true) →
  winv w' ∧ evolves w w'.
Proof.
  intros Hw Hp Hf Ha Hg Hm Ht. eapply evolves_insert; try done. rewrite Hf.
  intros b h Hb. destruct (decide (b = p)) as [->|Hne].
  - rewrite lookup_insert_eq. intros [= <-]. pose proof (winv_active _ Hw _ _ Hb Hp).
    destruct (terminal (m_state g)); naive_solver.
  - rewrite lookup_insert_ne by done. by apply (winv_active _ Hw).
Qed.

Lemma reset_ok w p cb u w' :
  reset p cb w = Ok u w' →
  ∃ f, fibers w !! p = Some f ∧ m_stack f = true ∧ resettable (m_state f) = true ∧
    w' = set_fibers (<[p := with_state INIT (with_ctx (Start MainFunc) (with_cb cb f))]> (fibers w)) w.
Proof.
  unfold reset. intros H. minv H. apply fiber_at_ok in E as [-> Hf].
  minv H. apply assert_ok in E as [Hs ->]. minv H. apply assert_ok in E as [Hr ->].
  apply update_ok in H as (f & Hf' & ->). exists a. rewrite Hf in Hf'. injection Hf' as <-.
  done.
Qed.

Lemma delete_ok w p u w' :
  delete_Fiber p w = Ok u w' →
  ∃ f, fibers w !! p = Some f ∧ (m_stack f = true → resettable (m_state f) = true) ∧
    fibers w' = delete p (fibers w) ∧ active w' = active w ∧
    s_fiber_id w' = s_fiber_id w ∧ s_fiber_count w' = u64 (s_fiber_count w - 1).
Proof.
  unfold delete_Fiber. intros H. minv H. apply fiber_at_ok in E as [-> Hf].
  rewrite bind_modify in H. exists a. destruct (m_stack a).
  - minv H. apply assert_ok in E as [Hr ->]. by injection H as _ <-.
  - minv H. minv E. apply assert_ok in E0 as [_ ->]. minv E. apply assert_ok in E0 as [_ ->].
    rewrite bind_get in E. unfold when, SetThis in E.
    case_bool_decide; injection E as _ <-; by injection H as _ <-.
Qed.

Lemma hold_ok w p u w' :
  hold p w = Ok u w' →
  ∃ f g, fibers w !! p = Some f ∧ w' = set_fibers (<[p := g]> (fibers w)) w ∧
    (g = f ∨ (g = with_state HOLD f ∧ terminal (m_state f) = false)).
Proof.
  unfold hold. intros H. minv H. apply fiber_at_ok in E as [-> Hf]. unfold when in H.
  case_match eqn:Eb.
  - apply update_ok in H as (f & Hf' & ->). rewrite Hf in Hf'. injection Hf' as <-.
    exists a, (with_state HOLD a). split_and!; [done|done|right].
    split; [done|]. by destruct (m_state a).
  - exists a, a. injection H as _ <-. split_and!; [done| |by left].
    rewrite insert_id by done. by destruct w.
Qed.

(** A fiber that only saves its context and switches away. *)
Lemma suspend_winv w w' p m :
  winv w → switched p m Saved w w' → winv w' ∧ evolves w w'.
Proof.
  intros Hw Hs. pose proof Hs as (Ha & f & _ & Hf & _). pose proof (winv_active _ Hw _ _ Ha Hf) as Ht.
  eapply (leave_winv w w' p m f f Saved); [done..| |apply may_refl|].
  - split; [done|]. cbn. congruence.
  - rewrite insert_id by done. by destruct w.
Qed.

Lemma step_winv o w w' :
  winv w → flegal o w → fexec o w = Ok tt w' → winv w' ∧ evolves w w'.
Proof.
  intros Hw Hl H.
  destruct o as [size p cb st uc|p|p cb|p|p|p|p|p|p|p|p e|p e|p|f]; cbn [fexec flegal] in *.
  - injection H as <-. destruct Hw as [H1 H2]. apply winv_intro; cbn.
    + intros q f'. destruct (decide (q = p)) as [->|Hne].
      * rewrite lookup_insert_eq. intros [= <-]. split; [by split|]. intros f Hf. congruence.
      * rewrite lookup_insert_ne by done. intros Hq. split; [eauto|].
        intros f Hf. simplify_eq. apply may_refl.
    + intros a f Ha. destruct (decide (a = p)) as [->|Hne].
      * rewrite lookup_insert_eq. by intros [= <-].
      * rewrite lookup_insert_ne by done. eauto.
  - apply delete_ok in H as (f & Hf & _ & Hd & Ha & _). destruct Hw as [H1 H2].
    apply winv_intro; rewrite ?Ha, Hd.
    + intros q f' [_ Hq]%lookup_delete_Some. split; [eauto|].
      intros g Hg. simplify_eq. apply may_refl.
    + intros a h Ha' [_ Hq]%lookup_delete_Some. eauto.
  - apply reset_ok in H as (f & Hf & _ & Hr & ->).
    eapply (update_winv w); [done|done|done|done|by split| |done].
    cbn. destruct (m_state f); simpl; auto; done.
  - apply call_ok in H as (f & m & Hf & Hs). by eapply enter_winv.
  - apply back_ok in H as [m Hs]. by eapply suspend_winv.
  - apply swapIn_ok in H as (f & m & Hf & _ & Hs). by eapply enter_winv.
  - apply swapOut_ok in H as [m Hs]. by eapply suspend_winv.
  - minv H. injection H as <-. apply GetThis_ok in E. by eapply got_this_winv.
  - by eapply (leave_ops_winv (OYieldToReady p) p).
  - by eapply (leave_ops_winv (OYieldToHold p) p).
  - by eapply (leave_ops_winv (OMainEnd p e) p).
  - by eapply (leave_ops_winv (OCallerEnd p e) p).
  - apply hold_ok in H as (f & g & Hf & -> & Hg). pose proof (winv_ctx _ Hw _ _ Hf) as Hc.
    eapply (update_winv w _ p f g); [done|done|done|done|..].
    + destruct Hg as [->|[-> Ht]]; [done|]. unfold ctx_ok in *. cbn. by rewrite Ht in Hc.
    + destruct Hg as [->|[-> Ht]]; [apply may_refl|]. by destruct (m_state f).
    + by destruct Hg as [->|[-> Ht]].
  - injection H as <-. destruct Hw as [H1 H2]. split; [by split|].
    intros q g g' ??. cbn in *. simplify_eq. apply may_refl.
Qed.

Lemma freach_winv n w : freach n w → winv w.
Proof.
  induction 1 as [|n o w w' Hr IH Hl He]; [|by eapply step_winv].
  split; cbn; [|done]. intros p f Hp. by rewrite lookup_empty in Hp.
Qed.

Lemma enter_state w w' p m f f' :
  switched m p Saved (entering p f w) w' → fibers w' !! p = Some f' → m_state f' = EXEC.
Proof.
  intros (_ & fa & fb & Hfa & _ & _ & Hw & _). cbn in Hfa, Hw. rewrite Hw.
  destruct (decide (m = p)) as [->|Hne].
  - rewrite lookup_insert_eq in Hfa |- *. intros [= <-]. by injection Hfa as <-.
  - rewrite lookup_insert_ne, lookup_insert_eq by done. by intros [= <-].
Qed.

(** C14: in every state reached by fiber operations, a context is finished exactly when its
    fiber is TERM or EXCEPT; an ended fiber is never run again by swapIn or call and changes
    state only by reset; a suspended or running fiber is never reset. *)
Theorem fiber_lifecycle n o w w' p f f' :
  freach n w → flegal o w → fexec o w = Ok tt w' →
  fibers w !! p = Some f → fibers w' !! p = Some f' →
  (m_ctx f = Finished ↔ m_state f = TERM ∨ m_state f = EXCEPT) ∧
  may (m_state f) (m_state f') ∧
  (m_state f = TERM ∨ m_state f = EXCEPT → o ≠ OSwapIn p ∧ o ≠ OCall p).
Proof.
  intros Hr Hl He Hf Hf'. pose proof (freach_winv n w Hr) as Hw.
  destruct (step_winv o w w' Hw Hl He) as [_ Hev].
  pose proof (Hev p f f' Hf Hf') as Hmay. split_and!; [|done|].
  - pose proof (winv_ctx _ Hw _ _ Hf) as Hc. unfold ctx_ok, terminal in Hc.
    rewrite Hc, orb_true_iff, !bool_decide_eq_true. done.
  - intros Ht. assert (m_state f' ≠ EXEC) as Hne.
    { intros E. rewrite E in Hmay. destruct Ht as [Ht|Ht]; rewrite Ht in Hmay; by destruct Hmay. }
    split; intros ->; apply Hne.
    + apply swapIn_ok in He as (g & m & Hg & _ & Hs). by eapply enter_state.
    + apply call_ok in He as (g & m & Hg & Hs). by eapply enter_state.
Qed.

(** ** Accounting *)

Definition obj (f : Fiber) : Z * bool := (m_id f, m_stack f).

Record counted (n : nat) (w : world) : Prop := {
  cnt_size : s_fiber_count w = Z.of_nat (size (fibers w));
  cnt_bound : s_fiber_count w <= Z.of_nat n;
  cnt_id : 0 <= s_fiber_id w <= Z.of_nat n;
  cnt_ids : ∀ p f, fibers w !! p = Some f → m_stack f = true → 1 <= m_id f <= s_fiber_id w;
  cnt_main : ∀ p f, fibers w !! p = Some f → m_stack f = false → m_id f = 0;
  cnt_inj : ∀ p q f g, fibers w !! p = Some f → fibers w !! q = Some g →
    m_stack f = true → m_stack g = true → m_id f = m_id g → p = q
}.

(** Same objects, same counters. *)
Definition same_objects (w w' : world) : Prop :=
  obj <$> fibers w' = obj <$> fibers w ∧
  s_fiber_id w' = s_fiber_id w ∧ s_fiber_count w' = s_fiber_count w.

Lemma obj_insert (m : gmap Z Fiber) p f g :
  m !! p = Some f → obj g = obj f → obj <$> <[p := g]> m = obj <$> m.
Proof.
  intros Hf Ho. rewrite fmap_insert, Ho. apply insert_id. by rewrite lookup_fmap, Hf.
Qed.

Lemma obj_lookup (m m' : gmap Z Fiber) p f' :
  obj <$> m' = obj <$> m → m' !! p = Some f' → ∃ f, m !! p = Some f ∧ obj f = obj f'.
Proof.
  intros Ho Hp. assert ((obj <$> m) !! p = Some (obj f')) as H.
  { by rewrite <- Ho, lookup_fmap, Hp. }
  rewrite lookup_fmap in H. apply fmap_Some in H as (f & ? & ?). eauto.
Qed.

Lemma counted_same n w w' : counted n w → same_objects w w' → counted n w'.
Proof.
  intros [H1 H2 H3 H4 H5 H6] (Ho & Hi & Hc).
  assert (size (fibers w') = size (fibers w)) as Hs.
  { rewrite <- (map_size_fmap obj (fibers w')), Ho. apply map_size_fmap. }
  split; rewrite ?Hi, ?Hc, ?Hs; try lia.
  - intros p f' (f & Hf & E)%(obj_lookup (fibers w)); [|done]. injection E as <- <-. eauto.
  - intros p f' (f & Hf & E)%(obj_lookup (fibers w)); [|done]. injection E as <- <-. eauto.
  - intros p q f' g' (f & Hf & E)%(obj_lookup (fibers w)) (g & Hg & E')%(obj_lookup (fibers w));
      [|done..]. injection E as <- <-. injection E' as <- <-. eauto.
Qed.

Lemma counted_S n w : counted n w → counted (S n) w.
Proof. intros []. split; eauto; lia. Qed.

Lemma switched_same a b k w w' : switched a b k w w' → same_objects w w'.
Proof.
  intros (_ & fa & fb & Hfa & _ & _ & Hw & _ & Hi & Hc). split; [|done].
  rewrite Hw. by eapply obj_insert.
Qed.

Lemma counted_add n w w' p f :
  counted n w → Z.of_nat (S n) < 2 ^ 64 → fibers w !! p = None →
  fibers w' = <[p := f]> (fibers w) → s_fiber_count w' = u64 (s_fiber_count w + 1) →
  (m_stack f = false ∧ m_id f = 0 ∧ s_fiber_id w' = s_fiber_id w ∨
   m_stack f = true ∧ s_fiber_id w' = u64 (s_fiber_id w + 1) ∧ m_id f = s_fiber_id w') →
  counted (S n) w'.
Proof.
  intros [H1 H2 H3 H4 H5 H6] Hn Hp Hf Hc Hid.
  assert (s_fiber_count w' = s_fiber_count w + 1) as Hc' by (rewrite Hc; apply wrapu_small; lia).
  assert (s_fiber_id w <= s_fiber_id w' <= s_fiber_id w + 1 ∧
    (m_stack f = true → m_id f = s_fiber_id w + 1 ∧ s_fiber_id w' = s_fiber_id w + 1))
    as [Hi Hnew].
  { destruct Hid as [(-> & _ & ->)|(_ & E & E')]; [split; [lia|done]|].
    rewrite wrapu_small in E by lia. lia. }
  split; rewrite ?Hf.
  - rewrite map_size_insert_None by done. lia.
  - lia.
  - lia.
  - intros q g [[<- <-]|[_ Hq]]%lookup_insert_Some Hs; [specialize (Hnew Hs); lia|].
    specialize (H4 q g Hq Hs). lia.
  - intros q g [[<- <-]|[_ Hq]]%lookup_insert_Some Hs; [|eauto].
    destruct Hid as [(_ & ? & _)|(? & _)]; [done|congruence].
  - intros q r g h [[<- <-]|[_ Hq]]%lookup_insert_Some [[<- <-]|[_ Hr]]%lookup_insert_Some Hs Hs' E;
      [done|..].
    + specialize (Hnew Hs). specialize (H4 r h Hr Hs'). lia.
    + specialize (Hnew Hs'). specialize (H4 q g Hq Hs). lia.
    + eauto.
Qed.

Lemma counted_delete n w w' p f :
  counted n w → fibers w !! p = Some f → fibers w' = delete p (fibers w) →
  s_fiber_id w' = s_fiber_id w → s_fiber_count w' = u64 (s_fiber_count w - 1) →
  Z.of_nat (S n) < 2 ^ 64 → counted (S n) w'.
Proof.
  intros [H1 H2 H3 H4 H5 H6] Hp Hf Hi Hc Hn.
  assert (0 < size (fibers w))%nat as Hpos.
  { destruct (decide (size (fibers w) = 0%nat)) as [E|E]; [|lia].
    apply map_size_empty_inv in E. by rewrite E, lookup_empty in Hp. }
  rewrite wrapu_small in Hc by lia. split; rewrite ?Hi, ?Hf.
  - rewrite map_size_delete, Hp. simpl. lia.
  - lia.
  - lia.
  - intros q g [_ Hq]%lookup_delete_Some. eauto.
  - intros q g [_ Hq]%lookup_delete_Some. eauto.
  - intros q r g h [_ Hq]%lookup_delete_Some [_ Hr]%lookup_delete_Some. eauto.
Qed.

Lemma got_this_counted n p a w w1 :
  counted n w → Z.of_nat (S n) < 2 ^ 64 → fibers w !! p = None → got_this p a w w1 →
  counted (S n) w1.
Proof.
  intros Hc Hn Hp [[_ ->]|(-> & _ & ->)]; [by apply counted_S|].
  eapply (counted_add n w); [done|done|done|done|done|]. by left.
Qed.

Lemma enter_same w w' p m f :
  fibers w !! p = Some f → switched m p Saved (entering p f w) w' → same_objects w w'.
Proof.
  intros Hf Hs. apply switched_same in Hs as (Ho & Hi & Hc). split; [|done].
  rewrite Ho. cbn. by eapply obj_insert.
Qed.

Lemma step_counted n o w w' :
  counted n w → Z.of_nat (S n) < 2 ^ 64 → flegal o w → fexec o w = Ok tt w' → counted (S n) w'.
Proof.
  intros Hc Hn Hl H.
  assert (∀ p, fibers w !! p = None → match o with
    | OYieldToReady q | OYieldToHold q | OMainEnd q _ | OCallerEnd q _ => q = p
    | _ => False end → counted (S n) w') as Hleave.
  { intros p Hp Ho.
    destruct (leave_ops o p w w' Hp H Ho)
      as (cur & w1 & f & g & k & m & Hg & Hf & Hs & Hi & Hk & _).
    eapply counted_same; [by eapply got_this_counted|].
    apply switched_same in Hs as (Ho' & Hi' & Hc'). split; [|done]. rewrite Ho'. cbn.
    eapply obj_insert; [done|]. unfold obj. by rewrite Hi, Hk. }
  destruct o as [size p cb st uc|p|p cb|p|p|p|p|p|p|p|p e|p e|p|f];
    cbn [fexec flegal] in *; try (by apply (Hleave p)).
  - injection H as <-. eapply (counted_add n w); [done|done|done|done|done|]. by right.
  - apply delete_ok in H as (f & Hf & _ & Hd & _ & Hi & Hcn). by eapply (counted_delete n w).
  - apply counted_S, (counted_same n w); [done|].
    apply reset_ok in H as (f & Hf & _ & _ & ->). split; [|done]. by eapply obj_insert.
  - apply counted_S, (counted_same n w); [done|].
    apply call_ok in H as (f & m & Hf & Hs). by eapply enter_same.
  - apply counted_S, (counted_same n w); [done|].
    apply back_ok in H as [m Hs]. by eapply switched_same.
  - apply counted_S, (counted_same n w); [done|].
    apply swapIn_ok in H as (f & m & Hf & _ & Hs). by eapply enter_same.
  - apply counted_S, (counted_same n w); [done|].
    apply swapOut_ok in H as [m Hs]. by eapply switched_same.
  - minv H. injection H as <-. apply GetThis_ok in E. by eapply got_this_counted.
  - apply counted_S, (counted_same n w); [done|].
    apply hold_ok in H as (f & g & Hf & -> & Hg). split; [|done]. eapply obj_insert; [done|].
    by destruct Hg as [->|[-> _]].
  - apply counted_S, (counted_same n w); [done|]. by injection H as <-.
Qed.

Lemma freach_counted n w : freach n w → Z.of_nat n < 2 ^ 64 → counted n w.
Proof.
  induction 1 as [|n o w w' Hr IH Hl He]; intros Hn.
  - split; cbn; try done; intros p f; try (by rewrite lookup_empty).
  - eapply step_counted; [apply IH; lia|done..].
Qed.

(** After any sequence of fiber operations TotalFibers returns the number of live
    fibers, and the fibers with a stack have distinct non-zero ids while a thread's own
    fiber has id 0. *)
Theorem fiber_accounting n w :
  freach n w → Z.of_nat n < 2 ^ 64 →
  TotalFibers w = Ok (Z.of_nat (size (fibers w))) w ∧
  (∀ p f, fibers w !! p = Some f → m_stack f = false → m_id f = 0) ∧
  (∀ p q f g, fibers w !! p = Some f → fibers w !! q = Some g →
     m_stack f = true → m_stack g = true → m_id f ≠ 0 ∧ (m_id f = m_id g → p = q)).
Proof.
  intros Hr Hn. destruct (freach_counted n w Hr Hn) as [H1 _ _ H4 H5 H6].
  split_and!; [unfold TotalFibers, gets; by rewrite H1|done|].
  intros p q f g Hp Hq Hs Hs'. specialize (H4 p f Hp Hs) as Hid. split; [lia|eauto].
Qed.

(** ** A concrete run: a thread makes its own fiber, a second one runs a slice,
    yields, is marked held, and runs to its end. *)
Definition demo_ops : list fop :=
  [OGetThis 16; OSetMain (Some 16); ONew 131072 32 (Some 7) 0 false; OSwapIn 32;
   OYieldToHold 48; OHold 32; OSwapIn 32; OMainEnd 48 Returned].

Fixpoint frun (ops : list fop) : M world unit :=
  match ops with [] => mret tt | o :: r => fexec o;; frun r end.

Definition w0 : world := mkWorld ∅ 0 0 None None None None.

(** The run checked step by step, with the legality of each operation. *)
Definition flegalb (o : fop) (w : world) : bool :=
  match o with
  | ONew _ p _ _ _ | OGetThis p | OYieldToReady p | OYieldToHold p
  | OMainEnd p _ | OCallerEnd p _ => bool_decide (fibers w !! p = None)
  | _ => true
  end.

Fixpoint fcheck (ops : list fop) (w : world) : option world :=
  match ops with
  | [] => Some w
  | o :: r => if flegalb o w then
                match fexec o w with Ok _ w' => fcheck r w' | _ => None end
              else None
  end.

Lemma fcheck_reach ops : ∀ n w w', freach n w → fcheck ops w = Some w' → freach (n + length ops) w'.
Proof.
  induction ops as [|o r IH]; intros n w w' Hr; simpl.
  - intros [= <-]. by rewrite Nat.add_0_r.
  - destruct (flegalb o w) eqn:El; [|done]. destruct (fexec o w) as [[] w1| | |] eqn:E; try done.
    rewrite Nat.add_succ_r, <- Nat.add_succ_l. apply IH. eapply freach_step; [done| |done].
    destruct o; simpl in *; try done; by apply bool_decide_eq_true_1 in El.
Qed.

Definition w8 : world := default w0 (fcheck demo_ops w0).

Lemma w8_reach : freach 8 w8.
Proof. apply (fcheck_reach demo_ops 0 w0); [constructor|by vm_compute]. Qed.

Lemma fiber_accounting_witness :
  TotalFibers w8 = Ok 2 w8 ∧ ∀ p f, fibers w8 !! p = Some f → m_stack f = false → m_id f = 0.
Proof.
  destruct (fiber_accounting 8 w8 w8_reach) as (H1 & H2 & _); [lia|].
  split; [exact H1|exact H2].
Defined.

(** The ended fiber, reset for another callback. *)
Lemma fiber_lifecycle_witness :
  ∃ w' f f', fexec (OReset 32 (Some 8)) w8 = Ok tt w' ∧ fibers w8 !! 32 = Some f ∧
    fibers w' !! 32 = Some f' ∧ m_state f = TERM ∧ m_state f' = INIT ∧ may (m_state f) (m_state f').
Proof.
  eexists _, (mkFiber 1 131072 TERM Finished true None), (mkFiber 1 131072 INIT (Start MainFunc) true (Some 8)).
  split; [vm_compute; reflexivity|]. split; [reflexivity|]. split; [reflexivity|].
  split; [reflexivity|]. split; [reflexivity|].
  eapply (fiber_lifecycle 8 (OReset 32 (Some 8)) w8 _ 32 _ _ w8_reach I);
    [vm_compute; reflexivity|reflexivity|reflexivity].
Defined.

Definition w6 : world := default w0 (fcheck (take 6 demo_ops) w0).

Lemma fiber_slice_witness :
  (slice 32 ToHold;; hold 32) w6 =
    Ok tt (mkWorld (<[32 := mkFiber 1 131072 HOLD Saved true (Some 7)]>
                     (<[16 := mkFiber 0 0 EXEC Saved false None]> (fibers w6)))
            1 2 (Some 16) (Some 16) (Some 16) (Some 16)).
Proof.
  exact (fiber_slice 16 (mkFiber 0 0 EXEC Saved false None) 32
    (mkFiber 1 131072 HOLD Saved true (Some 7)) w6 ToHold
    (conj eq_refl (conj eq_refl eq_refl)) eq_refl ltac:(discriminate) ltac:(discriminate) eq_refl).
Defined.

(** Resuming an ended fiber stops the process. *)
Example swapIn_ended : swapIn 32 w8 = Abort "never reach".
Proof. reflexivity. Qed.
