(* ===== verification/Mutex.v ===== *)
(** * Locks and guards (mutex.h, mutex.cc)

    Each lock is a state with the threads that hold it; taking a lock returns
    [None] when the thread would block.  The three guard templates are one
    system over the interface [Lockable] that their parameter [T] offers:
    guards of any number of threads are constructed, locked, unlocked and
    destroyed in any order, and the call on the lock and the assignment of
    [m_locked] are separate steps. *)

From S2P Require Import Prelude.

Abbreviation tid := Z (only parsing).

(** ** What a guard needs of its lock *)

Class Lockable (L : Type) := {
  acquire : tid → L → option L;
  release : tid → L → option L;  (* [None]: undefined, the thread does not hold it *)
  holders : L → list tid;
  acquire_holders t l l' : acquire t l = Some l' → holders l' ≡ₚ t :: holders l;
  release_holders t l :
    t ∈ holders l → ∃ l', release t l = Some l' ∧ holders l ≡ₚ t :: holders l';
  release_fewer t l l' : release t l = Some l' → (length (holders l') <= length (holders l))%nat
}.

(** A lock that only a free thread can take. *)
Class Exclusive (L : Type) `{Lockable L} :=
  acquire_free : ∀ t l l', acquire t l = Some l' → holders l = [].

(** ** The locks *)

(** [pthread_mutex_t] and [pthread_spinlock_t]: the owner. *)
Record Mutex := mkMutex { m_owner : option tid }.

Definition Mutex_lock (t : tid) (m : Mutex) : option Mutex :=
  match m_owner m with None => Some (mkMutex (Some t)) | Some _ => None end.
Definition Mutex_unlock (t : tid) (m : Mutex) : option Mutex :=
  if bool_decide (m_owner m = Some t) then Some (mkMutex None) else None.

Record Spinlock := mkSpin { s_owner : option tid }.

Definition Spinlock_lock (t : tid) (m : Spinlock) : option Spinlock :=
  match s_owner m with None => Some (mkSpin (Some t)) | Some _ => None end.
Definition Spinlock_unlock (t : tid) (m : Spinlock) : option Spinlock :=
  if bool_decide (s_owner m = Some t) then Some (mkSpin None) else None.

(** [CASLock]: the flag, and the thread that set it last (not in the object). *)
Record CASLock := mkCAS { m_flag : bool; c_setter : tid }.

(** [atomic_flag_test_and_set]: the old value and the flag set. *)
Definition test_and_set (t : tid) (m : CASLock) : bool * CASLock := (m_flag m, mkCAS true t).

(** One turn of the loop of [lock]: it ends when the old value was clear. *)
Definition CASLock_lock (t : tid) (m : CASLock) : option CASLock :=
  let (old, m') := test_and_set t m in if old then None else Some m'.
Definition CASLock_unlock (t : tid) (m : CASLock) : option CASLock := Some (mkCAS false (c_setter m)).

(** [pthread_rwlock_t]. *)
Record RWMutex := mkRW { m_readers : list tid; m_writer : option tid }.

Definition rdlock (t : tid) (m : RWMutex) : option RWMutex :=
  match m_writer m with None => Some (mkRW (t :: m_readers m) None) | Some _ => None end.
Definition wrlock (t : tid) (m : RWMutex) : option RWMutex :=
  match m_writer m, m_readers m with
  | None, [] => Some (mkRW [] (Some t))
  | _, _ => None
  end.

Fixpoint remove_one (t : tid) (l : list tid) : option (list tid) :=
  match l with
  | [] => None
  | x :: r => if t =? x then Some r else cons x <$> remove_one t r
  end.

Definition RWMutex_unlock (t : tid) (m : RWMutex) : option RWMutex :=
  if bool_decide (m_writer m = Some t) then Some (mkRW (m_readers m) None)
  else (λ l, mkRW l (m_writer m)) <$> remove_one t (m_readers m).

(** [NullMutex] and [NullRWMutex] do nothing; [n_inside] is who passed them. *)
Record NullMutex := mkNull { n_inside : list tid }.

Definition NullMutex_lock (t : tid) (m : NullMutex) : option NullMutex :=
  Some (mkNull (t :: n_inside m)).
Definition NullMutex_unlock (t : tid) (m : NullMutex) : option NullMutex :=
  mkNull <$> remove_one t (n_inside m).

Lemma remove_one_spec t l : t ∈ l → ∃ l', remove_one t l = Some l' ∧ l ≡ₚ t :: l'.
Proof.
  induction l as [|x r IH]; [set_solver|]. simpl. destruct (t =? x) eqn:E; intros Hin.
  - exists r. split; [done|]. apply Z.eqb_eq in E as ->. done.
  - apply elem_of_cons in Hin as [->|Hin]; [lia|]. destruct (IH Hin) as (l' & -> & Hp).
    exists (x :: l'). split; [done|]. rewrite Hp. constructor.
Qed.

Lemma remove_one_length t l l' : remove_one t l = Some l' → (length l' <= length l)%nat.
Proof.
  revert l'. induction l as [|x r IH]; intros l' E; [done|]. simpl in *. destruct (t =? x); [injection E as <-; lia|].
  destruct (remove_one t r) as [r'|]; [|done]. injection E as <-. specialize (IH r' eq_refl). simpl. lia.
Qed.

#[global] Program Instance Mutex_Lockable : Lockable Mutex := {|
  acquire := Mutex_lock; release := Mutex_unlock;
  holders m := match m_owner m with Some t => [t] | None => [] end |}.
Next Obligation. intros t [[o|]] l' [= <-]. done. Qed.
Next Obligation.
  intros t [[o|]]; simpl; [|set_solver]. intros ->%list_elem_of_singleton.
  eexists. unfold Mutex_unlock. simpl. rewrite bool_decide_eq_true_2 by done. done.
Qed.
Next Obligation. intros t m l'. unfold Mutex_unlock. case_bool_decide; [|done]. intros [= <-]. simpl. lia. Qed.

#[global] Instance Mutex_Exclusive : Exclusive Mutex.
Proof. by intros t [[o|]] l'. Qed.

#[global] Program Instance Spinlock_Lockable : Lockable Spinlock := {|
  acquire := Spinlock_lock; release := Spinlock_unlock;
  holders m := match s_owner m with Some t => [t] | None => [] end |}.
Next Obligation. intros t [[o|]] l' [= <-]. done. Qed.
Next Obligation.
  intros t [[o|]]; simpl; [|set_solver]. intros ->%list_elem_of_singleton.
  eexists. unfold Spinlock_unlock. simpl. rewrite bool_decide_eq_true_2 by done. done.
Qed.
Next Obligation. intros t m l'. unfold Spinlock_unlock. case_bool_decide; [|done]. intros [= <-]. simpl. lia. Qed.

#[global] Instance Spinlock_Exclusive : Exclusive Spinlock.
Proof. by intros t [[o|]] l'. Qed.

#[global] Program Instance CASLock_Lockable : Lockable CASLock := {|
  acquire := CASLock_lock; release := CASLock_unlock;
  holders m := if m_flag m then [c_setter m] else [] |}.
Next Obligation. intros t [[] o] l' [= <-]. done. Qed.
Next Obligation.
  intros t [[] o]; simpl; [|set_solver]. intros ->%list_elem_of_singleton. by eexists.
Qed.
Next Obligation. intros t m l' [= <-]. simpl. lia. Qed.

#[global] Instance CASLock_Exclusive : Exclusive CASLock.
Proof. by intros t [[] o] l'. Qed.

#[global] Program Instance NullMutex_Lockable : Lockable NullMutex := {|
  acquire := NullMutex_lock; release := NullMutex_unlock; holders := n_inside |}.
Next Obligation. by intros t [l] l' [= <-]. Qed.
Next Obligation.
  intros t [l] (l' & E & Hp)%remove_one_spec. exists (mkNull l'). unfold NullMutex_unlock. simpl in *.
  by rewrite E.
Qed.
Next Obligation.
  intros t [l] l'. unfold NullMutex_unlock. simpl. destruct (remove_one t l) as [r|] eqn:E; [|done].
  intros [= <-]. simpl. by apply remove_one_length in E.
Qed.

(** ** The guard templates

    [ReadScopedLockImpl] locks with [rdlock], and so does
    [WriteScopedLockImpl]: both are the same guard over the read side of the
    lock. *)
Definition ReadScopedLockImpl_lock : tid → RWMutex → option RWMutex := rdlock.
Definition WriteScopedLockImpl_lock : tid → RWMutex → option RWMutex := rdlock.

Inductive rw_kind := ReadLock | WriteLock.

(** Which of the two templates a guard of an [RWMutex] is. *)
Definition rw_acquire (k : rw_kind) : tid → RWMutex → option RWMutex :=
  match k with ReadLock => ReadScopedLockImpl_lock | WriteLock => WriteScopedLockImpl_lock end.

Definition rw_holders (m : RWMutex) : list tid :=
  match m_writer m with Some t => t :: m_readers m | None => m_readers m end.

#[global] Program Instance RWMutex_Lockable : Lockable RWMutex := {|
  acquire := rw_acquire WriteLock; release := RWMutex_unlock; holders := rw_holders |}.
Next Obligation. intros t [r [w|]] l' [= <-]. done. Qed.
Next Obligation.
  intros t [r w]. unfold RWMutex_unlock, rw_holders. simpl.
  destruct (decide (w = Some t)) as [->|Hne].
  - intros _. eexists. by rewrite bool_decide_eq_true_2.
  - rewrite bool_decide_eq_false_2 by done. destruct w as [w|].
    + intros [->|Hin]%elem_of_cons; [done|]. destruct (remove_one_spec t r Hin) as (l' & -> & Hp).
      eexists. split; [done|]. simpl. rewrite Hp. constructor.
    + intros Hin. destruct (remove_one_spec t r Hin) as (l' & -> & Hp). by eexists.
Qed.
Next Obligation.
  intros t [r w] l'. unfold RWMutex_unlock, rw_holders. simpl. case_bool_decide as E.
  - subst w. intros [= <-]. simpl. lia.
  - destruct (remove_one t r) as [r'|] eqn:E'; [|done]. intros [= <-]. apply remove_one_length in E'. simpl.
    destruct w; simpl; lia.
Qed.

(** Where a guard is: between calls, or inside one, between the call on the
    lock and the assignment of [m_locked]; in the destructor when [dying]. *)
Inductive guard_pc := Between | Acquired | Released (dying : bool).

#[global] Instance guard_pc_eq_dec : EqDecision guard_pc.
Proof. solve_decision. Defined.

(** A guard: the thread it lives in, [m_locked], and its place.  The
    constructor sets [m_locked] before anything reads it. *)
Record guard := mkGuard { g_thread : tid; m_locked : bool; g_pc : guard_pc }.

Record guards (L : Type) := mkGuards { the_lock : L; live : gmap Z guard }.
Arguments mkGuards {L}.
Arguments the_lock {L}.
Arguments live {L}.

(** The first statement of a call on a guard, or the next one. *)
Inductive gop :=
| GConstruct (g : Z) (t : tid)
| GLock (g : Z)
| GUnlock (g : Z)
| GDestroy (g : Z)
| GNext (g : Z).

(** A step returns, blocks, or is undefined (a guard used outside its life,
    or a lock released by a thread that does not hold it). *)
Inductive gres (L : Type) := GOk (s : guards L) | GBlocked | GUndef.
Arguments GOk {L}.
Arguments GBlocked {L}.
Arguments GUndef {L}.

Section guards.
Context {L : Type} `{Lockable L}.

(** [m_mutex.lock()] of guard [g]. *)
Definition take_lock (g : Z) (t : tid) (s : guards L) : gres L :=
  match acquire t (the_lock s) with
  | Some l => GOk (mkGuards l (<[g := mkGuard t false Acquired]> (live s)))
  | None => GBlocked
  end.

Definition ScopedLockImpl_new (g : Z) (t : tid) (s : guards L) : gres L := take_lock g t s.

(** [lock()] up to [m_locked = true]. *)
Definition ScopedLockImpl_lock (g : Z) (x : guard) (s : guards L) : gres L :=
  if m_locked x then GOk s else take_lock g (g_thread x) s.

(** [unlock()] up to [m_locked = false]. *)
Definition ScopedLockImpl_unlock (dying : bool) (g : Z) (x : guard) (s : guards L) : gres L :=
  if m_locked x then
    match release (g_thread x) (the_lock s) with
    | Some l => GOk (mkGuards l (<[g := mkGuard (g_thread x) true (Released dying)]> (live s)))
    | None => GUndef
    end
  else GOk (if dying then mkGuards (the_lock s) (delete g (live s)) else s).

(** The assignment of [m_locked] that ends a call. *)
Definition guard_assign (g : Z) (x : guard) (s : guards L) : gres L :=
  match g_pc x with
  | Between => GUndef
  | Acquired => GOk (mkGuards (the_lock s) (<[g := mkGuard (g_thread x) true Between]> (live s)))
  | Released dying =>
      GOk (mkGuards (the_lock s)
             (if dying then delete g (live s) else <[g := mkGuard (g_thread x) false Between]> (live s)))
  end.

Definition gexec (o : gop) (s : guards L) : gres L :=
  match o with
  | GConstruct g t =>
      match live s !! g with None => ScopedLockImpl_new g t s | Some _ => GUndef end
  | GLock g =>
      match live s !! g with Some x => ScopedLockImpl_lock g x s | None => GUndef end
  | GUnlock g =>
      match live s !! g with Some x => ScopedLockImpl_unlock false g x s | None => GUndef end
  | GDestroy g =>
      match live s !! g with Some x => ScopedLockImpl_unlock true g x s | None => GUndef end
  | GNext g =>
      match live s !! g with Some x => guard_assign g x s | None => GUndef end
  end.

(** Guards are used while they live, by one thread: a call begins when the
    last one has ended. *)
Definition glegal (o : gop) (s : guards L) : Prop :=
  match o with
  | GConstruct g _ => live s !! g = None
  | GLock g | GUnlock g | GDestroy g => ∃ x, live s !! g = Some x ∧ g_pc x = Between
  | GNext g => ∃ x, live s !! g = Some x ∧ g_pc x ≠ Between
  end.

(** Interleavings of the statements of the guards of all threads, from a lock
    nobody holds. *)
Inductive greach : guards L → Prop :=
| greach_init l : holders l = [] → greach (mkGuards l ∅)
| greach_step o s s' : greach s → glegal o s → gexec o s = GOk s' → greach s'.

(** The call on the lock has returned and the one that releases it is not
    made. *)
Definition inside (x : guard) : bool :=
  match g_pc x with Between => m_locked x | Acquired => true | Released _ => false end.

(** The threads whose guards are inside. *)
Definition owners (m : gmap Z guard) : list tid :=
  g_thread <$> filter (λ x, inside x = true) (snd <$> map_to_list m).

Definition contrib (x : guard) : list tid := if inside x then [g_thread x] else [].

Lemma owners_insert m g x : m !! g = None → owners (<[g := x]> m) ≡ₚ contrib x ++ owners m.
Proof.
  intros Hg. unfold owners, contrib. rewrite (map_to_list_insert m g x Hg). simpl.
  destruct (inside x) eqn:E.
  - by rewrite filter_cons_True.
  - rewrite filter_cons_False by congruence. done.
Qed.

Lemma owners_delete m g x : m !! g = Some x → owners m ≡ₚ contrib x ++ owners (delete g m).
Proof.
  intros Hg. rewrite <- (insert_delete_id m g x Hg) at 1. apply owners_insert.
  apply lookup_delete_eq.
Qed.

Lemma owners_update m g x y :
  m !! g = Some x → owners (<[g := y]> m) ≡ₚ contrib y ++ owners (delete g m).
Proof.
  intros Hg. rewrite <- (insert_delete_eq m g y). apply owners_insert. apply lookup_delete_eq.
Qed.

(** A guard replaced by one that is inside exactly when it was. *)
Lemma owners_same m g x y :
  m !! g = Some x → g_thread y = g_thread x → inside y = inside x → owners (<[g := y]> m) ≡ₚ owners m.
Proof.
  intros Hg Ht Hi. rewrite (owners_update _ _ _ y Hg), (owners_delete _ _ _ Hg). unfold contrib.
  by rewrite Ht, Hi.
Qed.

(** The lock is held by exactly the threads whose guards are inside, and the
    flag is set exactly from the end of [lock] to the end of [unlock]. *)
Record consistent (s : guards L) : Prop := {
  co_holders : holders (the_lock s) ≡ₚ owners (live s);
  co_flag g x d : live s !! g = Some x → g_pc x = Released d → m_locked x = true
}.

Lemma take_lock_ok g t s s' :
  consistent s → (live s !! g = None ∨ ∃ x, live s !! g = Some x ∧ inside x = false) →
  take_lock g t s = GOk s' → consistent s'.
Proof.
  unfold take_lock. intros [Hc Hd] Hg.
  destruct (acquire t (the_lock s)) as [l|] eqn:E; [|done]. intros [= <-]. split; simpl.
  - rewrite (acquire_holders _ _ _ E), Hc. destruct Hg as [Hg|(x & Hg & Hx)].
    + by rewrite (owners_insert _ _ _ Hg).
    + rewrite (owners_update _ _ _ _ Hg), (owners_delete _ _ _ Hg).
      unfold contrib at 1. by rewrite Hx.
  - intros g' x d [[<- <-]|[_ Hx]]%lookup_insert_Some; [done|]. by apply (Hd g').
Qed.

Lemma unlock_ok dying g x s :
  consistent s → live s !! g = Some x → g_pc x = Between →
  ∃ s', ScopedLockImpl_unlock dying g x s = GOk s' ∧ consistent s'.
Proof.
  unfold ScopedLockImpl_unlock. intros [Hc Hd] Hg Hp.
  pose proof (owners_delete _ _ _ Hg) as Ho. unfold contrib, inside in Ho. rewrite Hp in Ho.
  destruct (m_locked x) eqn:Hx; simpl in Ho.
  - destruct (release_holders (g_thread x) (the_lock s)) as (l & -> & Hr).
    { rewrite Hc, Ho. by left. }
    eexists. split; [done|]. split; simpl.
    + rewrite (owners_update _ _ _ _ Hg). simpl.
      apply (Permutation_cons_inv (a := g_thread x)). by rewrite <- Hr, Hc, Ho.
    + intros g' y d [[<- <-]|[_ Hy]]%lookup_insert_Some; [done|]. by apply (Hd g').
  - eexists. split; [done|]. destruct dying; [|by split]. split; simpl; [by rewrite <- Ho|].
    intros g' y d [_ Hy]%lookup_delete_Some. by apply (Hd g').
Qed.

Lemma assign_ok g x s :
  consistent s → live s !! g = Some x → g_pc x ≠ Between →
  ∃ s', guard_assign g x s = GOk s' ∧ consistent s'.
Proof.
  intros [Hc Hd] Hg Hp. unfold guard_assign. pose proof (owners_delete _ _ _ Hg) as Ho.
  unfold contrib, inside in Ho.
  destruct (g_pc x) as [| |dying] eqn:Ep; [done| |]; eexists; (split; [done|]); split; simpl.
  - rewrite (owners_same _ _ x); [done|done|done|]. unfold inside. by rewrite Ep.
  - intros g' y d [[<- <-]|[_ Hy]]%lookup_insert_Some; [done|]. by apply (Hd g').
  - destruct dying; [by rewrite <- Ho|]. rewrite (owners_same _ _ x); [done|done|done|].
    unfold inside. by rewrite Ep.
  - intros g' y d. destruct dying; [intros [_ Hy]%lookup_delete_Some; by apply (Hd g')|].
    intros [[<- <-]|[_ Hy]]%lookup_insert_Some; [done|]. by apply (Hd g').
Qed.

Lemma gexec_consistent o s :
  consistent s → glegal o s →
  gexec o s ≠ GUndef ∧ ∀ s', gexec o s = GOk s' → consistent s'.
Proof.
  intros Hc. destruct o as [g t|g|g|g|g]; simpl.
  - intros Hg. rewrite Hg. unfold ScopedLockImpl_new. split.
    + unfold take_lock. by case_match.
    + intros s'. apply take_lock_ok; auto.
  - intros (x & Hg & Hp). rewrite Hg. unfold ScopedLockImpl_lock. destruct (m_locked x) eqn:Hx.
    + split; [done|]. by intros s' [= <-].
    + split; [unfold take_lock; by case_match|]. intros s'. apply take_lock_ok; [done|].
      right. exists x. split; [done|]. unfold inside. by rewrite Hp.
  - intros (x & Hg & Hp). rewrite Hg. destruct (unlock_ok false g x s Hc Hg Hp) as (s1 & -> & Hc').
    split; [done|]. by intros s' [= <-].
  - intros (x & Hg & Hp). rewrite Hg. destruct (unlock_ok true g x s Hc Hg Hp) as (s1 & -> & Hc').
    split; [done|]. by intros s' [= <-].
  - intros (x & Hg & Hp). rewrite Hg. destruct (assign_ok g x s Hc Hg Hp) as (s1 & -> & Hc').
    split; [done|]. by intros s' [= <-].
Qed.

Lemma greach_consistent s : greach s → consistent s.
Proof.
  induction 1 as [l Hl|o s s' Hr IH Hl He].
  - split; simpl; [by rewrite Hl|]. intros g x d Hg. by rewrite lookup_empty in Hg.
  - by eapply gexec_consistent.
Qed.

(** The lock changes only where a guard takes or releases it. *)
Lemma gexec_lock o s s' : gexec o s = GOk s' →
  the_lock s' = the_lock s ∨ (∃ t, acquire t (the_lock s) = Some (the_lock s')) ∨
  (∃ t, release t (the_lock s) = Some (the_lock s')).
Proof.
  destruct o as [g t|g|g|g|g]; simpl; destruct (live s !! g) as [x|]; try done;
    unfold ScopedLockImpl_new, ScopedLockImpl_lock, ScopedLockImpl_unlock, take_lock, guard_assign;
    repeat case_match; intros [= <-]; simpl; eauto.
Qed.
End guards.

Lemma owners_two m g1 g2 x1 x2 :
  m !! g1 = Some x1 → m !! g2 = Some x2 → g1 ≠ g2 →
  inside x1 = true → inside x2 = true → ∃ t1 t2 r, owners m ≡ₚ t1 :: t2 :: r.
Proof.
  intros H1 H2 Hne Hl1 Hl2. exists (g_thread x1), (g_thread x2), (owners (delete g2 (delete g1 m))).
  rewrite (owners_delete _ _ _ H1). unfold contrib. rewrite Hl1. simpl. constructor.
  rewrite (owners_delete (delete g1 m) g2 x2) by (by rewrite lookup_delete_ne).
  unfold contrib. by rewrite Hl2.
Qed.

Section exclusive.
Context {L : Type} `{Exclusive L}.

Lemma greach_one (s : guards L) : greach s → (length (holders (the_lock s)) <= 1)%nat.
Proof.
  induction 1 as [l Hl|o s s' Hr IH Hl He].
  - simpl. rewrite Hl. simpl. lia.
  - destruct (gexec_lock o s s' He) as [->|[[t E]|[t E]]]; [done| |].
    + rewrite (acquire_holders _ _ _ E), (acquire_free _ _ _ E). simpl. lia.
    + apply (release_fewer t) in E. lia.
Qed.
End exclusive.

(** C15: for the ScopedLockImpl guards of one Mutex, Spinlock or CASLock, in every
    interleaving of their statements (the call on the lock and the assignment of m_locked
    are separate steps, so two guards may have m_locked set), when each guard is used by one
    thread within its life: the lock is held by exactly the threads whose guard's lock call
    returned and whose unlock call is not made, there is at most one such guard, no unlock
    is made by a thread that does not hold the lock, and once all guards are destroyed the
    lock is free. That one thread at a time holds a pthread mutex or spinlock is their
    documented behaviour; for CASLock it follows from the test-and-set loop. *)
Theorem guards_exclude {L} `{Exclusive L} (s : guards L) :
  greach s →
  holders (the_lock s) ≡ₚ owners (live s) ∧
  (∀ o, glegal o s → gexec o s ≠ GUndef) ∧
  (∀ g1 g2 x1 x2, live s !! g1 = Some x1 → live s !! g2 = Some x2 → inside x1 = true → inside x2 = true → g1 = g2) ∧
  (live s = ∅ → holders (the_lock s) = []).
Proof.
  intros Hr. pose proof (greach_consistent s Hr) as Hc. pose proof (co_holders s Hc) as Hh. split_and!.
  - done.
  - intros o Ho. by apply gexec_consistent.
  - intros g1 g2 x1 x2 H1 H2 Hl1 Hl2. destruct (decide (g1 = g2)) as [|Hne]; [done|exfalso].
    destruct (owners_two _ _ _ _ _ H1 H2 Hne Hl1 Hl2) as (t1 & t2 & r & Hp).
    pose proof (greach_one s Hr) as Hone. rewrite Hh, Hp in Hone. simpl in Hone. lia.
  - intros He. rewrite He in Hh. by apply Permutation_nil_r in Hh.
Qed.

(** ** Read and write guards of an [RWMutex] *)

Lemma rw_no_writer (s : guards RWMutex) : greach s → m_writer (the_lock s) = None.
Proof.
  induction 1 as [[r [w|]] Hl|o s s' Hr IH Hl He]; [done|done|].
  destruct (gexec_lock o s s' He) as [->|[[t E]|[t E]]]; [done| |]; simpl in E.
  - unfold WriteScopedLockImpl_lock, rdlock in E. rewrite IH in E. by injection E as <-.
  - unfold RWMutex_unlock in E. rewrite IH in E. rewrite bool_decide_eq_false_2 in E by done.
    destruct (remove_one _ _); [|done]. by injection E as <-.
Qed.

(** WriteScopedLockImpl takes the read side of the lock: in every state reached with
    the guards of an RWMutex a new write guard is granted at once, beside all the read and
    write guards already inside. *)
Theorem write_guard_never_waits (s : guards RWMutex) g t k :
  greach s → live s !! g = None →
  rw_acquire k t (the_lock s) = acquire t (the_lock s) ∧
  ∃ s', gexec (GConstruct g t) s = GOk s' ∧ live s' !! g = Some (mkGuard t false Acquired) ∧
        ∀ g' x, live s !! g' = Some x → live s' !! g' = Some x.
Proof.
  intros Hr Hg. split; [by destruct k|]. simpl. rewrite Hg.
  unfold ScopedLockImpl_new, take_lock. simpl. unfold WriteScopedLockImpl_lock, rdlock.
  rewrite (rw_no_writer s Hr). eexists. split_and!; [done|simpl; apply lookup_insert_eq|].
  intros g' x Hx. simpl. rewrite lookup_insert_ne; [done|]. congruence.
Qed.

(** ** Semaphore (mutex.cc)

    [sem_wait] blocks at zero; a failing call (a signal, or the counter at its
    maximum [SEM_VALUE_MAX]) becomes a [std::logic_error]. *)
Definition SEM_VALUE_MAX : Z := 2 ^ 31 - 1.

Definition new_Semaphore (count : Z) : M Z unit :=
  if SEM_VALUE_MAX <? count then throw (logic_error "sem_init error") else put count.

(** [None]: blocked. *)
Definition Semaphore_wait (interrupted : bool) (v : Z) : option (outcome Z unit) :=
  if interrupted then Some (Throw (logic_error "sem_wait error") v)
  else if 0 <? v then Some (Ok tt (v - 1)) else None.

Definition Semaphore_notify : M Z unit :=
  v ← get;
  if v =? SEM_VALUE_MAX then throw (logic_error "sem_post error") else put (v + 1).

(** ** Concrete runs *)

(** Two guards of one [CASLock]: the second waits until the first unlocks. *)
Definition g0 : guards CASLock := mkGuards (mkCAS false 0) ∅.
Definition run_guards {L} `{Lockable L} (os : list gop) (s : guards L) : guards L :=
  foldl (λ s o, match gexec o s with GOk s' => s' | _ => s end) s os.
Definition g1 : guards CASLock := run_guards [GConstruct 10 1; GNext 10] g0.
(** The first one has released the lock, and its flag is still set. *)
Definition g2 : guards CASLock := run_guards [GUnlock 10; GConstruct 20 2; GNext 20] g1.

Lemma g1_reach : greach g1.
Proof.
  apply (greach_step (GNext 10) (run_guards [GConstruct 10 1] g0)); [|by eexists|reflexivity].
  apply (greach_step (GConstruct 10 1) g0); [by constructor|reflexivity|reflexivity].
Qed.

Lemma g2_reach : greach g2.
Proof.
  apply (greach_step (GNext 20) (run_guards [GUnlock 10; GConstruct 20 2] g1)); [|by eexists|reflexivity].
  apply (greach_step (GConstruct 20 2) (run_guards [GUnlock 10] g1)); [|reflexivity|reflexivity].
  apply (greach_step (GUnlock 10) g1); [apply g1_reach|by eexists|reflexivity].
Qed.

Lemma guards_exclude_witness :
  gexec (GConstruct 20 2) g1 = GBlocked ∧ m_locked <$> live g2 !! 10 = Some true ∧
  holders (the_lock g2) ≡ₚ owners (live g2) ∧
  (∀ g x, live g2 !! g = Some x → inside x = true → g = 20).
Proof.
  destruct (guards_exclude g2 g2_reach) as (H1 & _ & H2 & _).
  split; [reflexivity|]. split; [reflexivity|]. split; [exact H1|]. intros g x Hg Hx.
  exact (H2 g 20 x (mkGuard 2 true Between) Hg eq_refl Hx eq_refl).
Defined.

(** Two write guards of one [RWMutex] inside at the same time. *)
Definition rw0 : guards RWMutex := mkGuards (mkRW [] None) ∅.
Definition rw1 : guards RWMutex := run_guards [GConstruct 10 1] rw0.

Lemma rw1_reach : greach rw1.
Proof.
  apply (greach_step (GConstruct 10 1) rw0); [by constructor|reflexivity|reflexivity].
Qed.

Lemma write_guard_never_waits_witness :
  ∃ s', gexec (GConstruct 20 2) rw1 = GOk s' ∧ live s' !! 20 = Some (mkGuard 2 false Acquired) ∧
        live s' !! 10 = Some (mkGuard 1 false Acquired).
Proof.
  destruct (write_guard_never_waits rw1 20 2 WriteLock rw1_reach eq_refl) as (_ & s' & E & H1 & H2).
  exists s'. split; [exact E|]. split; [exact H1|]. exact (H2 10 _ eq_refl).
Defined.

(** With [wrlock] the second writer would wait. *)
Example wrlock_excludes : wrlock 2 (mkRW [] (Some 1)) = None ∧ wrlock 2 (mkRW [1] None) = None.
Proof. done. Qed.
