(* ===== verification/Thread.v ===== *)
(** * Threads (thread.h, thread.cc)

    The start of a thread is an interleaving of two threads: the constructor,
    which creates the thread and waits on [m_semaphore], and [Thread::run],
    which fills the object in and notifies.  Each statement of either is a
    step.  The kernel's thread id, the result of [pthread_create] and whether a
    signal makes [sem_wait] fail are choices of the system.  A constructor that
    throws in its wait leaves the new thread with an object that is gone. *)

From S2P Require Import Prelude Mutex.

Record Thread := mkThread {
  m_id : Z;
  m_thread : bool;  (* the [pthread_t] is not zero *)
  m_cb : option Z;
  m_name : string;
  m_semaphore : Z
}.

(** The thread-local variables of a thread; [t_thread] says that it points to
    the modelled object. *)
Record locals := mkLocals {
  t_thread : bool;
  t_thread_name : string;
  kernel_name : string
}.

Definition unknow : string := "UNKNOW".

Definition new_locals : locals := mkLocals false unknow unknow.

Definition GetThis (l : locals) : bool := t_thread l.
Definition GetName (l : locals) : string := t_thread_name l.

Definition SetName (name : string) (l : locals) (t : Thread) : locals * Thread :=
  match name with
  | EmptyString => (l, t)
  | _ => (mkLocals (t_thread l) name (kernel_name l),
          if t_thread l then mkThread (m_id t) (m_thread t) (m_cb t) name (m_semaphore t) else t)
  end.

Definition init_Thread (cb : option Z) (name : string) : Thread :=
  mkThread (-1) false cb (match name with EmptyString => unknow | _ => name end) 0.

(** Where the constructor and [run] are. *)
Inductive creator_pc := Creating | Waiting | Constructed | CtorThrew.

#[global] Instance creator_pc_eq_dec : EqDecision creator_pc.
Proof. solve_decision. Defined.

Inductive runner_pc :=
| NotCreated | SettingThis | SettingName | SettingId | NamingThread | SwappingCb | Notifying
| Calling | Called
| Freed.  (* a statement of [run] used the object of a constructor that threw *)

Record starting := mkStarting {
  obj : Thread;
  loc : locals;
  creator : creator_pc;
  runner : runner_pc;
  (** the callback [run] holds, then the callback it called *)
  local_cb : option Z
}.

Definition set_obj (t : Thread) (s : starting) : starting :=
  mkStarting t (loc s) (creator s) (runner s) (local_cb s).

(** One statement of the constructor: [pthread_create] returning [rt], the
    wait, which throws when it is [interrupted]. *)
Definition Thread_ctor (rt : Z) (interrupted : bool) (s : starting) : option starting :=
  match creator s with
  | Creating =>
      if rt =? 0 then
        let t := obj s in
        Some (mkStarting (mkThread (m_id t) true (m_cb t) (m_name t) (m_semaphore t)) (loc s)
                Waiting SettingThis (local_cb s))
      else Some (mkStarting (obj s) (loc s) CtorThrew (runner s) (local_cb s))
  | Waiting =>
      match Semaphore_wait interrupted (m_semaphore (obj s)) with
      | Some (Ok _ v) =>
          let t := obj s in
          Some (mkStarting (mkThread (m_id t) (m_thread t) (m_cb t) (m_name t) v) (loc s)
                  Constructed (runner s) (local_cb s))
      | Some (Throw _ _) => Some (mkStarting (obj s) (loc s) CtorThrew (runner s) (local_cb s))
      | _ => None
      end
  | Constructed | CtorThrew => None
  end.

(** The statements of [run] that use the object. *)
Definition uses_object (r : runner_pc) : bool :=
  match r with SettingName | SettingId | NamingThread | SwappingCb | Notifying => true | _ => false end.

(** One statement of [Thread::run] in the thread with the kernel id [id]. *)
Definition Thread_run (id : Z) (s : starting) : option starting :=
  let t := obj s in
  let l := loc s in
  let next pc := Some (mkStarting t l (creator s) pc (local_cb s)) in
  if bool_decide (creator s = CtorThrew) && uses_object (runner s) then next Freed
  else match runner s with
  | NotCreated | Called | Freed => None
  | SettingThis =>
      Some (mkStarting t (mkLocals true (t_thread_name l) (kernel_name l)) (creator s) SettingName
              (local_cb s))
  | SettingName =>
      Some (mkStarting t (mkLocals (t_thread l) (m_name t) (kernel_name l)) (creator s) SettingId
              (local_cb s))
  | SettingId =>
      Some (mkStarting (mkThread id (m_thread t) (m_cb t) (m_name t) (m_semaphore t)) l (creator s)
              NamingThread (local_cb s))
  | NamingThread =>
      Some (mkStarting t (mkLocals (t_thread l) (t_thread_name l) (String.substring 0 15 (m_name t)))
              (creator s) SwappingCb (local_cb s))
  | SwappingCb =>
      Some (mkStarting (mkThread (m_id t) (m_thread t) (local_cb s) (m_name t) (m_semaphore t)) l
              (creator s) Notifying (m_cb t))
  | Notifying =>
      match Semaphore_notify (m_semaphore t) with
      | Ok _ v => Some (mkStarting (mkThread (m_id t) (m_thread t) (m_cb t) (m_name t) v) l
                          (creator s) Calling (local_cb s))
      | _ => None
      end
  | Calling => next Called
  end.

(** [pthread_join] returning [rt]. *)
Definition join (rt : Z) : M Thread unit :=
  t ← get;
  if m_thread t then
    if rt =? 0 then put (mkThread (m_id t) false (m_cb t) (m_name t) (m_semaphore t))
    else throw (logic_error "pthread_join error")
  else mret tt.

(** Whether [~Thread] detaches the thread. *)
Definition delete_Thread (t : Thread) : bool := m_thread t.

(** Interleavings of the constructor and the new thread. *)
Inductive treach (cb : option Z) (name : string) (id : Z) : starting → Prop :=
| treach_init :
    treach cb name id (mkStarting (init_Thread cb name) new_locals Creating NotCreated None)
| treach_ctor rt interrupted s s' :
    treach cb name id s → Thread_ctor rt interrupted s = Some s' → treach cb name id s'
| treach_run s s' : treach cb name id s → Thread_run id s = Some s' → treach cb name id s'.

Definition rank (r : runner_pc) : nat :=
  match r with
  | NotCreated | Freed => 0 | SettingThis => 1 | SettingName => 2 | SettingId => 3 | NamingThread => 4
  | SwappingCb => 5 | Notifying => 6 | Calling => 7 | Called => 8
  end.

(** What each side has done at its place. *)
Record tinv (cb : option Z) (name : string) (id : Z) (s : starting) : Prop := {
  ti_this : (2 <= rank (runner s))%nat → t_thread (loc s) = true;
  ti_name : (3 <= rank (runner s))%nat → t_thread_name (loc s) = m_name (init_Thread cb name);
  ti_id : (4 <= rank (runner s))%nat → m_id (obj s) = id;
  ti_cb : if decide (6 <= rank (runner s))%nat then m_cb (obj s) = None ∧ local_cb s = cb
          else runner s ≠ Freed → m_cb (obj s) = cb ∧ local_cb s = None;
  ti_oname : m_name (obj s) = m_name (init_Thread cb name);
  ti_sem : creator s ≠ CtorThrew → m_semaphore (obj s) =
    if decide (7 <= rank (runner s))%nat then
      match creator s with Waiting => 1 | _ => 0 end
    else 0;
  ti_pc : match creator s with
          | Creating => runner s = NotCreated
          | CtorThrew => True
          | Waiting => runner s ≠ NotCreated ∧ runner s ≠ Freed
          | Constructed => (7 <= rank (runner s))%nat
          end
}.

Lemma treach_inv cb name id s : treach cb name id s → tinv cb name id s.
Proof.
  induction 1 as [|rt b s s' Hr IH E|s s' Hr IH E].
  - by split; simpl; intros; try lia.
  - destruct IH as [H1 H2 H3 H4 H5 H6 H7], s as [t l c r lc]; simpl in *. unfold Thread_ctor in E.
    destruct c; simpl in *; try done.
    + subst r. destruct (rt =? 0); injection E as <-; split; simpl in *; intros; auto; try lia; try done.
    + destruct b; [injection E as <-; by split|]. rewrite H6 in E by done.
      destruct (decide (7 <= rank r)%nat) as [Hd|Hd]; [|done].
      simpl in E. injection E as <-. split; simpl; try done. intros _. by rewrite decide_True by done.
  - destruct IH as [H1 H2 H3 H4 H5 H6 H7], s as [t l c r lc]; simpl in *. unfold Thread_run in E. cbn in E.
    destruct c; simpl in *; [by subst r| | |]; destruct r; simpl in *; try done; try lia; try (by destruct H7).
    all: try (rewrite H6 in E by done); injection E as <-.
    all: split; simpl in *; intros; subst; try done; try lia; try (destruct (H4 ltac:(done)); done); try (by apply H6); auto with lia.
Qed.

(** C16: in every interleaving of the Thread constructor with Thread::run, a constructor
    that returned leaves an object whose m_id is the new thread's id and whose callback has
    moved to the thread, the constructor's wait never deadlocks, run calls the given
    callback, and run uses a destroyed object only when the constructor threw because its
    wait failed. *)
Theorem thread_start_handshake cb name id s :
  treach cb name id s →
  (creator s = Constructed →
     m_id (obj s) = id ∧ m_cb (obj s) = None ∧ local_cb s = cb ∧
     GetThis (loc s) = true ∧ GetName (loc s) = m_name (obj s)) ∧
  (creator s = Waiting → is_Some (Thread_ctor 0 false s) ∨ is_Some (Thread_run id s)) ∧
  (runner s = Called → local_cb s = cb) ∧
  (runner s = Freed → creator s = CtorThrew).
Proof.
  intros Hr. destruct (treach_inv _ _ _ _ Hr) as [H1 H2 H3 H4 H5 H6 H7]. split_and!.
  - intros Hc. rewrite Hc in H7. rewrite decide_True in H4 by lia. destruct H4 as [H4 H4'].
    unfold GetThis, GetName. rewrite H5, (H2 ltac:(lia)), (H3 ltac:(lia)), (H1 ltac:(lia)). done.
  - intros Hc. rewrite Hc in H6. specialize (H6 ltac:(done)). unfold Thread_ctor, Thread_run. rewrite Hc.
    destruct (runner s) eqn:E; simpl in *; rewrite ?Hc in H7; try (by destruct H7); rewrite ?H6; simpl; eauto.
  - intros Hc. rewrite Hc in H4. by destruct H4.
  - intros Hc. rewrite Hc in H7. destruct (creator s); [done|by destruct H7|simpl in H7; lia|done].
Qed.

(** The start of a thread run to the end: seven statements of [run], then the
    constructor's wait. *)
Definition run_steps (id : Z) (n : nat) (s : starting) : starting :=
  Nat.iter n (λ s, default s (Thread_run id s)) s.

Definition demo_new : starting :=
  mkStarting (init_Thread (Some 5) "worker") new_locals Creating NotCreated None.
Definition demo_created : starting := default demo_new (Thread_ctor 0 false demo_new).
Definition demo_notified : starting := run_steps 4711 6 demo_created.
Definition demo_start : starting := default demo_notified (Thread_ctor 0 false demo_notified).

Lemma run_steps_reach cb name id n s : treach cb name id s → treach cb name id (run_steps id n s).
Proof.
  intros Hr. induction n as [|n IH]; [done|]. simpl. unfold run_steps in *.
  destruct (Thread_run id _) as [s'|] eqn:E; [|done]. simpl. by eapply treach_run.
Qed.

Lemma demo_start_reach : treach (Some 5) "worker" 4711 demo_start.
Proof.
  apply (treach_ctor _ _ _ 0 false demo_notified); [apply run_steps_reach|reflexivity].
  apply (treach_ctor _ _ _ 0 false demo_new); [apply treach_init|reflexivity].
Qed.

Lemma thread_start_handshake_witness :
  m_id (obj demo_start) = 4711 ∧ m_cb (obj demo_start) = None ∧ local_cb demo_start = Some 5.
Proof.
  destruct (thread_start_handshake _ _ _ _ demo_start_reach) as [H _].
  destruct (H eq_refl) as (H1 & H2 & H3 & _). split; [exact H1|]. split; [exact H2|exact H3].
Defined.

(** A second [join] does nothing. *)
Example join_twice : ∀ t, m_thread t = true →
  (join 0;; join 3) t = Ok tt (mkThread (m_id t) false (m_cb t) (m_name t) (m_semaphore t)).
Proof. intros t H. unfold join. mrun. by rewrite H. Qed.

(** A signal during the wait: the constructor throws, and the new thread goes
    on with an object that is gone. *)
Example interrupted_constructor :
  match Thread_ctor 0 true (run_steps 4711 1 demo_created) with
  | Some s => (creator s, runner <$> Thread_run 4711 s)
  | None => (Creating, None)
  end = (CtorThrew, Some Freed).
Proof. reflexivity. Qed.
