(* ===== verification/Scheduler.v ===== *)
(** * The fiber scheduler (scheduler.h, scheduler.cc)

    The scheduler object and its worker threads.  Each worker is at a point of
    the loop of [Scheduler::run]; a step takes it to the next point where
    another thread can interfere: a critical section of [m_mutex], an atomic
    counter, or a context switch.  What a fiber does while it runs is a choice
    of the environment, which may also schedule work between any two steps. *)

From S2P Require Import Prelude.
From S2P Require Import Fiber.

(** [FiberAndThread]. *)
Record FiberAndThread := mkFT {
  ft_fiber : option Z;
  ft_cb : option Z;
  ft_thread : Z
}.

Definition ft_reset : FiberAndThread := mkFT None None (-1).

(** Where a worker is in [Scheduler::run]. *)
Inductive pc :=
| PickTask                                      (* top of the loop *)
| Dispatch (ft : FiberAndThread) (is_active : bool) (* after the critical section *)
| InFiber (f : Z)                               (* in [ft.fiber->swapIn()] *)
| AfterFiber (f : Z)                            (* back, before the counter *)
| FiberDone (f : Z)                             (* after the counter *)
| InCb (f : Z)                                  (* in [cb_fiber->swapIn()] *)
| AfterCb (f : Z)
| CbDone (f : Z)
| InIdle                                        (* in [idle_fiber->swapIn()] *)
| AfterIdle
| Exited.                                       (* left the loop *)

Record worker := mkWorker { w_pc : pc; cb_fiber : option Z; idle_fiber : Z }.

Record Scheduler := mkSched {
  m_fibers : list FiberAndThread;
  m_activeThreadCount : Z;
  m_idleThreadCount : Z;
  m_stopping : bool;
  m_autoStop : bool;
  m_threadCount : Z;
  m_rootThread : Z;
  m_rootFiber : option Z;
  m_threads : list Z;
  (** states of all fibers, shared by the threads *)
  fib : gmap Z State;
  workers : gmap Z worker;
  (** number of [tickle] calls made so far *)
  tickled : nat
}.

Definition set_queue (l : list FiberAndThread) (s : Scheduler) : Scheduler :=
  mkSched l (m_activeThreadCount s) (m_idleThreadCount s) (m_stopping s) (m_autoStop s)
    (m_threadCount s) (m_rootThread s) (m_rootFiber s) (m_threads s) (fib s) (workers s)
    (tickled s).
Definition set_active_count (z : Z) (s : Scheduler) : Scheduler :=
  mkSched (m_fibers s) z (m_idleThreadCount s) (m_stopping s) (m_autoStop s)
    (m_threadCount s) (m_rootThread s) (m_rootFiber s) (m_threads s) (fib s) (workers s)
    (tickled s).
Definition set_idle_count (z : Z) (s : Scheduler) : Scheduler :=
  mkSched (m_fibers s) (m_activeThreadCount s) z (m_stopping s) (m_autoStop s)
    (m_threadCount s) (m_rootThread s) (m_rootFiber s) (m_threads s) (fib s) (workers s)
    (tickled s).
Definition set_flags (stopping autoStop : bool) (s : Scheduler) : Scheduler :=
  mkSched (m_fibers s) (m_activeThreadCount s) (m_idleThreadCount s) stopping autoStop
    (m_threadCount s) (m_rootThread s) (m_rootFiber s) (m_threads s) (fib s) (workers s)
    (tickled s).
Definition set_fib (f : Z) (st : State) (s : Scheduler) : Scheduler :=
  mkSched (m_fibers s) (m_activeThreadCount s) (m_idleThreadCount s) (m_stopping s) (m_autoStop s)
    (m_threadCount s) (m_rootThread s) (m_rootFiber s) (m_threads s) (<[f := st]> (fib s)) (workers s) (tickled s).
Definition set_worker (t : Z) (w : worker) (s : Scheduler) : Scheduler :=
  mkSched (m_fibers s) (m_activeThreadCount s) (m_idleThreadCount s) (m_stopping s) (m_autoStop s)
    (m_threadCount s) (m_rootThread s) (m_rootFiber s) (m_threads s) (fib s) (<[t := w]> (workers s)) (tickled s).
Definition tickle (s : Scheduler) : Scheduler :=
  mkSched (m_fibers s) (m_activeThreadCount s) (m_idleThreadCount s) (m_stopping s) (m_autoStop s)
    (m_threadCount s) (m_rootThread s) (m_rootFiber s) (m_threads s) (fib s) (workers s) (S (tickled s)).

(** ** Scheduling *)

Definition scheduleNoLock (ft : FiberAndThread) : M Scheduler bool :=
  s ← get;
  let need_tickle := match m_fibers s with [] => true | _ => false end in
  when (bool_decide (is_Some (ft_fiber ft)) || bool_decide (is_Some (ft_cb ft)))
    (modify (set_queue (m_fibers s ++ [ft])));;
  mret need_tickle.

Definition schedule (ft : FiberAndThread) : M Scheduler unit :=
  need_tickle ← scheduleNoLock ft;
  when need_tickle (modify tickle).

(** The batch form: one critical section, at most one [tickle]. *)
Fixpoint scheduleNoLock_all (fts : list FiberAndThread) (need_tickle : bool) : M Scheduler bool :=
  match fts with
  | [] => mret need_tickle
  | ft :: r => b ← scheduleNoLock ft; scheduleNoLock_all r (b || need_tickle)
  end.

Definition schedule_all (fts : list FiberAndThread) : M Scheduler unit :=
  need_tickle ← scheduleNoLock_all fts false;
  when need_tickle (modify tickle).

Definition stopping (s : Scheduler) : bool :=
  m_autoStop s && m_stopping s && match m_fibers s with [] => true | _ => false end &&
  (m_activeThreadCount s =? 0).

Definition hasIdleThreads (s : Scheduler) : bool := 0 <? m_idleThreadCount s.

(** ** The loop of [Scheduler::run] *)

Definition state_of (s : Scheduler) (f : Z) : State := default INIT (fib s !! f).

(** The scan of the queue by the thread [t]: the task taken, the rest of the
    queue, and [tickle_me].  [None]: the assertion that an entry has work fails. *)
Fixpoint scan (t : Z) (st : Z → State) (l : list FiberAndThread) :
    option (option FiberAndThread * list FiberAndThread * bool) :=
  match l with
  | [] => Some (None, [], false)
  | ft :: r =>
      if negb (ft_thread ft =? -1) && negb (ft_thread ft =? t) then
        (λ '(x, q, _), (x, ft :: q, true)) <$> scan t st r
      else
        match ft_fiber ft, ft_cb ft with
        | None, None => None
        | Some f, _ =>
            if bool_decide (st f = EXEC) then (λ '(x, q, b), (x, ft :: q, b)) <$> scan t st r
            else Some (Some ft, r, false)
        | None, Some _ => Some (Some ft, r, false)
        end
  end.

Definition at_worker (t : Z) : M Scheduler worker :=
  s ← get; of_option "no such worker" (workers s !! t).

Definition goto (t : Z) (p : pc) : M Scheduler unit :=
  w ← at_worker t;
  modify (set_worker t (mkWorker p (cb_fiber w) (idle_fiber w))).

(** Lines 140-169: the critical section and the tickle after it. *)
Definition run_pick (t : Z) : M Scheduler unit :=
  s ← get;
  match scan t (state_of s) (m_fibers s) with
  | None => λ _, Abort "it->fiber || it->cb"
  | Some (Some ft, q, tickle_me) =>
      modify (set_queue q);;
      modify (λ s, set_active_count (u64 (m_activeThreadCount s + 1)) s);;
      when tickle_me (modify tickle);;
      goto t (Dispatch ft true)
  | Some (None, q, tickle_me) =>
      when tickle_me (modify tickle);;
      goto t (Dispatch ft_reset false)
  end.

(** The part of [Fiber::swapIn] that other threads see. *)
Definition swap_in (f : Z) : M Scheduler unit :=
  s ← get;
  peng_assert (negb (bool_decide (state_of s f = EXEC))) "m_state != EXEC";;
  modify (set_fib f EXEC).

(** [cb_fiber->reset(cb)] or [new Fiber(cb)] at the unused address [fresh]. *)
Definition prepare_cb (t : Z) (fresh : Z) : M Scheduler Z :=
  w ← at_worker t;
  s ← get;
  match cb_fiber w with
  | Some f =>
      peng_assert (resettable (state_of s f)) "m_state == TERM || m_state == EXCEPT || m_state == INIT";;
      modify (set_fib f INIT);;
      mret f
  | None =>
      modify (set_fib fresh INIT);;
      modify (set_worker t (mkWorker (w_pc w) (Some fresh) (idle_fiber w)));;
      mret fresh
  end.

Definition runnable (st : State) : bool := negb (bool_decide (st = TERM)) && negb (bool_decide (st = EXCEPT)).

(** Lines 203-213: no task to run; on to the idle fiber, up to the switch to it. *)
Definition run_no_task (t : Z) (is_active : bool) : M Scheduler unit :=
  if is_active then
    modify (λ s, set_active_count (u64 (m_activeThreadCount s - 1)) s);; goto t PickTask
  else
    s ← get;
    w ← at_worker t;
    if bool_decide (state_of s (idle_fiber w) = TERM) then goto t Exited
    else
      modify (λ s, set_idle_count (u64 (m_idleThreadCount s + 1)) s);;
      swap_in (idle_fiber w);;
      goto t InIdle.

(** Lines 171-213: what is done with the task, up to the switch to its fiber. *)
Definition run_dispatch (t : Z) (ft : FiberAndThread) (is_active : bool) (fresh : Z) :
    M Scheduler unit :=
  s ← get;
  match ft_fiber ft with
  | Some f =>
      if runnable (state_of s f) then swap_in f;; goto t (InFiber f)
      else
        match ft_cb ft with
        | Some _ => f ← prepare_cb t fresh; swap_in f;; goto t (InCb f)
        | None => run_no_task t is_active
        end
  | None =>
      match ft_cb ft with
      | Some _ => f ← prepare_cb t fresh; swap_in f;; goto t (InCb f)
      | None => run_no_task t is_active
      end
  end.

(** The fiber's state when its slice is over. *)
Definition slice_state (e : slice_end) : State :=
  match e with ToReady => READY | ToHold => EXEC | ToEnd Returned => TERM | ToEnd Threw => EXCEPT end.

Definition dec_active (t : Z) (p : pc) : M Scheduler unit :=
  modify (λ s, set_active_count (u64 (m_activeThreadCount s - 1)) s);; goto t p.

(** Lines 176-182. *)
Definition run_fiber_done (t f : Z) : M Scheduler unit :=
  s ← get;
  (if bool_decide (state_of s f = READY) then schedule (mkFT (Some f) None (-1))
   else when (runnable (state_of s f)) (modify (set_fib f HOLD)));;
  goto t PickTask.

(** Lines 192-201. *)
Definition run_cb_done (t f : Z) : M Scheduler unit :=
  s ← get;
  w ← at_worker t;
  (if bool_decide (state_of s f = READY) then
     schedule (mkFT (Some f) None (-1));;
     modify (set_worker t (mkWorker (w_pc w) None (idle_fiber w)))
   else if negb (runnable (state_of s f)) then
     peng_assert (resettable (state_of s f)) "m_state == TERM || m_state == EXCEPT || m_state == INIT";;
     modify (set_fib f INIT)
   else
     modify (set_fib f HOLD);;
     modify (set_worker t (mkWorker (w_pc w) None (idle_fiber w))));;
  goto t PickTask.

(** [Scheduler::idle], lines 231-236: one turn of its loop. *)
Definition idle_turn (t f : Z) : M Scheduler unit :=
  s ← get;
  when (stopping s) (modify (set_fib f TERM));;
  goto t AfterIdle.

(** Lines 214-218. *)
Definition run_idle_done (t f : Z) : M Scheduler unit :=
  modify (λ s, set_idle_count (u64 (m_idleThreadCount s - 1)) s);;
  s ← get;
  when (runnable (state_of s f)) (modify (set_fib f HOLD));;
  goto t PickTask.

(** One step of the worker [t]; [e] is how a running slice ends, [fresh] the
    address of a new fiber. *)
Definition run_step (t : Z) (e : slice_end) (fresh : Z) : M Scheduler unit :=
  w ← at_worker t;
  match w_pc w with
  | PickTask => run_pick t
  | Dispatch ft b => run_dispatch t ft b fresh
  | InFiber f => modify (set_fib f (slice_state e));; goto t (AfterFiber f)
  | AfterFiber f => dec_active t (FiberDone f)
  | FiberDone f => run_fiber_done t f
  | InCb f => modify (set_fib f (slice_state e));; goto t (AfterCb f)
  | AfterCb f => dec_active t (CbDone f)
  | CbDone f => run_cb_done t f
  | InIdle => idle_turn t (idle_fiber w)
  | AfterIdle => run_idle_done t (idle_fiber w)
  | Exited => mret tt
  end.

(** ** Construction, start and stop *)

Definition blank : Scheduler := mkSched [] 0 0 true false 0 0 None [] ∅ ∅ 0.

(** [Scheduler::Scheduler(threads, use_caller)] in the thread [me]; [has_this]:
    the thread already has a scheduler; [root]: address of the root fiber. *)
Definition new_Scheduler (threads : Z) (use_caller : bool) (me root : Z) (has_this : bool) :
    outcome Scheduler unit :=
  if 0 <? threads then
    if use_caller then
      if has_this then Abort "GetThis() == nullptr"
      else Ok tt (mkSched [] 0 0 true false (threads - 1) me (Some root) [] (<[root := INIT]> ∅) ∅ 0)
    else Ok tt (mkSched [] 0 0 true false threads (-1) None [] ∅ ∅ 0)
  else Abort "threads > 0".

(** A thread entering [run]: its idle fiber is made at [idle]. *)
Definition spawn (t idle : Z) (s : Scheduler) : Scheduler :=
  set_worker t (mkWorker PickTask None idle) (set_fib idle INIT s).

(** [Scheduler::start]; [ids]: thread id and idle fiber of each new thread. *)
Definition start (ids : list (Z * Z)) : M Scheduler unit :=
  s ← get;
  if m_stopping s then
    modify (set_flags false (m_autoStop s));;
    peng_assert (match m_threads s with [] => true | _ => false end) "m_threads.empty()";;
    modify (λ s, foldl (λ s '(t, i), spawn t i s) s (take (Z.to_nat (m_threadCount s)) ids));;
    modify (λ s, mkSched (m_fibers s) (m_activeThreadCount s) (m_idleThreadCount s) (m_stopping s)
                   (m_autoStop s) (m_threadCount s) (m_rootThread s) (m_rootFiber s)
                   (fst <$> take (Z.to_nat (m_threadCount s)) ids) (fib s) (workers s) (tickled s))
  else mret tt.

(** What [stop] goes on to do after its checks: return, run the scheduler on
    the caller's thread through the root fiber and then join, or join. *)
Inductive stop_next := Stopped | CallRoot | JoinThreads.

(** [Scheduler::stop] up to there; [virt] is the virtual [stopping()], [mine]
    whether [GetThis() == this]. *)
Definition stop (virt : Scheduler → bool) (mine : bool) : M Scheduler stop_next :=
  modify (λ s, set_flags (m_stopping s) true s);;
  s ← get;
  let quiet :=
    match m_rootFiber s with
    | Some f => (m_threadCount s =? 0) &&
                (bool_decide (state_of s f = TERM) || bool_decide (state_of s f = INIT))
    | None => false
    end in
  when quiet (modify (λ s, set_flags true (m_autoStop s) s));;
  s ← get;
  if quiet && virt s then mret Stopped
  else
    (if negb (m_rootThread s =? -1) then peng_assert mine "GetThis() == this"
     else peng_assert (negb mine) "GetThis() != this");;
    modify (λ s, set_flags true (m_autoStop s) s);;
    modify (λ s, Nat.iter (Z.to_nat (m_threadCount s)) tickle s);;
    when (bool_decide (is_Some (m_rootFiber s))) (modify tickle);;
    s ← get;
    mret (if bool_decide (is_Some (m_rootFiber s)) && negb (virt s) then CallRoot else JoinThreads).

(** ** The queue scan *)

Definition pinned_elsewhere (t : Z) (ft : FiberAndThread) : bool :=
  negb (ft_thread ft =? -1) && negb (ft_thread ft =? t).
Definition executing (st : Z → State) (ft : FiberAndThread) : bool :=
  match ft_fiber ft with Some f => bool_decide (st f = EXEC) | None => false end.
Definition eligible (t : Z) (st : Z → State) (ft : FiberAndThread) : bool :=
  negb (pinned_elsewhere t ft) && negb (executing st ft).
Definition has_work (ft : FiberAndThread) : Prop := is_Some (ft_fiber ft) ∨ is_Some (ft_cb ft).

Lemma scan_spec t st l :
  Forall has_work l →
  (∃ l1 ft l2, l = l1 ++ ft :: l2 ∧ Forall (λ x, eligible t st x = false) l1 ∧
     eligible t st ft = true ∧
     scan t st l = Some (Some ft, l1 ++ l2, existsb (pinned_elsewhere t) l1)) ∨
  (Forall (λ x, eligible t st x = false) l ∧
     scan t st l = Some (None, l, existsb (pinned_elsewhere t) l)).
Proof.
  induction 1 as [|ft r Hw Hr IH]; [by right|]. simpl. fold (pinned_elsewhere t ft).
  destruct (eligible t st ft) eqn:El.
  - left. exists [], ft, r. split_and!; [done|constructor|done|]. simpl.
    unfold eligible, executing in El. apply andb_true_iff in El as [Hp%negb_true_iff He%negb_true_iff].
    rewrite Hp. destruct (ft_fiber ft) as [f|] eqn:Ef.
    + by rewrite He.
    + destruct Hw as [[? ?]|[c Hc]]; [congruence|]. by rewrite Hc.
  - assert (scan t st (ft :: r) =
      (λ '(x, q, c), (x, ft :: q, pinned_elsewhere t ft || c)) <$> scan t st r) as Hs.
    { simpl. fold (pinned_elsewhere t ft). unfold eligible, executing in El.
      destruct (pinned_elsewhere t ft); simpl in *.
      - by destruct (scan t st r) as [[[??]?]|].
      - apply negb_false_iff in El. destruct (ft_fiber ft); [|done]. by rewrite El. }
    simpl in Hs. fold (pinned_elsewhere t ft) in Hs. rewrite Hs.
    destruct IH as [(l1 & ft' & l2 & -> & H1 & H2 & ->)|(H1 & ->)].
    + left. exists (ft :: l1), ft', l2. split_and!; [done|by constructor|done|done].
    + right. split; [by constructor|done].
Qed.

(** ** Who has a fiber

    A ghost status per fiber, kept by the client and the workers together: a
    fiber is queued at most once, and one that is still running may be queued
    only if it is going to yield with [YieldToHold]. *)
Inductive status :=
| Parked              (* held by its user, not queued, not running *)
| Queued
| Picked (t : Z)      (* taken from the queue by the worker [t] *)
| Running (t : Z)     (* between swap in and the end of the loop turn *)
| RunningQ (t : Z)    (* running, and queued again already *)
| CbParked (t : Z)    (* the unused callback fiber of [t] *)
| IdleOf (t : Z).

Definition owner (x : status) : option Z :=
  match x with
  | Parked | Queued => None
  | Picked t | Running t | RunningQ t | CbParked t | IdleOf t => Some t
  end.

Abbreviation ghost := (gmap Z status).

Definition run_by (g : ghost) (t f : Z) : Prop :=
  g !! f = Some (Running t) ∨ g !! f = Some (RunningQ t).

(** What the state of a fiber must be, whatever its worker is doing. *)
Definition st_ok (x : status) (st : State) : Prop :=
  match x with
  | Parked | Queued | Picked _ => st ≠ EXEC
  | RunningQ _ => st = EXEC
  | CbParked _ => st = INIT
  | Running _ | IdleOf _ => True
  end.

(** What a worker relies on at its place in the loop. *)
Definition pc_ok (g : ghost) (st : Z → State) (t : Z) (w : worker) : Prop :=
  match w_pc w with
  | PickTask | Exited | InIdle | AfterIdle => True
  | Dispatch ft true => (∃ f, ft_fiber ft = Some f ∧ ft_cb ft = None ∧ g !! f = Some (Picked t)) ∨
                        (ft_fiber ft = None ∧ is_Some (ft_cb ft))
  | Dispatch ft false => ft = ft_reset
  | InFiber f => run_by g t f ∧ st f = EXEC
  | AfterFiber f | FiberDone f => run_by g t f
  | InCb f => run_by g t f ∧ st f = EXEC ∧ cb_fiber w = Some f
  | AfterCb f | CbDone f => run_by g t f ∧ cb_fiber w = Some f
  end.

Definition cb_in_use (p : pc) : bool :=
  match p with InCb _ | AfterCb _ | CbDone _ => true | _ => false end.
Definition idle_in_use (p : pc) : bool :=
  match p with InIdle | AfterIdle => true | _ => false end.

Record claims (g : ghost) (st : Z → State) (t : Z) (w : worker) : Prop := {
  cl_pc : pc_ok g st t w;
  cl_cb : ∀ c, cb_fiber w = Some c → cb_in_use (w_pc w) = false → g !! c = Some (CbParked t);
  cl_idle : g !! idle_fiber w = Some (IdleOf t);
  cl_idle_st : if idle_in_use (w_pc w) then True else st (idle_fiber w) ≠ EXEC
}.

Definition entry_ok (g : ghost) (ft : FiberAndThread) : Prop :=
  (∃ f, ft_fiber ft = Some f ∧ ft_cb ft = None ∧
        (g !! f = Some Queued ∨ ∃ t, g !! f = Some (RunningQ t))) ∨
  (ft_fiber ft = None ∧ is_Some (ft_cb ft)).

Definition queue_ok (g : ghost) (l : list FiberAndThread) : Prop :=
  Forall (entry_ok g) l ∧ NoDup (omap ft_fiber l).

(** Counting workers at places of a kind. *)
Definition cnt (P : pc → bool) (ws : gmap Z worker) : Z :=
  zlen (filter (λ w, P (w_pc w) = true) (snd <$> map_to_list ws)).

Definition active_pc (p : pc) : bool :=
  match p with Dispatch _ true | InFiber _ | AfterFiber _ | InCb _ | AfterCb _ => true | _ => false end.

Record inv (g : ghost) (s : Scheduler) : Prop := {
  inv_queue : queue_ok g (m_fibers s);
  inv_st : ∀ f x, g !! f = Some x → st_ok x (state_of s f);
  inv_workers : ∀ t w, workers s !! t = Some w → claims g (state_of s) t w;
  inv_active : m_activeThreadCount s = cnt active_pc (workers s);
  inv_idle : m_idleThreadCount s = cnt idle_in_use (workers s);
  inv_bound : zlen (map_to_list (workers s)) < 2 ^ 64
}.

Lemma cnt_insert P ws t w : ws !! t = None → cnt P (<[t := w]> ws) = Z.b2z (P (w_pc w)) + cnt P ws.
Proof.
  intros Ht. unfold cnt, zlen. rewrite (map_to_list_insert ws t w Ht). cbn [fmap list_fmap snd].
  destruct (P (w_pc w)) eqn:E.
  - rewrite filter_cons_True by done. cbn [length Z.b2z]. lia.
  - rewrite filter_cons_False by congruence. cbn [length Z.b2z]. lia.
Qed.

Lemma cnt_delete P ws t w : ws !! t = Some w → cnt P ws = Z.b2z (P (w_pc w)) + cnt P (delete t ws).
Proof.
  intros Ht. rewrite <- (insert_delete_id ws t w Ht) at 1. apply cnt_insert, lookup_delete_eq.
Qed.

Lemma cnt_update P ws t w w' :
  ws !! t = Some w → cnt P (<[t := w']> ws) = cnt P ws - Z.b2z (P (w_pc w)) + Z.b2z (P (w_pc w')).
Proof.
  intros Ht. rewrite <- insert_delete_eq, cnt_insert by apply lookup_delete_eq.
  rewrite (cnt_delete P ws t w Ht). lia.
Qed.

Lemma cnt_bound P ws : 0 <= cnt P ws <= zlen (map_to_list ws).
Proof.
  unfold cnt, zlen.
  pose proof (length_filter (λ w, P (w_pc w) = true) (snd <$> map_to_list ws)) as H.
  rewrite length_fmap in H. lia.
Qed.

Lemma cnt_pos P ws t w : ws !! t = Some w → P (w_pc w) = true → 1 <= cnt P ws.
Proof.
  intros Ht HP. rewrite (cnt_delete P ws t w Ht), HP. pose proof (cnt_bound P (delete t ws)).
  simpl. lia.
Qed.

Lemma cnt_lt P ws t w :
  ws !! t = Some w → P (w_pc w) = false → cnt P ws + 1 <= zlen (map_to_list ws).
Proof.
  intros Ht HP. rewrite (cnt_delete P ws t w Ht), HP.
  rewrite <- (insert_delete_id ws t w Ht) at 2. unfold zlen at 1.
  rewrite (map_to_list_insert _ t w) by apply lookup_delete_eq.
  pose proof (cnt_bound P (delete t ws)). unfold zlen in *. simpl. lia.
Qed.

(** ** Steps keep the invariant *)

Definition st_set (st : Z → State) (f : Z) (v : State) (h : Z) : State :=
  if decide (h = f) then v else st h.

Lemma state_of_insert s s' f v h : fib s' = <[f := v]> (fib s) → state_of s' h = st_set (state_of s) f v h.
Proof.
  intros E. unfold state_of, st_set. rewrite E. destruct (decide (h = f)) as [->|Hne].
  - by rewrite lookup_insert_eq.
  - by rewrite lookup_insert_ne.
Qed.

Lemma st_set_eq st f v : st_set st f v f = v.
Proof. unfold st_set. by rewrite decide_True. Qed.
Lemma st_set_ne st f v h : h ≠ f → st_set st f v h = st h.
Proof. intros. unfold st_set. by rewrite decide_False. Qed.

Lemma st_set_same s s' f h :
  fib s' = fib s → st_set (state_of s) f (state_of s f) h = state_of s' h.
Proof.
  intros E. unfold st_set, state_of. rewrite E. by destruct (decide (h = f)) as [->|].
Qed.

Lemma claims_ext g st st' t w : (∀ h, st h = st' h) → claims g st t w → claims g st' t w.
Proof.
  intros E [H1 H2 H3 H4]. split; [|done|done|].
  - unfold pc_ok in *. destruct (w_pc w); rewrite <- ?E; done.
  - by rewrite <- E.
Qed.

(** The claims of a worker are about fibers it owns. *)
Lemma claims_frame g st t w f x v :
  claims g st t w → (∀ y, g !! f = Some y → owner y ≠ Some t) →
  claims (<[f := x]> g) (st_set st f v) t w.
Proof.
  intros [H1 H2 H3 H4] Hf.
  assert (∀ h y, g !! h = Some y → owner y = Some t → h ≠ f) as Hne.
  { intros h y Hh Ho ->. by apply (Hf y). }
  assert (∀ h, run_by g t h → h ≠ f) as Hrun.
  { intros h [Hh|Hh]; by eapply Hne. }
  assert (∀ h, run_by g t h → run_by (<[f := x]> g) t h) as Hrun'.
  { intros h Hh. unfold run_by. rewrite lookup_insert_ne; [done|]. by apply not_eq_sym, Hrun. }
  split.
  - unfold pc_ok in *. destruct (w_pc w) as [|ft []|h|h|h|h|h|h| | |]; try done.
    + destruct H1 as [(h & E1 & E2 & Hh)|H1]; [left|by right].
      exists h. split_and!; [done|done|]. rewrite lookup_insert_ne; [done|].
      apply not_eq_sym. by eapply Hne.
    + destruct H1 as [H1 H1']. rewrite st_set_ne by auto. auto.
    + auto.
    + auto.
    + destruct H1 as (H1 & H1' & H1''). rewrite st_set_ne by auto. auto.
    + destruct H1; auto.
    + destruct H1; auto.
  - intros c Hc Hu. specialize (H2 c Hc Hu). rewrite lookup_insert_ne; [done|].
    apply not_eq_sym. by eapply Hne.
  - rewrite lookup_insert_ne; [done|]. apply not_eq_sym. by eapply Hne.
  - rewrite st_set_ne by (by eapply Hne). done.
Qed.

(** The worker [t] moved from [w] to [w'], and the fiber [f], which nobody
    else owns, became [x] in the state [v]. *)
Lemma inv_update g s s' t w w' f x v :
  inv g s → workers s !! t = Some w →
  (∀ y, g !! f = Some y → owner y = None ∨ owner y = Some t) →
  st_ok x v → workers s' = <[t := w']> (workers s) →
  (∀ h, st_set (state_of s) f v h = state_of s' h) →
  claims (<[f := x]> g) (st_set (state_of s) f v) t w' →
  queue_ok (<[f := x]> g) (m_fibers s') →
  m_activeThreadCount s' =
    m_activeThreadCount s - Z.b2z (active_pc (w_pc w)) + Z.b2z (active_pc (w_pc w')) →
  m_idleThreadCount s' =
    m_idleThreadCount s - Z.b2z (idle_in_use (w_pc w)) + Z.b2z (idle_in_use (w_pc w')) →
  inv (<[f := x]> g) s'.
Proof.
  intros [H1 H2 H3 H4 H5 H6] Hw Hf Hx Ews Est Hcl Hq Ha Hi.
  split.
  - done.
  - intros h y. rewrite <- Est. destruct (decide (h = f)) as [->|Hne].
    + rewrite lookup_insert_eq, st_set_eq. by intros [= <-].
    + rewrite lookup_insert_ne, st_set_ne by done. apply H2.
  - intros t' u. rewrite Ews. intros [[<- <-]|[Hne Hu]]%lookup_insert_Some.
    + by eapply claims_ext.
    + eapply claims_ext; [done|]. apply claims_frame; [by apply H3|].
      intros y Hy. destruct (Hf y Hy) as [E|E]; rewrite E; congruence.
  - rewrite Ha, Ews, (cnt_update _ _ _ w) by done. by rewrite H4.
  - rewrite Hi, Ews, (cnt_update _ _ _ w) by done. by rewrite H5.
  - rewrite Ews. clear -H6 Hw. unfold zlen in *.
    revert H6.
    rewrite <- (insert_delete_id (workers s) t w Hw) at 1.
    rewrite <- (insert_delete_eq (workers s) t w').
    rewrite !map_to_list_insert by apply lookup_delete_eq. done.
Qed.

(** The same when no fiber changed. *)
Lemma inv_goto g s s' t w w' :
  inv g s → workers s !! t = Some w →
  workers s' = <[t := w']> (workers s) → fib s' = fib s →
  claims g (state_of s) t w' → queue_ok g (m_fibers s') →
  m_activeThreadCount s' =
    m_activeThreadCount s - Z.b2z (active_pc (w_pc w)) + Z.b2z (active_pc (w_pc w')) →
  m_idleThreadCount s' =
    m_idleThreadCount s - Z.b2z (idle_in_use (w_pc w)) + Z.b2z (idle_in_use (w_pc w')) →
  inv g s'.
Proof.
  intros Hinv Hw Ews Efib Hcl Hq Ha Hi.
  assert (∀ h, state_of s h = state_of s' h) as Est'.
  { intros h. unfold state_of. by rewrite Efib. }
  destruct Hinv as [H1 H2 H3 H4 H5 H6]. split.
  - done.
  - intros h y. rewrite <- Est'. apply H2.
  - intros t' u. rewrite Ews. intros [[<- <-]|[Hne Hu]]%lookup_insert_Some.
    + by eapply claims_ext.
    + eapply claims_ext; [done|]. by apply H3.
  - rewrite Ha, Ews, (cnt_update _ _ _ w) by done. by rewrite H4.
  - rewrite Hi, Ews, (cnt_update _ _ _ w) by done. by rewrite H5.
  - rewrite Ews. revert H6. unfold zlen.
    rewrite <- (insert_delete_id (workers s) t w Hw) at 1.
    rewrite <- (insert_delete_eq (workers s) t w').
    rewrite !map_to_list_insert by apply lookup_delete_eq. done.
Qed.

Definition in_queue (x : status) : bool :=
  match x with Queued | RunningQ _ => true | _ => false end.

Lemma queue_upd g l f x :
  queue_ok g l → (f ∈ omap ft_fiber l → in_queue x = true) → queue_ok (<[f := x]> g) l.
Proof.
  intros [H1 H2] Hx. split; [|done]. rewrite list.Forall_forall in H1 |- *. intros ft Hft.
  destruct (H1 ft Hft) as [(h & E1 & E2 & Hh)|He]; [left|by right].
  exists h. split_and!; [done|done|]. destruct (decide (h = f)) as [->|Hne].
  - rewrite lookup_insert_eq. assert (in_queue x = true) as Hq.
    { apply Hx, list_elem_of_omap. eauto. }
    destruct x; simpl in Hq; try done; eauto.
  - by rewrite lookup_insert_ne.
Qed.

Lemma queue_status g l f :
  queue_ok g l → f ∈ omap ft_fiber l → ∃ x, g !! f = Some x ∧ in_queue x = true.
Proof.
  intros [H1 _] (ft & Hft & E)%list_elem_of_omap. rewrite list.Forall_forall in H1.
  destruct (H1 ft Hft) as [(h & E1 & _ & [Hh|[t Hh]])|[E' _]]; [..|congruence];
    simplify_eq; eauto.
Qed.

Lemma queue_not_in g l f x :
  queue_ok g l → g !! f = Some x → in_queue x = false → f ∉ omap ft_fiber l.
Proof.
  intros Hq Hx Hf Hin. destruct (queue_status g l f Hq Hin) as (y & Hy & Hy'). congruence.
Qed.

Lemma queue_push g l f x thr :
  queue_ok g l → f ∉ omap ft_fiber l → in_queue x = true →
  queue_ok (<[f := x]> g) (l ++ [mkFT (Some f) None thr]).
Proof.
  intros Hq Hf Hx. destruct (queue_upd g l f x Hq) as [H1 H2]; [done|].
  split.
  - apply Forall_app. split; [done|]. constructor; [|constructor]. left. exists f. simpl.
    split_and!; [done|done|]. rewrite lookup_insert_eq. destruct x; try done; eauto.
  - rewrite omap_app. apply list.NoDup_app. split_and!; [done| |simpl; apply NoDup_singleton].
    simpl. intros y Hy ->%list_elem_of_singleton. done.
Qed.

Lemma queue_push_cb g l c thr : queue_ok g l → queue_ok g (l ++ [mkFT None (Some c) thr]).
Proof.
  intros [H1 H2]. split.
  - apply Forall_app. split; [done|]. constructor; [|constructor]. right. by eexists.
  - rewrite omap_app. simpl. by rewrite app_nil_r.
Qed.

Lemma queue_remove g l1 ft l2 :
  queue_ok g (l1 ++ ft :: l2) →
  queue_ok g (l1 ++ l2) ∧ entry_ok g ft ∧ ∀ f, ft_fiber ft = Some f → f ∉ omap ft_fiber (l1 ++ l2).
Proof.
  intros [H1 H2]. apply Forall_app in H1 as [H1 H1']. apply list.Forall_cons in H1' as [Hft H1'].
  rewrite omap_app in H2. simpl in H2. destruct (ft_fiber ft) as [f|] eqn:E.
  - assert (NoDup (f :: omap ft_fiber l1 ++ omap ft_fiber l2)) as [Hn Hd]%list.NoDup_cons.
    { by rewrite Permutation_middle. }
    rewrite <- omap_app in Hn, Hd. split_and!; [split; [by apply Forall_app|done]|done|].
    by intros f' [= <-].
  - split_and!; [split; [by apply Forall_app|by rewrite omap_app]|done|done].
Qed.

Lemma entry_has_work g ft : entry_ok g ft → has_work ft.
Proof. intros [(f & E & _)|(_ & H)]; [left; rewrite E; eauto|by right]. Qed.

(** *** The ghost step *)

Definition settle (g : ghost) (f : Z) : status :=
  match g !! f with Some (RunningQ _) => Queued | _ => Parked end.

Definition ghost_step (t : Z) (fresh : Z) (s : Scheduler) (g : ghost) : ghost :=
  match workers s !! t with
  | None => g
  | Some w =>
      match w_pc w with
      | PickTask =>
          match scan t (state_of s) (m_fibers s) with
          | Some (Some ft, _, _) =>
              match ft_fiber ft with Some f => <[f := Picked t]> g | None => g end
          | _ => g
          end
      | Dispatch ft _ =>
          match ft_fiber ft, ft_cb ft with
          | Some f, _ => if runnable (state_of s f) then <[f := Running t]> g else <[f := Parked]> g
          | None, Some _ => <[default fresh (cb_fiber w) := Running t]> g
          | None, None => g
          end
      | FiberDone f =>
          if bool_decide (state_of s f = READY) then <[f := Queued]> g else <[f := settle g f]> g
      | CbDone f =>
          if bool_decide (state_of s f = READY) then <[f := Queued]> g
          else if runnable (state_of s f) then <[f := settle g f]> g else <[f := CbParked t]> g
      | _ => g
      end
  end.

(** A slice of a fiber that is queued already ends with [YieldToHold]; the
    allocator returns an unused address. *)
Definition step_legal (t : Z) (e : slice_end) (fresh : Z) (s : Scheduler) (g : ghost) : Prop :=
  g !! fresh = None ∧
  ∀ w f, workers s !! t = Some w → w_pc w = InFiber f ∨ w_pc w = InCb f →
    e = ToHold ∨ g !! f = Some (Running t).

Lemma goto_run t p s w :
  workers s !! t = Some w →
  goto t p s = Ok tt (set_worker t (mkWorker p (cb_fiber w) (idle_fiber w)) s).
Proof. intros H. unfold goto, at_worker. mrun. by rewrite H. Qed.

Lemma u64_count s (P : pc → bool) g :
  inv g s → u64 (cnt P (workers s)) = cnt P (workers s).
Proof.
  intros Hinv. pose proof (cnt_bound P (workers s)). pose proof (inv_bound g s Hinv).
  apply wrapu_small. lia.
Qed.

Section steps.
Context (g : ghost) (s : Scheduler) (t : Z) (w : worker).
Hypotheses (Hinv : inv g s) (Hw : workers s !! t = Some w).

Let Hcl : claims g (state_of s) t w := inv_workers g s Hinv t w Hw.

Lemma active_inc : active_pc (w_pc w) = false →
  u64 (m_activeThreadCount s + 1) = m_activeThreadCount s + 1.
Proof.
  intros E. pose proof (cnt_lt _ _ _ _ Hw E) as H. rewrite (inv_active _ _ Hinv).
  pose proof (cnt_bound active_pc (workers s)). pose proof (inv_bound _ _ Hinv).
  apply wrapu_small. lia.
Qed.

Lemma active_dec : active_pc (w_pc w) = true →
  u64 (m_activeThreadCount s - 1) = m_activeThreadCount s - 1.
Proof.
  intros E. pose proof (cnt_pos _ _ _ _ Hw E) as H. rewrite (inv_active _ _ Hinv).
  pose proof (cnt_bound active_pc (workers s)). pose proof (inv_bound _ _ Hinv).
  apply wrapu_small. lia.
Qed.

Lemma idle_inc : idle_in_use (w_pc w) = false →
  u64 (m_idleThreadCount s + 1) = m_idleThreadCount s + 1.
Proof.
  intros E. pose proof (cnt_lt _ _ _ _ Hw E) as H. rewrite (inv_idle _ _ Hinv).
  pose proof (cnt_bound idle_in_use (workers s)). pose proof (inv_bound _ _ Hinv).
  apply wrapu_small. lia.
Qed.

Lemma idle_dec : idle_in_use (w_pc w) = true →
  u64 (m_idleThreadCount s - 1) = m_idleThreadCount s - 1.
Proof.
  intros E. pose proof (cnt_pos _ _ _ _ Hw E) as H. rewrite (inv_idle _ _ Hinv).
  pose proof (cnt_bound idle_in_use (workers s)). pose proof (inv_bound _ _ Hinv).
  apply wrapu_small. lia.
Qed.

(** A worker with no fiber in hand may be anywhere it holds none. *)
Lemma claims_free p :
  w_pc w = p → cb_in_use p = false → idle_in_use p = false →
  ∀ p', match p' with PickTask | Exited => True | Dispatch ft false => ft = ft_reset | _ => False end →
  claims g (state_of s) t (mkWorker p' (cb_fiber w) (idle_fiber w)).
Proof.
  intros <- Hc Hi p' Hp'. destruct Hcl as [H1 H2 H3 H4]. rewrite Hi in H4. split; simpl.
  - by destruct p' as [|ft []| | | | | | | | |].
  - intros c E _. by apply H2.
  - done.
  - by destruct p' as [|ft []| | | | | | | | |].
Qed.

(** Taking the task [ft] from the queue, [s1] being the state after it. *)
Lemma take_inv ft l1 l2 s1 :
  w_pc w = PickTask → m_fibers s = l1 ++ ft :: l2 → eligible t (state_of s) ft = true →
  m_fibers s1 = l1 ++ l2 → workers s1 = <[t := mkWorker (Dispatch ft true) (cb_fiber w) (idle_fiber w)]> (workers s) →
  fib s1 = fib s → m_activeThreadCount s1 = u64 (m_activeThreadCount s + 1) →
  m_idleThreadCount s1 = m_idleThreadCount s →
  inv (match ft_fiber ft with Some f => <[f := Picked t]> g | None => g end) s1.
Proof.
  intros Hpc Hl Hel Hq Hws Hfib Hact Hidle.
  pose proof (inv_queue _ _ Hinv) as Hqok. rewrite Hl in Hqok.
  apply queue_remove in Hqok as (Hqok & Hent & Hnot).
  rewrite active_inc in Hact by (by rewrite Hpc).
  destruct Hcl as [_ Hcb Hid Hidst]. rewrite Hpc in Hcb, Hidst. simpl in Hidst.
  assert (claims g (state_of s) t (mkWorker PickTask (cb_fiber w) (idle_fiber w))) as Hcl0.
  { by split. }
  destruct Hent as [(f & Ef & Ec & Hf)|[Ef Ec]]; rewrite Ef.
  - assert (state_of s f ≠ EXEC) as Hne.
    { apply andb_true_iff in Hel as [_ He]. unfold executing in He. rewrite Ef in He.
      by apply negb_true_iff, bool_decide_eq_false in He. }
    assert (g !! f = Some Queued) as Hq'.
    { destruct Hf as [Hf|[t' Hf]]; [done|]. by apply (inv_st _ _ Hinv) in Hf. }
    eapply (inv_update g s s1 t w _ f (Picked t) (state_of s f)); try done.
    + intros y Hy. simplify_eq. by left.
    + intros h. by apply st_set_same.
    + destruct (claims_frame g (state_of s) t _ f (Picked t) (state_of s f) Hcl0) as [_ K2 K3 K4].
      { intros y Hy. by simplify_eq. }
      split; [|done|done|done]. left. exists f. by rewrite lookup_insert_eq.
    + rewrite Hq. apply queue_upd; [done|]. intros Hin. by destruct (Hnot f).
    + rewrite Hact, Hpc. simpl. lia.
    + rewrite Hidle, Hpc. simpl. lia.
  - eapply (inv_goto g s s1 t w); try done.
    + split; [by right|done|done|done].
    + by rewrite Hq.
    + rewrite Hact, Hpc. simpl. lia.
    + rewrite Hidle, Hpc. simpl. lia.
Qed.

Lemma pick_inv fresh :
  w_pc w = PickTask → ∃ s', run_pick t s = Ok tt s' ∧ inv (ghost_step t fresh s g) s'.
Proof.
  intros Hpc. unfold ghost_step. rewrite Hw, Hpc. unfold run_pick. mget.
  pose proof (inv_queue _ _ Hinv) as [Hq _].
  destruct (scan_spec t (state_of s) (m_fibers s)) as [(l1 & ft & l2 & El & H1 & H2 & Es)|(H1 & Es)].
  { eapply Forall_impl; [|exact Hq] || (eapply list.Forall_impl; [exact Hq|]). apply entry_has_work. }
  - rewrite Es. rewrite !bind_modify.
    destruct (existsb (pinned_elsewhere t) l1); mrun.
    + rewrite (goto_run t _ _ w) by done. eexists. split; [done|]. by eapply take_inv.
    + rewrite (goto_run t _ _ w) by done. eexists. split; [done|]. by eapply take_inv.
  - rewrite Es. pose proof (claims_free PickTask Hpc eq_refl eq_refl (Dispatch ft_reset false) eq_refl) as Hc.
    destruct (existsb (pinned_elsewhere t) (m_fibers s)); mrun;
      (rewrite (goto_run t _ _ w) by done; eexists; split; [done|];
       eapply (inv_goto g s _ t w); try done; [apply Hinv|rewrite Hpc; cbn; lia|rewrite Hpc; cbn; lia]).
Qed.

(** The claims on the idle and callback fibers survive a change of another
    fiber the worker owns. *)
Lemma claims_rest f x v :
  (∀ y, g !! f = Some y → y ≠ IdleOf t ∧ y ≠ CbParked t) →
  (∀ c, cb_fiber w = Some c → cb_in_use (w_pc w) = false → <[f := x]> g !! c = Some (CbParked t)) ∧
  <[f := x]> g !! idle_fiber w = Some (IdleOf t) ∧ idle_fiber w ≠ f ∧
  (idle_in_use (w_pc w) = false → st_set (state_of s) f v (idle_fiber w) ≠ EXEC).
Proof.
  intros Hf. destruct Hcl as [_ H2 H3 H4].
  assert (idle_fiber w ≠ f) as Hne by (intros E; rewrite E in H3; by destruct (Hf _ H3)).
  split_and!; [| |done|].
  - intros c Hc Hu. specialize (H2 c Hc Hu). rewrite lookup_insert_ne; [done|].
    intros <-. by destruct (Hf _ H2).
  - by rewrite lookup_insert_ne.
  - intros Hi. rewrite Hi in H4. by rewrite st_set_ne.
Qed.

Lemma swap_in_run f s1 :
  state_of s1 f ≠ EXEC → swap_in f s1 = Ok tt (set_fib f EXEC s1).
Proof. intros H. unfold swap_in. mrun. by rewrite bool_decide_eq_false_2. Qed.

Lemma dispatch_fiber ft f fresh :
  w_pc w = Dispatch ft true → ft_fiber ft = Some f → ft_cb ft = None →
  g !! f = Some (Picked t) →
  ∃ s', run_dispatch t ft true fresh s = Ok tt s' ∧ inv (ghost_step t fresh s g) s'.
Proof.
  intros Hpc Ef Ec Hf. unfold ghost_step. rewrite Hw, Hpc. unfold run_dispatch. mget.
  rewrite Ef, Ec. pose proof (inv_st _ _ Hinv _ _ Hf) as Hst. simpl in Hst.
  destruct (claims_rest f (Running t) EXEC) as (K1 & K2 & K3 & K4).
  { intros y Hy. by simplify_eq. }
  rewrite Hpc in K1, K4. destruct (runnable (state_of s f)) eqn:Er.
  - mstep (swap_in_run f s Hst). rewrite (goto_run t _ _ w) by done. eexists. split; [done|].
    eapply (inv_update g s _ t w _ f (Running t) EXEC); try done.
    + intros y Hy. simplify_eq. by right.
    + intros h. symmetry. by apply state_of_insert.
    + split; [|done|done|by apply K4]. split; [left; by rewrite lookup_insert_eq|apply st_set_eq].
    + apply queue_upd; [apply Hinv|]. intros Hin.
      by destruct (queue_not_in g (m_fibers s) f (Picked t) (inv_queue _ _ Hinv) Hf eq_refl).
    + rewrite Hpc. cbn. lia.
    + rewrite Hpc. cbn. lia.
  - unfold run_no_task. rewrite bind_modify. rewrite (goto_run t _ _ w) by done. eexists. split; [done|].
    destruct (claims_rest f Parked (state_of s f)) as (L1 & L2 & L3 & L4).
    { intros y Hy. by simplify_eq. }
    rewrite Hpc in L1, L4.
    eapply (inv_update g s _ t w _ f Parked (state_of s f)); try done.
    + intros y Hy. simplify_eq. by right.
    + intros h. by apply st_set_same.
    + split; [done|done|done|by apply L4].
    + apply queue_upd; [apply Hinv|]. intros Hin.
      by destruct (queue_not_in g (m_fibers s) f (Picked t) (inv_queue _ _ Hinv) Hf eq_refl).
    + rewrite Hpc. cbn. rewrite active_dec by (by rewrite Hpc). lia.
    + rewrite Hpc. cbn. lia.
Qed.

(** The state in which a callback runs on the fiber [c]. *)
(** The fiber for a callback: the worker's own one, or a new one. *)
Lemma prepare_cb_run fresh :
  match cb_fiber w with Some f => state_of s f = INIT | None => True end →
  let f := default fresh (cb_fiber w) in
  ∃ s1, prepare_cb t fresh s = Ok f s1 ∧ fib s1 = <[f := INIT]> (fib s) ∧
    m_fibers s1 = m_fibers s ∧ m_activeThreadCount s1 = m_activeThreadCount s ∧
    m_idleThreadCount s1 = m_idleThreadCount s ∧ ∃ p,
    workers s1 !! t = Some (mkWorker p (Some f) (idle_fiber w)) ∧
    ∀ w', <[t := w']> (workers s1) = <[t := w']> (workers s).
Proof.
  intros Hcb. unfold prepare_cb, at_worker. cbv zeta. destruct (cb_fiber w) as [f'|] eqn:E.
  - mrun. rewrite Hw. rewrite E, Hcb. cbn. eexists.
    split_and!; [done..|]. exists (w_pc w). split; [|done]. cbn. rewrite Hw. f_equal. by destruct w; simpl in *; subst.
  - mrun. rewrite Hw, E. eexists. split_and!; [done..|]. exists (w_pc w). cbn.
    split; [by rewrite lookup_insert_eq|]. intros w'. by rewrite insert_insert_eq.
Qed.

Lemma dispatch_cb ft c fresh :
  w_pc w = Dispatch ft true → ft_fiber ft = None → ft_cb ft = Some c → g !! fresh = None →
  ∃ s', run_dispatch t ft true fresh s = Ok tt s' ∧ inv (ghost_step t fresh s g) s'.
Proof.
  intros Hpc Ef Ec Hfr. unfold ghost_step. rewrite Hw, Hpc, Ef, Ec. unfold run_dispatch. mget.
  rewrite Ef, Ec. set (f := default fresh (cb_fiber w)).
  assert (match cb_fiber w with
          | Some f => g !! f = Some (CbParked t) ∧ state_of s f = INIT
          | None => True end) as Hcb.
  { destruct (cb_fiber w) as [f'|] eqn:E; [|done].
    pose proof (cl_cb _ _ _ _ Hcl f' E ltac:(by rewrite Hpc)) as Hp.
    split; [done|]. by apply (inv_st _ _ Hinv) in Hp. }
  destruct (prepare_cb_run fresh) as (s1 & Ep & Efib & Eq & Ea & Ei & p & Ew & Eww);
    [by destruct (cb_fiber w); [destruct Hcb|]|]. fold f in Ep, Efib, Ew.
  mstep Ep. rewrite (bind_ok _ _ _ _ _ (swap_in_run f s1 ltac:(
    rewrite (state_of_insert s s1 f INIT f Efib), st_set_eq; done))).
  rewrite (goto_run t _ (set_fib f EXEC s1) _ Ew). eexists. split; [done|].
  assert (∀ y, g !! f = Some y → y = CbParked t) as Hy.
  { intros y. subst f. destruct (cb_fiber w); simpl; [destruct Hcb; congruence|congruence]. }
  assert (idle_fiber w ≠ f) as Hnef.
  { intros E. pose proof (cl_idle _ _ _ _ Hcl) as Hi. rewrite E in Hi. by apply Hy in Hi. }
  eapply (inv_update g s _ t w (mkWorker (InCb f) (Some f) (idle_fiber w)) f (Running t) EXEC);
    cbn [m_fibers workers set_worker set_fib m_activeThreadCount m_idleThreadCount w_pc]; try done.
  - intros y ->%Hy. by right.
  - intros h. unfold st_set, state_of. cbn. rewrite Efib, insert_insert_eq.
    destruct (decide (h = f)) as [->|]; [by rewrite lookup_insert_eq|by rewrite lookup_insert_ne].
  - split; cbn; [|done| |].
    + split_and!; [left; by rewrite lookup_insert_eq|apply st_set_eq|done].
    + rewrite lookup_insert_ne by done. apply Hcl.
    + rewrite st_set_ne by done. pose proof (cl_idle_st _ _ _ _ Hcl) as K. by rewrite Hpc in K.
  - rewrite Eq. apply queue_upd; [apply Hinv|]. intros Hin.
    destruct (queue_status g _ f (inv_queue _ _ Hinv) Hin) as (y & E%Hy & Hq). by subst y.
  - rewrite Ea, Hpc. cbn. lia.
  - rewrite Ei, Hpc. cbn. lia.
Qed.

Lemma dispatch_idle ft fresh :
  w_pc w = Dispatch ft false → ft = ft_reset →
  ∃ s', run_dispatch t ft false fresh s = Ok tt s' ∧ inv (ghost_step t fresh s g) s'.
Proof.
  intros Hpc ->. unfold ghost_step. rewrite Hw, Hpc. unfold run_dispatch. mget. cbn.
  unfold run_no_task, at_worker. mget. rewrite (bind_ok _ _ s w s) by (mrun; by rewrite Hw).
  pose proof (cl_idle_st _ _ _ _ Hcl) as Hst. rewrite Hpc in Hst. simpl in Hst.
  pose proof (cl_idle _ _ _ _ Hcl) as Hid. case_bool_decide as Ht.
  - rewrite (goto_run t _ _ w) by done. eexists. split; [done|].
    eapply (inv_goto g s _ t w); try done.
    + by eapply (claims_free _ Hpc).
    + apply Hinv.
    + rewrite Hpc. cbn. lia.
    + rewrite Hpc. cbn. lia.
  - rewrite bind_modify.
    mstep (swap_in_run (idle_fiber w) (set_idle_count (u64 (m_idleThreadCount s + 1)) s) Hst).
    rewrite (goto_run t _ _ w) by done. eexists. split; [done|].
    rewrite <- (insert_id g (idle_fiber w) (IdleOf t)) by done.
    eapply (inv_update g s _ t w _ (idle_fiber w) (IdleOf t) EXEC); try done.
    + intros y Hy. simplify_eq. by right.
    + intros h. symmetry. by apply state_of_insert.
    + rewrite insert_id by done. split; [done| |done|done].
      intros c Hc _. apply (cl_cb _ _ _ _ Hcl c Hc). by rewrite Hpc.
    + rewrite insert_id by done. apply Hinv.
    + rewrite Hpc. cbn. lia.
    + rewrite Hpc. cbn. rewrite idle_inc by (by rewrite Hpc). lia.
Qed.

Lemma slice_inv f e p' :
  (w_pc w = InFiber f ∧ p' = AfterFiber f) ∨ (w_pc w = InCb f ∧ p' = AfterCb f) →
  e = ToHold ∨ g !! f = Some (Running t) →
  ∃ s', (modify (set_fib f (slice_state e));; goto t p') s = Ok tt s' ∧ inv g s'.
Proof.
  intros Hpc He. rewrite bind_modify. rewrite (goto_run t _ _ w) by done.
  eexists. split; [done|].
  assert (run_by g t f) as Hrun.
  { destruct Hcl as [H1 _ _ _]. unfold pc_ok in H1.
    destruct Hpc as [[E _]|[E _]]; rewrite E in H1; by destruct H1. }
  assert (∃ y, g !! f = Some y ∧ owner y = Some t ∧ st_ok y (slice_state e) ∧ y ≠ IdleOf t ∧
    y ≠ CbParked t ∧ run_by (<[f := y]> g) t f) as (y & Hy & Ho & Hst & Hn1 & Hn2 & Hr').
  { destruct Hrun as [Hr|Hr]; eexists; (split; [exact Hr|]); rewrite insert_id by done;
      split_and!; try done; [by left| |by right].
    destruct He as [->|He]; [done|congruence]. }
  destruct (claims_rest f y (slice_state e)) as (K1 & K2 & K3 & K4).
  { intros z Hz. by simplify_eq. }
  rewrite <- (insert_id g f y Hy).
  eapply (inv_update g s _ t w _ f y (slice_state e)); try done.
  - intros z Hz. simplify_eq. by right.
  - intros h. symmetry. by apply state_of_insert.
  - pose proof (cl_pc _ _ _ _ Hcl) as Hp. unfold pc_ok in Hp.
    destruct Hpc as [[E ->]|[E ->]]; rewrite E in K1, K4, Hp.
    + split; [done|done|done|by apply K4].
    + split; [|done|done|by apply K4]. split; [done|]. by destruct Hp as (_ & _ & ?).
  - rewrite insert_id by done. apply Hinv.
  - destruct Hpc as [[E ->]|[E ->]]; rewrite E; cbn; lia.
  - destruct Hpc as [[E ->]|[E ->]]; rewrite E; cbn; lia.
Qed.

Lemma after_inv f p' :
  (w_pc w = AfterFiber f ∧ p' = FiberDone f) ∨ (w_pc w = AfterCb f ∧ p' = CbDone f) →
  ∃ s', dec_active t p' s = Ok tt s' ∧ inv g s'.
Proof.
  intros Hpc. unfold dec_active. rewrite bind_modify. rewrite (goto_run t _ _ w) by done.
  eexists. split; [done|]. pose proof (active_dec) as Hd. destruct Hcl as [H1 H2 H3 H4].
  eapply (inv_goto g s _ t w); try done.
  - unfold pc_ok in H1. destruct Hpc as [[E ->]|[E ->]]; rewrite E in H1, H2, H4; by split.
  - apply Hinv.
  - destruct Hpc as [[E ->]|[E ->]]; rewrite E in *; cbn; rewrite Hd by done; lia.
  - destruct Hpc as [[E ->]|[E ->]]; rewrite E; cbn; lia.
Qed.

(** Putting the fiber back in the queue. *)
Lemma schedule_run ft s1 :
  bool_decide (is_Some (ft_fiber ft)) || bool_decide (is_Some (ft_cb ft)) = true →
  ∃ s', schedule ft s1 = Ok tt s' ∧ m_fibers s' = m_fibers s1 ++ [ft] ∧ fib s' = fib s1 ∧
    workers s' = workers s1 ∧ m_activeThreadCount s' = m_activeThreadCount s1 ∧
    m_idleThreadCount s' = m_idleThreadCount s1.
Proof.
  intros Hb. unfold schedule, scheduleNoLock. mrun. rewrite Hb.
  destruct (m_fibers s1) eqn:E; by eexists.
Qed.

Lemma done_ready f s1 p :
  w_pc w = FiberDone f ∨ w_pc w = CbDone f → state_of s f = READY →
  m_fibers s1 = m_fibers s ++ [mkFT (Some f) None (-1)] → fib s1 = fib s →
  m_activeThreadCount s1 = m_activeThreadCount s → m_idleThreadCount s1 = m_idleThreadCount s →
  p = None ∨ (p = cb_fiber w ∧ w_pc w = FiberDone f) →
  workers s1 = <[t := mkWorker PickTask p (idle_fiber w)]> (workers s) →
  inv (<[f := Queued]> g) s1.
Proof.
  intros Hpc Hst Eq Efib Ea Ei Hp Ew.
  assert (g !! f = Some (Running t)) as Hf.
  { pose proof (cl_pc _ _ _ _ Hcl) as H1. unfold pc_ok in H1.
    assert (run_by g t f) as [?|Hr] by (destruct Hpc as [E|E]; rewrite E in H1; [exact H1|exact (proj1 H1)]).
    - done.
    - apply (inv_st _ _ Hinv) in Hr. simpl in Hr. congruence. }
  destruct (claims_rest f Queued (state_of s f)) as (K1 & K2 & K3 & K4).
  { intros z Hz. by simplify_eq. }
  eapply (inv_update g s s1 t w _ f Queued (state_of s f)); try done.
  - intros z Hz. simplify_eq. by right.
  - simpl. congruence.
  - intros h. by apply st_set_same.
  - split; [done| |done|].
    + intros c Hc _. cbn in Hc. destruct Hp as [->|[-> E]]; [done|].
      apply K1; [done|]. by rewrite E.
    + apply K4. by destruct Hpc as [E|E]; rewrite E.
  - rewrite Eq. apply queue_push; [apply Hinv| |done].
    by eapply queue_not_in; [apply Hinv|exact Hf|].
  - rewrite Ea. destruct Hpc as [E|E]; rewrite E; cbn; lia.
  - rewrite Ei. destruct Hpc as [E|E]; rewrite E; cbn; lia.
Qed.

(** The fiber is left held, parked, or to be reused for callbacks. *)
Lemma done_settle f v x s1 p :
  w_pc w = FiberDone f ∨ w_pc w = CbDone f →
  run_by g t f → st_ok x v → (g !! f = Some (RunningQ t) → x = Queued) →
  x = Queued ∨ x = Parked ∨ (x = CbParked t ∧ p = Some f) →
  m_fibers s1 = m_fibers s → (∀ h, st_set (state_of s) f v h = state_of s1 h) →
  m_activeThreadCount s1 = m_activeThreadCount s → m_idleThreadCount s1 = m_idleThreadCount s →
  p = None ∨ (p = cb_fiber w ∧ w_pc w = FiberDone f) ∨ (p = Some f ∧ x = CbParked t) →
  workers s1 = <[t := mkWorker PickTask p (idle_fiber w)]> (workers s) →
  inv (<[f := x]> g) s1.
Proof.
  intros Hpc Hrun Hst Hxq Hx Eq Est Ea Ei Hp Ew.
  assert (∀ z, g !! f = Some z → owner z = Some t ∧ z ≠ IdleOf t ∧ z ≠ CbParked t) as Hz.
  { intros z Hz. destruct Hrun as [Hr|Hr]; simplify_eq; done. }
  destruct (claims_rest f x v) as (K1 & K2 & K3 & K4); [intros z ?; by apply Hz|].
  eapply (inv_update g s s1 t w _ f x v); try done.
  - intros z Hz'. right. by apply Hz.
  - split; [done| |done|].
    + intros c Hc _. cbn in Hc. destruct Hp as [->|[[-> E]|[-> ->]]]; [done|..].
      * apply K1; [done|]. by rewrite E.
      * injection Hc as <-. apply lookup_insert_eq.
    + apply K4. by destruct Hpc as [E|E]; rewrite E.
  - rewrite Eq. apply queue_upd; [apply Hinv|]. intros Hin.
    destruct Hrun as [Hr|Hr].
    + by destruct (queue_not_in g _ f _ (inv_queue _ _ Hinv) Hr eq_refl).
    + by rewrite (Hxq Hr).
  - rewrite Ea. destruct Hpc as [E|E]; rewrite E; cbn; lia.
  - rewrite Ei. destruct Hpc as [E|E]; rewrite E; cbn; lia.
Qed.

Lemma settle_queued f : g !! f = Some (RunningQ t) → settle g f = Queued.
Proof. intros H. unfold settle. by rewrite H. Qed.

Lemma settle_cases f : settle g f = Queued ∨ settle g f = Parked.
Proof. unfold settle. destruct (g !! f) as [[]|]; auto. Qed.

Lemma fiber_done_inv f fresh :
  w_pc w = FiberDone f →
  ∃ s', run_fiber_done t f s = Ok tt s' ∧ inv (ghost_step t fresh s g) s'.
Proof.
  intros Hpc. unfold ghost_step. rewrite Hw, Hpc. unfold run_fiber_done. mget.
  assert (run_by g t f) as Hrun.
  { pose proof (cl_pc _ _ _ _ Hcl) as H1. unfold pc_ok in H1. by rewrite Hpc in H1. }
  case_bool_decide as Hr.
  - destruct (schedule_run (mkFT (Some f) None (-1)) s) as (s1 & E & Eq & Ef & Ew & Ea & Ei); [done|].
    mstep E. rewrite (goto_run t _ _ w) by (by rewrite Ew). eexists. split; [done|].
    apply (done_ready f _ (cb_fiber w)); cbn; try done; [by left|by right|by rewrite Ew].
  - unfold when. destruct (runnable (state_of s f)) eqn:Er.
    + rewrite bind_modify, (goto_run t _ _ w) by done. eexists. split; [done|].
      apply (done_settle f HOLD (settle g f) _ (cb_fiber w)); try done; auto.
      * by destruct (settle_cases f) as [-> | ->].
      * apply settle_queued.
      * destruct (settle_cases f); auto.
      * intros h. symmetry. by apply state_of_insert.
    + rewrite bind_mret, (goto_run t _ _ w) by done. eexists. split; [done|].
      assert (settle g f = Parked) as Hs.
      { unfold settle. destruct Hrun as [Hr'|Hr']; rewrite Hr'; [done|].
        apply (inv_st _ _ Hinv) in Hr'. simpl in Hr'. by rewrite Hr' in Er. }
      apply (done_settle f (state_of s f) (settle g f) _ (cb_fiber w)); try done; auto.
      * rewrite Hs. simpl. intros E. by rewrite E in Er.
      * apply settle_queued.
      * intros h. by apply st_set_same.
Qed.

Lemma cb_done_inv f fresh :
  w_pc w = CbDone f →
  ∃ s', run_cb_done t f s = Ok tt s' ∧ inv (ghost_step t fresh s g) s'.
Proof.
  intros Hpc. unfold ghost_step. rewrite Hw, Hpc. unfold run_cb_done, at_worker. mget.
  rewrite (bind_ok _ _ s w s) by (mrun; by rewrite Hw).
  assert (run_by g t f ∧ cb_fiber w = Some f) as [Hrun Hcb].
  { pose proof (cl_pc _ _ _ _ Hcl) as H1. unfold pc_ok in H1. by rewrite Hpc in H1. }
  case_bool_decide as Hr.
  - destruct (schedule_run (mkFT (Some f) None (-1)) s) as (s1 & E & Eq & Ef & Ew & Ea & Ei); [done|].
    rewrite (bind_ok _ _ s tt (set_worker t (mkWorker (w_pc w) None (idle_fiber w)) s1))
      by (by mstep E).
    rewrite (goto_run t _ _ (mkWorker (w_pc w) None (idle_fiber w))) by (cbn; apply lookup_insert_eq).
    eexists. split; [done|]. apply (done_ready f _ None); cbn; try done; [by right|by left|].
    by rewrite Ew, insert_insert_eq.
  - destruct (runnable (state_of s f)) eqn:Er; simpl negb; cbv iota.
    + rewrite (bind_ok _ _ s tt (set_worker t (mkWorker (w_pc w) None (idle_fiber w)) (set_fib f HOLD s)))
        by done.
      rewrite (goto_run t _ _ (mkWorker (w_pc w) None (idle_fiber w))) by (cbn; apply lookup_insert_eq).
      eexists. split; [done|]. apply (done_settle f HOLD (settle g f) _ None); try done; auto.
      * by destruct (settle_cases f) as [-> | ->].
      * apply settle_queued.
      * destruct (settle_cases f); auto.
      * intros h. symmetry. by apply state_of_insert.
      * cbn. by rewrite insert_insert_eq.
    + assert (resettable (state_of s f) = true) as Hre.
      { unfold resettable. unfold runnable in Er. by destruct (state_of s f). }
      rewrite (bind_ok _ _ s tt (set_fib f INIT s)) by (unfold peng_assert; rewrite Hre; done).
      rewrite (goto_run t _ _ w) by done. eexists. split; [done|].
      apply (done_settle f INIT (CbParked t) _ (cb_fiber w)); try done; auto.
      * intros Hq. apply (inv_st _ _ Hinv) in Hq. simpl in Hq. by rewrite Hq in Er.
      * intros h. symmetry. by apply state_of_insert.
Qed.

Lemma idle_turn_inv :
  w_pc w = InIdle → ∃ s', idle_turn t (idle_fiber w) s = Ok tt s' ∧ inv g s'.
Proof.
  intros Hpc. pose proof (cl_idle _ _ _ _ Hcl) as Hid. unfold idle_turn. mget. unfold when.
  assert (∀ c, cb_fiber w = Some c → g !! c = Some (CbParked t)) as Hcb.
  { intros c Hc. apply (cl_cb _ _ _ _ Hcl c Hc). by rewrite Hpc. }
  destruct (stopping s).
  - rewrite bind_modify, (goto_run t _ _ w) by done. eexists. split; [done|].
    rewrite <- (insert_id g (idle_fiber w) (IdleOf t)) by done.
    eapply (inv_update g s _ t w _ (idle_fiber w) (IdleOf t) TERM); try done.
    + intros y Hy. simplify_eq. by right.
    + intros h. symmetry. by apply state_of_insert.
    + rewrite insert_id by done. split; cbn; auto.
    + rewrite insert_id by done. apply Hinv.
    + rewrite Hpc. cbn. lia.
    + rewrite Hpc. cbn. lia.
  - rewrite bind_mret, (goto_run t _ _ w) by done. eexists. split; [done|].
    eapply (inv_goto g s _ t w); try done.
    + split; cbn; auto.
    + apply Hinv.
    + rewrite Hpc. cbn. lia.
    + rewrite Hpc. cbn. lia.
Qed.

Lemma idle_done_inv :
  w_pc w = AfterIdle → ∃ s', run_idle_done t (idle_fiber w) s = Ok tt s' ∧ inv g s'.
Proof.
  intros Hpc. pose proof (cl_idle _ _ _ _ Hcl) as Hid. unfold run_idle_done.
  rewrite bind_modify. mget. unfold when.
  change (state_of (set_idle_count _ s) (idle_fiber w)) with (state_of s (idle_fiber w)).
  assert (∀ c, cb_fiber w = Some c → g !! c = Some (CbParked t)) as Hcb.
  { intros c Hc. apply (cl_cb _ _ _ _ Hcl c Hc). by rewrite Hpc. }
  assert (u64 (m_idleThreadCount s - 1) = m_idleThreadCount s - 1) as Hdec
    by (apply idle_dec; by rewrite Hpc).
  destruct (runnable (state_of s (idle_fiber w))) eqn:Er.
  - rewrite bind_modify, (goto_run t _ _ w) by done. eexists. split; [done|].
    rewrite <- (insert_id g (idle_fiber w) (IdleOf t)) by done.
    eapply (inv_update g s _ t w _ (idle_fiber w) (IdleOf t) HOLD); try done.
    + intros y Hy. simplify_eq. by right.
    + intros h. symmetry. by apply state_of_insert.
    + rewrite insert_id by done. split; cbn; auto. by rewrite st_set_eq.
    + rewrite insert_id by done. apply Hinv.
    + rewrite Hpc. cbn. lia.
    + rewrite Hpc. cbn. rewrite Hdec. lia.
  - rewrite bind_mret, (goto_run t _ _ w) by done. eexists. split; [done|].
    eapply (inv_goto g s _ t w); try done.
    + split; cbn; auto. intros E. by rewrite E in Er.
    + apply Hinv.
    + rewrite Hpc. cbn. lia.
    + rewrite Hpc. cbn. rewrite Hdec. lia.
Qed.

Lemma run_step_inv e fresh :
  step_legal t e fresh s g →
  ∃ s', run_step t e fresh s = Ok tt s' ∧ inv (ghost_step t fresh s g) s'.
Proof.
  intros [Hfr He]. unfold run_step, at_worker.
  rewrite (bind_ok _ _ s w s) by (mrun; by rewrite Hw).
  pose proof (cl_pc _ _ _ _ Hcl) as Hp. unfold pc_ok in Hp.
  destruct (w_pc w) as [|ft []|f|f|f|f|f|f| | |] eqn:Hpc.
  - by apply pick_inv.
  - destruct Hp as [(f & Ef & Ec & Hf)|[Ef [c Ec]]]; [by eapply dispatch_fiber|by eapply dispatch_cb].
  - by apply dispatch_idle.
  - unfold ghost_step. rewrite Hw, Hpc. apply (slice_inv f); eauto.
  - unfold ghost_step. rewrite Hw, Hpc. apply (after_inv f); auto.
  - by apply fiber_done_inv.
  - unfold ghost_step. rewrite Hw, Hpc. apply (slice_inv f); eauto.
  - unfold ghost_step. rewrite Hw, Hpc. apply (after_inv f); auto.
  - by apply cb_done_inv.
  - unfold ghost_step. rewrite Hw, Hpc. by apply idle_turn_inv.
  - unfold ghost_step. rewrite Hw, Hpc. by apply idle_done_inv.
  - unfold ghost_step. rewrite Hw, Hpc. by exists s.
Qed.
End steps.

(** ** All runs *)

Definition not_started (s : Scheduler) : Prop :=
  m_fibers s = [] ∧ m_activeThreadCount s = 0 ∧ m_idleThreadCount s = 0 ∧ workers s = ∅.

Inductive reach : ghost → Scheduler → Prop :=
| reach_init s : not_started s → reach ∅ s
| reach_spawn g s t idle :
    reach g s → workers s !! t = None → g !! idle = None →
    zlen (map_to_list (workers s)) + 1 < 2 ^ 64 →
    reach (<[idle := IdleOf t]> g) (spawn t idle s)
| reach_new g s f : reach g s → g !! f = None → reach (<[f := Parked]> g) (set_fib f INIT s)
| reach_schedule g s f thr s' :
    reach g s → g !! f = Some Parked → schedule (mkFT (Some f) None thr) s = Ok tt s' →
    reach (<[f := Queued]> g) s'
| reach_wake g s f t thr s' :
    reach g s → g !! f = Some (Running t) → state_of s f = EXEC →
    schedule (mkFT (Some f) None thr) s = Ok tt s' → reach (<[f := RunningQ t]> g) s'
| reach_cb g s c thr s' :
    reach g s → schedule (mkFT None (Some c) thr) s = Ok tt s' → reach g s'
| reach_flags g s b1 b2 : reach g s → reach g (set_flags b1 b2 s)
| reach_step g s t e fresh s' :
    reach g s → is_Some (workers s !! t) → step_legal t e fresh s g →
    run_step t e fresh s = Ok tt s' → reach (ghost_step t fresh s g) s'.

(** A move of the environment on the fiber [f] that no worker owns. *)
Lemma inv_env g s s' f x v :
  inv g s → (∀ y, g !! f = Some y → owner y = None) → st_ok x v →
  workers s' = workers s → (∀ h, st_set (state_of s) f v h = state_of s' h) →
  queue_ok (<[f := x]> g) (m_fibers s') → m_activeThreadCount s' = m_activeThreadCount s →
  m_idleThreadCount s' = m_idleThreadCount s → inv (<[f := x]> g) s'.
Proof.
  intros [H1 H2 H3 H4 H5 H6] Hf Hx Ews Est Hq Ha Hi. split; rewrite ?Ha, ?Hi, ?Ews; try done.
  - intros h y. rewrite <- Est. destruct (decide (h = f)) as [->|Hne].
    + rewrite lookup_insert_eq, st_set_eq. by intros [= <-].
    + rewrite lookup_insert_ne, st_set_ne by done. apply H2.
  - intros t w Hw. eapply claims_ext; [done|]. apply claims_frame; [by apply H3|].
    intros y Hy. by rewrite (Hf y Hy).
Qed.

Lemma schedule_inv g s f x thr s' :
  inv g s → g !! f = Some Parked → x = Queued →
  schedule (mkFT (Some f) None thr) s = Ok tt s' → inv (<[f := x]> g) s'.
Proof.
  intros Hinv Hf -> E.
  destruct (schedule_run (mkFT (Some f) None thr) s) as (s1 & E1 & Eq & Ef & Ew & Ea & Ei); [done|].
  rewrite E in E1. injection E1 as <-.
  eapply (inv_env g s s' f Queued (state_of s f)); try done.
  - intros y Hy. by simplify_eq.
  - by apply (inv_st _ _ Hinv) in Hf.
  - intros h. by apply st_set_same.
  - rewrite Eq. apply queue_push; [apply Hinv| |done]. by eapply queue_not_in; [apply Hinv|exact Hf|].
Qed.

Lemma wake_inv g s f t thr s' :
  inv g s → g !! f = Some (Running t) → state_of s f = EXEC →
  schedule (mkFT (Some f) None thr) s = Ok tt s' → inv (<[f := RunningQ t]> g) s'.
Proof.
  intros Hinv Hf Hst E.
  destruct (schedule_run (mkFT (Some f) None thr) s) as (s1 & E1 & Eq & Ef & Ew & Ea & Ei); [done|].
  rewrite E in E1. injection E1 as <-.
  assert (queue_ok (<[f := RunningQ t]> g) (m_fibers s')) as Hq.
  { rewrite Eq. apply queue_push; [apply Hinv| |done]. by eapply queue_not_in; [apply Hinv|exact Hf|]. }
  destruct Hinv as [H1 H2 H3 H4 H5 H6]. split; rewrite ?Ea, ?Ei, ?Ew; try done.
  - intros h y. rewrite <- (st_set_same s s' f h Ef). destruct (decide (h = f)) as [->|Hne].
    + rewrite lookup_insert_eq, st_set_eq. by intros [= <-].
    + rewrite lookup_insert_ne, st_set_ne by done. apply H2.
  - intros t' w Hw. specialize (H3 t' w Hw).
    apply (claims_ext _ (st_set (state_of s) f (state_of s f))).
    { intros h. by apply st_set_same. }
    destruct (decide (t' = t)) as [->|Hne].
    2: { apply claims_frame; [done|]. intros y Hy. simplify_eq. simpl. congruence. }
    destruct H3 as [C1 C2 C3 C4].
    assert (∀ h, run_by g t h → run_by (<[f := RunningQ t]> g) t h) as Hrun.
    { intros h Hh. unfold run_by. destruct (decide (h = f)) as [->|]; [right; apply lookup_insert_eq|].
      by rewrite lookup_insert_ne. }
    assert (∀ h y, g !! h = Some y → y ≠ Running t → <[f := RunningQ t]> g !! h = Some y) as Hoth.
    { intros h y Hh Hy. rewrite lookup_insert_ne; [done|]. congruence. }
    assert (∀ h, st_set (state_of s) f (state_of s f) h = state_of s h) as Es.
    { intros h. unfold st_set. by destruct (decide (h = f)) as [->|]. }
    split.
    + unfold pc_ok in *. destruct (w_pc w) as [|ft []|h|h|h|h|h|h| | |]; rewrite ?Es; naive_solver.
    + intros c Hc Hu. by apply Hoth; [apply C2|].
    + by apply Hoth.
    + rewrite Es. done.
Qed.

Lemma fresh_inv g s f x :
  inv g s → g !! f = None → st_ok x INIT → inv (<[f := x]> g) (set_fib f INIT s).
Proof.
  intros IH Hf Hx. eapply (inv_env g s _ f x INIT); try done.
  - congruence.
  - intros h. symmetry. by apply state_of_insert.
  - apply queue_upd; [apply IH|]. intros Hin.
    destruct (queue_status _ _ _ (inv_queue _ _ IH) Hin) as (y & Hy & _). congruence.
Qed.

Lemma cb_inv g s c thr s' : inv g s → schedule (mkFT None (Some c) thr) s = Ok tt s' → inv g s'.
Proof.
  intros [H1 H2 H3 H4 H5 H6] E.
  destruct (schedule_run (mkFT None (Some c) thr) s) as (s1 & E1 & Eq & Ef & Ew & Ea & Ei); [done|].
  rewrite E in E1. injection E1 as <-.
  assert (∀ h, state_of s h = state_of s' h) as Es by (intros h; unfold state_of; by rewrite Ef).
  split; rewrite ?Ea, ?Ei, ?Ew; try done.
  - rewrite Eq. by apply queue_push_cb.
  - intros h x. rewrite <- Es. apply H2.
  - intros t w Hw. eapply claims_ext; [exact Es|]. by apply H3.
Qed.

Lemma spawn_inv g s t idle :
  inv g s → workers s !! t = None → g !! idle = None →
  zlen (map_to_list (workers s)) + 1 < 2 ^ 64 →
  inv (<[idle := IdleOf t]> g) (spawn t idle s).
Proof.
  intros Hinv Ht Hi Hb.
  assert (inv (<[idle := IdleOf t]> g) (set_fib idle INIT s)) as [H1 H2 H3 H4 H5 H6].
  { by apply fresh_inv. }
  split; cbn [m_fibers workers spawn set_worker set_fib m_activeThreadCount m_idleThreadCount] in *.
  - done.
  - done.
  - intros t' w [[<- <-]|[Hne Hw]]%lookup_insert_Some; [|by apply H3].
    split; cbn; [done|done|apply lookup_insert_eq|].
    by rewrite (state_of_insert s _ idle INIT), st_set_eq.
  - rewrite cnt_insert by done. rewrite H4. done.
  - rewrite cnt_insert by done. rewrite H5. done.
  - unfold zlen. rewrite map_to_list_insert by done. unfold zlen in Hb. cbn [length]. lia.
Qed.

Lemma reach_inv g s : reach g s → inv g s.
Proof.
  induction 1 as [s (Eq & Ea & Ei & Ew)|g s t idle Hr IH Ht Hi Hb|g s f Hr IH Hf
    |g s f thr s' Hr IH Hf E|g s f t thr s' Hr IH Hf Hst E|g s c thr s' Hr IH E|g s b1 b2 Hr IH
    |g s t e fresh s' Hr IH [w Hw] Hl E].
  - split; rewrite ?Eq, ?Ea, ?Ei, ?Ew; try done. by split; constructor.
  - by apply spawn_inv.
  - by apply fresh_inv.
  - by eapply schedule_inv.
  - by eapply wake_inv.
  - by eapply cb_inv.
  - by destruct IH; split.
  - destruct (run_step_inv g s t w IH Hw e fresh Hl) as (s1 & E1 & Hinv).
    rewrite E in E1. by injection E1 as <-.
Qed.

(** [m_activeThreadCount] and [m_idleThreadCount] count the workers between
    taking a task and the decrement after its slice, and those in the idle
    fiber; so [stopping()] is true only when the queue is empty and no worker
    is there. *)
Lemma counters_exact g s :
  reach g s →
  m_activeThreadCount s = cnt active_pc (workers s) ∧
  m_idleThreadCount s = cnt idle_in_use (workers s) ∧
  (stopping s = true → m_fibers s = [] ∧
     ∀ t w, workers s !! t = Some w → active_pc (w_pc w) = false).
Proof.
  intros Hr. pose proof (reach_inv g s Hr) as Hinv.
  split_and!; [apply Hinv|apply Hinv|]. unfold stopping.
  intros [[_ Hq]%andb_true_iff Ha]%andb_true_iff. split; [by destruct (m_fibers s)|].
  intros t w Hw. destruct (active_pc (w_pc w)) eqn:E; [|done].
  pose proof (cnt_pos _ _ _ _ Hw E). rewrite (inv_active _ _ Hinv) in Ha. lia.
Qed.

(** The fiber a worker is executing. *)
Definition executes (p : pc) : option Z :=
  match p with InFiber f | InCb f => Some f | _ => None end.

(** C17: in every interleaving of the workers of a scheduler with clients that queue a fiber
    at most once at a time and queue a running fiber only if it then yields with
    YieldToHold, every step of the loop of run returns, with no assertion on fiber states
    failing, and leaves m_activeThreadCount equal to the number of workers between taking a
    task and the decrement after its slice and m_idleThreadCount equal to the number of
    workers in their idle fiber; so when stopping() is true the queue is empty and no worker
    is between taking a task and that decrement. *)
Theorem scheduler_never_aborts g s t w e fresh :
  reach g s → workers s !! t = Some w → step_legal t e fresh s g →
  ∃ s', run_step t e fresh s = Ok tt s' ∧ reach (ghost_step t fresh s g) s' ∧
    m_activeThreadCount s' = cnt active_pc (workers s') ∧
    m_idleThreadCount s' = cnt idle_in_use (workers s') ∧
    (stopping s' = true → m_fibers s' = [] ∧ ∀ t w, workers s' !! t = Some w → active_pc (w_pc w) = false).
Proof.
  intros Hr Hw Hl. pose proof (reach_inv g s Hr) as Hinv.
  destruct (run_step_inv g s t w Hinv Hw e fresh Hl) as (s' & E & _). exists s'.
  assert (reach (ghost_step t fresh s g) s') as Hr' by (eapply reach_step; eauto).
  split; [done|]. split; [done|]. by eapply counters_exact.
Qed.

(** C18: in every interleaving of the workers with clients that queue a fiber only while it
    is in no queue, and a running fiber only if it then yields with YieldToHold, no fiber is
    executed by two workers at the same time, and the fiber a worker executes is in the
    state EXEC. Without that discipline it fails: a fiber queued twice is picked by two
    workers. *)
Theorem fiber_runs_once g s t1 t2 w1 w2 f :
  reach g s → workers s !! t1 = Some w1 → workers s !! t2 = Some w2 →
  executes (w_pc w1) = Some f → executes (w_pc w2) = Some f →
  t1 = t2 ∧ state_of s f = EXEC.
Proof.
  intros Hr Hw1 Hw2 E1 E2. pose proof (reach_inv g s Hr) as Hinv.
  assert (∀ t w, workers s !! t = Some w → executes (w_pc w) = Some f →
    run_by g t f ∧ state_of s f = EXEC) as Hx.
  { intros t w Hw E. pose proof (cl_pc _ _ _ _ (inv_workers _ _ Hinv t w Hw)) as Hp.
    unfold pc_ok in Hp. destruct (w_pc w); simplify_eq/=; tauto. }
  destruct (Hx t1 w1 Hw1 E1) as [H1 Hs], (Hx t2 w2 Hw2 E2) as [H2 _]. split; [|done].
  destruct H1, H2; congruence.
Qed.

(** A worker takes the first queued task that is not pinned to another thread and whose
    fiber is not executing, leaves the other tasks in order, and tickles when it skipped a
    task pinned to another thread; if there is none it goes idle. *)
Theorem pick_is_fifo g s t w :
  reach g s → workers s !! t = Some w → w_pc w = PickTask →
  ∃ s' w', run_pick t s = Ok tt s' ∧ workers s' !! t = Some w' ∧
    ((∃ l1 ft l2, m_fibers s = l1 ++ ft :: l2 ∧ m_fibers s' = l1 ++ l2 ∧
        w_pc w' = Dispatch ft true ∧ eligible t (state_of s) ft = true ∧
        Forall (λ x, eligible t (state_of s) x = false) l1 ∧
        (existsb (pinned_elsewhere t) l1 = true → tickled s' = S (tickled s))) ∨
     (w_pc w' = Dispatch ft_reset false ∧ m_fibers s' = m_fibers s ∧
        Forall (λ x, eligible t (state_of s) x = false) (m_fibers s))).
Proof.
  intros Hr Hw Hpc. pose proof (inv_queue _ _ (reach_inv g s Hr)) as [Hq _].
  unfold run_pick. mget.
  destruct (scan_spec t (state_of s) (m_fibers s)) as [(l1 & ft & l2 & El & H1 & H2 & Es)|(H1 & Es)].
  { eapply list.Forall_impl; [exact Hq|apply entry_has_work]. }
  - rewrite Es, !bind_modify. destruct (existsb (pinned_elsewhere t) l1) eqn:Ee; mrun;
      rewrite (goto_run t _ _ w) by done; eexists _, _; (split; [done|]);
      (split; [cbn; apply lookup_insert_eq|]); left; exists l1, ft, l2; split_and!; done || congruence.
  - rewrite Es. destruct (existsb (pinned_elsewhere t) (m_fibers s)); mrun;
      rewrite (goto_run t _ _ w) by done; eexists _, _; (split; [done|]);
      (split; [cbn; apply lookup_insert_eq|]); right; by split_and!.
Qed.

(** ** A concrete run: two workers, one fiber pinned to the second *)

Definition sched0 : Scheduler :=
  match new_Scheduler 2 false 100 0 false with Ok _ s => s | _ => blank end.

Definition sched1 : Scheduler := spawn 2 22 (spawn 1 21 sched0).
Definition ghost1 : ghost := <[22 := IdleOf 2]> (<[21 := IdleOf 1]> ∅).

(** [start] spawns the two threads in this order. *)
Example start_spawns :
  match start [(1, 21); (2, 22)] sched0 with
  | Ok _ s => workers s = workers sched1 ∧ fib s = fib sched1 ∧ m_threads s = [1; 2]
  | _ => False
  end.
Proof. split; [reflexivity|]. split; reflexivity. Qed.

Lemma sched1_reach : reach ghost1 sched1.
Proof.
  apply (reach_spawn (<[21 := IdleOf 1]> ∅) (spawn 1 21 sched0)); [|reflexivity|reflexivity|reflexivity].
  apply (reach_spawn ∅ sched0); [|reflexivity|reflexivity|reflexivity].
  apply reach_init. by repeat split.
Qed.

Definition sched2 : Scheduler :=
  match schedule (mkFT (Some 30) None 2) (set_fib 30 INIT sched1) with Ok _ s => s | _ => blank end.
Definition ghost2 : ghost := <[30 := Queued]> (<[30 := Parked]> ghost1).

Lemma sched2_reach : reach ghost2 sched2.
Proof.
  apply (reach_schedule _ (set_fib 30 INIT sched1) 30 2); [|done|done].
  apply reach_new; [apply sched1_reach|done].
Qed.

(** Worker 1 leaves the pinned fiber, worker 2 takes it. *)
Lemma pick_is_fifo_witness :
  ∃ s' w', run_pick 2 sched2 = Ok tt s' ∧ workers s' !! 2 = Some w' ∧
    w_pc w' = Dispatch (mkFT (Some 30) None 2) true ∧ m_fibers s' = [].
Proof.
  destruct (pick_is_fifo ghost2 sched2 2 (mkWorker PickTask None 22) sched2_reach eq_refl eq_refl)
    as (s' & w' & E & Hw & [(l1 & ft & l2 & El & Eq & Hpc & _)|(Hpc & Eq & Hall)]).
  - exists s', w'. split; [exact E|]. split; [exact Hw|].
    assert (l1 = [] ∧ ft = mkFT (Some 30) None 2 ∧ l2 = []) as (-> & -> & ->).
    { change (m_fibers sched2) with [mkFT (Some 30) None 2] in El.
      destruct l1 as [|? l1]; [injection El as <- <-; repeat split|].
      destruct l1; discriminate El. }
    split; [exact Hpc|exact Eq].
  - exfalso. inversion Hall as [|? ? Hx]. vm_compute in Hx. discriminate Hx.
Defined.

Definition sched3 : Scheduler :=
  match (run_step 2 ToHold 99;; run_step 2 ToHold 99) sched2 with Ok _ s => s | _ => blank end.

Lemma step_legal_outside t e s g w :
  workers s !! t = Some w → executes (w_pc w) = None → g !! 99 = None → step_legal t e 99 s g.
Proof.
  intros Hw He Hg. split; [done|]. intros w' f Hw' Hpc. simplify_eq.
  destruct Hpc as [E|E]; rewrite E in He; discriminate He.
Qed.

Lemma scheduler_never_aborts_witness :
  ∃ s', run_step 1 ToHold 99 sched2 = Ok tt s' ∧ m_activeThreadCount s' = cnt active_pc (workers s').
Proof.
  edestruct (scheduler_never_aborts ghost2 sched2 1 (mkWorker PickTask None 21) ToHold 99 sched2_reach eq_refl)
    as (s' & E & _ & Ha & _).
  - apply (step_legal_outside 1 ToHold sched2 ghost2 (mkWorker PickTask None 21)); reflexivity.
  - exists s'. split; [exact E|exact Ha].
Defined.

Lemma sched3_reach : ∃ g, reach g sched3.
Proof.
  eexists. eapply (reach_step _ _ 2 ToHold 99).
  - eapply (reach_step _ _ 2 ToHold 99); [apply sched2_reach|eauto| |reflexivity].
    by apply (step_legal_outside 2 ToHold sched2 ghost2 (mkWorker PickTask None 22)).
  - eauto.
  - by apply (step_legal_outside 2 ToHold _ _ (mkWorker (Dispatch (mkFT (Some 30) None 2) true) None 22)).
  - reflexivity.
Qed.

Lemma fiber_runs_once_witness :
  workers sched3 !! 2 = Some (mkWorker (InFiber 30) None 22) ∧ state_of sched3 30 = EXEC ∧
  ∀ t w, workers sched3 !! t = Some w → executes (w_pc w) = Some 30 → t = 2.
Proof.
  split; [reflexivity|]. split; [reflexivity|]. intros t w Hw He.
  destruct sched3_reach as [g Hr].
  exact (proj1 (fiber_runs_once g sched3 t 2 w (mkWorker (InFiber 30) None 22) 30 Hr Hw eq_refl He eq_refl)).
Defined.

Lemma counters_exact_witness :
  m_activeThreadCount sched3 = 1 ∧ cnt active_pc (workers sched3) = 1 ∧ stopping sched3 = false.
Proof.
  destruct sched3_reach as [g Hr]. destruct (counters_exact g sched3 Hr) as (H1 & _ & _).
  split; [reflexivity|]. split; [rewrite <- H1; reflexivity|reflexivity].
Defined.

(** A fiber put in the queue twice can be picked by two workers; the second
    one finds it running and the process stops. *)
Example scheduled_twice_aborts :
  let s := match (schedule (mkFT (Some 30) None (-1));; schedule (mkFT (Some 30) None (-1));;
                  run_step 1 ToHold 98;; run_step 2 ToHold 99;; run_step 1 ToHold 98)
                 (set_fib 30 INIT sched1) with Ok _ s => s | _ => blank end in
  run_step 2 ToHold 99 s = Abort "m_state != EXEC".
Proof. reflexivity. Qed.

(** A fiber pinned to a thread that yields ready is queued again without its pin. *)
Example yield_drops_pin :
  let s := match (run_step 2 ToReady 99;; run_step 2 ToReady 99;; run_step 2 ToReady 99;;
                  run_step 2 ToReady 99;; run_step 2 ToReady 99) sched2 with Ok _ s => s | _ => blank end in
  m_fibers s = [mkFT (Some 30) None (-1)].
Proof. reflexivity. Qed.
