(* ===== verification/Shutdown.v ===== *)
(** * Shutting a scheduler down (scheduler.cc)

    What [Scheduler::stop] waits for: the workers of Scheduler.v drain the
    queue, leave the loop of [run] and are joined.  A run of a scheduler that
    is being stopped is the relation [served]; clients queue work before
    [stop] or from a running fiber, for any thread. *)

From S2P Require Import Prelude.
From S2P Require Import Fiber.
From S2P Require Import Scheduler.

(** ** What a step of a worker leaves alone *)

(** The fiber a worker has in hand. *)
Definition pc_fiber (p : pc) : option Z :=
  match p with
  | Dispatch ft _ => ft_fiber ft
  | InFiber f | AfterFiber f | FiberDone f | InCb f | AfterCb f | CbDone f => Some f
  | _ => None
  end.

Record same_others (t : Z) (w : worker) (fresh : Z) (s s' : Scheduler) : Prop := {
  so_workers : ∃ w', workers s' = <[t := w']> (workers s) ∧ idle_fiber w' = idle_fiber w;
  so_stopping : m_stopping s' = m_stopping s;
  so_conf : m_autoStop s' = m_autoStop s ∧ m_threadCount s' = m_threadCount s ∧
            m_rootThread s' = m_rootThread s ∧ m_rootFiber s' = m_rootFiber s ∧ m_threads s' = m_threads s;
  so_fib : ∀ h, h ≠ fresh → h ≠ idle_fiber w → cb_fiber w ≠ Some h → pc_fiber (w_pc w) ≠ Some h →
             state_of s' h = state_of s h
}.

(** Runs a step of the worker: [Hw] is where it is. *)
Ltac step_cases Hw :=
  unfold run_step, run_pick, run_dispatch, run_no_task, prepare_cb, swap_in, dec_active, run_fiber_done,
    run_cb_done, idle_turn, run_idle_done, schedule, scheduleNoLock, goto, at_worker; mrun; rewrite Hw;
  repeat (first
    [ progress cbv beta iota
    | progress cbn [workers set_worker set_queue set_active_count set_idle_count set_fib tickle w_pc
        cb_fiber idle_fiber]
    | rewrite Hw | rewrite lookup_insert_eq
    | match goal with
      | |- context [match ?x with _ => _ end] =>
          lazymatch x with context [match _ with _ => _ end] => fail | _ => destruct x eqn:? end;
          try discriminate
      end ]).

Lemma run_step_frame t e fresh s s' w :
  workers s !! t = Some w → run_step t e fresh s = Ok tt s' → same_others t w fresh s s'.
Proof.
  intros Hw. step_cases Hw; intros [= <-].
  all: split; cbn; [|done..|].
  all: try (eexists; split; [rewrite ?insert_insert_eq; reflexivity|done]).
  all: try (exists w; by rewrite insert_id).
  all: destruct w; simplify_eq/=; unfold state_of; cbn; intros; rewrite ?lookup_insert_ne; congruence.
Qed.

(** ** The invariant of a scheduler that serves its queue *)

Definition turn_of (p : pc) : option Z :=
  match p with
  | InFiber f | AfterFiber f | FiberDone f | InCb f | AfterCb f | CbDone f => Some f
  | _ => None
  end.

(** The worker will not look at the queue again. *)
Definition leaving (s : Scheduler) (w : worker) : bool :=
  match w_pc w with
  | Exited => true
  | Dispatch _ false => bool_decide (state_of s (idle_fiber w) = TERM)
  | _ => false
  end.

(** What a step does to the worker itself. *)
Record own_effect (g : ghost) (t fresh : Z) (w w' : worker) (s s' : Scheduler) : Prop := {
  oe_run : ∀ f, run_by (ghost_step t fresh s g) t f → turn_of (w_pc w') = Some f;
  oe_term : state_of s' (idle_fiber w) = TERM → state_of s (idle_fiber w) = TERM ∨ stopping s = true;
  oe_exit : w_pc w' = Exited → w_pc w = Exited ∨ state_of s' (idle_fiber w) = TERM;
  oe_queue : (∀ ft, ft ∈ m_fibers s' → ft ∈ m_fibers s ∨ ft_thread ft = -1);
  oe_leave : leaving s' w' = true → m_fibers s' = m_fibers s ∧
    (leaving s w = true ∨
     turn_of (w_pc w) = None ∧ Forall (λ ft, eligible t (state_of s) ft = false) (m_fibers s))
}.

(** The idle fiber is none of the fibers a worker changes in another role. *)
Lemma idle_apart g st t w :
  claims g st t w → cb_fiber w ≠ Some (idle_fiber w) ∧ pc_fiber (w_pc w) ≠ Some (idle_fiber w).
Proof.
  intros [Hp Hc Hi _]. unfold pc_ok in Hp. unfold run_by in Hp.
  assert (pc_fiber (w_pc w) ≠ Some (idle_fiber w)) as Hpc.
  { intros E. destruct (w_pc w) as [|ft []|f|f|f|f|f|f| | |]; naive_solver. }
  split; [|done]. intros E. destruct (cb_in_use (w_pc w)) eqn:Hu.
  - destruct (w_pc w); naive_solver.
  - specialize (Hc _ E eq_refl). congruence.
Qed.

Lemma run_by_ne g t f x h : h ≠ f → run_by (<[f := x]> g) t h ↔ run_by g t h.
Proof. intros. unfold run_by. by rewrite lookup_insert_ne. Qed.

Lemma elem_of_pushed x l ft :
  ft ∈ l ++ [x] → ft_thread x = -1 → ft ∈ l ∨ ft_thread ft = -1.
Proof. intros [?| ->%list_elem_of_singleton]%elem_of_app ?; auto. Qed.

(** The shapes of goal in [own_step]: the fiber in the worker's turn, and the
    state of the idle fiber. *)
Ltac own_ghost Hw Hrun :=
  lazymatch goal with |- ∀ f, run_by _ _ f → _ => idtac end;
  let f := fresh "f" in let H := fresh "H" in
  intros f; unfold ghost_step; rewrite Hw;
  repeat match goal with E : ?x = _ |- context [match ?x with _ => _ end] => rewrite E; cbv iota end;
  repeat case_match; simplify_eq/=; intros H;
  try match type of H with
  | run_by (<[?h := ?x]> _) _ _ =>
      destruct (decide (f = h)) as [->|];
      [unfold run_by, settle in H; rewrite lookup_insert_eq in H|rewrite run_by_ne in H by done]
  end;
  first [apply Hrun in H; try match goal with E : w_pc _ = _ |- _ => rewrite E in H end; simplify_eq/=; congruence
        |destruct H as [H|H]; repeat case_match; congruence
        |match goal with E : cb_fiber _ = _ |- _ => by rewrite E end].

Ltac own_state :=
  unfold state_of; cbn;
  first [rewrite !lookup_insert_ne by congruence; by left | rewrite lookup_insert_eq; by auto].

Section own.
Context (g : ghost) (s : Scheduler) (t : Z) (w : worker).
Hypotheses (Hinv : inv g s) (Hw : workers s !! t = Some w).
Hypothesis Hrun : ∀ f, run_by g t f → turn_of (w_pc w) = Some f.

Lemma pick_own fresh s' w' :
  w_pc w = PickTask → run_pick t s = Ok tt s' → workers s' !! t = Some w' →
  own_effect g t fresh w w' s s'.
Proof.
  intros Hpc. unfold run_pick. mget. pose proof (inv_queue _ _ Hinv) as [Hq _].
  assert (∀ f, ¬ run_by g t f) as Hno by (intros f Hf; apply Hrun in Hf; by rewrite Hpc in Hf).
  destruct (scan_spec t (state_of s) (m_fibers s)) as [(l1 & ft & l2 & El & H1 & H2 & Es)|(H1 & Es)].
  { eapply list.Forall_impl; [exact Hq|apply entry_has_work]. }
  - rewrite Es, !bind_modify. destruct (existsb _ l1); mrun; rewrite (goto_run t _ _ w) by done;
      intros [= <-]; cbn; rewrite lookup_insert_eq; intros [= <-]; split; cbn; auto; try done.
    all: try (own_ghost Hw Hrun).
    all: intros x Hx; left; rewrite El; set_solver.
  - rewrite Es. destruct (existsb _ (m_fibers s)); mrun; rewrite (goto_run t _ _ w) by done;
      intros [= <-]; cbn; rewrite lookup_insert_eq; intros [= <-]; split; cbn; auto; try done.
    all: try (own_ghost Hw Hrun).
    all: rewrite Hpc; by auto.
Qed.

Lemma own_step e fresh s' w' :
  g !! fresh = None → run_step t e fresh s = Ok tt s' → workers s' !! t = Some w' →
  own_effect g t fresh w w' s s'.
Proof.
  intros Hfr. pose proof (inv_workers _ _ Hinv t w Hw) as Hcl.
  destruct (idle_apart _ _ _ _ Hcl) as [Hc Hp].
  assert (idle_fiber w ≠ fresh) as Hif by (pose proof (cl_idle _ _ _ _ Hcl); congruence).
  assert (w_pc w = PickTask ∨ w_pc w ≠ PickTask) as [Hpc|Hpc] by (destruct (w_pc w); auto).
  { unfold run_step, at_worker. rewrite (bind_ok _ _ s w s) by (mrun; by rewrite Hw). rewrite Hpc.
    by apply pick_own. }
  step_cases Hw; try done; intros [= <-]; cbn [workers set_worker set_queue set_active_count set_idle_count set_fib tickle];
    rewrite ?lookup_insert_eq, ?Hw; intros [= <-].
  all: split; cbn; try (intros [=]; fail); try (by intros; left); try (intros; auto; fail).
  all: try (own_ghost Hw Hrun).
  all: try (by intros _; right; eapply bool_decide_eq_true).
  all: try (by intros _; split; [|left; unfold leaving; rewrite Heqp]).
  all: cbn in Hp; rewrite ?Heqo in Hp; try own_state.
  all: match goal with E : m_fibers s = ?l |- _ => rewrite E; intros ft Hft; by apply (elem_of_pushed _ l) in Hft end.
Qed.
End own.

Record serves (g : ghost) (s : Scheduler) : Prop := {
  sv_inv : inv g s;
  sv_pin : ∀ ft, ft ∈ m_fibers s → ft_thread ft = -1;
  sv_run : ∀ t f, run_by g t f → ∃ w, workers s !! t = Some w ∧ turn_of (w_pc w) = Some f;
  sv_term : m_stopping s = false → ∀ t w, workers s !! t = Some w → state_of s (idle_fiber w) ≠ TERM;
  sv_exit : ∀ t w, workers s !! t = Some w → w_pc w = Exited → state_of s (idle_fiber w) = TERM;
  sv_serve : m_fibers s ≠ [] → workers s ≠ ∅ → ∃ t w, workers s !! t = Some w ∧ leaving s w = false
}.

Lemma leaving_term g s t w :
  serves g s → workers s !! t = Some w → leaving s w = true → state_of s (idle_fiber w) = TERM.
Proof.
  intros H Hw. unfold leaving. destruct (w_pc w) as [|ft []| | | | | | | | |] eqn:E; try done.
  - by intros ?%bool_decide_eq_true.
  - intros _. by eapply sv_exit.
Qed.

(** A fiber of another worker is untouched by a step. *)
Lemma other_fiber g s s' t w e fresh h y t' :
  inv g s → workers s !! t = Some w → g !! fresh = None → run_step t e fresh s = Ok tt s' →
  g !! h = Some y → owner y = Some t' → t ≠ t' → state_of s' h = state_of s h.
Proof.
  intros Hinv Hw Hfr E Hh Ho Hne. destruct (run_step_frame _ _ _ _ _ _ Hw E) as [_ _ _ Hf].
  pose proof (inv_workers _ _ Hinv _ _ Hw) as Hcl. apply Hf.
  - congruence.
  - intros ->. rewrite (cl_idle _ _ _ _ Hcl) in Hh. by simplify_eq/=.
  - intros Hc. destruct Hcl as [Hp Hcb _ _]. specialize (Hcb _ Hc).
    destruct (cb_in_use (w_pc w)) eqn:Hu; [|specialize (Hcb eq_refl); simplify_eq/=; congruence].
    unfold pc_ok, run_by in Hp. destruct (w_pc w); naive_solver.
  - intros Hc. pose proof (cl_pc _ _ _ _ Hcl) as Hp. unfold pc_ok, run_by in Hp.
    destruct (w_pc w) as [|ft []|f|f|f|f|f|f| | |]; naive_solver.
Qed.

Lemma other_idle g s s' t w e fresh t' w' :
  inv g s → workers s !! t = Some w → workers s !! t' = Some w' → t ≠ t' → g !! fresh = None →
  run_step t e fresh s = Ok tt s' →
  workers s' !! t' = Some w' ∧ state_of s' (idle_fiber w') = state_of s (idle_fiber w').
Proof.
  intros Hinv Hw Hw' Hne Hfr E. destruct (run_step_frame _ _ _ _ _ _ Hw E) as [(w1 & E1 & _) _ _ _].
  split; [by rewrite E1, lookup_insert_ne|]. eapply (other_fiber g s s' t w e fresh); eauto.
  - by apply (cl_idle _ _ _ _ (inv_workers _ _ Hinv _ _ Hw')).
  - done.
Qed.

Lemma other_leaving g s s' t w e fresh t' w' :
  inv g s → workers s !! t = Some w → workers s !! t' = Some w' → t ≠ t' → g !! fresh = None →
  run_step t e fresh s = Ok tt s' → leaving s' w' = leaving s w'.
Proof.
  intros Hinv Hw Hw' Hne Hfr E. unfold leaving.
  destruct (other_idle g s s' t w e fresh t' w') as [_ ->]; auto.
Qed.

(** A queued fiber nobody can take is being run by another worker. *)
Lemma blocked_is_running g s t ft :
  serves g s → ft ∈ m_fibers s → eligible t (state_of s) ft = false →
  ∃ t' w' f, workers s !! t' = Some w' ∧ turn_of (w_pc w') = Some f.
Proof.
  intros H Hft He. pose proof (sv_pin _ _ H ft Hft) as Hp.
  unfold eligible, pinned_elsewhere in He. rewrite Hp in He. simpl in He. apply negb_false_iff in He.
  unfold executing in He. destruct (inv_queue _ _ (sv_inv _ _ H)) as [Hq _].
  rewrite list.Forall_forall in Hq. destruct (Hq ft Hft) as [(f & Ef & _ & Hf)|[Ef _]]; rewrite Ef in He; [|done].
  apply bool_decide_eq_true in He. destruct Hf as [Hf|[t' Hf]].
  - by apply (inv_st _ _ (sv_inv _ _ H)) in Hf.
  - destruct (sv_run _ _ H t' f) as (w' & Hw' & Ht); [by right|]. eauto.
Qed.

Lemma turn_not_leaving s w f : turn_of (w_pc w) = Some f → leaving s w = false.
Proof. unfold leaving. by destruct (w_pc w). Qed.

Lemma ghost_other t fresh s g t' f :
  t' ≠ t → run_by (ghost_step t fresh s g) t' f → run_by g t' f.
Proof.
  intros Hne. assert (∀ h x, (x = Parked ∨ x = Queued ∨ owner x = Some t) →
    run_by (<[h := x]> g) t' f → run_by g t' f) as Hins.
  { intros h x Hx. destruct (decide (f = h)) as [->|]; [|by rewrite run_by_ne].
    unfold run_by. rewrite lookup_insert_eq. naive_solver. }
  assert (∀ h, settle g h = Parked ∨ settle g h = Queued) as Hs
    by (intros h; unfold settle; repeat case_match; auto).
  unfold ghost_step. repeat case_match; try done; apply Hins; simpl; auto;
    destruct (Hs f0) as [-> | ->]; auto.
Qed.

(** A worker that stays behind for the queue when another one leaves. *)
Lemma server_left g s t w : serves g s → workers s !! t = Some w → m_fibers s ≠ [] →
  leaving s w = true ∨ turn_of (w_pc w) = None ∧ Forall (λ ft, eligible t (state_of s) ft = false) (m_fibers s) →
  ∃ t2 w2, workers s !! t2 = Some w2 ∧ leaving s w2 = false ∧ t ≠ t2.
Proof.
  intros H Hw Hq [Hlv|[Htn Hall]].
  - destruct (sv_serve _ _ H Hq) as (t2 & w2 & Hw2 & Hl2); [by intros Hx; rewrite Hx in Hw|].
    exists t2, w2. split_and!; [done..|]. intros <-. congruence.
  - destruct (m_fibers s) as [|ft q] eqn:Ef; [done|]. apply list.Forall_cons in Hall as [Hft _].
    destruct (blocked_is_running g s t ft H) as (t2 & w2 & f & Hw2 & Ht2); [rewrite Ef; left|done|].
    exists t2, w2. split_and!; [done|by eapply turn_not_leaving|]. intros <-. congruence.
Qed.

Lemma serves_step g s t w e fresh s' :
  serves g s → workers s !! t = Some w → step_legal t e fresh s g →
  run_step t e fresh s = Ok tt s' → serves (ghost_step t fresh s g) s'.
Proof.
  intros H Hw Hl E. pose proof (sv_inv _ _ H) as Hinv. pose proof Hl as [Hfr _].
  destruct (run_step_inv g s t w Hinv Hw e fresh Hl) as (s1 & E1 & Hinv'). rewrite E in E1.
  injection E1 as <-. destruct (run_step_frame _ _ _ _ _ _ Hw E) as [(w1 & Ew & Ei) Es _ _].
  assert (workers s' !! t = Some w1) as Hw1 by (rewrite Ew; apply lookup_insert_eq).
  assert (∀ f, run_by g t f → turn_of (w_pc w) = Some f) as Hrun.
  { intros f (u & Hu & Ht)%(sv_run _ _ H). congruence. }
  destruct (own_step g s t w Hinv Hw Hrun e fresh s' w1 Hfr E Hw1) as [O1 O2 O3 O4 O5].
  assert (∀ t' u, t ≠ t' → workers s' !! t' = Some u → workers s !! t' = Some u) as Hback.
  { intros t' u Hne. by rewrite Ew, lookup_insert_ne. }
  split.
  - done.
  - intros ft [Hft|Hft]%O4; [by apply (sv_pin _ _ H)|done].
  - intros t' f Hf. destruct (decide (t' = t)) as [->|Hne]; [eauto|].
    apply ghost_other in Hf; [|done]. destruct (sv_run _ _ H t' f Hf) as (u & Hu & Ht).
    exists u. by rewrite Ew, lookup_insert_ne.
  - rewrite Es. intros Hst t' u Hu. destruct (decide (t = t')) as [<-|Hne].
    + assert (u = w1) as -> by congruence. rewrite Ei. intros [Ht|Ht]%O2.
      * by eapply (sv_term _ _ H Hst).
      * unfold stopping in Ht. rewrite Hst in Ht. by rewrite andb_false_r in Ht.
    + pose proof (Hback _ _ Hne Hu) as Hu'.
      destruct (other_idle g s s' t w e fresh t' u) as [_ ->]; try done. by eapply (sv_term _ _ H Hst).
  - intros t' u Hu Hx. destruct (decide (t = t')) as [<-|Hne].
    + assert (u = w1) as -> by congruence. rewrite Ei. destruct (O3 Hx) as [Hx'|]; [|done].
      pose proof (sv_exit _ _ H t w Hw Hx') as Ht.
      unfold run_step, at_worker in E. rewrite (bind_ok _ _ s w s) in E by (mrun; by rewrite Hw).
      rewrite Hx' in E. by injection E as <-.
    + pose proof (Hback _ _ Hne Hu) as Hu'.
      destruct (other_idle g s s' t w e fresh t' u) as [_ ->]; try done. by eapply sv_exit.
  - intros Hq _. destruct (leaving s' w1) eqn:El; [|eauto]. destruct (O5 eq_refl) as [Eq Hcase].
    rewrite Eq in Hq. destruct (server_left g s t w H Hw Hq Hcase) as (t2 & w2 & Hw2 & Hl2 & Hne).
    exists t2, w2. split; [by rewrite Ew, lookup_insert_ne|].
    by rewrite (other_leaving g s s' t w e fresh t2 w2).
Qed.

(** ** Runs in which the scheduler is stopped *)

(** The thread of the worker is in code of a fiber: user code, or the idle
    loop of a derived class. *)
Definition inside (p : pc) : bool :=
  match p with InFiber _ | InCb _ | InIdle => true | _ => false end.

(** Who may queue work: anyone while no worker runs or before [stop], later
    only code that runs in a fiber of the scheduler. *)
Definition may_queue (s : Scheduler) : Prop :=
  workers s = ∅ ∨ m_stopping s = false ∨
  ∃ t w, workers s !! t = Some w ∧ inside (w_pc w) = true.

(** The thread function of [t] returned: the worker is gone. *)
Definition leave_run (t : Z) (s : Scheduler) : Scheduler :=
  mkSched (m_fibers s) (m_activeThreadCount s) (m_idleThreadCount s) (m_stopping s) (m_autoStop s)
    (m_threadCount s) (m_rootThread s) (m_rootFiber s) (m_threads s) (fib s) (delete t (workers s)) (tickled s).

(** A step inside the scheduler, of a client or of a worker; the root fiber is
    no client's. *)
Inductive inner : ghost → Scheduler → ghost → Scheduler → Prop :=
| inner_new g s f :
    g !! f = None → m_rootFiber s ≠ Some f → inner g s (<[f := Parked]> g) (set_fib f INIT s)
| inner_schedule g s f s' :
    may_queue s → g !! f = Some Parked → schedule (mkFT (Some f) None (-1)) s = Ok tt s' →
    inner g s (<[f := Queued]> g) s'
| inner_wake g s f t s' :
    g !! f = Some (Running t) → state_of s f = EXEC → schedule (mkFT (Some f) None (-1)) s = Ok tt s' →
    inner g s (<[f := RunningQ t]> g) s'
| inner_cb g s c s' :
    may_queue s → schedule (mkFT None (Some c) (-1)) s = Ok tt s' → inner g s g s'
| inner_step g s t e fresh s' :
    is_Some (workers s !! t) → step_legal t e fresh s g → m_rootFiber s ≠ Some fresh →
    run_step t e fresh s = Ok tt s' → inner g s (ghost_step t fresh s g) s'.

(** [start] clears [m_stopping] and makes the threads, which enter [run] one
    by one; the root fiber does so in [stop]. *)
Inductive served : ghost → Scheduler → Prop :=
| served_init s : not_started s → served ∅ s
| served_start g s : served g s → workers s = ∅ → served g (set_flags false (m_autoStop s) s)
| served_spawn g s t idle :
    served g s → workers s !! t = None → g !! idle = None →
    zlen (map_to_list (workers s)) + 1 < 2 ^ 64 →
    served (<[idle := IdleOf t]> g) (spawn t idle s)
| served_inner g s g' s' : served g s → inner g s g' s' → served g' s'
| served_stop g s virt mine r s' : served g s → stop virt mine s = Ok r s' → served g s'
| served_leave g s t w :
    served g s → workers s !! t = Some w → w_pc w = Exited → served g (leave_run t s).

(** The invariant is about these parts of the state only. *)
Lemma serves_same g s s' :
  serves g s → m_fibers s' = m_fibers s → fib s' = fib s → workers s' = workers s →
  m_activeThreadCount s' = m_activeThreadCount s → m_idleThreadCount s' = m_idleThreadCount s →
  (m_stopping s' = false → m_stopping s = false ∨ workers s = ∅) → serves g s'.
Proof.
  intros [[I1 I2 I3 I4 I5 I6] H2 H3 H4 H5 H6] Eq Ef Ew Ea Ei Es.
  assert (∀ h, state_of s h = state_of s' h) as Est by (intros h; unfold state_of; by rewrite Ef).
  assert (∀ w, leaving s' w = leaving s w) as El by (intros w; unfold leaving; by rewrite Est).
  split; [split|..]; rewrite ?Eq, ?Ew, ?Ea, ?Ei; try done.
  - intros f x. rewrite <- Est. apply I2.
  - intros t w Hw. eapply claims_ext; [exact Est|]. by apply I3.
  - intros Hs t w Hw. rewrite <- Est. destruct (Es Hs) as [Hs'|Hs']; [by eapply H4|].
    by rewrite Hs' in Hw.
  - intros t w Hw Hx. rewrite <- Est. by eapply H5.
  - intros Hq Hn. destruct (H6 Hq Hn) as (t & w & Hw & Hl). exists t, w. by rewrite El.
Qed.

Lemma tickles_kept n s :
  let s' := Nat.iter n tickle s in
  m_fibers s' = m_fibers s ∧ fib s' = fib s ∧ workers s' = workers s ∧
  m_activeThreadCount s' = m_activeThreadCount s ∧ m_idleThreadCount s' = m_idleThreadCount s ∧
  m_stopping s' = m_stopping s ∧ m_autoStop s' = m_autoStop s.
Proof. induction n as [|n IH]; [done|exact IH]. Qed.

(** Whichever way [stop] goes on, both flags are set and nothing else that
    the workers look at has changed. *)
Lemma stop_effect virt mine s r s' :
  stop virt mine s = Ok r s' →
  m_fibers s' = m_fibers s ∧ fib s' = fib s ∧ workers s' = workers s ∧
  m_activeThreadCount s' = m_activeThreadCount s ∧ m_idleThreadCount s' = m_idleThreadCount s ∧
  m_stopping s' = true ∧ m_autoStop s' = true.
Proof.
  unfold stop. mrun. repeat (case_match; try discriminate); simplify_eq; cbn; intros; simplify_eq.
  all: first [done | exact (tickles_kept _ _) | exact (tickles_kept (S _) _)].
Qed.

Lemma schedule_effect ft s s' :
  bool_decide (is_Some (ft_fiber ft)) || bool_decide (is_Some (ft_cb ft)) = true →
  schedule ft s = Ok tt s' →
  m_fibers s' = m_fibers s ++ [ft] ∧ fib s' = fib s ∧ workers s' = workers s ∧ m_stopping s' = m_stopping s.
Proof.
  intros Hb. unfold schedule, scheduleNoLock. mrun. rewrite Hb.
  by destruct (m_fibers s); intros [= <-].
Qed.

(** Queueing an entry while somebody will look at the queue again. *)
Lemma serves_push g g' s s' ft :
  serves g s → inv g' s' → ft_thread ft = -1 →
  m_fibers s' = m_fibers s ++ [ft] ∧ fib s' = fib s ∧ workers s' = workers s ∧ m_stopping s' = m_stopping s →
  (∀ t f, run_by g' t f → run_by g t f) →
  (workers s ≠ ∅ → ∃ t w, workers s !! t = Some w ∧ leaving s w = false) → serves g' s'.
Proof.
  intros [_ H2 H3 H4 H5 _] Hinv Ht (Eq & Ef & Ew & Es) Hrun Hsv.
  assert (∀ h, state_of s' h = state_of s h) as Est by (intros h; unfold state_of; by rewrite Ef).
  assert (∀ w, leaving s' w = leaving s w) as El by (intros w; unfold leaving; by rewrite Est).
  split; rewrite ?Ew, ?Es; try done.
  - rewrite Eq. intros x [Hx|Hx]%elem_of_pushed; auto.
  - intros t f Hf. by apply H3, Hrun.
  - intros Hs t w Hw. rewrite Est. by eapply H4.
  - intros t w Hw. rewrite Est. by eapply H5.
  - intros _ Hn. destruct (Hsv Hn) as (t & w & Hw & Hl). exists t, w. by rewrite El.
Qed.

Lemma may_queue_serves g s :
  serves g s → may_queue s → workers s ≠ ∅ → ∃ t w, workers s !! t = Some w ∧ leaving s w = false.
Proof.
  intros H [Hm|[Hm|(t & w & Hw & Hin)]] Hn; [done| |].
  - destruct (map_choose _ Hn) as (t & w & Hw). exists t, w. split; [done|].
    destruct (leaving s w) eqn:El; [|done]. destruct (sv_term _ _ H Hm t w Hw).
    by eapply leaving_term.
  - exists t, w. split; [done|]. unfold leaving. by destruct (w_pc w).
Qed.

(** A change of the state of a fiber unknown so far. *)
Lemma serves_fresh g s f x :
  serves g s → g !! f = None → inv (<[f := x]> g) (set_fib f INIT s) → owner x = None ∨ (∃ t, x = IdleOf t) →
  serves (<[f := x]> g) (set_fib f INIT s).
Proof.
  intros [I H2 H3 H4 H5 H6] Hf Hinv Hx.
  assert (∀ t w, workers s !! t = Some w → state_of (set_fib f INIT s) (idle_fiber w) = state_of s (idle_fiber w))
    as Hst.
  { intros t w Hw. pose proof (cl_idle _ _ _ _ (inv_workers _ _ I t w Hw)).
    rewrite (state_of_insert s _ f INIT) by done. apply st_set_ne. congruence. }
  split; try done.
  - intros t h Hh. apply H3. destruct (decide (h = f)) as [->|]; [|by rewrite run_by_ne in Hh].
    unfold run_by in Hh. rewrite lookup_insert_eq in Hh. destruct Hx as [Hx|[t' ->]]; [|naive_solver].
    destruct Hh as [[= ->]|[= ->]]; done.
  - intros Hs t w Hw. rewrite (Hst t w Hw). by eapply H4.
  - intros t w Hw Hp. rewrite (Hst t w Hw). by eapply H5.
  - intros Hq Hn. destruct (H6 Hq Hn) as (t & w & Hw & Hl). exists t, w. split; [done|].
    unfold leaving in *. by rewrite (Hst t w Hw).
Qed.

Lemma serves_spawn g s t idle :
  serves g s → workers s !! t = None → g !! idle = None →
  zlen (map_to_list (workers s)) + 1 < 2 ^ 64 →
  serves (<[idle := IdleOf t]> g) (spawn t idle s).
Proof.
  intros H Ht Hi Hb. pose proof (spawn_inv g s t idle (sv_inv _ _ H) Ht Hi Hb) as Hinv.
  destruct (serves_fresh g s idle (IdleOf t) H Hi) as [_ H2 H3 H4 H5 H6]; [|by eauto|].
  { by apply fresh_inv; [apply H|..]. }
  set (w0 := mkWorker PickTask None idle). unfold spawn in *. fold w0 in Hinv |- *.
  set (s0 := set_fib idle INIT s) in *.
  assert (state_of s0 idle = INIT) as Hst0.
  { unfold s0. rewrite (state_of_insert s _ idle INIT) by done. apply st_set_eq. }
  split; cbn [workers set_worker m_fibers m_stopping]; try done.
  - intros t' f Hf. destruct (H3 t' f Hf) as (w & Hw & E). exists w.
    split; [|done]. rewrite lookup_insert_ne; [done|]. intros <-. cbn in Hw. congruence.
  - intros Hs t' w [[<- <-]|[_ Hw]]%lookup_insert_Some; [|by eapply H4].
    cbn. change (state_of s0 idle ≠ TERM). by rewrite Hst0.
  - intros t' w [[<- <-]|[_ Hw]]%lookup_insert_Some; [done|by eapply H5].
  - intros _ _. exists t, w0. by rewrite lookup_insert_eq.
Qed.

Lemma cnt_delete_zero P ws t w :
  ws !! t = Some w → P (w_pc w) = false → cnt P (delete t ws) = cnt P ws.
Proof. intros Hw HP. rewrite (cnt_delete P ws t w Hw), HP. simpl. lia. Qed.

Lemma serves_leave g s t w :
  serves g s → workers s !! t = Some w → w_pc w = Exited → serves g (leave_run t s).
Proof.
  intros [[I1 I2 I3 I4 I5 I6] H2 H3 H4 H5 H6] Hw Hx.
  assert (∀ t' u, delete t (workers s) !! t' = Some u → workers s !! t' = Some u) as Hdel.
  { by intros t' u [_ Hu]%lookup_delete_Some. }
  split; [split|..]; cbn [workers leave_run m_fibers m_stopping m_activeThreadCount m_idleThreadCount]; try done.
  - intros t' u Hu. by apply I3, Hdel.
  - by rewrite (cnt_delete_zero _ _ _ w) by (done || by rewrite Hx).
  - by rewrite (cnt_delete_zero _ _ _ w) by (done || by rewrite Hx).
  - unfold zlen in *. rewrite <- (insert_delete_id (workers s) t w Hw) in I6.
    rewrite map_to_list_insert in I6 by apply lookup_delete_eq. cbn [length] in I6. lia.
  - intros t' f Hf. destruct (H3 t' f Hf) as (u & Hu & E). exists u. split; [|done].
    rewrite lookup_delete_ne; [done|]. intros <-. simplify_eq. by rewrite Hx in E.
  - intros Hs t' u Hu. by eapply H4; [done|apply Hdel].
  - intros t' u Hu. by eapply H5, Hdel.
  - intros Hq Hn. destruct (H6 Hq) as (t' & u & Hu & Hl); [by intros E; rewrite E in Hw|].
    exists t', u. split; [|done]. rewrite lookup_delete_ne; [done|]. intros <-. simplify_eq.
    unfold leaving in Hl. by rewrite Hx in Hl.
Qed.

Lemma run_by_sub g f x t h :
  (∀ t', x ≠ RunningQ t' ∧ x ≠ Running t') → run_by (<[f := x]> g) t h → run_by g t h.
Proof.
  intros Hx. destruct (decide (h = f)) as [->|]; [|by rewrite run_by_ne].
  unfold run_by. rewrite lookup_insert_eq. naive_solver.
Qed.

Lemma inner_serves g s g' s' : inner g s g' s' → serves g s → serves g' s'.
Proof.
  intros [g0 s0 f Hf _|g0 s0 f s1 Hm Hf E|g0 s0 f t s1 Hf Hst E|g0 s0 c s1 Hm E
    |g0 s0 t e fresh s1 [w Hw] Hl _ E] IH.
  - apply serves_fresh; auto. by apply fresh_inv; [apply IH|..].
  - eapply (serves_push g0 _ s0 s1 (mkFT (Some f) None (-1))); try done.
    + by eapply schedule_inv; [apply IH|..].
    + by apply schedule_effect.
    + intros t h. by apply run_by_sub.
    + by eapply may_queue_serves.
  - destruct (sv_run _ _ IH t f) as (w & Hw & Ht); [by left|].
    assert (∀ t' h, run_by (<[f := RunningQ t]> g0) t' h → run_by g0 t' h) as Hsub.
    { intros t' h. destruct (decide (h = f)) as [->|]; [|by rewrite run_by_ne].
      unfold run_by. rewrite lookup_insert_eq. naive_solver. }
    eapply (serves_push g0 _ s0 s1 (mkFT (Some f) None (-1))); try done.
    + by eapply wake_inv; [apply IH|..].
    + by apply schedule_effect.
    + intros _. exists t, w. split; [done|]. by eapply turn_not_leaving.
  - eapply (serves_push g0 g0 s0 s1 (mkFT None (Some c) (-1))); try done.
    + by eapply cb_inv; [apply IH|].
    + by apply schedule_effect.
    + by eapply may_queue_serves.
  - by eapply serves_step.
Qed.

Lemma serves_init s : not_started s → serves ∅ s.
Proof.
  intros Hs. pose proof Hs as (Eq & _ & _ & Ew). split; rewrite ?Eq, ?Ew; try done.
  - by apply reach_inv, reach_init.
  - by intros ft ?%elem_of_nil.
  - intros t f [Hf|Hf]; by rewrite lookup_empty in Hf.
Qed.

Lemma serves_stop g s virt mine r s' : serves g s → stop virt mine s = Ok r s' → serves g s'.
Proof.
  intros H E. destruct (stop_effect _ _ _ _ _ E) as (E1 & E2 & E3 & E4 & E5 & E6 & _).
  eapply (serves_same g s); try done. by rewrite E6.
Qed.

Lemma serves_start g s b : serves g s → workers s = ∅ → serves g (set_flags false b s).
Proof. intros H Hw. eapply (serves_same g s); try done. by right. Qed.

Lemma served_serves g s : served g s → serves g s.
Proof.
  induction 1; eauto using serves_init, serves_start, serves_spawn, inner_serves, serves_stop, serves_leave.
Qed.

(** C19: stop loses no task: in every interleaving in which work is queued for any thread,
    before stop or from code that runs in a fiber of the scheduler, once all workers have
    left the loop of run the queue is empty and both counters are zero, although the counter
    of active threads is lowered before a fiber that yielded is queued again. *)
Theorem shutdown_drains g s :
  served g s → workers s ≠ ∅ → (∀ t w, workers s !! t = Some w → w_pc w = Exited) →
  m_fibers s = [] ∧ m_activeThreadCount s = 0 ∧ m_idleThreadCount s = 0 ∧ m_stopping s = true.
Proof.
  intros H Hn Hall. apply served_serves in H as H'. pose proof (sv_inv _ _ H') as Hinv.
  assert (∀ P, P Exited = false → cnt P (workers s) = 0) as Hcnt.
  { intros P HP. destruct (filter (λ w, P (w_pc w) = true) (snd <$> map_to_list (workers s))) as [|w l] eqn:E;
      unfold cnt; rewrite E; [done|].
    assert (w ∈ w :: l) as Hin by left. rewrite <- E in Hin.
    apply list_elem_of_filter in Hin as [Hp Hin]. apply list_elem_of_fmap in Hin as ([t u] & -> & Hu).
    apply elem_of_map_to_list in Hu. simpl in Hp. rewrite (Hall t u Hu) in Hp. congruence. }
  split_and!.
  - destruct (m_fibers s) eqn:Eq; [done|]. destruct (sv_serve _ _ H') as (t & w & Hw & Hl); [by rewrite Eq|done|].
    unfold leaving in Hl. by rewrite (Hall t w Hw) in Hl.
  - rewrite (inv_active _ _ Hinv). by apply Hcnt.
  - rewrite (inv_idle _ _ Hinv). by apply Hcnt.
  - destruct (map_choose _ Hn) as (t & w & Hw). destruct (m_stopping s) eqn:Es; [done|].
    destruct (sv_term _ _ H' Es t w Hw). by eapply sv_exit, Hall.
Qed.

(** ** Every worker leaves *)

(** Steps a worker still needs, once [stopping()] holds. *)
Definition rank (s : Scheduler) (w : worker) : nat :=
  let term := bool_decide (state_of s (idle_fiber w) = TERM) in
  match w_pc w with
  | Exited => 0
  | Dispatch _ _ => if term then 1 else 5
  | PickTask => if term then 2 else 6
  | InIdle => 4
  | _ => if term then 3 else 7
  end.

(** Between the counter and the queue a worker holds no fiber that is ready. *)
Definition none_ready (s : Scheduler) : Prop :=
  ∀ t w f, workers s !! t = Some w → w_pc w = FiberDone f ∨ w_pc w = CbDone f → state_of s f ≠ READY.

Record quiet (g : ghost) (s : Scheduler) : Prop := {
  qt_inv : inv g s;
  qt_stop : stopping s = true;
  qt_ready : none_ready s
}.

Lemma quiet_queue g s : quiet g s → m_fibers s = [].
Proof.
  intros [_ H _]. unfold stopping in H.
  apply andb_true_iff in H as [[_ H]%andb_true_iff _]. by destruct (m_fibers s).
Qed.

Lemma quiet_pc g s t w : quiet g s → workers s !! t = Some w → active_pc (w_pc w) = false.
Proof.
  intros [Hinv Hs _] Hw. destruct (active_pc (w_pc w)) eqn:E; [|done].
  pose proof (cnt_pos _ _ _ _ Hw E). unfold stopping in Hs.
  apply andb_true_iff in Hs as [_ Hs]. rewrite (inv_active _ _ Hinv) in Hs. lia.
Qed.

Lemma state_set_fib f v s h : state_of (set_fib f v s) h = if decide (h = f) then v else state_of s h.
Proof. by apply state_of_insert. Qed.

Ltac quiet_rank :=
  cbn; rewrite lookup_insert_ne by done; split_and!; try done;
  repeat change (state_of (set_worker _ _ ?x)) with (state_of x);
  rewrite ?state_set_fib, ?decide_False by (cbn in *; congruence); by case_bool_decide.

(** The step of a worker in a quiet scheduler. *)
Lemma quiet_own g s t w fresh s' w' :
  quiet g s → workers s !! t = Some w → g !! fresh = None → run_step t ToHold fresh s = Ok tt s' →
  workers s' !! t = Some w' →
  stopping s' = true ∧ rank s' w' = pred (rank s w) ∧ turn_of (w_pc w') = None ∧
  ghost_step t fresh s g !! fresh = None.
Proof.
  intros Hq Hw Hfr. pose proof (quiet_queue _ _ Hq) as Eq. pose proof (quiet_pc _ _ _ _ Hq Hw) as Ha.
  destruct Hq as [Hinv Hs Hr]. specialize (Hr t w). pose proof (inv_workers _ _ Hinv _ _ Hw) as Hcl.
  destruct (idle_apart _ _ _ _ Hcl) as [Hc Hp]. pose proof (cl_pc _ _ _ _ Hcl) as Hpc.
  unfold pc_ok in Hpc. unfold rank, ghost_step. rewrite Hw.
  unfold run_step, at_worker. rewrite (bind_ok _ _ s w s) by (mrun; by rewrite Hw).
  destruct (w_pc w) as [|ft []|f|f|f|f|f|f| | |] eqn:Ew; try done.
  - unfold run_pick. mget. rewrite Eq. cbn [scan]. unfold when. rewrite bind_mret, (goto_run t _ _ w) by done.
    intros [= <-]; cbn; rewrite lookup_insert_eq; intros [= <-]; cbn. split_and!; try done.
    change (state_of (set_worker _ _ s)) with (state_of s). by case_bool_decide.
  - subst ft. unfold run_dispatch. mget. cbn [ft_fiber ft_cb ft_reset]. unfold run_no_task, at_worker. mget.
    rewrite (bind_ok _ _ s w s) by (mrun; by rewrite Hw). case_bool_decide as Ht.
    + rewrite (goto_run t _ _ w) by done. intros [= <-]; cbn; rewrite lookup_insert_eq; intros [= <-]; by cbn.
    + rewrite bind_modify. unfold swap_in. mrun. case_bool_decide; cbn; [done|]. rewrite (goto_run t _ _ w) by done.
      intros [= <-]; cbn; rewrite lookup_insert_eq; intros [= <-]; by cbn.
  - assert (f ≠ fresh) as Hff by (destruct Hpc; congruence).
    unfold run_fiber_done. mget. rewrite bool_decide_eq_false_2 by auto.
    destruct (runnable (state_of s f)); unfold when; rewrite ?bind_modify, ?bind_mret, (goto_run t _ _ w) by done;
      intros [= <-]; cbn; rewrite lookup_insert_eq; intros [= <-]; quiet_rank.
  - assert (f ≠ fresh) as Hff by (destruct Hpc as [[]]; congruence).
    unfold run_cb_done, at_worker. mget. rewrite (bind_ok _ _ s w s) by (mrun; by rewrite Hw).
    rewrite bool_decide_eq_false_2 by auto. destruct (runnable (state_of s f)); simpl negb; cbv iota.
    + rewrite (bind_ok _ _ s tt (set_worker t (mkWorker (w_pc w) None (idle_fiber w)) (set_fib f HOLD s))) by done.
      rewrite (goto_run t _ _ (mkWorker (w_pc w) None (idle_fiber w))) by (cbn; apply lookup_insert_eq).
      intros [= <-]; cbn; rewrite lookup_insert_eq; intros [= <-]; quiet_rank.
    + unfold peng_assert. destruct (resettable _); [|done].
      rewrite (bind_ok _ _ s tt (set_fib f INIT s)) by done. rewrite (goto_run t _ _ w) by done.
      intros [= <-]; cbn; rewrite lookup_insert_eq; intros [= <-]; quiet_rank.
  - unfold idle_turn. mget. rewrite Hs. unfold when. rewrite bind_modify, (goto_run t _ _ w) by done.
    intros [= <-]; cbn; rewrite lookup_insert_eq; intros [= <-]. cbn. split_and!; try done.
    change (state_of (set_worker _ _ ?x)) with (state_of x).
    rewrite state_set_fib, decide_True by done. by rewrite bool_decide_eq_true_2.
  - unfold run_idle_done. rewrite bind_modify. mget. unfold when.
    change (state_of (set_idle_count _ s)) with (state_of s). destruct (runnable _) eqn:Er;
      rewrite ?bind_modify, ?bind_mret, (goto_run t _ _ w) by done;
      intros [= <-]; cbn; rewrite lookup_insert_eq; intros [= <-]; cbn; (split_and!; [done| |done|done]);
      change (state_of (set_worker _ _ ?x)) with (state_of x).
    + rewrite state_set_fib, decide_True by done. rewrite (bool_decide_eq_false_2 (HOLD = TERM)) by done.
      case_bool_decide as Ht; [|done].
      by rewrite Ht in Er.
    + change (state_of (set_idle_count _ s)) with (state_of s). by case_bool_decide.
  - intros [= <-]. rewrite Hw. intros [= <-]. by rewrite Ew.
Qed.

Lemma quiet_step g s t w fresh s' :
  quiet g s → workers s !! t = Some w → g !! fresh = None → run_step t ToHold fresh s = Ok tt s' →
  quiet (ghost_step t fresh s g) s' ∧ ghost_step t fresh s g !! fresh = None ∧
  ∃ w', workers s' = <[t := w']> (workers s) ∧ rank s' w' = pred (rank s w) ∧
    ∀ t2 w2, t ≠ t2 → workers s !! t2 = Some w2 → rank s' w2 = rank s w2.
Proof.
  intros Hq Hw Hfr E. pose proof (qt_inv _ _ Hq) as Hinv.
  destruct (run_step_frame _ _ _ _ _ _ Hw E) as [(w' & Ew & _) _ _ _].
  destruct (quiet_own g s t w fresh s' w' Hq Hw Hfr E) as (Hs & Hrk & Htn & Hfr');
    [rewrite Ew; apply lookup_insert_eq|].
  destruct (run_step_inv g s t w Hinv Hw ToHold fresh) as (s1 & E1 & Hinv').
  { split; [done|]. auto. }
  rewrite E in E1. injection E1 as <-. split_and!; [split; [done..|]|done|].
  - intros t2 w2 f. rewrite Ew. intros [[<- <-]|[Hne Hw2]]%lookup_insert_Some Hf.
    + destruct Hf as [Hf|Hf]; by rewrite Hf in Htn.
    + assert (run_by g t2 f) as Hrun.
      { pose proof (cl_pc _ _ _ _ (inv_workers _ _ Hinv _ _ Hw2)) as Hp. unfold pc_ok in Hp.
        destruct Hf as [Hf|Hf]; rewrite Hf in Hp; naive_solver. }
      assert (∃ y, g !! f = Some y ∧ owner y = Some t2) as (y & Hy & Ho) by (destruct Hrun; eauto).
      rewrite (other_fiber g s s' t w ToHold fresh f y t2) by done. by eapply (qt_ready _ _ Hq t2).
  - exists w'. split_and!; [done..|]. intros t2 w2 Hne Hw2. unfold rank.
    by destruct (other_idle g s s' t w ToHold fresh t2 w2) as [_ ->].
Qed.

(** A schedule: the worker that takes each step. *)
Fixpoint run_all (fresh : Z) (l : list Z) : M Scheduler unit :=
  match l with
  | [] => mret tt
  | t :: r => run_step t ToHold fresh;; run_all fresh r
  end.

Lemma run_all_quiet fresh l : ∀ g s,
  quiet g s → g !! fresh = None → (∀ t, t ∈ l → is_Some (workers s !! t)) →
  (∀ t w, workers s !! t = Some w → (rank s w <= count_occ Z.eq_dec l t)%nat) →
  ∃ g' s', run_all fresh l s = Ok tt s' ∧ quiet g' s' ∧
    ∀ t w, workers s' !! t = Some w → rank s' w = 0%nat.
Proof.
  induction l as [|t r IH]; intros g s Hq Hfr Hl Hrk.
  - exists g, s. split_and!; [done..|]. intros t w Hw. specialize (Hrk t w Hw). simpl in Hrk. lia.
  - destruct (Hl t) as [w Hw]; [left|].
    destruct (run_step_inv g s t w (qt_inv _ _ Hq) Hw ToHold fresh) as (s1 & E & _); [split; auto|].
    destruct (quiet_step g s t w fresh s1 Hq Hw Hfr E) as (Hq1 & Hfr1 & w1 & Ew & Hr1 & Hoth).
    destruct (IH _ s1 Hq1 Hfr1) as (g' & s' & E' & Hq' & Hz).
    + intros t2 Ht2. rewrite Ew. destruct (decide (t = t2)) as [<-|].
      * rewrite lookup_insert_eq. eauto.
      * rewrite lookup_insert_ne by done. apply Hl. by right.
    + intros t2 w2. rewrite Ew. intros [[<- <-]|[Hne Hw2]]%lookup_insert_Some.
      * specialize (Hrk t w Hw). rewrite Hr1. simpl in Hrk. destruct (Z.eq_dec t t); [|done]. lia.
      * rewrite (Hoth t2 w2 Hne Hw2). specialize (Hrk t2 w2 Hw2). simpl in Hrk.
        by destruct (Z.eq_dec t t2).
    + exists g', s'. split; [|done]. cbn [run_all]. by rewrite (bind_ok _ _ _ _ _ E).
Qed.

Lemma rank_bound s w : (rank s w <= 7)%nat.
Proof. unfold rank. repeat case_match; lia. Qed.

Lemma rank_zero s w : rank s w = 0%nat → w_pc w = Exited.
Proof. unfold rank. by repeat case_match. Qed.

(** C20: once stopping() holds and no worker holds a ready fiber, every interleaving that
    gives each worker seven steps takes all of them out of the loop of run, so that the
    joins of stop return. *)
Theorem shutdown_completes g s fresh l :
  served g s → stopping s = true → none_ready s → g !! fresh = None →
  (∀ t, t ∈ l → is_Some (workers s !! t)) →
  (∀ t w, workers s !! t = Some w → (7 <= count_occ Z.eq_dec l t)%nat) →
  ∃ s', run_all fresh l s = Ok tt s' ∧ m_fibers s' = [] ∧
    ∀ t w, workers s' !! t = Some w → w_pc w = Exited.
Proof.
  intros H Hs Hr Hfr Hl Hc. apply served_serves in H.
  destruct (run_all_quiet fresh l g s) as (g' & s' & E & Hq & Hz); try done.
  - split; [apply H|done|done].
  - intros t w Hw. specialize (Hc t w Hw). pose proof (rank_bound s w). lia.
  - exists s'. split_and!; [done|by eapply quiet_queue|]. intros t w Hw. by eapply rank_zero, Hz.
Qed.

(** ** Concrete runs *)

Definition legalb (t : Z) (e : slice_end) (fresh : Z) (s : Scheduler) (g : ghost) : bool :=
  match g !! fresh, workers s !! t with
  | None, Some w =>
      bool_decide (m_rootFiber s ≠ Some fresh) &&
      match e, w_pc w with
      | ToHold, _ => true
      | _, (InFiber f | InCb f) =>
          match g !! f with Some (Running t') => t' =? t | _ => false end
      | _, _ => true
      end
  | _, _ => false
  end.

Lemma legalb_spec t e fresh s g :
  legalb t e fresh s g = true →
  is_Some (workers s !! t) ∧ step_legal t e fresh s g ∧ m_rootFiber s ≠ Some fresh.
Proof.
  unfold legalb, step_legal. destruct (g !! fresh); [done|].
  destruct (workers s !! t) as [w|]; [|done]. intros [Hb%bool_decide_eq_true H]%andb_true_iff.
  split_and!; [eauto|done| |done].
  intros w' f [= <-] Hpc. destruct e; [|by left|]; right;
    destruct Hpc as [E|E]; rewrite E in H; destruct (g !! f) as [[]|]; try done; do 2 f_equal; lia.
Qed.

(** Steps of workers, each with the end of the slice, if they are legal. *)
Fixpoint play (fresh : Z) (l : list (Z * slice_end)) (g : ghost) (s : Scheduler) : option (ghost * Scheduler) :=
  match l with
  | [] => Some (g, s)
  | (t, e) :: r =>
      if legalb t e fresh s g then
        match run_step t e fresh s with
        | Ok _ s' => play fresh r (ghost_step t fresh s g) s'
        | _ => None
        end
      else None
  end.

Lemma play_served fresh l : ∀ g s g' s',
  served g s → play fresh l g s = Some (g', s') → served g' s'.
Proof.
  induction l as [|[t e] r IH]; intros g s g' s' H; simpl; [by intros [= <- <-]|].
  destruct (legalb t e fresh s g) eqn:El; [|done]. apply legalb_spec in El as (Hw & Hl & Hr).
  destruct (run_step t e fresh s) as [[] s1| | |] eqn:E; try done.
  apply IH. by eapply served_inner, inner_step.
Qed.

(** Two workers, one fiber queued. *)
Definition busy : Scheduler :=
  match schedule (mkFT (Some 30) None (-1))
          (set_fib 30 INIT (spawn 2 22 (spawn 1 21 (set_flags false false sched0)))) with
  | Ok _ s => s | _ => blank end.
Definition busy_ghost : ghost :=
  <[30 := Queued]> (<[30 := Parked]> (<[22 := IdleOf 2]> (<[21 := IdleOf 1]> ∅))).

Lemma busy_served : served busy_ghost busy.
Proof.
  eapply (served_inner _ (set_fib 30 INIT (spawn 2 22 (spawn 1 21 (set_flags false false sched0))))); [|apply inner_schedule].
  - eapply served_inner; [|apply inner_new; [|done]; reflexivity]. apply served_spawn; [|reflexivity..]. apply served_spawn; [|reflexivity..].
    apply (served_start ∅ sched0); [|reflexivity]. apply served_init. by repeat split.
  - right. by left.
  - reflexivity.
  - vm_compute. reflexivity.
Qed.

(** [stop] from a thread outside the scheduler. *)
Definition stopped (s : Scheduler) : Scheduler := match stop stopping false s with Ok _ s' => s' | _ => blank end.

Definition steps (t : Z) (n : nat) (e : slice_end) : list (Z * slice_end) := repeat (t, e) n.

(** The fiber is run to its end by worker 1 while [stop] waits. *)
Definition played : ghost * Scheduler :=
  default (∅, blank) (play 99 (steps 1 6 (ToEnd Returned)) busy_ghost (stopped busy)).
Definition left_all : ghost * Scheduler :=
  default (∅, blank) (play 99 (steps 1 6 ToHold ++ steps 2 6 ToHold) played.1 played.2).

Lemma played_served : served played.1 played.2.
Proof.
  eapply (play_served 99 (steps 1 6 (ToEnd Returned)) busy_ghost (stopped busy)); [|vm_compute; reflexivity].
  apply (served_stop busy_ghost busy stopping false JoinThreads); [apply busy_served|vm_compute; reflexivity].
Qed.

Definition exitedb (s : Scheduler) : bool :=
  forallb (λ '(_, w), match w_pc w with Exited => true | _ => false end) (map_to_list (workers s)).

Lemma exitedb_spec s : exitedb s = true → ∀ t w, workers s !! t = Some w → w_pc w = Exited.
Proof.
  unfold exitedb. rewrite forallb_forall. intros H t w Hw%elem_of_map_to_list%list_elem_of_In%H.
  by destruct (w_pc w).
Qed.

Lemma left_all_served : served left_all.1 left_all.2.
Proof.
  eapply (play_served 99 (steps 1 6 ToHold ++ steps 2 6 ToHold) played.1 played.2);
    [apply played_served|vm_compute; reflexivity].
Qed.

Lemma shutdown_drains_witness : m_fibers left_all.2 = [] ∧ workers left_all.2 ≠ ∅.
Proof.
  assert (workers left_all.2 ≠ ∅) as Hn.
  { intros E. apply (f_equal (λ m : gmap Z worker, m !! 1)) in E. vm_compute in E. discriminate E. }
  split; [|exact Hn].
  apply (shutdown_drains left_all.1 left_all.2 left_all_served Hn).
  apply exitedb_spec. vm_compute. reflexivity.
Defined.

(** The workers in turns, from the state in which the fiber has ended. *)
Lemma shutdown_completes_witness :
  ∃ s', run_all 99 (concat (repeat [1; 2] 7)) played.2 = Ok tt s' ∧ exitedb s' = true.
Proof.
  destruct (shutdown_completes played.1 played.2 99 (concat (repeat [1; 2] 7)) played_served)
    as (s' & E & _ & Hx).
  - vm_compute. reflexivity.
  - intros t w f Hw. apply elem_of_map_to_list in Hw.
    assert (map_to_list (workers played.2) = [(2, mkWorker PickTask None 22);
      (1, mkWorker (Dispatch ft_reset false) None 21)]) as El by (vm_compute; reflexivity).
    rewrite El in Hw. repeat (apply elem_of_cons in Hw as [Hw|Hw]; [injection Hw as -> ->; by intros [|]|]).
    by apply elem_of_nil in Hw.
  - vm_compute. reflexivity.
  - intros t Ht. assert (t = 1 ∨ t = 2) as [-> | ->] by set_solver; vm_compute; eauto.
  - intros t w Hw. apply elem_of_map_to_list in Hw.
    assert (map_to_list (workers played.2) = [(2, mkWorker PickTask None 22);
      (1, mkWorker (Dispatch ft_reset false) None 21)]) as El by (vm_compute; reflexivity).
    rewrite El in Hw. repeat (apply elem_of_cons in Hw as [Hw|Hw]; [injection Hw as -> ->; vm_compute; lia|]).
    by apply elem_of_nil in Hw.
  - exists s'. split; [exact E|]. unfold exitedb. apply forallb_forall. intros [t w] Hin%list_elem_of_In.
    apply elem_of_map_to_list in Hin. by rewrite (Hx t w Hin).
Defined.

(** *** A stop that never returns

    The counter of active threads is lowered before a fiber that yielded
    ready is queued again.  In between [stopping()] holds, so another worker
    may leave; a task pinned to it then stays in the queue, and the worker
    that is left never sees [stopping()] again. *)
Definition gap : ghost * Scheduler :=
  default (∅, blank) (play 99 (steps 2 4 ToReady) busy_ghost busy).
(** Worker 1 sees [stopping()] and leaves; worker 2 queues and runs its fiber again. *)
Definition early : ghost * Scheduler :=
  default (∅, blank) (play 99 (steps 1 6 ToHold ++ steps 2 3 ToHold) gap.1 (stopped gap.2)).
(** The fiber queues a callback for worker 1 and ends. *)
Definition orphan : Scheduler :=
  match schedule (mkFT None (Some 7) 1) early.2 with
  | Ok _ s => (default (∅, blank) (play 99 (steps 2 5 (ToEnd Returned)) early.1 s)).2
  | _ => blank
  end.

Definition with_tickled (n : nat) (s : Scheduler) : Scheduler :=
  mkSched (m_fibers s) (m_activeThreadCount s) (m_idleThreadCount s) (m_stopping s) (m_autoStop s)
    (m_threadCount s) (m_rootThread s) (m_rootFiber s) (m_threads s) (fib s) (workers s) n.

Lemma with_tickled_id s : with_tickled (tickled s) s = s.
Proof. by destruct s. Qed.

Lemma orphan_turn n : run_all 99 [2; 2; 2; 2] (with_tickled n orphan) = Ok tt (with_tickled (S n) orphan).
Proof. vm_compute. reflexivity. Qed.

Lemma run_all_app fresh l1 l2 s :
  run_all fresh (l1 ++ l2) s = (run_all fresh l1;; run_all fresh l2) s.
Proof.
  revert s. induction l1 as [|t r IH]; intros s; [done|]. cbn [app run_all].
  unfold mbind, M_bind in *. by destruct (run_step t ToHold fresh s).
Qed.

(** Worker 1 has left, and after any number of turns the task is still there
    and worker 2 is still in the idle loop: the join of [stop] waits for ever. *)
Lemma orphan_hangs k :
  run_all 99 (concat (repeat [2; 2; 2; 2] k)) orphan = Ok tt (with_tickled (k + tickled orphan) orphan) ∧
  m_fibers orphan = [mkFT None (Some 7) 1] ∧
  workers orphan !! 1 = Some (mkWorker Exited None 21) ∧ workers orphan !! 2 = Some (mkWorker InIdle None 22).
Proof.
  split; [|vm_compute; auto].
  rewrite <- (with_tickled_id orphan) at 1. generalize (tickled orphan) as n. pose proof orphan_turn as Hturn.
  revert Hturn. generalize orphan as s. intros s Hturn.
  induction k as [|k IH]; intros n; [done|]. cbn [repeat concat].
  rewrite run_all_app, (bind_ok _ _ _ _ _ (Hturn n)), IH. by rewrite Nat.add_succ_r.
Qed.
