(* ===== verification/IOManager.v ===== *)
(** * The epoll-based scheduler (iomanager.h, iomanager.cc)

    An [IOManager] is a [Scheduler], a [TimerManager] and a vector of
    [FdContext]s.  The kernel's part is explicit: the interest list of the
    epoll instance, changed by every [epoll_ctl] that succeeds; whether a call
    succeeds, and what [epoll_wait] reports, are inputs.  The operations on one
    descriptor are atomic, as the code runs them under the context's mutex;
    [stopping] and the turns of [idle] take as a parameter what other threads
    do between their synchronised actions. *)

From S2P Require Import Prelude.
From S2P Require Timer.
From S2P Require Import Fiber Scheduler.

(** Bits of [Event], which the code also uses as [EPOLL_EVENTS]. *)
Definition NONE : Z := 0.
Definition READ : Z := 1.
Definition WRITE : Z := 4.
Definition EPOLLIN : Z := 1.
Definition EPOLLOUT : Z := 4.
Definition EPOLLERR : Z := 8.
Definition EPOLLHUP : Z := 16.
Definition EPOLLET : Z := 2 ^ 31.

Record EventContext := mkEC {
  ec_scheduler : option Z;
  ec_fiber : option Z;
  ec_cb : option Z
}.

#[global] Instance EventContext_eq_dec : EqDecision EventContext.
Proof. solve_decision. Defined.

Definition empty_ec : EventContext := mkEC None None None.

Record FdContext := mkFd {
  c_read : EventContext;
  c_write : EventContext;
  c_fd : Z;
  c_events : Z
}.

Definition new_FdContext (fd : Z) : FdContext := mkFd empty_ec empty_ec fd NONE.

Record IOManager := mkIO {
  base : Scheduler;
  timers : Timer.TimerManager;
  m_fdContexts : list FdContext;
  m_pendingEventCount : Z;
  (** the epoll interest list: descriptor to events *)
  interest : gmap Z Z;
  (** bytes in the tickle pipe *)
  pipe : nat;
  (** tasks handed to schedulers other than this one *)
  elsewhere : list (Z * FiberAndThread)
}.

Definition set_base (b : Scheduler) (s : IOManager) : IOManager :=
  mkIO b (timers s) (m_fdContexts s) (m_pendingEventCount s) (interest s) (pipe s) (elsewhere s).
Definition set_timers (x : Timer.TimerManager) (s : IOManager) : IOManager :=
  mkIO (base s) x (m_fdContexts s) (m_pendingEventCount s) (interest s) (pipe s) (elsewhere s).
Definition set_contexts (l : list FdContext) (s : IOManager) : IOManager :=
  mkIO (base s) (timers s) l (m_pendingEventCount s) (interest s) (pipe s) (elsewhere s).
Definition set_pending (z : Z) (s : IOManager) : IOManager :=
  mkIO (base s) (timers s) (m_fdContexts s) z (interest s) (pipe s) (elsewhere s).
Definition set_interest (m : gmap Z Z) (s : IOManager) : IOManager :=
  mkIO (base s) (timers s) (m_fdContexts s) (m_pendingEventCount s) m (pipe s) (elsewhere s).
Definition set_pipe (n : nat) (s : IOManager) : IOManager :=
  mkIO (base s) (timers s) (m_fdContexts s) (m_pendingEventCount s) (interest s) n (elsewhere s).
Definition set_elsewhere (l : list (Z * FiberAndThread)) (s : IOManager) : IOManager :=
  mkIO (base s) (timers s) (m_fdContexts s) (m_pendingEventCount s) (interest s) (pipe s) l.

(** ** Printing of epoll operations and events *)

Inductive EpollCtlOp := EPOLL_CTL_ADD | EPOLL_CTL_DEL | EPOLL_CTL_MOD.

Definition show_EpollCtlOp (op : EpollCtlOp) : string :=
  match op with
  | EPOLL_CTL_ADD => "EPOLL_CTL_ADD"
  | EPOLL_CTL_DEL => "EPOLL_CTL_DEL"
  | EPOLL_CTL_MOD => "EPOLL_CTL_MOD"
  end.

Definition epoll_names : list (Z * string) :=
  [(0x1, "EPOLLIN"); (0x2, "EPOLLPRI"); (0x4, "EPOLLOUT"); (0x40, "EPOLLRDNORM");
   (0x80, "EPOLLRDBAND"); (0x100, "EPOLLWRNORM"); (0x200, "EPOLLWRBAND"); (0x400, "EPOLLMSG");
   (0x8, "EPOLLERR"); (0x10, "EPOLLHUP"); (0x2000, "EPOLLRDHUP"); (2 ^ 30, "EPOLLONESHOT");
   (2 ^ 31, "EPOLLET")]%string.

Definition show_EPOLL_EVENTS (events : Z) : string :=
  if events =? 0 then "0"
  else foldl (λ out '(b, name),
         if Z.land events b =? 0 then out
         else if decide (out = "") then name else (out +:+ "|" +:+ name)%string)
       "" epoll_names.

(** ** Scheduling through a manager *)

(** [IOManager::tickle]: a byte for the idle threads, if there are any. *)
Definition tickle (s : IOManager) : IOManager :=
  if hasIdleThreads (base s) then set_pipe (S (pipe s)) s else s.

Definition onTimerInsertedAtFront : IOManager → IOManager := tickle.

(** A call of the base class; its [tickle]s are this class's. *)
Definition lift {A} (m : M Scheduler A) : M IOManager A := λ s,
  match m (base s) with
  | Ok a b => Ok a (Nat.iter (tickled b - tickled (base s)) tickle (set_base b s))
  | Throw e b => Throw e (set_base b s)
  | Abort x => Abort x
  | Undef x => Undef x
  end.

(** A call of the timer manager; its [onTimerInsertedAtFront] is this class's. *)
Definition lift_timer {A} (m : M Timer.TimerManager A) : M IOManager A := λ s,
  match m (timers s) with
  | Ok a x => Ok a (Nat.iter (Timer.tickles x - Timer.tickles (timers s)) onTimerInsertedAtFront (set_timers x s))
  | Throw e x => Throw e (set_timers x s)
  | Abort w => Abort w
  | Undef w => Undef w
  end.

Section io.
(** The address of this manager, and the identity of a callback object. *)
Context (self : Z) (cb_id : Timer.callback → Z).

Definition schedule_on (sch : option Z) (ft : FiberAndThread) : M IOManager unit :=
  match sch with
  | None => undef "ctx.scheduler is null"
  | Some p =>
      if p =? self then lift (schedule ft)
      else modify (λ s, set_elsewhere (elsewhere s ++ [(p, ft)]) s)
  end.

(** ** FdContext *)

Definition getContext (event : Z) (c : FdContext) : M IOManager EventContext :=
  if event =? READ then mret (c_read c)
  else if event =? WRITE then mret (c_write c)
  else (λ _, Abort "getContext").

Definition put_context (event : Z) (x : EventContext) (c : FdContext) : FdContext :=
  if event =? READ then mkFd x (c_write c) (c_fd c) (c_events c)
  else mkFd (c_read c) x (c_fd c) (c_events c).

Definition set_events (e : Z) (c : FdContext) : FdContext := mkFd (c_read c) (c_write c) (c_fd c) e.

Definition resetContext (x : EventContext) : EventContext := empty_ec.

Definition context_at (fd : Z) : M IOManager FdContext :=
  s ← get;
  of_option "m_fdContexts out of range"
    (if fd <? 0 then None else m_fdContexts s !! Z.to_nat fd).

Definition put_context_at (fd : Z) (c : FdContext) : M IOManager unit :=
  modify (λ s, set_contexts (<[Z.to_nat fd := c]> (m_fdContexts s)) s).

(** [triggerEvent] of the context of [fd]: [schedule(&x)] swaps the callback or
    the fiber out of the context. *)
Definition triggerEvent (fd event : Z) : M IOManager unit :=
  c ← context_at fd;
  peng_assert (negb (Z.land (c_events c) event =? 0)) "events & event";;
  let c := set_events (Z.ldiff (c_events c) event) c in
  x ← getContext event c;
  let x' := match ec_cb x with
            | Some _ => mkEC None (ec_fiber x) None
            | None => mkEC None None (ec_cb x)
            end in
  put_context_at fd (put_context event x' c);;
  schedule_on (ec_scheduler x)
    (match ec_cb x with
     | Some _ => mkFT None (ec_cb x) (-1)
     | None => mkFT (ec_fiber x) None (-1)
     end).

(** ** Events *)

(** [m_fdContexts.resize(size)] and the loop that fills it. *)
Definition contextResize (size : Z) : M IOManager unit :=
  modify (λ s,
    let n := Z.to_nat size in
    let old := take n (m_fdContexts s) in
    set_contexts (old ++ ((λ i, new_FdContext (Z.of_nat i)) <$> seq (length old) (n - length old))) s).

(** [epoll_ctl] returning [rt]. *)
Definition epoll_ctl (rt : Z) (op : EpollCtlOp) (fd events : Z) : M IOManager unit :=
  when (rt =? 0)
    (modify (λ s, set_interest
       (match op with EPOLL_CTL_DEL => delete fd (interest s) | _ => <[fd := events]> (interest s) end) s)).

(** The caller of [addEvent]: its scheduler, its fiber and the fiber's state. *)
Record caller := mkCaller { cur_scheduler : option Z; cur_fiber : Z; cur_state : State }.

(** The context of [fd] for [addEvent], the vector grown to [fd * 1.5] if needed. *)
Definition addEvent_context (fd : Z) : M IOManager unit :=
  s ← get;
  when (negb (fd <? zlen (m_fdContexts s))) (contextResize (fd * 3 / 2)).

Definition addEvent (who : caller) (rt : Z) (fd event : Z) (cb : option Z) : M IOManager Z :=
  addEvent_context fd;;
  c ← context_at fd;
  peng_assert (Z.land (c_events c) event =? 0) "!(fd_ctx->events & event)";;
  let op := if c_events c =? 0 then EPOLL_CTL_ADD else EPOLL_CTL_MOD in
  let all := Z.lor (c_events c) event in
  epoll_ctl rt op fd (Z.lor EPOLLET all);;
  if negb (rt =? 0) then mret (-1)
  else
    modify (λ s, set_pending (u64 (m_pendingEventCount s + 1)) s);;
    let c := set_events all c in
    x ← getContext event c;
    peng_assert (bool_decide (x = empty_ec))
      "!event_ctx.scheduler && !event_ctx.fiber && !event_ctx.cb";;
    match cb with
    | Some _ => put_context_at fd (put_context event (mkEC (cur_scheduler who) None cb) c)
    | None =>
        put_context_at fd (put_context event (mkEC (cur_scheduler who) (Some (cur_fiber who)) None) c);;
        peng_assert (bool_decide (cur_state who = EXEC)) "state"
    end;;
    mret 0.

(** The head [delEvent], [cancelEvent] and [cancelAll] share: the context, or
    nothing when the vector is too short. *)
Definition find_context (fd : Z) : M IOManager (option FdContext) :=
  s ← get;
  if zlen (m_fdContexts s) <=? fd then mret None else c ← context_at fd; mret (Some c).

Definition delEvent (rt fd event : Z) : M IOManager bool :=
  o ← find_context fd;
  match o with
  | None => mret false
  | Some c =>
      if Z.land (c_events c) event =? 0 then mret false
      else
        let new_events := Z.ldiff (c_events c) event in
        let op := if new_events =? 0 then EPOLL_CTL_DEL else EPOLL_CTL_MOD in
        epoll_ctl rt op fd (Z.lor EPOLLET new_events);;
        if negb (rt =? 0) then mret false
        else
          modify (λ s, set_pending (u64 (m_pendingEventCount s - 1)) s);;
          let c := set_events new_events c in
          x ← getContext event c;
          put_context_at fd (put_context event (resetContext x) c);;
          mret true
  end.

Definition cancelEvent (rt fd event : Z) : M IOManager bool :=
  o ← find_context fd;
  match o with
  | None => mret false
  | Some c =>
      if Z.land (c_events c) event =? 0 then mret false
      else
        let new_events := Z.ldiff (c_events c) event in
        let op := if new_events =? 0 then EPOLL_CTL_DEL else EPOLL_CTL_MOD in
        epoll_ctl rt op fd (Z.lor EPOLLET new_events);;
        if negb (rt =? 0) then mret false
        else
          triggerEvent fd event;;
          modify (λ s, set_pending (u64 (m_pendingEventCount s - 1)) s);;
          mret true
  end.

(** [if(events & event) { triggerEvent(event); --m_pendingEventCount; }] *)
Definition trigger_if (mask fd event : Z) : M IOManager unit :=
  when (negb (Z.land mask event =? 0))
    (triggerEvent fd event;; modify (λ s, set_pending (u64 (m_pendingEventCount s - 1)) s)).

Definition cancelAll (rt fd : Z) : M IOManager bool :=
  o ← find_context fd;
  match o with
  | None => mret false
  | Some c =>
      if c_events c =? 0 then mret false
      else
        epoll_ctl rt EPOLL_CTL_DEL fd 0;;
        if negb (rt =? 0) then mret false
        else
          trigger_if (c_events c) fd READ;;
          c ← context_at fd;
          trigger_if (c_events c) fd WRITE;;
          c ← context_at fd;
          peng_assert (c_events c =? 0) "fd_ctx->events == 0";;
          mret true
  end.

(** ** The idle loop *)

(** What other threads do to the manager before the [n]-th synchronised action
    of the thread that executes the loop. *)
Definition interference := nat → IOManager → IOManager.

(** [stopping(timeout)] at the time [now]: the timers are read under one lock,
    the counter is atomic and the scheduler has a lock of its own, so other
    threads act in between. *)
Definition stopping (others : interference) (now : Z) : M IOManager (bool * Z) :=
  timeout ← lift_timer (Timer.getNextTimer now);
  if negb (timeout =? 2 ^ 64 - 1) then mret (false, timeout)
  else
    modify (others 0%nat);;
    s ← get;
    if negb (m_pendingEventCount s =? 0) then mret (false, timeout)
    else
      modify (others 1%nat);;
      s ← get;
      mret (Scheduler.stopping (base s), timeout).

Definition MAX_TIMEOUT : Z := 3000.

(** [next_timeout] before a call of [epoll_wait] ([uint64_t]). *)
Definition clamp_timeout (next_timeout : Z) : Z :=
  if next_timeout =? 2 ^ 64 - 1 then MAX_TIMEOUT
  else if MAX_TIMEOUT <? s32 next_timeout then MAX_TIMEOUT else next_timeout.

(** What [epoll_wait] reports: the tickle pipe, or a context and its events. *)
Inductive epoll_event := TickleFd | FdEvent (fd events : Z).

(** One turn of the loop over the events, [rt2] being what [epoll_ctl] returns. *)
Definition handle_event (ev : epoll_event) (rt2 : Z) : M IOManager unit :=
  match ev with
  | TickleFd => modify (set_pipe 0)
  | FdEvent fd events =>
      c ← context_at fd;
      let events := if Z.land events (Z.lor EPOLLERR EPOLLHUP) =? 0 then events
                    else Z.lor events (Z.land (Z.lor EPOLLIN EPOLLOUT) (c_events c)) in
      let real_events := Z.lor (if Z.land events EPOLLIN =? 0 then NONE else READ)
                               (if Z.land events EPOLLOUT =? 0 then NONE else WRITE) in
      if Z.land (c_events c) real_events =? NONE then mret tt
      else
        let left_events := Z.ldiff (c_events c) real_events in
        let op := if left_events =? 0 then EPOLL_CTL_DEL else EPOLL_CTL_MOD in
        epoll_ctl rt2 op (c_fd c) (Z.lor EPOLLET left_events);;
        if negb (rt2 =? 0) then mret tt
        else
          trigger_if real_events fd READ;;
          trigger_if real_events fd WRITE
  end.

Fixpoint handle_events (others : interference) (n : nat) (evs : list (epoll_event * Z)) : M IOManager unit :=
  match evs with
  | [] => mret tt
  | (ev, rt2) :: r => modify (others n);; handle_event ev rt2;; handle_events others (S n) r
  end.

(** What a call of [epoll_wait] returns: -1 with [EINTR], or events (none on a
    timeout or another error), each with what [epoll_ctl] will return for it. *)
Inductive epoll_answer := Interrupted | Events (evs : list (epoll_event * Z)).

(** The do-while loop around [epoll_wait]: the timeouts of its calls and the
    answer it leaves with; [None] while it is still waiting.  The clock is not
    read again: every call gets the timeout computed at the start. *)
Fixpoint epoll_loop (next_timeout : Z) (answers : list epoll_answer) :
    list Z * option (list (epoll_event * Z)) :=
  match answers with
  | [] => ([], None)
  | a :: answers' =>
      let next_timeout := clamp_timeout next_timeout in
      match a with
      | Interrupted => let r := epoll_loop next_timeout answers' in (s32 next_timeout :: r.1, r.2)
      | Events evs => ([s32 next_timeout], Some evs)
      end
  end.

(** One turn of [idle] up to its [swapOut]: [Some false] when it leaves the
    loop, [None] when the answers of [epoll_wait] end while it waits; [pnow] is
    the address of the temporary of [listExpiredCb]. *)
Definition idle_turn (others : interference) (now1 now2 pnow : Z) (answers : list epoll_answer) :
    M IOManager (option bool) :=
  '(stop, next_timeout) ← stopping others now1;
  if stop : bool then mret (Some false)
  else
    match (epoll_loop next_timeout answers).2 with
    | None => mret None
    | Some evs =>
        modify (others 2%nat);;
        cbs ← lift_timer (Timer.listExpiredCb pnow now2 []);
        modify (others 3%nat);;
        when (match cbs with [] => false | _ => true end)
          (lift (schedule_all ((λ cb, mkFT None (cb_id <$> cb) (-1)) <$> cbs)));;
        handle_events others 4%nat evs;;
        mret (Some true)
    end.

(** ** Construction *)

(** [IOManager::IOManager] over a constructed scheduler and timer manager;
    [tickle_fd] is the read end of the pipe, the inputs the system's results. *)
Definition new_IOManager (b : Scheduler) (x : Timer.TimerManager) (epfd rt_pipe rt_fcntl rt_ctl tickle_fd : Z)
    (ids : list (Z * Z)) : outcome IOManager unit :=
  (peng_assert (0 <? epfd) "m_epfd > 0";;
   peng_assert (rt_pipe =? 0) "!rt";;
   peng_assert (rt_fcntl =? 0) "!rt";;
   epoll_ctl rt_ctl EPOLL_CTL_ADD tickle_fd (Z.lor EPOLLIN EPOLLET);;
   peng_assert (rt_ctl =? 0) "!rt";;
   contextResize 32;;
   lift (start ids)) (mkIO b x [] 0 ∅ 0 []).

(** ** Invariant *)

Definition is_event (e : Z) : Prop := e = READ ∨ e = WRITE.
Definition has (c : FdContext) (e : Z) : bool := negb (Z.land (c_events c) e =? 0).
Definition ctx_of (e : Z) (c : FdContext) : EventContext := if e =? READ then c_read c else c_write c.

(** A context of a registered event holds its scheduler and one of a fiber and
    a callback; any other context is empty. *)
Definition ec_ok (b : bool) (x : EventContext) : Prop :=
  if b then (∃ p f, x = mkEC (Some p) (Some f) None) ∨ (∃ p f, x = mkEC (Some p) None (Some f))
  else x = empty_ec.

Definition ctx_ok (i : nat) (c : FdContext) : Prop :=
  c_fd c = Z.of_nat i ∧ c_events c ∈ [0; 1; 4; 5] ∧
  ec_ok (has c READ) (c_read c) ∧ ec_ok (has c WRITE) (c_write c).

Definition nbits (c : FdContext) : Z := Z.b2z (has c READ) + Z.b2z (has c WRITE).
Definition total (l : list FdContext) : Z := foldr (λ c z, nbits c + z) 0 l.

Record io_inv (tickle_fd : Z) (s : IOManager) : Prop := {
  io_ctx : ∀ i c, m_fdContexts s !! i = Some c → ctx_ok i c;
  io_pending : m_pendingEventCount s = total (m_fdContexts s);
  io_len : 32 <= zlen (m_fdContexts s) < 2 ^ 32;
  io_interest : ∀ i : nat, Z.of_nat i ≠ tickle_fd →
    interest s !! Z.of_nat i = c ← m_fdContexts s !! i;
      if c_events c =? 0 then None else Some (Z.lor EPOLLET (c_events c))
}.

(** The tasks [ts] were handed to their schedulers, in order. *)
Definition hands (s s' : IOManager) (ts : list (Z * FiberAndThread)) : Prop :=
  m_fibers (base s') = m_fibers (base s) ++ (snd <$> filter (λ x : Z * FiberAndThread, x.1 = self) ts) ∧
  elsewhere s' = elsewhere s ++ filter (λ x : Z * FiberAndThread, x.1 ≠ self) ts.

Lemma hands_nil s s' : m_fibers (base s') = m_fibers (base s) → elsewhere s' = elsewhere s → hands s s' [].
Proof. intros E1 E2. split; simpl; by rewrite app_nil_r. Qed.

Lemma hands_app s1 s2 s3 l1 l2 : hands s1 s2 l1 → hands s2 s3 l2 → hands s1 s3 (l1 ++ l2).
Proof.
  intros [H1 H1'] [H2 H2']. split.
  - rewrite H2, H1, list.filter_app, fmap_app. by rewrite <- app_assoc.
  - rewrite H2', H1', list.filter_app. by rewrite <- app_assoc.
Qed.

(** What does not change when tasks are scheduled. *)
Definition same_io (s s' : IOManager) : Prop :=
  m_fdContexts s' = m_fdContexts s ∧ m_pendingEventCount s' = m_pendingEventCount s ∧
  interest s' = interest s ∧ timers s' = timers s.

Lemma iter_tickle n s :
  same_io s (Nat.iter n tickle s) ∧ base (Nat.iter n tickle s) = base s ∧
  elsewhere (Nat.iter n tickle s) = elsewhere s.
Proof.
  induction n as [|n IH]; [done|]. simpl. unfold same_io, tickle in *. case_match; done.
Qed.

Lemma schedule_on_run p ft s :
  bool_decide (is_Some (ft_fiber ft)) || bool_decide (is_Some (ft_cb ft)) = true →
  ∃ s', schedule_on (Some p) ft s = Ok tt s' ∧ same_io s s' ∧ hands s s' [(p, ft)].
Proof.
  intros Hft. unfold schedule_on. destruct (p =? self) eqn:E.
  - apply Z.eqb_eq in E as ->. unfold lift.
    destruct (schedule_run ft (base s) Hft) as (b & -> & Eq & _).
    eexists. split; [done|].
    destruct (iter_tickle (tickled b - tickled (base s)) (set_base b s)) as (Hs & Hb & He).
    split; [done|]. split.
    + rewrite Hb. cbn [base set_base]. rewrite Eq.
      rewrite filter_cons_True by done. done.
    + rewrite He. cbn [elsewhere set_base]. rewrite filter_cons_False by (intros H; by apply H).
      by rewrite app_nil_r.
  - eexists. split; [done|]. split; [done|]. apply Z.eqb_neq in E. split; cbn [base elsewhere set_elsewhere].
    + rewrite filter_cons_False by done. by rewrite app_nil_r.
    + by rewrite filter_cons_True.
Qed.

(** ** Waiters: what an [IOManager] promises *)

(** The task registered for an event of a descriptor. *)
Definition task_of (x : EventContext) : Z * FiberAndThread :=
  (default 0 (ec_scheduler x),
   match ec_cb x with Some _ => mkFT None (ec_cb x) (-1) | None => mkFT (ec_fiber x) None (-1) end).

Definition waiter (s : IOManager) (fd e : Z) : option (Z * FiberAndThread) :=
  match m_fdContexts s !! Z.to_nat fd with
  | Some c => if has c e then Some (task_of (ctx_of e c)) else None
  | None => None
  end.

(** The context with the event gone. *)
Definition cleared (e : Z) (c : FdContext) : FdContext :=
  put_context e empty_ec (set_events (Z.ldiff (c_events c) e) c).

Lemma total_insert l i c c' : l !! i = Some c → total (<[i := c']> l) = total l - nbits c + nbits c'.
Proof.
  revert i. induction l as [|x l IH]; intros [|i] Hi; simplify_eq/=; [lia|]. rewrite (IH i Hi). lia.
Qed.

Lemma nbits_bound c : 0 <= nbits c <= 2.
Proof. unfold nbits. destruct (has c READ), (has c WRITE); simpl; lia. Qed.

Lemma total_bound l : 0 <= total l <= 2 * zlen l.
Proof.
  induction l as [|c l IH]; [done|]. rewrite zlen_cons. simpl. pose proof (nbits_bound c). lia.
Qed.

Lemma total_lookup l i c : l !! i = Some c → nbits c <= total l.
Proof.
  revert i. induction l as [|x l IH]; intros [|i] Hi; simplify_eq/=.
  - pose proof (total_bound l). lia.
  - pose proof (nbits_bound x). specialize (IH i Hi). lia.
Qed.

(** Case analysis on the registered events, which are two bits. *)
Lemma events_cases i c e : ctx_ok i c → is_event e →
  (has c e = true → nbits (cleared e c) = nbits c - 1 ∧ ctx_ok i (cleared e c) ∧
     ec_ok true (ctx_of e c)) ∧
  (has c e = false → ctx_of e c = empty_ec ∧
     ∀ x, ec_ok true x → let c' := put_context e x (set_events (Z.lor (c_events c) e) c) in
       nbits c' = nbits c + 1 ∧ ctx_ok i c').
Proof.
  destruct c as [r w fd ev]. intros (Hfd & Hev & Hr & Hw) He.
  unfold has, nbits, cleared, ctx_ok, put_context, set_events, ctx_of in *. cbn in *.
  repeat (apply elem_of_cons in Hev as [->|Hev]); [..|by apply not_elem_of_nil in Hev];
    destruct He as [-> | ->]; cbn in *; split; intros Hh; try done;
    split_and!; try done; try (intros x Hx; split_and!; done); set_solver.
Qed.

Lemma context_at_run s fd c :
  0 <= fd → m_fdContexts s !! Z.to_nat fd = Some c → context_at fd s = Ok c s.
Proof.
  intros Hfd Hc. unfold context_at. mrun. rewrite Hc.
  by destruct (fd <? 0) eqn:E; [lia|].
Qed.

Lemma context_at_ok fd s c s' : context_at fd s = Ok c s' → s' = s.
Proof. unfold context_at. mrun. destruct (if fd <? 0 then _ else _); naive_solver. Qed.

Lemma getContext_run e c s : is_event e → getContext e c s = Ok (ctx_of e c) s.
Proof. by intros [-> | ->]. Qed.

Lemma trigger_run s fd e i c :
  0 <= fd → Z.to_nat fd = i → m_fdContexts s !! i = Some c → ctx_ok i c → is_event e →
  has c e = true →
  ∃ s', triggerEvent fd e s = Ok tt s' ∧
    m_fdContexts s' = <[i := cleared e c]> (m_fdContexts s) ∧
    m_pendingEventCount s' = m_pendingEventCount s ∧ interest s' = interest s ∧
    timers s' = timers s ∧ hands s s' [task_of (ctx_of e c)].
Proof.
  intros Hfd <- Hc Hok He Hh. destruct (proj1 (events_cases _ c e Hok He) Hh) as (_ & _ & Hec).
  unfold triggerEvent. mstep (context_at_run s fd c Hfd Hc). unfold has in Hh. rewrite Hh.
  rewrite (bind_ok _ _ s tt s) by done. mstep (getContext_run e _ s He).
  set (x := ctx_of e _). assert (x = ctx_of e c) as Ex by (by destruct He as [-> | ->]).
  clearbody x. subst x. unfold put_context_at. rewrite bind_modify.
  set (s1 := set_contexts _ s).
  assert (∃ p ft, ec_scheduler (ctx_of e c) = Some p ∧ task_of (ctx_of e c) = (p, ft) ∧
    (bool_decide (is_Some (ft_fiber ft)) || bool_decide (is_Some (ft_cb ft)) = true) ∧
    ft = match ec_cb (ctx_of e c) with
         | Some _ => mkFT None (ec_cb (ctx_of e c)) (-1)
         | None => mkFT (ec_fiber (ctx_of e c)) None (-1) end ∧
    m_fdContexts s1 = <[Z.to_nat fd := cleared e c]> (m_fdContexts s))
    as (p & ft & Ep & Et & Hft & Eft & Es1).
  { subst s1. unfold cleared, task_of.
    destruct Hec as [(p & f & ->)|(p & f & ->)]; eexists p, _; by split_and!. }
  rewrite Ep, <- Eft. destruct (schedule_on_run p ft s1 Hft) as (s' & E & (S1 & S2 & S3 & S4) & Hh').
  exists s'. rewrite Et. split_and!; [exact E|congruence|done|done|done|done].
Qed.

Lemma land_events_has c e : (Z.land (c_events c) e =? 0) = negb (has c e).
Proof. unfold has. by rewrite negb_involutive. Qed.

(** The context [c'] at [i] of the manager [s'] in place of [c]: what keeps the
    invariant, for every operation on one descriptor. *)
Lemma io_inv_update tfd s s' i c c' :
  io_inv tfd s → m_fdContexts s !! i = Some c → ctx_ok i c' →
  m_fdContexts s' = <[i := c']> (m_fdContexts s) →
  m_pendingEventCount s' = m_pendingEventCount s - nbits c + nbits c' →
  (∀ j, j ≠ Z.of_nat i → interest s' !! j = interest s !! j) →
  (Z.of_nat i ≠ tfd → interest s' !! Z.of_nat i =
     if c_events c' =? 0 then None else Some (Z.lor EPOLLET (c_events c'))) →
  io_inv tfd s'.
Proof.
  intros [H1 H2 H3 H4] Hc Hok Ec Ep Hint Hi. pose proof (lookup_lt_Some _ _ _ Hc) as Hlt. split.
  - intros j d. rewrite Ec. destruct (decide (i = j)) as [<-|Hne].
    + rewrite list_lookup_insert_eq by done. by intros [= <-].
    + rewrite list_lookup_insert_ne by done. apply H1.
  - rewrite Ep, Ec, (total_insert _ _ c) by done. by rewrite H2.
  - rewrite Ec. unfold zlen in *. by rewrite length_insert.
  - intros j Hj. rewrite Ec. destruct (decide (i = j)) as [<-|Hne].
    + rewrite list_lookup_insert_eq by done. by apply Hi.
    + rewrite list_lookup_insert_ne by done. rewrite Hint by lia. by apply H4.
Qed.

Lemma pending_dec tfd s i c e :
  io_inv tfd s → m_fdContexts s !! i = Some c → is_event e → has c e = true →
  u64 (m_pendingEventCount s - 1) = m_pendingEventCount s - 1.
Proof.
  intros Hinv Hc He Hh. pose proof (io_pending _ _ Hinv) as Hp.
  pose proof (total_lookup _ _ _ Hc). pose proof (total_bound (m_fdContexts s)).
  pose proof (io_len _ _ Hinv).
  assert (1 <= nbits c).
  { unfold nbits. destruct He as [-> | ->]; rewrite Hh; simpl;
      [destruct (has c WRITE)|destruct (has c READ)]; simpl; lia. }
  apply wrapu_small. lia.
Qed.

Lemma epoll_ctl_fail rt op fd ev s : rt ≠ 0 → epoll_ctl rt op fd ev s = Ok tt s.
Proof. intros H. unfold epoll_ctl, when. by rewrite (proj2 (Z.eqb_neq rt 0) H). Qed.

Lemma epoll_ctl_ok op fd ev s :
  epoll_ctl 0 op fd ev s = Ok tt (set_interest
    (match op with EPOLL_CTL_DEL => delete fd (interest s) | _ => <[fd := ev]> (interest s) end) s).
Proof. done. Qed.

(** The interest list after the [epoll_ctl] that follows from the new events. *)
Lemma interest_after (m : gmap Z Z) fd ev :
  let op := if ev =? 0 then EPOLL_CTL_DEL else EPOLL_CTL_MOD in
  let m' := match op with EPOLL_CTL_DEL => delete fd m | _ => <[fd := Z.lor EPOLLET ev]> m end in
  (∀ j, j ≠ fd → m' !! j = m !! j) ∧
  m' !! fd = if ev =? 0 then None else Some (Z.lor EPOLLET ev).
Proof.
  cbv zeta. destruct (ev =? 0); split.
  - intros j Hj. by rewrite lookup_delete_ne.
  - apply lookup_delete_eq.
  - intros j Hj. by rewrite lookup_insert_ne.
  - apply lookup_insert_eq.
Qed.

Lemma cleared_events e c : c_events (cleared e c) = Z.ldiff (c_events c) e.
Proof. unfold cleared, put_context. by case_match. Qed.

(** Effect on the waiters of replacing one context. *)
Lemma waiter_update s s' i c c' fd e :
  m_fdContexts s' = <[i := c']> (m_fdContexts s) → m_fdContexts s !! i = Some c →
  waiter s' fd e =
    if decide (Z.to_nat fd = i) then (if has c' e then Some (task_of (ctx_of e c')) else None)
    else waiter s fd e.
Proof.
  intros E Hc. unfold waiter. rewrite E. case_decide as Hd.
  - rewrite Hd, list_lookup_insert_eq by (by eapply lookup_lt_Some). done.
  - by rewrite list_lookup_insert_ne by done.
Qed.

Lemma cleared_waiter i c e e' : ctx_ok i c → is_event e → is_event e' →
  (if has (cleared e c) e' then Some (task_of (ctx_of e' (cleared e c))) else None) =
  if decide (e' = e) then None
  else if has c e' then Some (task_of (ctx_of e' c)) else None.
Proof.
  destruct c as [r w fd ev]. intros (_ & Hev & _ & _) He He'.
  unfold has, cleared, put_context, set_events, ctx_of in *. cbn in *.
  repeat (apply elem_of_cons in Hev as [->|Hev]); [..|by apply not_elem_of_nil in Hev];
    destruct He as [-> | ->], He' as [-> | ->]; done.
Qed.

Definition bit (m e : Z) : bool := negb (Z.land m e =? 0).
Definition clear_if (b : bool) (e : Z) (c : FdContext) : FdContext := if b then cleared e c else c.
Definition task_if (b : bool) (e : Z) (c : FdContext) : list (Z * FiberAndThread) :=
  if b then [task_of (ctx_of e c)] else [].

(** Some fields of the state after events of one descriptor were triggered. *)
Definition fired (i : nat) (c' : FdContext) (n : Z) (ts : list (Z * FiberAndThread)) (s s' : IOManager) :
    Prop :=
  m_fdContexts s' = <[i := c']> (m_fdContexts s) ∧
  m_pendingEventCount s' = m_pendingEventCount s - n ∧ interest s' = interest s ∧
  timers s' = timers s ∧ hands s s' ts.

Lemma trigger_if_run s fd i c e mask :
  0 <= fd → Z.to_nat fd = i → m_fdContexts s !! i = Some c → ctx_ok i c → is_event e →
  (bit mask e = true → has c e = true ∧ 1 <= m_pendingEventCount s <= 2 ^ 64) →
  ∃ s', trigger_if mask fd e s = Ok tt s' ∧
    fired i (clear_if (bit mask e) e c) (Z.b2z (bit mask e)) (task_if (bit mask e) e c) s s'.
Proof.
  intros Hfd Hi Hc Hok He Hb. unfold trigger_if, fired. fold (bit mask e).
  destruct (bit mask e); cbn [when clear_if task_if Z.b2z].
  - destruct (Hb eq_refl) as [Hh Hp].
    destruct (trigger_run s fd e i c Hfd Hi Hc Hok He Hh) as (s' & E & E1 & E2 & E3 & E4 & E5).
    mstep E. eexists. split; [done|]. cbn. rewrite E2, wrapu_small by lia. by split_and!.
  - exists s. split; [done|]. rewrite list_insert_id by done.
    split_and!; [done|lia|done|done|by apply hands_nil].
Qed.

(** [READ] and then [WRITE], as [cancelAll] and [idle] do; the second mask may
    be read after the first event fired. *)
Lemma triggers_run s fd i c (m1 : Z) (m2 : FdContext → Z) :
  0 <= fd → Z.to_nat fd = i → m_fdContexts s !! i = Some c → ctx_ok i c →
  let b1 := bit m1 READ in
  let c1 := clear_if b1 READ c in
  let b2 := bit (m2 c1) WRITE in
  (b1 = true → has c READ = true) → (b2 = true → has c WRITE = true) →
  nbits c <= m_pendingEventCount s <= 2 ^ 64 →
  ∃ s', (trigger_if m1 fd READ;; c ← context_at fd; trigger_if (m2 c) fd WRITE) s = Ok tt s' ∧
    fired i (clear_if b2 WRITE c1) (Z.b2z b1 + Z.b2z b2) (task_if b1 READ c ++ task_if b2 WRITE c) s s' ∧
    ctx_ok i (clear_if b2 WRITE c1) ∧
    nbits (clear_if b2 WRITE c1) = nbits c - (Z.b2z b1 + Z.b2z b2).
Proof.
  intros Hfd Hi Hc Hok b1 c1 b2 H1 H2 Hp. unfold nbits in Hp.
  destruct (trigger_if_run s fd i c READ m1 Hfd Hi Hc Hok (or_introl eq_refl))
    as (s1 & E1 & F1 & F2 & F3 & F4 & F5).
  { intros Hb. split; [by apply H1|]. rewrite (H1 Hb) in Hp. destruct (has c WRITE); simpl in Hp; lia. }
  fold b1 c1 in F1, F2, F5.
  assert (ctx_ok i c1 ∧ nbits c1 = nbits c - Z.b2z b1 ∧ has c1 WRITE = has c WRITE ∧
    ctx_of WRITE c1 = ctx_of WRITE c) as (Hok1 & Hn1 & Hw & Hx).
  { subst c1. destruct b1 eqn:Eb; cbn [clear_if Z.b2z]; [|by split_and!; try lia].
    destruct (proj1 (events_cases i c READ Hok (or_introl eq_refl)) (H1 eq_refl)) as (K1 & K2 & _).
    split_and!; [done|lia| |done]. destruct Hok as (_ & Hev & _). destruct c as [r w f ev].
    unfold has, cleared. cbn in *.
    repeat (apply elem_of_cons in Hev as [->|Hev]); [done..|by apply not_elem_of_nil in Hev]. }
  mstep E1. assert (m_fdContexts s1 !! i = Some c1) as Hc1.
  { rewrite F1. apply list_lookup_insert_eq. by eapply lookup_lt_Some. }
  rewrite <- Hi in Hc1. mstep (context_at_run s1 fd c1 Hfd Hc1). rewrite Hi in Hc1.
  destruct (trigger_if_run s1 fd i c1 WRITE (m2 c1) Hfd Hi Hc1 Hok1 (or_intror eq_refl))
    as (s2 & E2 & G1 & G2 & G3 & G4 & G5).
  { intros Hb. rewrite Hw. split; [by apply H2|]. rewrite F2.
    rewrite (H2 Hb) in Hp. destruct b1; [rewrite (H1 eq_refl) in Hp|destruct (has c READ)];
      simpl in *; lia. }
  fold b2 in G1, G2, G5. exists s2. split; [done|].
  assert (ctx_ok i (clear_if b2 WRITE c1) ∧ nbits (clear_if b2 WRITE c1) = nbits c1 - Z.b2z b2)
    as [Hok2 Hn2].
  { destruct b2 eqn:Eb; cbn [clear_if Z.b2z]; [|split; [done|lia]].
    destruct (proj1 (events_cases i c1 WRITE Hok1 (or_intror eq_refl))) as (K1 & K2 & _).
    { rewrite Hw. by apply H2. }
    split; [done|lia]. }
  split; [|split; [done|lia]]. split_and!.
  - by rewrite G1, F1, list_insert_insert_eq.
  - lia.
  - congruence.
  - congruence.
  - eapply hands_app; [exact F5|]. unfold task_if in *. by rewrite <- Hx.
Qed.

(** ** The operations against their specification *)

Inductive io_op :=
| IoAdd (who : caller) (rt fd event : Z) (cb : option Z)
| IoDel (rt fd event : Z)
| IoCancel (rt fd event : Z)
| IoCancelAll (rt fd : Z)
| IoReady (fd events rt2 : Z).

Definition io_exec (o : io_op) : M IOManager unit :=
  match o with
  | IoAdd who rt fd e cb => addEvent who rt fd e cb;; mret tt
  | IoDel rt fd e => delEvent rt fd e;; mret tt
  | IoCancel rt fd e => cancelEvent rt fd e;; mret tt
  | IoCancelAll rt fd => cancelAll rt fd;; mret tt
  | IoReady fd events rt2 => handle_event (FdEvent fd events) rt2
  end.

(** An event that [epoll_wait] reported for a descriptor, errors counting for
    whatever is registered. *)
Definition reported (s : IOManager) (fd events e : Z) : bool :=
  bit events e || (bit events (Z.lor EPOLLERR EPOLLHUP) && bool_decide (is_Some (waiter s fd e))).

(** The events an operation takes away. *)
Definition takes (o : io_op) (s : IOManager) (fd e : Z) : bool :=
  match o with
  | IoAdd _ _ _ _ _ => false
  | IoDel rt fd' e' | IoCancel rt fd' e' => (rt =? 0) && (fd =? fd') && (e =? e')
  | IoCancelAll rt fd' => (rt =? 0) && (fd =? fd')
  | IoReady fd' events rt => (rt =? 0) && (fd =? fd') && reported s fd events e
  end.

Definition new_task (who : caller) (cb : option Z) : Z * FiberAndThread :=
  (default 0 (cur_scheduler who),
   match cb with Some _ => mkFT None cb (-1) | None => mkFT (Some (cur_fiber who)) None (-1) end).

(** The waiters after an operation. *)
Definition waiter_after (o : io_op) (s : IOManager) (fd e : Z) : option (Z * FiberAndThread) :=
  if takes o s fd e then None
  else match o with
       | IoAdd who rt fd' e' cb =>
           if (rt =? 0) && (fd =? fd') && (e =? e') then Some (new_task who cb) else waiter s fd e
       | _ => waiter s fd e
       end.

(** The tasks an operation schedules: every waiter it takes away, except that
    [delEvent] drops its waiter. *)
Definition fires (o : io_op) (s : IOManager) : list (Z * FiberAndThread) :=
  match o with
  | IoAdd _ _ _ _ _ | IoDel _ _ _ => []
  | IoCancel _ fd e => if takes o s fd e then option_list (waiter s fd e) else []
  | IoCancelAll _ fd | IoReady fd _ _ =>
      (if takes o s fd READ then option_list (waiter s fd READ) else []) ++
      (if takes o s fd WRITE then option_list (waiter s fd WRITE) else [])
  end.

(** A descriptor other than the tickle pipe's, an event, a thread that has a
    scheduler; reports are for contexts that exist. *)
Definition io_args (tfd : Z) (o : io_op) (s : IOManager) : Prop :=
  match o with
  | IoAdd who rt fd e cb => 0 <= fd < 2 ^ 31 ∧ fd ≠ tfd ∧ is_event e ∧ is_Some (cur_scheduler who)
  | IoDel rt fd e | IoCancel rt fd e => 0 <= fd ∧ fd ≠ tfd ∧ is_event e
  | IoCancelAll rt fd => 0 <= fd ∧ fd ≠ tfd
  | IoReady fd events rt2 => 0 <= fd < zlen (m_fdContexts s) ∧ fd ≠ tfd
  end.

(** The calls that stop the process: [addEvent] of an event that has a waiter,
    or from a fiber that is not running; and a report, acted on, in which
    some events have a waiter and others do not. *)
Definition io_asserts (o : io_op) (s : IOManager) : Prop :=
  match o with
  | IoAdd who rt fd e cb => is_Some (waiter s fd e) ∨ (rt = 0 ∧ cb = None ∧ cur_state who ≠ EXEC)
  | IoReady fd events rt2 =>
      rt2 = 0 ∧ (∃ e, is_event e ∧ reported s fd events e = true ∧ is_Some (waiter s fd e)) ∧
      (∃ e, is_event e ∧ reported s fd events e = true ∧ waiter s fd e = None)
  | _ => False
  end.

Definition io_legal (tfd : Z) (o : io_op) (s : IOManager) : Prop := io_args tfd o s ∧ ¬ io_asserts o s.

Definition refines (tfd : Z) (o : io_op) (s s' : IOManager) : Prop :=
  io_inv tfd s' ∧ hands s s' (fires o s) ∧
  ∀ fd e, 0 <= fd → is_event e → waiter s' fd e = waiter_after o s fd e.

(** Nothing happened: the operation takes no waiter away. *)
Lemma refines_same tfd o s :
  io_inv tfd s → match o with IoAdd _ rt _ _ _ => rt ≠ 0 | _ => True end →
  (∀ fd e, 0 <= fd → is_event e → takes o s fd e = true → waiter s fd e = None) →
  match o with IoCancel _ fd _ | IoCancelAll _ fd | IoReady fd _ _ => 0 <= fd | _ => True end →
  match o with IoCancel _ _ e => is_event e | _ => True end →
  refines tfd o s s.
Proof.
  intros Hinv Ho Ht Hfd He. split_and!; [done| |].
  - assert (fires o s = []) as ->; [|by apply hands_nil].
    assert (∀ fd e, 0 <= fd → is_event e →
      (if takes o s fd e then option_list (waiter s fd e) else []) = []) as Hx.
    { intros fd e Hf Hev. destruct (takes o s fd e) eqn:E; [|done]. by rewrite (Ht fd e Hf Hev E). }
    destruct o; simpl in *; try done.
    + by apply Hx.
    + rewrite !Hx; try done; [by right|by left].
    + rewrite !Hx; try done; [by right|by left].
  - intros fd e Hf Hev. unfold waiter_after. destruct (takes o s fd e) eqn:E; [by apply Ht|].
    destruct o; try done. simpl in Ho. by rewrite (proj2 (Z.eqb_neq _ _) Ho).
Qed.

Lemma find_context_run tfd s fd :
  io_inv tfd s → 0 <= fd →
  find_context fd s = Ok (m_fdContexts s !! Z.to_nat fd) s.
Proof.
  intros Hinv Hfd. unfold find_context. mget. destruct (zlen (m_fdContexts s) <=? fd) eqn:E.
  - rewrite lookup_ge_None_2; [done|]. unfold zlen in E. lia.
  - destruct (lookup_lt_is_Some_2 (m_fdContexts s) (Z.to_nat fd)) as [c Hc]; [unfold zlen in E; lia|].
    rewrite Hc. by mstep (context_at_run s fd c Hfd Hc).
Qed.

Lemma has_waiter s fd e c :
  m_fdContexts s !! Z.to_nat fd = Some c →
  waiter s fd e = if has c e then Some (task_of (ctx_of e c)) else None.
Proof. intros H. unfold waiter. by rewrite H. Qed.

(** The events of one descriptor in [es] went away, [ts] being scheduled. *)
Lemma refines_cleared tfd o s s' fd c c' es ts :
  io_inv tfd s → 0 <= fd → fd ≠ tfd → m_fdContexts s !! Z.to_nat fd = Some c →
  ctx_ok (Z.to_nat fd) c' →
  m_fdContexts s' = <[Z.to_nat fd := c']> (m_fdContexts s) →
  m_pendingEventCount s' = m_pendingEventCount s - nbits c + nbits c' →
  (∀ j, j ≠ fd → interest s' !! j = interest s !! j) →
  interest s' !! fd = (if c_events c' =? 0 then None else Some (Z.lor EPOLLET (c_events c'))) →
  hands s s' ts → ts = fires o s →
  (∀ e, is_event e → (if has c' e then Some (task_of (ctx_of e c')) else None) =
                     if es e : bool then None else waiter s fd e) →
  (∀ fd' e, 0 <= fd' → is_event e → waiter_after o s fd' e =
     if decide (fd' = fd) then (if es e then None else waiter s fd e) else waiter s fd' e) →
  refines tfd o s s'.
Proof.
  intros Hinv Hfd Hne Hc Hok Ec Ep Hi1 Hi2 Hh -> He Ha.
  assert (Z.of_nat (Z.to_nat fd) = fd) as Hz by lia. split_and!; [|done|].
  - eapply (io_inv_update tfd s s' (Z.to_nat fd) c c'); try done; by rewrite Hz.
  - intros fd' e Hf He'. rewrite (waiter_update s s' _ c c' fd' e Ec Hc), (Ha fd' e Hf He').
    destruct (decide (fd' = fd)) as [->|Hn].
    + rewrite decide_True by done. by apply He.
    + rewrite decide_False by lia. done.
Qed.

(** What [delEvent] and [cancelEvent] share before they act. *)
Lemma one_event_none tfd (o : io_op) s rt fd e :
  io_inv tfd s → 0 <= fd → is_event e → o = IoDel rt fd e ∨ o = IoCancel rt fd e →
  waiter s fd e = None ∨ rt ≠ 0 → refines tfd o s s.
Proof.
  intros Hinv Hfd He Ho Hw. apply refines_same; try done; try (by destruct Ho as [-> | ->]).
  intros fd' e' Hf He' Ht.
  assert (rt = 0 ∧ fd' = fd ∧ e' = e) as (-> & -> & ->)
    by (destruct Ho as [-> | ->]; simpl in Ht; lia).
  by destruct Hw.
Qed.

Lemma one_event_after (o : io_op) s fd e :
  o = IoDel 0 fd e ∨ o = IoCancel 0 fd e →
  ∀ fd' e', 0 <= fd' → is_event e' → waiter_after o s fd' e' =
     if decide (fd' = fd) then (if bool_decide (e' = e) then None else waiter s fd e') else waiter s fd' e'.
Proof.
  intros Ho fd' e' _ _.
  assert (waiter_after o s fd' e' = if (fd' =? fd) && (e' =? e) then None else waiter s fd' e') as ->
    by (by destruct Ho as [-> | ->]).
  destruct (decide (fd' = fd)) as [->|Hne].
  - rewrite Z.eqb_refl. simpl. case_bool_decide as Hb; [by rewrite (proj2 (Z.eqb_eq e' e) Hb)|].
    by rewrite (proj2 (Z.eqb_neq e' e) Hb).
  - by rewrite (proj2 (Z.eqb_neq fd' fd) Hne).
Qed.

Lemma cleared_waiter' tfd s fd c e :
  io_inv tfd s → m_fdContexts s !! Z.to_nat fd = Some c → is_event e →
  ∀ e', is_event e' → (if has (cleared e c) e' then Some (task_of (ctx_of e' (cleared e c))) else None) =
    if bool_decide (e' = e) then None else waiter s fd e'.
Proof.
  intros Hinv Hc He e' He'. rewrite (cleared_waiter (Z.to_nat fd) c e e'); [|by apply (io_ctx tfd s)|done|done].
  rewrite (has_waiter s fd e' c Hc). by destruct (decide (e' = e)); case_bool_decide.
Qed.

Lemma delEvent_refines tfd s rt fd e :
  io_inv tfd s → io_legal tfd (IoDel rt fd e) s →
  ∃ s', io_exec (IoDel rt fd e) s = Ok tt s' ∧ refines tfd (IoDel rt fd e) s s'.
Proof.
  intros Hinv ((Hfd & Hne & He) & _). cbn [io_exec]. unfold delEvent.
  pose proof (one_event_none tfd (IoDel rt fd e) s rt fd e Hinv Hfd He (or_introl eq_refl)) as Hnone.
  destruct (m_fdContexts s !! Z.to_nat fd) as [c|] eqn:Hc.
  2: { exists s. split; [|apply Hnone; left; unfold waiter; by rewrite Hc].
       rewrite (bind_ok _ _ s false s); [done|].
       rewrite (bind_ok _ _ s None s); [done|]. by rewrite (find_context_run tfd s fd Hinv Hfd), Hc. }
  pose proof (has_waiter s fd e c Hc) as Hhw. pose proof (io_ctx tfd s Hinv _ _ Hc) as Hok.
  assert (find_context fd s = Ok (Some c) s) as Hfind by (by rewrite (find_context_run tfd s fd), Hc).
  destruct (has c e) eqn:Hh.
  2: { exists s. split; [|by apply Hnone; left]. rewrite (bind_ok _ _ s false s); [done|].
       mstep Hfind. by rewrite land_events_has, Hh. }
  destruct (decide (rt = 0)) as [->|Hrt].
  2: { exists s. split; [|by apply Hnone; right]. rewrite (bind_ok _ _ s false s); [done|].
       mstep Hfind. rewrite land_events_has, Hh. cbn [negb].
       rewrite (bind_ok _ _ s tt s) by (by apply epoll_ctl_fail).
       by rewrite (proj2 (Z.eqb_neq rt 0) Hrt). }
  destruct (proj1 (events_cases _ c e Hok He) Hh) as (Hn & Hok' & _).
  pose proof (pending_dec tfd s _ c e Hinv Hc He Hh) as Hpd.
  destruct (interest_after (interest s) fd (Z.ldiff (c_events c) e)) as [Hi1 Hi2].
  eexists. split.
  - unfold mbind at 1. unfold M_bind at 1. mstep Hfind. rewrite land_events_has, Hh. cbn [negb].
    rewrite (bind_ok _ _ s _ _ (epoll_ctl_ok _ _ _ _)). cbn [Z.eqb negb]. rewrite bind_modify.
    rewrite (bind_ok _ _ _ _ _ (getContext_run e _ _ He)). unfold put_context_at.
    rewrite bind_modify. reflexivity.
  - eapply (refines_cleared tfd _ s _ fd c (cleared e c) (λ e', bool_decide (e' = e)) []); try done.
    + cbn. rewrite Hpd, Hn. lia.
    + by rewrite cleared_events.
    + by apply hands_nil.
    + by apply (cleared_waiter' tfd).
    + apply one_event_after. by left.
Qed.

Lemma cancelEvent_refines tfd s rt fd e :
  io_inv tfd s → io_legal tfd (IoCancel rt fd e) s →
  ∃ s', io_exec (IoCancel rt fd e) s = Ok tt s' ∧ refines tfd (IoCancel rt fd e) s s'.
Proof.
  intros Hinv ((Hfd & Hne & He) & _). cbn [io_exec]. unfold cancelEvent.
  pose proof (one_event_none tfd (IoCancel rt fd e) s rt fd e Hinv Hfd He (or_intror eq_refl)) as Hnone.
  destruct (m_fdContexts s !! Z.to_nat fd) as [c|] eqn:Hc.
  2: { exists s. split; [|apply Hnone; left; unfold waiter; by rewrite Hc].
       rewrite (bind_ok _ _ s false s); [done|].
       rewrite (bind_ok _ _ s None s); [done|]. by rewrite (find_context_run tfd s fd Hinv Hfd), Hc. }
  pose proof (has_waiter s fd e c Hc) as Hhw. pose proof (io_ctx tfd s Hinv _ _ Hc) as Hok.
  assert (find_context fd s = Ok (Some c) s) as Hfind by (by rewrite (find_context_run tfd s fd), Hc).
  destruct (has c e) eqn:Hh.
  2: { exists s. split; [|by apply Hnone; left]. rewrite (bind_ok _ _ s false s); [done|].
       mstep Hfind. by rewrite land_events_has, Hh. }
  destruct (decide (rt = 0)) as [->|Hrt].
  2: { exists s. split; [|by apply Hnone; right]. rewrite (bind_ok _ _ s false s); [done|].
       mstep Hfind. rewrite land_events_has, Hh. cbn [negb].
       rewrite (bind_ok _ _ s tt s) by (by apply epoll_ctl_fail).
       by rewrite (proj2 (Z.eqb_neq rt 0) Hrt). }
  destruct (proj1 (events_cases _ c e Hok He) Hh) as (Hn & Hok' & _).
  pose proof (pending_dec tfd s _ c e Hinv Hc He Hh) as Hpd.
  destruct (interest_after (interest s) fd (Z.ldiff (c_events c) e)) as [Hi1 Hi2].
  set (s1 := set_interest (match (if Z.ldiff (c_events c) e =? 0 then EPOLL_CTL_DEL else EPOLL_CTL_MOD)
    with EPOLL_CTL_DEL => delete fd (interest s)
    | _ => <[fd := Z.lor EPOLLET (Z.ldiff (c_events c) e)]> (interest s) end) s).
  destruct (trigger_run s1 fd e _ c Hfd eq_refl Hc Hok He Hh) as (s2 & E2 & F1 & F2 & F3 & F4 & F5).
  eexists. split.
  - unfold mbind at 1. unfold M_bind at 1. mstep Hfind. rewrite land_events_has, Hh. cbn [negb].
    rewrite (bind_ok _ _ s _ _ (epoll_ctl_ok _ _ _ _)). fold s1. cbn [Z.eqb negb]. mstep E2.
    rewrite bind_modify. reflexivity.
  - eapply (refines_cleared tfd _ s _ fd c (cleared e c) (λ e', bool_decide (e' = e))
      [task_of (ctx_of e c)]); try done.
    + cbn. rewrite F2. cbn. rewrite Hpd, Hn. lia.
    + cbn. by rewrite F3.
    + cbn. rewrite F3, cleared_events. exact Hi2.
    + simpl. rewrite !Z.eqb_refl. simpl. by rewrite Hhw.
    + by apply (cleared_waiter' tfd).
    + apply one_event_after. by right.
Qed.

(** The waiters left in a context after some events were cleared. *)
Lemma clear_both i c b1 b2 e :
  ctx_ok i c → is_event e →
  let c' := clear_if b2 WRITE (clear_if b1 READ c) in
  (if has c' e then Some (task_of (ctx_of e c')) else None) =
  if (if e =? READ then b1 else b2) then None
  else if has c e then Some (task_of (ctx_of e c)) else None.
Proof.
  destruct c as [r w fd ev]. intros (_ & Hev & _ & _) He.
  unfold has, cleared, put_context, set_events, ctx_of, clear_if in *. cbn in *.
  repeat (apply elem_of_cons in Hev as [->|Hev]); [..|by apply not_elem_of_nil in Hev];
    destruct b1, b2, He as [-> | ->]; done.
Qed.

Lemma clear_both_events c b1 b2 :
  c_events (clear_if b2 WRITE (clear_if b1 READ c)) =
  Z.ldiff (c_events c) (Z.lor (if b1 then READ else 0) (if b2 then WRITE else 0)).
Proof.
  destruct b1, b2; cbn [clear_if]; rewrite ?cleared_events; cbn [Z.lor]; rewrite ?Z.ldiff_0_r; try done.
  by rewrite <- Z.ldiff_ldiff_l.
Qed.

Lemma pending_range tfd s i c :
  io_inv tfd s → m_fdContexts s !! i = Some c → nbits c <= m_pendingEventCount s <= 2 ^ 64.
Proof.
  intros Hinv Hc. rewrite (io_pending _ _ Hinv). pose proof (total_lookup _ _ _ Hc).
  pose proof (total_bound (m_fdContexts s)). pose proof (io_len _ _ Hinv). lia.
Qed.

(** [READ] and [WRITE] fired as [b1] and [b2] say, for an operation whose
    specification takes these away. *)
Lemma both_refines tfd o s s1 s' fd c b1 b2 :
  io_inv tfd s → 0 <= fd → fd ≠ tfd → m_fdContexts s !! Z.to_nat fd = Some c →
  m_fdContexts s1 = m_fdContexts s → m_pendingEventCount s1 = m_pendingEventCount s →
  (∀ j, j ≠ fd → interest s1 !! j = interest s !! j) →
  (let ev := c_events (clear_if b2 WRITE (clear_if b1 READ c)) in
   interest s1 !! fd = if ev =? 0 then None else Some (Z.lor EPOLLET ev)) →
  base s1 = base s → elsewhere s1 = elsewhere s →
  fired (Z.to_nat fd) (clear_if b2 WRITE (clear_if b1 READ c)) (Z.b2z b1 + Z.b2z b2)
    (task_if b1 READ c ++ task_if b2 WRITE c) s1 s' →
  ctx_ok (Z.to_nat fd) (clear_if b2 WRITE (clear_if b1 READ c)) →
  nbits (clear_if b2 WRITE (clear_if b1 READ c)) = nbits c - (Z.b2z b1 + Z.b2z b2) →
  (b1 = true → has c READ = true) → (b2 = true → has c WRITE = true) →
  (o = IoCancelAll 0 fd ∨ ∃ ev, o = IoReady fd ev 0) →
  (∀ e, is_event e → is_Some (waiter s fd e) → takes o s fd e = if e =? READ then b1 else b2) →
  refines tfd o s s'.
Proof.
  intros Hinv Hfd Hne Hc E1 E2 Hi1 Hi2 Eb Ee (F1 & F2 & F3 & F4 & F5) Hok Hn H1 H2 Ho Htk.
  assert (∀ e, is_event e →
    (if (if e =? READ then b1 else b2) then None else waiter s fd e) =
    if takes o s fd e then None else waiter s fd e) as Hpt.
  { intros e He. destruct (waiter s fd e) as [x|] eqn:Ew.
    - by rewrite Htk by (by rewrite ?Ew; eauto).
    - by destruct (if e =? READ then _ else _), (takes o s fd e). }
  eapply (refines_cleared tfd o s s' fd c _ (λ e, takes o s fd e)
    (task_if b1 READ c ++ task_if b2 WRITE c)); try done.
  - by rewrite F1, E1.
  - rewrite F2, E2, Hn. lia.
  - intros j Hj. rewrite F3. by apply Hi1.
  - rewrite F3. exact Hi2.
  - destruct F5 as [F5 F5']. split; [by rewrite F5, Eb|by rewrite F5', Ee].
  - assert (∀ e b, is_event e → b = (if e =? READ then b1 else b2) → (b = true → has c e = true) →
      task_if b e c = if takes o s fd e then option_list (waiter s fd e) else []) as Hts.
    { intros e b He Hb Hbh. rewrite (has_waiter s fd e c Hc).
      destruct (has c e) eqn:Hh.
      - rewrite Htk by (by rewrite ?(has_waiter s fd e c Hc), ?Hh; eauto). rewrite <- Hb. by destruct b.
      - destruct b; [by specialize (Hbh eq_refl)|]. by destruct (takes o s fd e). }
    rewrite (Hts READ b1), (Hts WRITE b2); try done; [|by right|by left].
    by destruct Ho as [->|[ev ->]].
  - intros e He. rewrite (clear_both (Z.to_nat fd) c b1 b2 e (io_ctx tfd s Hinv _ _ Hc) He).
    rewrite <- (has_waiter s fd e c Hc). by apply Hpt.
  - intros fd' e Hf He. destruct (decide (fd' = fd)) as [->|Hd].
    + unfold waiter_after. destruct Ho as [->|[ev ->]]; reflexivity.
    + unfold waiter_after. assert (takes o s fd' e = false) as ->.
      { destruct Ho as [->|[ev ->]]; simpl; by rewrite (proj2 (Z.eqb_neq fd' fd) Hd), ?andb_false_r. }
      by destruct Ho as [->|[ev ->]].
Qed.

(** What [cancelAll] clears: the second mask is read after the first event is
    gone. *)
Lemma cancel_bits i c : ctx_ok i c →
  let b1 := bit (c_events c) READ in
  let b2 := bit (c_events (clear_if b1 READ c)) WRITE in
  b2 = has c WRITE ∧ c_events (clear_if b2 WRITE (clear_if b1 READ c)) = 0.
Proof.
  intros (_ & Hev & _). destruct c as [r w f ev]. unfold bit, has, clear_if, cleared. cbn in *.
  repeat (apply elem_of_cons in Hev as [->|Hev]); [done..|by apply not_elem_of_nil in Hev].
Qed.

Lemma cancelAll_refines tfd s rt fd :
  io_inv tfd s → io_legal tfd (IoCancelAll rt fd) s →
  ∃ s', io_exec (IoCancelAll rt fd) s = Ok tt s' ∧ refines tfd (IoCancelAll rt fd) s s'.
Proof.
  intros Hinv ((Hfd & Hne) & _). cbn [io_exec]. unfold cancelAll.
  assert ((∀ e, is_event e → waiter s fd e = None) ∨ rt ≠ 0 → refines tfd (IoCancelAll rt fd) s s) as Hnone.
  { intros Hw. apply refines_same; try done. intros fd' e' Hf He' Ht. simpl in Ht.
    assert (rt = 0 ∧ fd' = fd) as [-> ->] by lia. destruct Hw as [Hw|Hw]; [by apply Hw|done]. }
  destruct (m_fdContexts s !! Z.to_nat fd) as [c|] eqn:Hc.
  2: { exists s. split; [|apply Hnone; left; intros; unfold waiter; by rewrite Hc].
       rewrite (bind_ok _ _ s false s); [done|].
       rewrite (bind_ok _ _ s None s); [done|]. by rewrite (find_context_run tfd s fd Hinv Hfd), Hc. }
  pose proof (io_ctx tfd s Hinv _ _ Hc) as Hok.
  assert (find_context fd s = Ok (Some c) s) as Hfind by (by rewrite (find_context_run tfd s fd), Hc).
  destruct (decide (c_events c = 0)) as [Hz|Hnz].
  { exists s. split.
    - rewrite (bind_ok _ _ s false s); [done|]. mstep Hfind. by rewrite Hz.
    - apply Hnone. left. intros e _. rewrite (has_waiter s fd e c Hc). unfold has. by rewrite Hz. }
  destruct (decide (rt = 0)) as [->|Hrt].
  2: { exists s. split; [|by apply Hnone; right]. rewrite (bind_ok _ _ s false s); [done|].
       mstep Hfind. rewrite (proj2 (Z.eqb_neq _ 0) Hnz).
       rewrite (bind_ok _ _ s tt s) by (by apply epoll_ctl_fail).
       by rewrite (proj2 (Z.eqb_neq rt 0) Hrt). }
  set (s1 := set_interest (delete fd (interest s)) s).
  destruct (triggers_run s1 fd _ c (c_events c) c_events Hfd eq_refl Hc Hok) as (s2 & E2 & Hf & Hok2 & Hn2);
    [done|by rewrite (proj1 (cancel_bits _ c Hok))|by eapply (pending_range tfd s)|].
  set (b1 := bit (c_events c) READ) in *. set (b2 := bit _ WRITE) in *.
  assert (b2 = has c WRITE ∧ c_events (clear_if b2 WRITE (clear_if b1 READ c)) = 0) as [Hb2 Hev0]
    by exact (cancel_bits _ c Hok).
  exists s2. split.
  - unfold mbind at 1. unfold M_bind at 1. mstep Hfind. rewrite (proj2 (Z.eqb_neq _ 0) Hnz).
    rewrite (bind_ok _ _ s _ _ (epoll_ctl_ok _ _ _ _)). fold s1. cbn [Z.eqb negb].
    minv E2. mstep E. minv E2. mstep E0. mstep E2.
    destruct Hf as (F1 & _). rewrite (bind_ok _ _ s2 (clear_if b2 WRITE (clear_if b1 READ c)) s2).
    + by rewrite Hev0.
    + apply context_at_run; [done|]. rewrite F1. apply list_lookup_insert_eq. by eapply lookup_lt_Some.
  - eapply (both_refines tfd _ s s1 s2 fd c b1 b2); try done.
    + intros j Hj. cbn. by rewrite lookup_delete_ne.
    + cbv zeta. rewrite Hev0. cbn. apply lookup_delete_eq.
    + congruence.
    + by left.
    + intros e He. rewrite (has_waiter s fd e c Hc). simpl. rewrite Z.eqb_refl. simpl.
      destruct (has c e) eqn:Hh; [|by intros [? ?]]. intros _.
      destruct He as [-> | ->]; simpl; [by subst b1|by rewrite Hb2].
Qed.

(** The events [handle_event] acts on. *)
Definition real_of (c : FdContext) (events : Z) : Z :=
  let events := if Z.land events (Z.lor EPOLLERR EPOLLHUP) =? 0 then events
                else Z.lor events (Z.land (Z.lor EPOLLIN EPOLLOUT) (c_events c)) in
  Z.lor (if Z.land events EPOLLIN =? 0 then NONE else READ)
        (if Z.land events EPOLLOUT =? 0 then NONE else WRITE).

Lemma lor_zero a b : (Z.lor a b =? 0) = (a =? 0) && (b =? 0).
Proof.
  destruct (a =? 0) eqn:Ea, (b =? 0) eqn:Eb; simpl; rewrite ?Z.eqb_eq, ?Z.eqb_neq in *; subst; try done.
  - rewrite Z.lor_0_r. lia.
  - intros E%Z.lor_eq_0_iff. lia.
Qed.

Lemma real_bit i c events e :
  ctx_ok i c → is_event e →
  bit (real_of c events) e =
  bit events e || (bit events (Z.lor EPOLLERR EPOLLHUP) && has c e).
Proof.
  intros (_ & Hev & _) He.
  assert (∀ x y, bit (Z.lor (if x : bool then NONE else READ) (if y : bool then NONE else WRITE)) e =
    negb (if e =? READ then x else y)) as Hb by (intros [] []; by destruct He as [-> | ->]).
  unfold real_of. rewrite Hb. unfold bit at 2.
  destruct (Z.land events (Z.lor EPOLLERR EPOLLHUP) =? 0); cbn [negb andb].
  - unfold bit. rewrite orb_false_r. by destruct He as [-> | ->].
  - assert (∀ e', is_event e' → (Z.land (Z.lor events (Z.land (Z.lor EPOLLIN EPOLLOUT) (c_events c))) e' =? 0) =
      negb (bit events e' || has c e')) as Hx.
    { intros e' He'. rewrite Z.land_lor_distr_l, lor_zero. unfold bit, has.
      rewrite negb_orb, !negb_involutive. f_equal. destruct c as [r w f ev]. cbn in *.
      repeat (apply elem_of_cons in Hev as [->|Hev]); [..|by apply not_elem_of_nil in Hev];
        by destruct He' as [-> | ->]. }
    change EPOLLIN with READ at 2. change EPOLLOUT with WRITE at 3.
    rewrite (Hx READ (or_introl eq_refl)), (Hx WRITE (or_intror eq_refl)).
    destruct He as [-> | ->]; simpl; by rewrite negb_involutive.
Qed.

Lemma real_mask c events :
  real_of c events = Z.lor (if bit (real_of c events) READ then READ else 0)
                           (if bit (real_of c events) WRITE then WRITE else 0).
Proof.
  unfold real_of. set (ev := if _ =? 0 then events else _). clearbody ev.
  by destruct (Z.land ev EPOLLIN =? 0), (Z.land ev EPOLLOUT =? 0).
Qed.

Lemma land_real i c events :
  ctx_ok i c →
  (Z.land (c_events c) (real_of c events) =? 0) =
  negb (bit (real_of c events) READ && has c READ) && negb (bit (real_of c events) WRITE && has c WRITE).
Proof.
  intros (_ & Hev & _). rewrite (real_mask c events) at 1. unfold has. destruct c as [r w f ev]. cbn in *.
  repeat (apply elem_of_cons in Hev as [->|Hev]); [..|by apply not_elem_of_nil in Hev];
    by destruct (bit _ READ), (bit _ WRITE).
Qed.

Lemma reported_real i s fd events c e :
  ctx_ok i c → m_fdContexts s !! Z.to_nat fd = Some c → is_event e →
  reported s fd events e = bit (real_of c events) e.
Proof.
  intros Hok Hc He. rewrite (real_bit i c events e Hok He). unfold reported. rewrite (has_waiter s fd e c Hc).
  destruct (has c e); [by rewrite bool_decide_eq_true_2 by eauto|by rewrite bool_decide_eq_false_2 by (by intros [? ?])].
Qed.

(** If a report that concerns a waiter is legal, every event it has is
    registered. *)
Lemma legal_has i s fd events c :
  ctx_ok i c → m_fdContexts s !! Z.to_nat fd = Some c → ¬ io_asserts (IoReady fd events 0) s →
  (∃ e, is_event e ∧ bit (real_of c events) e && has c e = true) →
  ∀ e, is_event e → bit (real_of c events) e = true → has c e = true.
Proof.
  intros Hok Hc Hn (e1 & He1 & [Hb1 Hh1]%andb_true_iff) e He Hb. destruct (has c e) eqn:Hh; [done|exfalso].
  apply Hn. split; [done|]. split; [exists e1|exists e].
  - split; [done|]. rewrite (reported_real i s fd events c e1 Hok Hc He1), (has_waiter s fd e1 c Hc), Hh1. eauto.
  - split; [done|]. rewrite (reported_real i s fd events c e Hok Hc He), (has_waiter s fd e c Hc), Hh. eauto.
Qed.

Lemma ready_refines tfd s fd events rt :
  io_inv tfd s → io_legal tfd (IoReady fd events rt) s →
  ∃ s', io_exec (IoReady fd events rt) s = Ok tt s' ∧ refines tfd (IoReady fd events rt) s s'.
Proof.
  intros Hinv (((Hfd & Hlt) & Hne) & Hleg).
  destruct (lookup_lt_is_Some_2 (m_fdContexts s) (Z.to_nat fd)) as [c Hc]; [unfold zlen in Hlt; lia|].
  pose proof (io_ctx tfd s Hinv _ _ Hc) as Hok. pose proof (λ e, has_waiter s fd e c Hc) as Hw.
  assert (∀ e, is_event e → reported s fd events e = bit (real_of c events) e) as Hrep
    by (intros e He; by apply (reported_real _ s fd events c e Hok Hc)).
  cbn [io_exec handle_event]. mstep (context_at_run s fd c Hfd Hc).
  fold (real_of c events). change NONE with 0 at 1. rewrite (land_real _ c events Hok).
  set (b1 := bit (real_of c events) READ). set (b2 := bit (real_of c events) WRITE).
  destruct (negb (b1 && has c READ) && negb (b2 && has c WRITE)) eqn:Eb.
  { exists s. split; [done|]. apply refines_same; try done. intros fd' e Hf He Ht. simpl in Ht.
    apply andb_true_iff in Ht as [[_ Hd%Z.eqb_eq]%andb_true_iff Hr]. subst fd'.
    rewrite (Hrep e He) in Hr. rewrite (Hw e). destruct He as [-> | ->]; fold b1 b2 in Hr; rewrite Hr in Eb;
      destruct (has c READ), (has c WRITE); simpl in Eb; try done; by rewrite ?andb_false_r in Eb. }
  destruct (decide (rt = 0)) as [->|Hrt].
  2: { exists s. rewrite (bind_ok _ _ s tt s) by (by apply epoll_ctl_fail).
       rewrite (proj2 (Z.eqb_neq rt 0) Hrt). split; [done|]. apply refines_same; try done.
       intros fd' e Hf He Ht. simpl in Ht. lia. }
  assert ((b1 = true → has c READ = true) ∧ (b2 = true → has c WRITE = true)) as [H1 H2].
  { assert (∃ e, is_event e ∧ bit (real_of c events) e && has c e = true) as Hx.
    { apply andb_false_iff in Eb as [Eb%negb_false_iff|Eb%negb_false_iff]; [exists READ|exists WRITE];
        (split; [by (left + right)|done]). }
    split; eapply legal_has; eauto; [by left|by right]. }
  rewrite (bind_ok _ _ s _ _ (epoll_ctl_ok _ _ _ _)). cbn [Z.eqb negb].
  assert (c_fd c = fd) as Ecfd by (destruct Hok as [-> _]; lia). rewrite Ecfd.
  destruct (interest_after (interest s) fd (Z.ldiff (c_events c) (real_of c events))) as [Hi1 Hi2].
  set (s1 := set_interest _ s).
  destruct (triggers_run s1 fd _ c (real_of c events) (λ _, real_of c events) Hfd eq_refl Hc Hok)
    as (s2 & E2 & Hf & Hok2 & Hn2); [done|done|by eapply (pending_range tfd s)|].
  exists s2. split.
  - minv E2. mstep E. minv E2. apply context_at_ok in E0 as ->. done.
  - eapply (both_refines tfd _ s s1 s2 fd c b1 b2); try done.
    + cbv zeta. rewrite clear_both_events. unfold b1, b2. rewrite <- real_mask. exact Hi2.
    + right. by eexists.
    + intros e He _. simpl. rewrite Z.eqb_refl. simpl. rewrite (Hrep e He).
      by destruct He as [-> | ->].
Qed.

Lemma trigger_abort s fd c e :
  0 <= fd → m_fdContexts s !! Z.to_nat fd = Some c → has c e = false →
  triggerEvent fd e s = Abort "events & event".
Proof.
  intros Hfd Hc Hh. unfold triggerEvent. mstep (context_at_run s fd c Hfd Hc).
  apply bind_abort. unfold has in Hh. by rewrite Hh.
Qed.

Lemma trigger_if_abort mask s fd c e :
  0 <= fd → m_fdContexts s !! Z.to_nat fd = Some c → bit mask e = true → has c e = false →
  trigger_if mask fd e s = Abort "events & event".
Proof.
  intros Hfd Hc Hb Hh. unfold trigger_if. fold (bit mask e). rewrite Hb. cbn [when].
  apply bind_abort. by eapply trigger_abort.
Qed.

(** A report of events some of which are gone fails the assertion of
    [triggerEvent]. *)
Lemma ready_aborts tfd s fd events rt :
  io_inv tfd s → io_args tfd (IoReady fd events rt) s → io_asserts (IoReady fd events rt) s →
  io_exec (IoReady fd events rt) s = Abort "events & event".
Proof.
  intros Hinv ((Hfd & Hlt) & Hne) (-> & (e1 & He1 & Hr1 & Hw1) & (e2 & He2 & Hr2 & Hw2)).
  destruct (lookup_lt_is_Some_2 (m_fdContexts s) (Z.to_nat fd)) as [c Hc]; [unfold zlen in Hlt; lia|].
  pose proof (io_ctx tfd s Hinv _ _ Hc) as Hok.
  rewrite (has_waiter s fd e1 c Hc) in Hw1. rewrite (has_waiter s fd e2 c Hc) in Hw2.
  rewrite (reported_real _ s fd events c e1 Hok Hc He1) in Hr1. rewrite (reported_real _ s fd events c e2 Hok Hc He2) in Hr2.
  assert (has c e1 = true) as Hh1 by (destruct (has c e1); [done|by destruct Hw1]).
  assert (has c e2 = false) as Hh2 by (by destruct (has c e2)).
  cbn [io_exec handle_event]. mstep (context_at_run s fd c Hfd Hc).
  fold (real_of c events). change NONE with 0 at 1. rewrite (land_real _ c events Hok).
  assert (negb (bit (real_of c events) READ && has c READ) && negb (bit (real_of c events) WRITE && has c WRITE) = false) as ->.
  { destruct He1 as [-> | ->]; rewrite Hr1, Hh1; simpl; by rewrite ?andb_false_r. }
  rewrite (bind_ok _ _ s _ _ (epoll_ctl_ok _ _ _ _)). cbn [Z.eqb negb]. set (s1 := set_interest _ s).
  destruct He2 as [-> | ->]; [by apply bind_abort, (trigger_if_abort _ s1 fd c)|].
  assert (e1 = READ) as -> by (destruct He1 as [-> | ->]; congruence).
  destruct (trigger_if_run s1 fd _ c READ (real_of c events) Hfd eq_refl Hc Hok (or_introl eq_refl)) as (s2 & E & F1 & _).
  { intros _. split; [done|]. pose proof (pending_range tfd s _ c Hinv Hc) as Hp. unfold nbits in Hp.
    rewrite Hh1 in Hp. change (m_pendingEventCount s1) with (m_pendingEventCount s).
    destruct (has c WRITE); simpl in Hp; lia. }
  mstep E. rewrite Hr1 in F1. eapply trigger_if_abort; [done| |done|].
  - rewrite F1. apply list_lookup_insert_eq. by eapply lookup_lt_Some.
  - destruct Hok as (_ & Hev & _). destruct c as [rc wc f ev]. unfold has, clear_if, cleared in *. cbn in *.
    repeat (apply elem_of_cons in Hev as [->|Hev]); [done..|by apply not_elem_of_nil in Hev].
Qed.

Lemma total_app l1 l2 : total (l1 ++ l2) = total l1 + total l2.
Proof. induction l1 as [|c l IH]; simpl; [done|]. rewrite IH. lia. Qed.

Definition fresh_contexts (a n : nat) : list FdContext := (λ i, new_FdContext (Z.of_nat i)) <$> seq a n.

Lemma total_fresh a n : total (fresh_contexts a n) = 0.
Proof. revert a. induction n as [|n IH]; intros a; [done|]. simpl. unfold fresh_contexts in IH. by rewrite IH. Qed.

Lemma new_context_ok i : ctx_ok i (new_FdContext (Z.of_nat i)).
Proof. split_and!; try done. set_solver. Qed.

Lemma grown_lookup l n i c :
  (l ++ fresh_contexts (length l) n) !! i = Some c →
  l !! i = Some c ∨ (l !! i = None ∧ c = new_FdContext (Z.of_nat i)).
Proof.
  intros [H|[Hlen H]]%lookup_app_Some; [by left|]. right. split; [by apply lookup_ge_None_2|].
  unfold fresh_contexts in H. rewrite list_lookup_fmap in H. apply fmap_Some in H as (j & Hj & ->).
  apply lookup_seq in Hj as [-> _]. do 2 f_equal. lia.
Qed.

(** Growing the vector for [fd] registers nothing. *)
Lemma addEvent_context_run tfd s fd :
  io_inv tfd s → 0 <= fd < 2 ^ 31 →
  ∃ s1, addEvent_context fd s = Ok tt s1 ∧ io_inv tfd s1 ∧ is_Some (m_fdContexts s1 !! Z.to_nat fd) ∧
    (∀ fd' e, waiter s1 fd' e = waiter s fd' e) ∧ base s1 = base s ∧ elsewhere s1 = elsewhere s.
Proof.
  intros Hinv Hfd. unfold addEvent_context. mget. pose proof (io_len _ _ Hinv) as Hlen.
  destruct (fd <? zlen (m_fdContexts s)) eqn:E; cbn [negb when].
  { exists s. split_and!; try done. apply lookup_lt_is_Some_2. unfold zlen in E. lia. }
  eexists. split; [done|].
  assert (zlen (m_fdContexts s) <= fd * 3 / 2 ∧ fd < fd * 3 / 2 < 2 ^ 32) as [Hn1 Hn2].
  { pose proof (Z.div_mod (fd * 3) 2). pose proof (Z.mod_pos_bound (fd * 3) 2). lia. }
  cbv beta zeta. rewrite take_ge by (unfold zlen in *; lia).
  set (l := m_fdContexts s) in *. fold (fresh_contexts (length l) (Z.to_nat (fd * 3 / 2) - length l)).
  set (k := (Z.to_nat (fd * 3 / 2) - length l)%nat).
  assert (zlen (l ++ fresh_contexts (length l) k) = fd * 3 / 2) as Hz.
  { rewrite zlen_app. unfold zlen, fresh_contexts. rewrite length_fmap, length_seq.
    unfold zlen in *. subst k. lia. }
  split_and!; try done.
  - destruct Hinv as [H1 H2 H3 H4].
    split; cbn [m_fdContexts set_contexts m_pendingEventCount interest]; [..|lia|].
    + intros i c [Hi|[_ ->]]%grown_lookup; [by apply H1|apply new_context_ok].
    + by rewrite total_app, total_fresh, Z.add_0_r.
    + intros i Hi. rewrite (H4 i Hi). fold l.
      destruct ((l ++ fresh_contexts (length l) k) !! i) as [c|] eqn:Ei.
      * by apply grown_lookup in Ei as [->|[-> ->]].
      * apply lookup_ge_None in Ei. rewrite length_app in Ei.
        rewrite lookup_ge_None_2 by lia. done.
  - cbn. apply lookup_lt_is_Some_2. unfold zlen in Hz. lia.
  - intros fd' e. unfold waiter. cbn [m_fdContexts set_contexts]. fold l.
    destruct ((l ++ fresh_contexts (length l) k) !! Z.to_nat fd') as [c|] eqn:Ei.
    + by apply grown_lookup in Ei as [->|[-> ->]].
    + apply lookup_ge_None in Ei. rewrite length_app in Ei.
      rewrite lookup_ge_None_2 by lia. done.
Qed.

(** The context [addEvent] stores for its caller. *)
Definition new_context (who : caller) (cb : option Z) : EventContext :=
  mkEC (cur_scheduler who) (match cb with Some _ => None | None => Some (cur_fiber who) end) cb.

(** The waiters of a context that gets one more. *)
Lemma put_waiter i c who cb e e' : ctx_ok i c → is_event e → is_event e' →
  let c' := put_context e (new_context who cb) (set_events (Z.lor (c_events c) e) c) in
  (if has c' e' then Some (task_of (ctx_of e' c')) else None) =
  (if e' =? e then Some (new_task who cb) else if has c e' then Some (task_of (ctx_of e' c)) else None).
Proof.
  intros (_ & Hev & _) He He'. destruct c as [r w f ev]. cbn in Hev.
  unfold new_context, has, put_context, set_events, ctx_of, new_task, task_of. cbn.
  repeat (apply elem_of_cons in Hev as [->|Hev]); [..|by apply not_elem_of_nil in Hev];
    destruct He as [-> | ->], He' as [-> | ->]; cbn; destruct cb; done.
Qed.

(** [addEvent] after its context is there, when [epoll_ctl] fails and when it
    succeeds. *)
Lemma addEvent_failed s s1 who rt fd e cb c :
  addEvent_context fd s = Ok tt s1 → 0 <= fd → m_fdContexts s1 !! Z.to_nat fd = Some c → has c e = false → rt ≠ 0 →
  io_exec (IoAdd who rt fd e cb) s = Ok tt s1.
Proof.
  intros E1 Hfd Hc Hh Hrt. cbn [io_exec]. unfold addEvent. rewrite (bind_ok _ _ s (-1) s1); [done|]. mstep E1.
  rewrite (bind_ok _ _ _ _ _ (context_at_run s1 fd c Hfd Hc)).
  rewrite land_events_has, Hh. rewrite (bind_ok _ _ s1 tt s1) by done.
  rewrite (bind_ok _ _ s1 tt s1) by (by apply epoll_ctl_fail). by rewrite (proj2 (Z.eqb_neq rt 0) Hrt).
Qed.

Lemma addEvent_added s s1 who fd e cb c :
  addEvent_context fd s = Ok tt s1 → 0 <= fd → m_fdContexts s1 !! Z.to_nat fd = Some c → has c e = false → is_event e →
  ctx_of e c = empty_ec → (cb = None → cur_state who = EXEC) →
  io_exec (IoAdd who 0 fd e cb) s = Ok tt
    (set_contexts (<[Z.to_nat fd := put_context e (new_context who cb) (set_events (Z.lor (c_events c) e) c)]> (m_fdContexts s1))
      (set_pending (u64 (m_pendingEventCount s1 + 1))
        (set_interest (<[fd := Z.lor EPOLLET (Z.lor (c_events c) e)]> (interest s1)) s1))).
Proof.
  intros E1 Hfd Hc Hh He Hemp Hst. set (s2 := set_pending _ _). set (s3 := set_contexts _ _). cbn [io_exec]. unfold addEvent.
  rewrite (bind_ok _ _ s 0 s3); [done|]. mstep E1.
  rewrite (bind_ok _ _ _ _ _ (context_at_run s1 fd c Hfd Hc)).
  rewrite land_events_has, Hh. rewrite (bind_ok _ _ s1 tt s1) by done.
  rewrite (bind_ok _ _ s1 tt (set_interest (<[fd := Z.lor EPOLLET (Z.lor (c_events c) e)]> (interest s1)) s1))
    by (by destruct (c_events c =? 0)).
  cbn [Z.eqb negb]. rewrite bind_modify. fold s2.
  rewrite (bind_ok _ _ _ _ _ (getContext_run e _ _ He)).
  assert (ctx_of e (set_events (Z.lor (c_events c) e) c) = empty_ec) as -> by (by destruct He as [-> | ->]).
  rewrite (bind_ok _ _ s2 tt s2) by done. rewrite (bind_ok _ _ s2 tt s3); [done|]. destruct cb as [f|]; [done|].
  unfold put_context_at. rewrite bind_modify. unfold peng_assert. by rewrite bool_decide_eq_true_2 by (by apply Hst).
Qed.

Lemma addEvent_refines tfd s who rt fd e cb :
  io_inv tfd s → io_legal tfd (IoAdd who rt fd e cb) s →
  ∃ s', io_exec (IoAdd who rt fd e cb) s = Ok tt s' ∧ refines tfd (IoAdd who rt fd e cb) s s'.
Proof.
  intros Hinv ((Hfd & Hne & He & [p Hp]) & Hna).
  assert (waiter s fd e = None) as Hw.
  { destruct (waiter s fd e) eqn:Ew; [|done]. destruct Hna. left. rewrite Ew. eauto. }
  assert (rt = 0 → cb = None → cur_state who = EXEC) as Hst.
  { intros Hrt Hcb. destruct (decide (cur_state who = EXEC)); [done|]. destruct Hna. by right. }
  clear Hna.
  destruct (addEvent_context_run tfd s fd Hinv Hfd) as (s1 & E1 & Hinv1 & [c Hc] & Hws & Eb & Ee).
  pose proof (io_ctx tfd s1 Hinv1 _ _ Hc) as Hok.
  assert (has c e = false) as Hh.
  { rewrite <- Hws, (has_waiter s1 fd e c Hc) in Hw. by destruct (has c e). }
  destruct (proj2 (events_cases _ c e Hok He) Hh) as [Hemp Hnew].
  assert (ec_ok true (new_context who cb)) as Hx.
  { unfold new_context. rewrite Hp. destruct cb as [f|]; simpl; [right|left]; eauto. }
  destruct (Hnew _ Hx) as [Hn Hok']. destruct (decide (rt = 0)) as [->|Hrt].
  2: { exists s1. split; [by eapply addEvent_failed; try done; lia|].
       split_and!; [done|by apply hands_nil; rewrite ?Eb, ?Ee|].
       intros fd' e' _ _. rewrite Hws. unfold waiter_after. simpl. by rewrite (proj2 (Z.eqb_neq rt 0) Hrt). }
  eexists. split; [by eapply addEvent_added; try done; [lia|apply Hst]|]. set (c' := put_context e _ _) in *. set (s3 := set_contexts _ _).
  assert (c_events c' = Z.lor (c_events c) e ∧ Z.lor (c_events c) e ≠ 0) as [Hce Hcnz].
  { split; [subst c'; unfold put_context; by case_match|]. intros Hz%Z.lor_eq_0_iff.
    destruct Hz as [_ Hz]. destruct He as [-> | ->]; done. }
  split_and!.
  - eapply (io_inv_update tfd s1 s3 (Z.to_nat fd) c c'); try done.
    + cbn. rewrite (io_pending _ _ Hinv1). pose proof (total_bound (m_fdContexts s1)).
      pose proof (io_len _ _ Hinv1). rewrite wrapu_small by lia. lia.
    + intros j Hj. cbn. rewrite lookup_insert_ne; [done|lia].
    + intros _. rewrite Hce, (proj2 (Z.eqb_neq _ 0) Hcnz). cbn.
      replace (Z.of_nat (Z.to_nat fd)) with fd by lia. apply lookup_insert_eq.
  - apply hands_nil; cbn; congruence.
  - intros fd' e' Hf He'. rewrite (waiter_update s1 s3 _ c c' fd' e' eq_refl Hc).
    rewrite Hws. unfold waiter_after. simpl. destruct (decide (fd' = fd)) as [->|Hd].
    + rewrite decide_True, Z.eqb_refl by done. simpl. rewrite <- (Hws fd e'), (has_waiter s1 fd e' c Hc). by eapply put_waiter.
    + rewrite decide_False by lia. by rewrite (proj2 (Z.eqb_neq fd' fd) Hd).
Qed.

(** A second waiter for an event, or a fiber that is not running, stops the
    process. *)
Lemma addEvent_aborts tfd s who rt fd e cb :
  io_inv tfd s → io_args tfd (IoAdd who rt fd e cb) s → io_asserts (IoAdd who rt fd e cb) s →
  ∃ x, io_exec (IoAdd who rt fd e cb) s = Abort x.
Proof.
  intros Hinv (Hfd & Hne & He & Hp) Ha.
  destruct (addEvent_context_run tfd s fd Hinv Hfd) as (s1 & E1 & Hinv1 & [c Hc] & Hws & _).
  pose proof (io_ctx tfd s1 Hinv1 _ _ Hc) as Hok. cbn [io_exec]. unfold addEvent.
  assert (waiter s fd e = if has c e then Some (task_of (ctx_of e c)) else None) as Hw
    by (rewrite <- Hws; by apply has_waiter).
  pose proof (context_at_run s1 fd c ltac:(lia) Hc) as Ec.
  destruct (has c e) eqn:Hh; eexists; apply bind_abort; mstep E1; rewrite (bind_ok _ _ _ _ _ Ec), land_events_has, Hh;
    [by apply bind_abort|].
  destruct Ha as [Ha|(-> & -> & Hst)]; [rewrite Hw in Ha; by destruct Ha|].
  destruct (proj2 (events_cases _ c e Hok He) Hh) as [Hemp _]. cbn [negb].
  rewrite (bind_ok _ _ s1 tt s1) by done.
  rewrite (bind_ok _ _ s1 tt (set_interest (<[fd := Z.lor EPOLLET (Z.lor (c_events c) e)]> (interest s1)) s1))
    by (by destruct (c_events c =? 0)).
  cbn [Z.eqb negb]. rewrite bind_modify. rewrite (bind_ok _ _ _ _ _ (getContext_run e _ _ He)).
  assert (ctx_of e (set_events (Z.lor (c_events c) e) c) = empty_ec) as -> by (by destruct He as [-> | ->]).
  match goal with |- (peng_assert _ _;; _) ?t = _ => rewrite (bind_ok _ _ t tt t) by done end.
  apply bind_abort. unfold put_context_at. rewrite bind_modify. unfold peng_assert.
  by rewrite bool_decide_eq_false_2 by done.
Qed.

Lemma io_exec_aborts tfd o s :
  io_inv tfd s → io_args tfd o s → io_asserts o s → ∃ x, io_exec o s = Abort x.
Proof.
  intros Hinv Hargs Ha. destruct o as [who rt fd e cb|rt fd e|rt fd e|rt fd|fd ev rt]; try done.
  - by eapply addEvent_aborts.
  - eexists. by eapply ready_aborts.
Qed.

Lemma io_exec_refines tfd o s :
  io_inv tfd s → io_legal tfd o s → ∃ s', io_exec o s = Ok tt s' ∧ refines tfd o s s'.
Proof.
  intros Hinv Hl. destruct o as [who rt fd e cb|rt fd e|rt fd e|rt fd|fd ev rt].
  - by apply addEvent_refines.
  - by apply delEvent_refines.
  - by apply cancelEvent_refines.
  - by apply cancelAll_refines.
  - by apply ready_refines.
Qed.

(** C22: addEvent (from a thread with a scheduler), delEvent, cancelEvent, cancelAll and the
    handling of a reported event, run one at a time, for READ or WRITE of a descriptor other
    than the tickle pipe, with epoll_ctl succeeding or failing, refine a table of waiters:
    addEvent adds one waiter, a failing epoll_ctl changes no waiter, delEvent drops one, the
    others schedule each waiter they remove exactly once on its scheduler, no other waiter
    changes, m_pendingEventCount stays the number of waiters and the epoll interest list
    stays the registered events; except in exactly these cases, in which an assertion stops
    the process: addEvent of an event that has a waiter, addEvent without a callback from a
    fiber that is not running, and a report in which one event has a waiter and another has
    none. Two threads that grow the vector of contexts at once are outside of it. *)
Theorem io_ops_refine tfd o s :
  io_inv tfd s → io_args tfd o s →
  (¬ io_asserts o s → ∃ s', io_exec o s = Ok tt s' ∧ refines tfd o s s') ∧
  (io_asserts o s → ∃ x, io_exec o s = Abort x).
Proof.
  intros Hinv Ha. split; intros H; [by apply io_exec_refines|by eapply io_exec_aborts].
Qed.

Lemma next_timer_run now s :
  ∃ t, Timer.getNextTimer now (timers s) = Ok t (Timer.set_tickled false (timers s)) ∧
    lift_timer (Timer.getNextTimer now) s = Ok t (set_timers (Timer.set_tickled false (timers s)) s).
Proof.
  destruct (Timer.getNextTimer_run (timers s) now) as [t E]. exists t. split; [done|].
  unfold lift_timer. rewrite E. cbn. by rewrite Nat.sub_diag.
Qed.

Lemma next_timer_none now s t :
  Timer.wf (timers s) → 0 < now < 2 ^ 64 →
  Timer.getNextTimer now (timers s) = Ok t (Timer.set_tickled false (timers s)) →
  t = 2 ^ 64 - 1 ↔ Timer.m_timers (timers s) = [].
Proof.
  intros Hwf Hnow E. destruct (Timer.m_timers (timers s)) as [|q l] eqn:El.
  - unfold Timer.getNextTimer in E. rewrite bind_modify, bind_get in E. cbn in E. rewrite El in E.
    by injection E as <-.
  - rewrite (Timer.next_run (timers s) now q l Hwf) in E by (done || (unfold Timer.u64_ok; lia)). injection E as <-.
    pose proof (Timer.wf_alive _ Hwf q ltac:(rewrite El; by left)) as [t Ht].
    pose proof (Timer.wf_u64 _ Hwf q t Ht) as [Hn _]. unfold Timer.u64_ok in *.
    rewrite (Timer.key_lookup _ _ _ Ht). split; [lia|done].
Qed.




(** The wait that [idle] asks for: until the first deadline and at most
    [MAX_TIMEOUT]. *)
Definition wait_ms (now : Z) (s : IOManager) : Z :=
  foldr (λ p n, Z.min (Z.max 0 (Timer.key (Timer.heap (timers s)) p - now)) n) MAX_TIMEOUT
    (Timer.m_timers (timers s)).

Lemma wait_ms_bound now s l :
  let w := foldr (λ p n, Z.min (Z.max 0 (Timer.key (Timer.heap (timers s)) p - now)) n) MAX_TIMEOUT l in
  0 <= w <= MAX_TIMEOUT ∧ ∀ p, p ∈ l → w <= Z.max 0 (Timer.key (Timer.heap (timers s)) p - now).
Proof.
  unfold MAX_TIMEOUT. induction l as [|q l [IH1 IH2]]; cbn [foldr]; [split; [lia|set_solver]|].
  split; [lia|]. intros p [->|Hp]%elem_of_cons; [lia|]. specialize (IH2 p Hp). lia.
Qed.

Lemma foldr_wait now s q l :
  (∀ p, p ∈ l → Timer.key (Timer.heap (timers s)) q <= Timer.key (Timer.heap (timers s)) p) →
  foldr (λ p n, Z.min (Z.max 0 (Timer.key (Timer.heap (timers s)) p - now)) n) MAX_TIMEOUT (q :: l) =
  Z.min (Z.max 0 (Timer.key (Timer.heap (timers s)) q - now)) MAX_TIMEOUT.
Proof.
  induction l as [|p l IH]; intros Hq; [done|].
  specialize (IH ltac:(intros p' Hp'; apply Hq; by right)). specialize (Hq p ltac:(by left)).
  cbn [foldr] in *. lia.
Qed.

(** The timeout of a turn: what [stopping] stored, clamped. *)
Lemma turn_timeout now s t :
  Timer.wf (timers s) → 0 < now < 2 ^ 64 →
  (∀ p, p ∈ Timer.m_timers (timers s) → Timer.key (Timer.heap (timers s)) p - now < 2 ^ 31) →
  Timer.getNextTimer now (timers s) = Ok t (Timer.set_tickled false (timers s)) →
  clamp_timeout t = wait_ms now s.
Proof.
  intros Hwf Hnow Hd E. unfold clamp_timeout, wait_ms.
  destruct (Timer.m_timers (timers s)) as [|q l] eqn:El.
  - apply (next_timer_none now s t Hwf Hnow) in E. rewrite (proj2 E) by done. done.
  - rewrite (Timer.next_run (timers s) now q l Hwf) in E by (done || (unfold Timer.u64_ok; lia)). injection E as <-.
    pose proof (Hd q ltac:(by left)) as Hq. rewrite foldr_wait.
    2: { intros p Hp. apply (Timer.ordered_min (timers s) q l Hwf El). rewrite El. by right. }
    set (k := Timer.key _ q) in *. rewrite (wraps_small 32 (Z.max 0 (k - now))) by lia.
    unfold MAX_TIMEOUT. destruct (Z.max 0 (k - now) =? 2 ^ 64 - 1) eqn:E1; [lia|].
    destruct (3000 <? Z.max 0 (k - now)) eqn:E2; lia.
Qed.

Lemma epoll_loop_run t k evs rest :
  0 <= clamp_timeout t <= MAX_TIMEOUT →
  epoll_loop t (replicate k Interrupted ++ Events evs :: rest) = (replicate (S k) (clamp_timeout t), Some evs).
Proof.
  unfold MAX_TIMEOUT. revert t. induction k as [|k IH]; intros t Ht; cbn [replicate app epoll_loop].
  - by rewrite wraps_small by lia.
  - assert (clamp_timeout (clamp_timeout t) = clamp_timeout t) as Hc.
    { unfold clamp_timeout at 1. unfold MAX_TIMEOUT. rewrite wraps_small by lia.
      rewrite (proj2 (Z.eqb_neq _ _)) by lia. by rewrite (proj2 (Z.ltb_ge _ _)) by lia. }
    rewrite IH by (rewrite Hc; lia). rewrite Hc, wraps_small by lia. done.
Qed.

(** C24: while every timer is due within 2^31 ms of the time the turn of idle began, every
    call of epoll_wait in the turn gets the same timeout: the smaller of 3000 ms and the
    time from the start of the turn to the earliest deadline, 0 if that has passed; the loop
    calls again after each EINTR and leaves with the first other answer. So an uninterrupted
    wait ends by the earliest deadline; each interruption can make it later by that timeout,
    since it is not computed again. *)
Theorem idle_wait_bounded others now s b t s' k evs rest :
  Timer.wf (timers s) → 0 < now < 2 ^ 64 →
  (∀ p, p ∈ Timer.m_timers (timers s) → Timer.key (Timer.heap (timers s)) p - now < 2 ^ 31) →
  stopping others now s = Ok (b, t) s' →
  epoll_loop t (replicate k Interrupted ++ Events evs :: rest) = (replicate (S k) (wait_ms now s), Some evs) ∧
  0 <= wait_ms now s <= 3000 ∧
  ∀ p, p ∈ Timer.m_timers (timers s) → wait_ms now s <= Z.max 0 (Timer.key (Timer.heap (timers s)) p - now).
Proof.
  intros Hwf Hnow Hd E. destruct (next_timer_run now s) as (t1 & Et & E1). unfold stopping in E.
  rewrite (bind_ok _ _ _ _ _ E1) in E.
  assert (t = t1) as ->.
  { destruct (t1 =? 2 ^ 64 - 1); cbn [negb] in E; [|by injection E].
    rewrite bind_modify, bind_get in E. destruct (_ =? 0) in E; cbn [negb] in E; [|by injection E].
    rewrite bind_modify, bind_get in E. by injection E. }
  pose proof (turn_timeout now s t1 Hwf Hnow Hd Et) as Ht.
  pose proof (wait_ms_bound now s (Timer.m_timers (timers s))) as [Hb Hp]. fold (wait_ms now s) in Hb, Hp.
  split; [|done]. rewrite <- Ht. apply epoll_loop_run. by rewrite Ht.
Qed.
End io.

(** ** Construction establishes the invariant *)

Lemma new_IOManager_inv b x epfd r1 r2 r3 tfd ids s :
  new_IOManager b x epfd r1 r2 r3 tfd ids = Ok tt s → io_inv tfd s.
Proof.
  unfold new_IOManager. intros H.
  do 3 (minv H; unfold peng_assert in E; case_match; [|done]; injection E as <- <-).
  minv H. unfold epoll_ctl, when in E. minv H. unfold peng_assert in E0. case_match eqn:Er; [|done].
  injection E0 as _ <-. injection E as _ <-. unfold contextResize in H. rewrite bind_modify in H.
  unfold lift in H. case_match eqn:Es; try done. injection H as _ <-.
  match goal with |- io_inv _ (Nat.iter ?n tickle ?t) => destruct (iter_tickle n t) as ((E1 & E2 & E3 & _) & _) end.
  assert (m_fdContexts (set_base s0 (set_contexts (fresh_contexts 0 32) (mkIO b x [] 0 ∅ 0 []))) =
    [] ++ fresh_contexts (length (@nil FdContext)) 32) as Hf by done.
  split; rewrite ?E1, ?E2, ?E3; cbn [m_fdContexts set_base set_contexts m_pendingEventCount set_interest interest].
  - intros i c Hc. apply (grown_lookup [] 32) in Hc as [Hc|[_ ->]]; [done|apply new_context_ok].
  - done.
  - done.
  - intros i Hi. rewrite lookup_insert_ne by done. rewrite lookup_empty.
    match goal with |- _ = ?l !! i ≫= _ => destruct (l !! i) as [c|] eqn:Hc; [|done] end.
    by apply (grown_lookup [] 32) in Hc as [Hc|[_ ->]].
Qed.

(** ** Concrete runs *)

Definition io0 : IOManager :=
  match new_IOManager sched0 (Timer.new_TimerManager 1000) 5 0 0 0 3 [(1, 21); (2, 22)] with
  | Ok _ s => s
  | _ => mkIO blank (Timer.new_TimerManager 0) [] 0 ∅ 0 []
  end.

Lemma io0_inv : io_inv 3 io0.
Proof.
  apply (new_IOManager_inv sched0 (Timer.new_TimerManager 1000) 5 0 0 0 3 [(1, 21); (2, 22)]).
  by vm_compute.
Qed.

Definition me : caller := mkCaller (Some 7) 40 EXEC.

(** A fiber waits for descriptor 9 (manager 7) and is scheduled when it is ready. *)
Definition io1 : IOManager :=
  match io_exec 7 (IoAdd me 0 9 READ None) io0 with Ok _ s => s | _ => io0 end.

Lemma io_ops_refine_witness :
  (∃ s', io_exec 7 (IoAdd me 0 9 READ None) io0 = Ok tt s' ∧ waiter s' 9 READ = Some (7, mkFT (Some 40) None (-1))) ∧
  io_args 3 (IoAdd me 0 9 READ None) io0.
Proof.
  assert (io_args 3 (IoAdd me 0 9 READ None) io0) as Hl.
  { split; [lia|]. split; [discriminate|]. split; [left; reflexivity|]. eexists; reflexivity. }
  split; [|exact Hl].
  destruct (io_ops_refine 7 3 (IoAdd me 0 9 READ None) io0 io0_inv Hl) as [Hok _].
  destruct Hok as (s' & E & _ & _ & Hw).
  { intros [[x Hx]|(_ & _ & Hx)]; [discriminate Hx|by apply Hx]. }
  exists s'. split; [exact E|]. rewrite (Hw 9 READ); [reflexivity|lia|left; reflexivity].
Defined.

Example io1_ready :
  match io_exec 7 (IoReady 9 EPOLLIN 0) io1 with
  | Ok _ s => m_fibers (base s) = [mkFT (Some 40) None (-1)] ∧ m_pendingEventCount s = 0
  | _ => False
  end.
Proof. vm_compute. split; reflexivity. Qed.




(** A timer is due in 100 ms; the wait is interrupted twice. *)
Definition io_timer : IOManager :=
  match lift_timer (Timer.addTimer 500 100 (Some (Timer.Fn 1)) false 1000) io0 with Ok _ s => s | _ => io0 end.

Lemma io_timer_wf : Timer.wf (timers io_timer).
Proof.
  destruct (Timer.ops_run (Timer.OpAdd 500 100 (Some (Timer.Fn 1)) false 1000) (timers io0))
    as (s & E & H); [apply (Timer.new_TimerManager_wf 1000)|by vm_compute|].
  vm_compute in E. injection E as <-. exact H.
Qed.

Lemma idle_wait_bounded_witness :
  ∃ t s', stopping (λ _ s, s) 1000 io_timer = Ok (false, t) s' ∧
    epoll_loop t [Interrupted; Interrupted; Events []] = ([100; 100; 100], Some []).
Proof.
  assert (∃ t s', stopping (λ _ s, s) 1000 io_timer = Ok (false, t) s') as (t & s' & E)
    by (eexists _, _; vm_compute; reflexivity).
  exists t, s'. split; [exact E|].
  assert (0 < 1000 < 2 ^ 64) as Hnow by lia.
  exact (proj1 (idle_wait_bounded (λ _ s, s) 1000 io_timer false t s' 2 [] [] io_timer_wf Hnow
    ltac:(intros p Hp; apply list_elem_of_singleton in Hp as ->; by vm_compute) E)).
Defined.

(** A timer 2^31 ms away makes the timeout negative, which [epoll_wait] takes
    as no timeout at all. *)
Example epoll_timeout_negative : (epoll_loop (2 ^ 31) [Events []]).1 = [- 2 ^ 31].
Proof. reflexivity. Qed.

(** A wait for a timer due in 2000 ms, interrupted at 1900 ms, starts again with
    2000 ms: the timer is served at 3900 ms. *)
Example interrupted_wait_is_late : (epoll_loop 2000 [Interrupted; Events []]).1 = [2000; 2000].
Proof. reflexivity. Qed.

(** An event reported for [READ] and [WRITE] after another thread deleted
    [WRITE] stops the process in [triggerEvent]. *)
Example stale_event_aborts :
  handle_event 7 (FdEvent 9 (Z.lor EPOLLIN EPOLLOUT)) 0 io1 = Abort "events & event".
Proof. vm_compute. reflexivity. Qed.

(** Two threads register descriptors 100 and 40 at a time when the vector has
    32 entries: the second [contextResize] truncates what the first one grew,
    and the waiter of descriptor 100 is lost. *)
Example resize_race_loses_event :
  let s1 := match addEvent me 0 100 READ None io0 with Ok _ s => s | _ => io0 end in
  let s2 := match contextResize (40 * 3 / 2) s1 with Ok _ s => s | _ => io0 end in
  waiter s1 100 READ = Some (7, mkFT (Some 40) None (-1)) ∧ waiter s2 100 READ = None ∧
  m_pendingEventCount s2 = 1.
Proof. vm_compute. repeat split. Qed.
