(* ===== verification/Lifecycle.v ===== *)
(** * The life of schedulers in a process (scheduler.cc, iomanager.cc)

    The thread-local pointers of scheduler.cc and the objects they point to,
    from construction over [start] and [stop] to destruction.  The workers are
    those of Scheduler.v; [stop] is cut where it waits: in the root fiber and
    in the joins.  Threads of several schedulers interleave. *)

From S2P Require Import Prelude.
From S2P Require Import Fiber.
From S2P Require Import Scheduler.
From S2P Require Import Shutdown.
From S2P Require IOManager.

(** Where the call of [stop] of a scheduler is, by the thread [caller]. *)
Inductive stop_at :=
| InRoot (caller : Z)                     (* in [m_rootFiber->call()] *)
| InJoin (caller : Z) (thrs : list Z).    (* joining [thrs] *)

Record process := mkProc {
  (** [t_scheduler] of each thread; no entry is nullptr *)
  tl_scheduler : gmap Z Z;
  (** [t_fiber] of scheduler.cc of each thread *)
  tl_fiber : gmap Z Z;
  (** the scheduler objects that exist *)
  heap : gmap Z Scheduler;
  (** calls of [stop] in progress *)
  stops : gmap Z stop_at
}.

Definition set_this (t sid : Z) (p : process) : process :=
  mkProc (<[t := sid]> (tl_scheduler p)) (tl_fiber p) (heap p) (stops p).
Definition clear_this (t : Z) (p : process) : process :=
  mkProc (delete t (tl_scheduler p)) (tl_fiber p) (heap p) (stops p).
Definition set_main (t f : Z) (p : process) : process :=
  mkProc (tl_scheduler p) (<[t := f]> (tl_fiber p)) (heap p) (stops p).
Definition set_heap (sid : Z) (s : Scheduler) (p : process) : process :=
  mkProc (tl_scheduler p) (tl_fiber p) (<[sid := s]> (heap p)) (stops p).
Definition free (sid : Z) (p : process) : process :=
  mkProc (tl_scheduler p) (tl_fiber p) (delete sid (heap p)) (stops p).
Definition set_stop (sid : Z) (x : stop_at) (p : process) : process :=
  mkProc (tl_scheduler p) (tl_fiber p) (heap p) (<[sid := x]> (stops p)).
Definition end_stop (sid : Z) (p : process) : process :=
  mkProc (tl_scheduler p) (tl_fiber p) (heap p) (delete sid (stops p)).

Definition GetThis (t : Z) (p : process) : option Z := tl_scheduler p !! t.
Definition GetMainFiber (t : Z) (p : process) : option Z := tl_fiber p !! t.
Definition setThis (t sid : Z) : M process unit := modify (set_this t sid).

(** [IOManager::GetThis]: the cast succeeds for the schedulers in [io]. *)
Definition io_GetThis (io : gset Z) (t : Z) (p : process) : option Z :=
  match GetThis t p with
  | Some sid => if decide (sid ∈ io) then Some sid else None
  | None => None
  end.

Definition at_sched (sid : Z) : M process Scheduler :=
  p ← get; of_option "use of a destroyed scheduler" (heap p !! sid).

(** A method of the object [sid]. *)
Definition on_sched {A} (sid : Z) (m : M Scheduler A) : M process A := λ p,
  match heap p !! sid with
  | Some s =>
      match m s with
      | Ok a s' => Ok a (set_heap sid s' p)
      | Throw e s' => Throw e (set_heap sid s' p)
      | Abort x => Abort x
      | Undef x => Undef x
      end
  | None => Undef "use of a destroyed scheduler"
  end.

(** [Scheduler::Scheduler] at the address [sid] in the thread [me]. *)
Definition construct (me sid threads : Z) (use_caller : bool) (root : Z) : M process unit :=
  p ← get;
  match new_Scheduler threads use_caller me root (bool_decide (is_Some (GetThis me p))) with
  | Ok _ s =>
      modify (set_heap sid s);;
      when use_caller (modify (set_this me sid);; modify (set_main me root))
  | Throw e _ => throw e
  | Abort x => λ _, Abort x
  | Undef x => undef x
  end.

(** The head of [Scheduler::run], before the loop, in the thread [t] whose
    main fiber is [main]; the idle fiber is made by [spawn] of Scheduler.v. *)
Definition enter_run (t sid main : Z) : M process unit :=
  setThis t sid;;
  s ← at_sched sid;
  when (negb (t =? m_rootThread s)) (modify (set_main t main)).

Fixpoint enter_all (sid : Z) (ids : list (Z * Z * Z)) : M process unit :=
  match ids with
  | [] => mret tt
  | (t, main, _) :: r => enter_run t sid main;; enter_all sid r
  end.

(** [start]; [ids]: thread id, main fiber and idle fiber of each new thread. *)
Definition start_threads (sid : Z) (ids : list (Z * Z * Z)) : M process unit :=
  s ← at_sched sid;
  on_sched sid (start ((λ '(t, _, i), (t, i)) <$> ids));;
  when (m_stopping s) (enter_all sid (take (Z.to_nat (m_threadCount s)) ids)).

(** Lines 113-117 of [stop]: the threads to join are taken from the object. *)
Definition drop_threads (s : Scheduler) : Scheduler :=
  mkSched (m_fibers s) (m_activeThreadCount s) (m_idleThreadCount s) (m_stopping s)
    (m_autoStop s) (m_threadCount s) (m_rootThread s) (m_rootFiber s) [] (fib s) (workers s) (tickled s).

Definition take_threads (me sid : Z) : M process unit :=
  s ← at_sched sid;
  modify (set_heap sid (drop_threads s));;
  modify (set_stop sid (InJoin me (m_threads s))).

(** [m_rootFiber->call()]: a new fiber starts [run]; one that has ended goes
    on after its last switch, where an assertion fails. *)
Definition call_root (me sid idle : Z) : M process unit :=
  s ← at_sched sid;
  match m_rootFiber s with
  | None => undef "m_rootFiber is null"
  | Some f =>
      match state_of s f with
      | INIT =>
          on_sched sid (modify (set_fib f EXEC));;
          enter_run me sid f;;
          on_sched sid (modify (spawn me idle));;
          modify (set_stop sid (InRoot me))
      | TERM | EXCEPT => λ _, Abort "never reach fiber_id="
      | _ => undef "switch to a context that is running"
      end
  end.

(** [Scheduler::stop] by the thread [me]. *)
Definition stop_sched (virt : Scheduler → bool) (me sid idle : Z) : M process unit :=
  p ← get;
  r ← on_sched sid (stop virt (bool_decide (GetThis me p = Some sid)));
  match r with
  | Stopped => mret tt
  | CallRoot => call_root me sid idle
  | JoinThreads => take_threads me sid
  end.

Definition has_exited (t : Z) (s : Scheduler) : bool :=
  match workers s !! t with
  | Some w => match w_pc w with Exited => true | _ => false end
  | None => false
  end.

(** [run] returned in the root fiber: the fiber ends, and [stop] goes on. *)
Definition root_back (me sid : Z) : M process unit :=
  s ← at_sched sid;
  match m_rootFiber s with
  | None => undef "no root fiber"
  | Some f =>
      on_sched sid (modify (set_fib f TERM);; modify (leave_run me));;
      take_threads me sid
  end.

(** [run] returned in the thread [t], which ends with its thread-local data. *)
Definition thread_exit (t sid : Z) : M process unit :=
  on_sched sid (modify (leave_run t));;
  modify (clear_this t).

(** [Scheduler::~Scheduler] in the thread [me], and the destruction of the
    root fiber, whose destructor has an assertion too. *)
Definition destroy (me sid : Z) : M process unit :=
  s ← at_sched sid;
  peng_assert (m_stopping s) "m_stopping";;
  p ← get;
  when (bool_decide (GetThis me p = Some sid)) (modify (clear_this me));;
  match m_rootFiber s with
  | Some f => peng_assert (resettable (state_of s f)) "m_state == TERM || m_state == EXCEPT || m_state == INIT"
  | None => mret tt
  end;;
  modify (free sid).

(** ** Runs of a process

    The ghost state has, for each scheduler, the status of its fibers. *)

(** What the clients of [start] and [stop] provide: new threads and fibers. *)
Definition fresh_threads (g : ghost) (s : Scheduler) (ids : list (Z * Z * Z)) : Prop :=
  NoDup (ids.*1.*1) ∧ NoDup (ids.*2) ∧ zlen ids < 2 ^ 64 ∧
  ∀ i, i ∈ ids.*2 → g !! i = None ∧ m_rootFiber s ≠ Some i.

Abbreviation ghosts := (gmap Z ghost).

Definition spawn_ghost (ids : list (Z * Z * Z)) (g : ghost) : ghost :=
  foldl (λ g '(t, _, i), <[i := IdleOf t]> g) g ids.

Inductive life : ghosts → process → Prop :=
| life_init : life ∅ (mkProc ∅ ∅ ∅ ∅)
| life_new G p me sid threads uc root p' :
    life G p → heap p !! sid = None → me ≠ -1 → construct me sid threads uc root p = Ok tt p' →
    life (<[sid := ∅]> G) p'
| life_inner G p sid s s' g g' :
    life G p → heap p !! sid = Some s → G !! sid = Some g → inner g s g' s' →
    life (<[sid := g']> G) (set_heap sid s' p)
| life_start G p sid s g ids p' :
    life G p → heap p !! sid = Some s → G !! sid = Some g → stops p !! sid = None →
    length ids = Z.to_nat (m_threadCount s) → fresh_threads g s ids →
    start_threads sid ids p = Ok tt p' →
    life (<[sid := if m_stopping s then spawn_ghost ids g else g]> G) p'
| life_stop G p virt me sid idle s (g : ghost) p' :
    life G p → heap p !! sid = Some s → G !! sid = Some g → stops p !! sid = None →
    workers s !! me = None → zlen (map_to_list (workers s)) + 1 < 2 ^ 64 →
    g !! idle = None → m_rootFiber s ≠ Some idle → stop_sched virt me sid idle p = Ok tt p' →
    life (<[sid := match stops p' !! sid with
                   | Some (InRoot t) => <[idle := IdleOf t]> g | _ => g end]> G) p'
| life_back G p me sid s p' :
    life G p → heap p !! sid = Some s → stops p !! sid = Some (InRoot me) → has_exited me s = true →
    root_back me sid p = Ok tt p' → life G p'
| life_exit G p t sid s p' :
    life G p → heap p !! sid = Some s → has_exited t s = true →
    (∀ me, stops p !! sid = Some (InRoot me) → t ≠ me) →
    thread_exit t sid p = Ok tt p' → life G p'
| life_joined G p sid me thrs s :
    life G p → heap p !! sid = Some s → stops p !! sid = Some (InJoin me thrs) →
    (∀ t, t ∈ thrs → workers s !! t = None) → life G (end_stop sid p)
| life_destroy G p me sid s p' :
    life G p → heap p !! sid = Some s → stops p !! sid = None →
    m_rootFiber s = None ∨ m_rootThread s = me → destroy me sid p = Ok tt p' → life (delete sid G) p'.

(** ** The invariant *)

Record shape (ph : option stop_at) (g : ghost) (s : Scheduler) : Prop := {
  sh_root : match m_rootFiber s with
            | Some f => g !! f = None ∧ m_rootThread s ≠ -1 ∧
                match ph with
                | Some (InRoot _) => state_of s f = EXEC
                | _ => state_of s f = INIT ∨ state_of s f = TERM
                end
            | None => m_rootThread s = -1
            end;
  sh_count : m_threadCount s = 0 → m_threads s = [];
  sh_phase : match ph with
             | None => (∀ t, is_Some (workers s !! t) → t ∈ m_threads s) ∧
                       (m_stopping s = true → m_threads s = [])
             | Some (InRoot me) => m_stopping s = true ∧ m_rootThread s = me ∧ is_Some (m_rootFiber s) ∧
                 ∀ t, is_Some (workers s !! t) → t = me ∨ t ∈ m_threads s
             | Some (InJoin _ thrs) => m_stopping s = true ∧ m_threads s = [] ∧
                 ∀ t, is_Some (workers s !! t) → t ∈ thrs
             end
}.

(** Who can have a pointer to the scheduler. *)
Definition of_sched (t : Z) (s : Scheduler) : Prop :=
  (is_Some (m_rootFiber s) ∧ m_rootThread s = t) ∨ is_Some (workers s !! t).

Record alive (G : ghosts) (p : process) : Prop := {
  al_sched : ∀ sid s, heap p !! sid = Some s →
    ∃ g, G !! sid = Some g ∧ serves g s ∧ shape (stops p !! sid) g s;
  al_this : ∀ t sid, GetThis t p = Some sid → ∃ s, heap p !! sid = Some s ∧ of_sched t s;
  al_stops : ∀ sid, is_Some (stops p !! sid) → is_Some (heap p !! sid)
}.

(** One scheduler changes, and maybe its threads. *)
Lemma alive_update G p p' sid s' g :
  alive G p → serves g s' → shape (stops p' !! sid) g s' →
  heap p' = <[sid := s']> (heap p) → (∀ i, i ≠ sid → stops p' !! i = stops p !! i) →
  (∀ t i, GetThis t p' = Some i → (i = sid ∧ of_sched t s') ∨ (i ≠ sid ∧ GetThis t p = Some i)) →
  alive (<[sid := g]> G) p'.
Proof.
  intros [H1 H2 H3] Hsv Hsh Eh Est Eth. split.
  - intros i s1. rewrite Eh. intros [[<- <-]|[Hne Hi]]%lookup_insert_Some.
    + exists g. by rewrite lookup_insert_eq.
    + rewrite lookup_insert_ne, Est by done. by apply H1.
  - intros t i [[-> Ht]|[Hne Ht]]%Eth; rewrite Eh.
    + exists s'. by rewrite lookup_insert_eq.
    + rewrite lookup_insert_ne by done. by apply H2.
  - intros i Hi. rewrite Eh. destruct (decide (i = sid)) as [->|Hne].
    + rewrite lookup_insert_eq. eauto.
    + rewrite lookup_insert_ne by done. apply H3. by rewrite <- Est.
Qed.

(** The same with the threads as they were. *)
Lemma alive_same G p p' sid s s' g :
  alive G p → heap p !! sid = Some s → serves g s' → shape (stops p' !! sid) g s' →
  heap p' = <[sid := s']> (heap p) → (∀ i, i ≠ sid → stops p' !! i = stops p !! i) →
  tl_scheduler p' = tl_scheduler p → (∀ t, GetThis t p = Some sid → of_sched t s → of_sched t s') →
  alive (<[sid := g]> G) p'.
Proof.
  intros H Hs Hsv Hsh Eh Est Etl Hof. eapply alive_update; try done.
  unfold GetThis. rewrite Etl. intros t i Ht. destruct (decide (i = sid)) as [->|Hne]; [left|by right].
  destruct (al_this _ _ H t sid Ht) as (s1 & Hs1 & Ho). rewrite Hs in Hs1. injection Hs1 as <-. auto.
Qed.

(** ** Steps inside a scheduler *)

Lemma unknown_fiber g s s' t w e fresh h :
  inv g s → workers s !! t = Some w → run_step t e fresh s = Ok tt s' →
  g !! h = None → h ≠ fresh → state_of s' h = state_of s h.
Proof.
  intros Hinv Hw E Hh Hne. destruct (run_step_frame _ _ _ _ _ _ Hw E) as [_ _ _ Hf].
  pose proof (inv_workers _ _ Hinv _ _ Hw) as Hcl. apply Hf; [done|..].
  - pose proof (cl_idle _ _ _ _ Hcl). congruence.
  - intros Hc. destruct Hcl as [Hp Hcb _ _]. specialize (Hcb _ Hc).
    destruct (cb_in_use (w_pc w)) eqn:Hu; [|specialize (Hcb eq_refl); congruence].
    unfold pc_ok, run_by in Hp. destruct (w_pc w); naive_solver.
  - intros Hc. pose proof (cl_pc _ _ _ _ Hcl) as Hp. unfold pc_ok, run_by in Hp.
    destruct (w_pc w) as [|ft []|f|f|f|f|f|f| | |]; naive_solver.
Qed.

Lemma unknown_ghost g s t w fresh h :
  inv g s → workers s !! t = Some w → g !! h = None → h ≠ fresh → ghost_step t fresh s g !! h = None.
Proof.
  intros Hinv Hw Hh Hne. pose proof (inv_workers _ _ Hinv _ _ Hw) as Hcl.
  assert (∀ f x, is_Some (g !! f) → <[f := x]> g !! h = None) as Hins.
  { intros f x [y Hy]. rewrite lookup_insert_ne; [done|]. congruence. }
  pose proof (cl_pc _ _ _ _ Hcl) as Hp. unfold pc_ok, run_by in Hp.
  unfold ghost_step. rewrite Hw. destruct (w_pc w) as [|ft b|f|f|f|f|f|f| | |] eqn:Ew; try done.
  - destruct (inv_queue _ _ Hinv) as [Hq _].
    destruct (scan_spec t (state_of s) (m_fibers s)) as [(l1 & ft & l2 & El & _ & _ & ->)|(_ & ->)]; [|..|done].
    { eapply list.Forall_impl; [exact Hq|apply entry_has_work]. }
    rewrite El in Hq. apply Forall_app in Hq as [_ [He _]%list.Forall_cons].
    destruct (ft_fiber ft) as [f|] eqn:Ef; [|done]. apply Hins.
    destruct He as [(f' & Ef' & _ & [Hf|[t' Hf]])|[? _]]; [..|congruence]; simplify_eq; eauto.
  - destruct (ft_fiber ft) as [f|] eqn:Ef.
    + assert (is_Some (g !! f)) as Hf.
      { destruct b; [|by subst ft]. destruct Hp as [(f' & Ef' & _ & Hf)|[? _]]; [|congruence].
        simplify_eq. eauto. }
      destruct (runnable _); by apply Hins.
    + destruct (ft_cb ft); [|done]. destruct (cb_fiber w) as [c|] eqn:Ec; simpl.
      * apply Hins. exists (CbParked t). apply (cl_cb _ _ _ _ Hcl c Ec). by rewrite Ew.
      * by rewrite lookup_insert_ne.
  - assert (is_Some (g !! f)) by (destruct Hp; eauto). case_bool_decide; by apply Hins.
  - assert (is_Some (g !! f)) by (destruct Hp as [[|] _]; eauto). case_bool_decide; [|destruct (runnable _)]; by apply Hins.
Qed.

(** What a step inside keeps. *)
Record keeps (g : ghost) (s : Scheduler) (g' : ghost) (s' : Scheduler) : Prop := {
  kp_conf : m_stopping s' = m_stopping s ∧ m_threadCount s' = m_threadCount s ∧
            m_rootThread s' = m_rootThread s ∧ m_rootFiber s' = m_rootFiber s ∧ m_threads s' = m_threads s;
  kp_workers : ∀ t, is_Some (workers s' !! t) ↔ is_Some (workers s !! t);
  kp_root : ∀ f, m_rootFiber s = Some f → g !! f = None → g' !! f = None ∧ state_of s' f = state_of s f
}.

Lemma schedule_keeps ft s s' :
  schedule ft s = Ok tt s' →
  (m_stopping s' = m_stopping s ∧ m_threadCount s' = m_threadCount s ∧
   m_rootThread s' = m_rootThread s ∧ m_rootFiber s' = m_rootFiber s ∧ m_threads s' = m_threads s) ∧
  workers s' = workers s ∧ fib s' = fib s.
Proof.
  unfold schedule, scheduleNoLock. mrun. destruct (_ || _); destruct (m_fibers s); by intros [= <-].
Qed.

Lemma keeps_schedule g g' s s' ft :
  schedule ft s = Ok tt s' → (∀ f, g !! f = None → g' !! f = None) → keeps g s g' s'.
Proof.
  intros E Hg. destruct (schedule_keeps _ _ _ E) as (Hc & Ew & Ef). split; [done| |].
  - intros t. by rewrite Ew.
  - intros f _ Hf. split; [by apply Hg|]. unfold state_of. by rewrite Ef.
Qed.

Lemma inner_keeps g s g' s' : inner g s g' s' → inv g s → keeps g s g' s'.
Proof.
  intros [g0 s0 f Hf Hr|g0 s0 f s1 _ Hf E|g0 s0 f t s1 Hf _ E|g0 s0 c s1 _ E
    |g0 s0 t e fresh s1 [w Hw] Hl Hr E] Hinv.
  - split; [done..|]. intros h Hh Hn. assert (h ≠ f) by congruence.
    split; [by rewrite lookup_insert_ne|]. by rewrite state_set_fib, decide_False.
  - eapply keeps_schedule; [done|]. intros h Hh. rewrite lookup_insert_ne; congruence.
  - eapply keeps_schedule; [done|]. intros h Hh. rewrite lookup_insert_ne; congruence.
  - by eapply keeps_schedule.
  - destruct (run_step_frame _ _ _ _ _ _ Hw E) as [(w' & Ew & _) Es (_ & E1 & E2 & E3 & E4) _].
    split; [done| |].
    + intros t'. rewrite Ew. destruct (decide (t = t')) as [<-|].
      * rewrite lookup_insert_eq, Hw. split; eauto.
      * by rewrite lookup_insert_ne.
    + intros f Ef Hf. assert (f ≠ fresh) by congruence.
      split; [by eapply unknown_ghost|by eapply unknown_fiber].
Qed.

Lemma shape_keeps ph g s g' s' : keeps g s g' s' → shape ph g s → shape ph g' s'.
Proof.
  intros [(E1 & E2 & E3 & E4 & E5) Hw Hr] [H1 H2 H3].
  split; rewrite ?E1, ?E2, ?E3, ?E4, ?E5; try done.
  - destruct (m_rootFiber s) as [f|]; [|done]. destruct H1 as (Hf & Ht & Hst).
    destruct (Hr f eq_refl Hf) as [Hf' ->]. done.
  - destruct ph as [[me|me thrs]|].
    + destruct H3 as (? & ? & ? & H3). split_and!; [done..|]. intros t ?%Hw. auto.
    + destruct H3 as (? & ? & H3). split_and!; [done..|]. intros t ?%Hw. auto.
    + destruct H3 as (H3 & ?). split; [|done]. intros t ?%Hw. auto.
Qed.

Lemma alive_inner G p sid s s' g g' :
  alive G p → heap p !! sid = Some s → G !! sid = Some g → inner g s g' s' →
  alive (<[sid := g']> G) (set_heap sid s' p).
Proof.
  intros H Hs Hg Hin. destruct (al_sched _ _ H sid s Hs) as (g0 & Hg0 & Hsv & Hsh).
  assert (g0 = g) as -> by congruence.
  pose proof (inner_keeps _ _ _ _ Hin (sv_inv _ _ Hsv)) as Hk.
  eapply alive_same; try done.
  - by eapply inner_serves.
  - by eapply shape_keeps.
  - intros t _. unfold of_sched. destruct Hk as [(_ & _ & -> & -> & _) Hw _]. by rewrite Hw.
Qed.

(** ** Construction and start *)

Lemma stops_none G p sid : alive G p → heap p !! sid = None → stops p !! sid = None.
Proof.
  intros H Hs. destruct (stops p !! sid) as [x|] eqn:E; [|done].
  destruct (al_stops _ _ H sid) as [s Hs']; [eauto|congruence].
Qed.

Lemma alive_new G p me sid threads uc root p' :
  alive G p → heap p !! sid = None → me ≠ -1 → construct me sid threads uc root p = Ok tt p' →
  alive (<[sid := ∅]> G) p'.
Proof.
  intros H Hs Hme. pose proof (stops_none _ _ _ H Hs) as Hst.
  assert (∀ t i, GetThis t p = Some i → i ≠ sid) as Hne.
  { intros t i Ht ->. destruct (al_this _ _ H t sid Ht) as (s & Hs' & _). congruence. }
  unfold construct. mget. unfold new_Scheduler. destruct (0 <? threads); [|done].
  destruct uc; [destruct (bool_decide _); [done|]|]; intros [= <-].
  - match goal with |- context [set_heap sid ?s0 p] => apply (alive_update G p _ sid s0) end;
      [done|apply serves_init; by repeat split| |done|done|].
    + cbn. rewrite Hst. split; cbn; [|done|].
      * rewrite lookup_empty. split_and!; [done..|]. left. unfold state_of. cbn. by rewrite lookup_insert_eq.
      * split; [|done]. intros t. rewrite lookup_empty. by intros [].
    + intros t i. unfold GetThis. cbn. intros [[<- <-]|[_ Ht]]%lookup_insert_Some.
      * left. split; [done|]. left. eauto.
      * right. split; [by eapply Hne|done].
  - match goal with |- context [set_heap sid ?s0 p] => apply (alive_update G p _ sid s0) end;
      [done|apply serves_init; by repeat split| |done|done|].
    + cbn. rewrite Hst. split; cbn; [done|done|]. split; [|done]. intros t. rewrite lookup_empty. by intros [].
    + intros t i Ht. right. split; [by eapply Hne|done].
Qed.

Definition spawn_all (ids : list (Z * Z * Z)) (s : Scheduler) : Scheduler :=
  foldl (λ s '(t, _, i), spawn t i s) s ids.

Lemma zlen_workers s t idle :
  workers s !! t = None → zlen (map_to_list (workers (spawn t idle s))) = 1 + zlen (map_to_list (workers s)).
Proof. intros Ht. cbn. unfold zlen. rewrite map_to_list_insert by done. cbn [length]. lia. Qed.

Lemma spawn_all_serves ids : ∀ g s,
  serves g s → NoDup (ids.*1.*1) → NoDup (ids.*2) →
  (∀ i, i ∈ ids.*2 → g !! i = None) → (∀ t, t ∈ ids.*1.*1 → workers s !! t = None) →
  zlen (map_to_list (workers s)) + zlen ids < 2 ^ 64 → serves (spawn_ghost ids g) (spawn_all ids s).
Proof.
  induction ids as [|[[t m] i] r IH]; intros g s H N1 N2 Hg Hw Hb; [done|].
  cbn in N1, N2. apply list.NoDup_cons in N1 as [M1 N1], N2 as [M2 N2].
  rewrite zlen_cons in Hb. pose proof (zlen_nonneg r). cbn. apply IH; try done.
  - apply serves_spawn; [done| | |lia]; [apply Hw|apply Hg]; cbn; left.
  - intros j Hj. rewrite lookup_insert_ne by set_solver. apply Hg. cbn. by right.
  - intros u Hu. cbn. rewrite lookup_insert_ne by set_solver. apply Hw. cbn. by right.
  - rewrite zlen_workers; [lia|]. apply Hw. cbn. left.
Qed.

(** The rest of the object while the threads are made. *)
Lemma spawn_all_conf ids : ∀ s,
  let s' := spawn_all ids s in
  (m_fibers s' = m_fibers s ∧ m_activeThreadCount s' = m_activeThreadCount s ∧
   m_idleThreadCount s' = m_idleThreadCount s) ∧
  (m_stopping s' = m_stopping s ∧ m_threadCount s' = m_threadCount s ∧
   m_rootThread s' = m_rootThread s ∧ m_rootFiber s' = m_rootFiber s) ∧
  (∀ t, is_Some (workers s' !! t) ↔ t ∈ ids.*1.*1 ∨ is_Some (workers s !! t)) ∧
  (∀ f, f ∉ ids.*2 → state_of s' f = state_of s f) ∧
  (∀ g f, f ∉ ids.*2 → spawn_ghost ids g !! f = g !! f).
Proof.
  induction ids as [|[[t m] i] r IH]; intros s; cbn.
  { split_and!; try done. intros t. split; [by right|]. by intros [?%elem_of_nil|]. }
  destruct (IH (spawn t i s)) as ((A1 & A2 & A3) & (B1 & B2 & B3 & B4) & Hw & Hf & Hg).
  split_and!; try done.
  - intros u. rewrite Hw. cbn. rewrite elem_of_cons. destruct (decide (u = t)) as [->|Hne].
    + rewrite lookup_insert_eq. split; [by auto|]. intros _. right. eauto.
    + rewrite lookup_insert_ne by done. naive_solver.
  - intros f [Hne Hn]%not_elem_of_cons. rewrite Hf by done. unfold spawn.
    change (state_of (set_worker _ _ ?x)) with (state_of x). by rewrite state_set_fib, decide_False.
  - intros g f [Hne Hn]%not_elem_of_cons. unfold spawn_ghost in Hg. rewrite Hg by done. by rewrite lookup_insert_ne.
Qed.

Lemma enter_all_effect sid s ids : ∀ p,
  heap p !! sid = Some s →
  ∃ p', enter_all sid ids p = Ok tt p' ∧ heap p' = heap p ∧ stops p' = stops p ∧
    ∀ t i, GetThis t p' = Some i → (i = sid ∧ t ∈ ids.*1.*1) ∨ GetThis t p = Some i.
Proof.
  induction ids as [|[[t m] i] r IH]; intros p Hs; cbn [enter_all]; [exists p; auto|].
  assert (∃ p1, enter_run t sid m p = Ok tt p1 ∧ heap p1 = heap p ∧ stops p1 = stops p ∧
    tl_scheduler p1 = <[t := sid]> (tl_scheduler p)) as (p1 & E1 & Eh & Es & Et).
  { unfold enter_run, setThis, at_sched. mrun. cbn. rewrite Hs.
    destruct (negb _); by eexists. }
  mstep E1. destruct (IH p1) as (p2 & E2 & Eh2 & Es2 & Ht2); [by rewrite Eh|].
  exists p2. split_and!; [done|congruence..|]. intros u j Hj. cbn. rewrite elem_of_cons.
  destruct (Ht2 u j Hj) as [[-> Hu]|Hu]; [by auto|]. unfold GetThis in *. rewrite Et in Hu.
  apply lookup_insert_Some in Hu as [[<- <-]|[_ Hu]]; auto.
Qed.

Lemma start_run ids s :
  m_stopping s = true → m_threads s = [] → length ids = Z.to_nat (m_threadCount s) →
  ∃ s', start ((λ '(t, _, i), (t, i)) <$> ids) s = Ok tt s' ∧ m_threads s' = ids.*1.*1 ∧
    let s1 := spawn_all ids (set_flags false (m_autoStop s) s) in
    m_fibers s' = m_fibers s1 ∧ fib s' = fib s1 ∧ workers s' = workers s1 ∧
    m_activeThreadCount s' = m_activeThreadCount s1 ∧ m_idleThreadCount s' = m_idleThreadCount s1 ∧
    m_stopping s' = m_stopping s1 ∧ m_threadCount s' = m_threadCount s1 ∧
    m_rootThread s' = m_rootThread s1 ∧ m_rootFiber s' = m_rootFiber s1.
Proof.
  intros Hs Ht Hl. unfold start. mget. rewrite Hs. mrun. rewrite Ht. cbv iota.
  assert (∀ s2, foldl (λ s '(t, i), spawn t i s) s2 ((λ '(t, _, i), (t, i)) <$> ids) = spawn_all ids s2) as Ef.
  { unfold spawn_all. clear. induction ids as [|[[t m] i] r IH]; intros s2; [done|]. cbn. apply IH. }
  assert (∀ n, n = length ids → take n ((λ '(t, _, i), (t, i)) <$> ids) = ((λ '(t, _, i), (t, i)) <$> ids)) as Etk.
  { intros n ->. apply take_ge. by rewrite length_fmap. }
  rewrite Etk by (cbn; lia). rewrite Ef.
  assert (m_threadCount (spawn_all ids (set_flags false (m_autoStop s) s)) = m_threadCount s) as Ec
    by apply (spawn_all_conf ids (set_flags false (m_autoStop s) s)).
  eexists. split; [reflexivity|]. cbn [m_threads m_fibers fib workers m_activeThreadCount m_idleThreadCount
    m_stopping m_threadCount m_rootThread m_rootFiber].
  split; [|by split_and!]. rewrite Ec, Etk by lia. clear. induction ids as [|[[t m] i] r IH]; [done|].
  cbn in *. by f_equal.
Qed.

Lemma workers_empty g s :
  shape None g s → m_stopping s = true → workers s = ∅ ∧ m_threads s = [].
Proof.
  intros Hsh Hs. destruct (sh_phase _ _ _ Hsh) as [Hw Ht]. specialize (Ht Hs). split; [|done].
  apply map_eq. intros t. rewrite lookup_empty. destruct (workers s !! t) as [w|] eqn:E; [|done].
  specialize (Hw t ltac:(eauto)). rewrite Ht in Hw. by apply elem_of_nil in Hw.
Qed.

Lemma alive_start G p sid s g ids p' :
  alive G p → heap p !! sid = Some s → G !! sid = Some g → stops p !! sid = None →
  length ids = Z.to_nat (m_threadCount s) → fresh_threads g s ids → start_threads sid ids p = Ok tt p' →
  alive (<[sid := if m_stopping s then spawn_ghost ids g else g]> G) p'.
Proof.
  intros H Hs Hg Hst Hl (N1 & N2 & Hb & Hf) E.
  destruct (al_sched _ _ H sid s Hs) as (g0 & Hg0 & Hsv & Hsh). assert (g0 = g) as -> by congruence.
  rewrite Hst in Hsh. unfold start_threads, at_sched in E. rewrite (bind_ok _ _ p s p) in E by (mrun; by rewrite Hs).
  unfold on_sched in E at 1. unfold mbind, M_bind in E. rewrite Hs in E.
  destruct (m_stopping s) eqn:Es.
  - destruct (workers_empty g s Hsh Es) as [Ew Et].
    destruct (start_run ids s Es Et Hl) as (s' & E1 & Eth & F1 & F2 & F3 & F4 & F5 & F6 & F7 & F8 & F9).
    rewrite E1 in E. destruct (spawn_all_conf ids (set_flags false (m_autoStop s) s))
      as (_ & (B1 & B2 & B3 & B4) & Hw & Hfb & Hgh).
    rewrite take_ge in E by lia.
    destruct (enter_all_effect sid s' ids (set_heap sid s' p)) as (p2 & E2 & Eh & Ess & Htl);
      [apply lookup_insert_eq|]. unfold when in E. rewrite E2 in E. injection E as <-.
    assert (∀ h, state_of s' h = state_of (spawn_all ids (set_flags false (m_autoStop s) s)) h) as Est
      by (intros h; unfold state_of; by rewrite F2).
    apply (alive_update G p p2 sid s').
    + done.
    + eapply (serves_same _ (spawn_all ids (set_flags false (m_autoStop s) s))); try done.
      * apply spawn_all_serves; try done.
        -- by apply serves_start.
        -- intros i Hi. by apply Hf.
        -- intros t _. cbn. by rewrite Ew.
        -- cbn. rewrite Ew, map_to_list_empty. done.
      * rewrite F6. by left.
    + rewrite Ess. cbn. rewrite Hst. split.
      * rewrite F9, B4. cbn. rewrite F8, B3. cbn. pose proof (sh_root _ _ _ Hsh) as Hr.
        destruct (m_rootFiber s) as [f|] eqn:Er; [|done]. destruct Hr as (Hr1 & Hr2 & Hr3).
        assert (f ∉ ids.*2) as Hn by (intros Hin; by destruct (Hf f Hin)).
        rewrite Est, Hgh, Hfb by done. done.
      * rewrite F7, B2, Eth. cbn. intros E0. rewrite E0 in Hl. by destruct ids.
      * rewrite F3, Eth, F6, B1. cbn. split; [|done]. intros t [Ht|Ht]%Hw; [done|].
        cbn in Ht. rewrite Ew, lookup_empty in Ht. by destruct Ht.
    + by rewrite Eh.
    + intros i _. by rewrite Ess.
    + intros t i [[-> Ht]|Ht]%Htl.
      * left. split; [done|]. right. rewrite F3. apply Hw. by left.
      * destruct (decide (i = sid)) as [->|Hne]; [left|by right]. split; [done|].
        destruct (al_this _ _ H t sid Ht) as (s1 & Hs1 & Ho). rewrite Hs in Hs1. injection Hs1 as <-.
        unfold of_sched in *. rewrite F9, B4, F8, B3, F3, Hw. cbn. naive_solver.
  - unfold start in E. rewrite bind_get in E. rewrite Es in E. injection E as <-.
    eapply (alive_same G p _ sid s s g); try done. cbn. by rewrite Hst.
Qed.

(** ** Stop *)

(** The state of a fiber the clients and workers do not know. *)
Lemma claims_unknown g st t w f v :
  g !! f = None → claims g st t w → claims g (st_set st f v) t w.
Proof.
  intros Hf [H1 H2 H3 H4].
  assert (∀ h, run_by g t h → st_set st f v h = st h) as Hrun.
  { intros h Hh. apply st_set_ne. intros ->. destruct Hh; congruence. }
  split; [|done|done|].
  - unfold pc_ok in *. destruct (w_pc w) as [|ft []|h|h|h|h|h|h| | |]; try done.
    + destruct H1 as [H1 H1']. by rewrite Hrun.
    + destruct H1 as (H1 & H1' & ?). by rewrite Hrun.
  - rewrite st_set_ne by congruence. done.
Qed.

Lemma serves_unknown g s f v : serves g s → g !! f = None → serves g (set_fib f v s).
Proof.
  intros [[I1 I2 I3 I4 I5 I6] H2 H3 H4 H5 H6] Hf.
  assert (∀ h, g !! h ≠ None → state_of (set_fib f v s) h = state_of s h) as Hst.
  { intros h Hh. rewrite state_set_fib, decide_False; [done|]. congruence. }
  assert (∀ t w, workers s !! t = Some w → state_of (set_fib f v s) (idle_fiber w) = state_of s (idle_fiber w))
    as Hid.
  { intros t w Hw. apply Hst. by rewrite (cl_idle _ _ _ _ (I3 t w Hw)). }
  split; [split|..]; try done.
  - intros h x Hx. rewrite Hst by congruence. by apply I2.
  - intros t w Hw. eapply (claims_ext _ (st_set (state_of s) f v)).
    + intros h. symmetry. by apply state_of_insert.
    + apply claims_unknown; [done|]. by apply I3.
  - intros Hs t w Hw. rewrite (Hid t w Hw). by eapply H4.
  - intros t w Hw Hx. rewrite (Hid t w Hw). by eapply H5.
  - intros Hq Hn. destruct (H6 Hq Hn) as (t & w & Hw & Hl). exists t, w. split; [done|].
    unfold leaving in *. by rewrite (Hid t w Hw).
Qed.

Lemma tickles_kept_conf n s :
  let s' := Nat.iter n tickle s in
  m_threadCount s' = m_threadCount s ∧ m_rootThread s' = m_rootThread s ∧
  m_rootFiber s' = m_rootFiber s ∧ m_threads s' = m_threads s.
Proof. induction n as [|n IH]; [done|exact IH]. Qed.

(** What [stop] tells about the scheduler and its caller. *)
Lemma stop_conf virt mine s r s' :
  stop virt mine s = Ok r s' →
  (m_threadCount s' = m_threadCount s ∧ m_rootThread s' = m_rootThread s ∧
   m_rootFiber s' = m_rootFiber s ∧ m_threads s' = m_threads s) ∧
  match r with
  | Stopped => m_threadCount s = 0
  | CallRoot | JoinThreads => m_rootThread s ≠ -1 → mine = true
  end.
Proof.
  unfold stop. mrun. repeat (case_match; try discriminate); simplify_eq; intros; simplify_eq.
  all: split; [first [done | exact (tickles_kept_conf _ _) | exact (tickles_kept_conf (S _) _)]|try done].
  1: { apply andb_true_iff in H0 as [H0 _]. by apply Z.eqb_eq in H0. }
  all: intros Hr; cbn [m_rootThread set_flags] in *; lia.
Qed.

Lemma shape_phase ph ph' g s s' :
  shape ph g s → m_rootFiber s' = m_rootFiber s → m_rootThread s' = m_rootThread s →
  m_threadCount s' = m_threadCount s → m_stopping s' = true →
  match ph' with
  | None => (∀ t, is_Some (workers s' !! t) → t ∈ m_threads s') ∧ m_threads s' = []
  | Some (InRoot me) => m_threads s' = m_threads s ∧ m_rootThread s = me ∧ is_Some (m_rootFiber s) ∧
      ∀ t, is_Some (workers s' !! t) → t = me ∨ t ∈ m_threads s'
  | Some (InJoin _ thrs) => m_threads s' = [] ∧ ∀ t, is_Some (workers s' !! t) → t ∈ thrs
  end →
  ∀ g', (∀ f, m_rootFiber s = Some f → g' !! f = g !! f) →
  (∀ f, m_rootFiber s = Some f →
    match ph' with
    | Some (InRoot _) => state_of s' f = EXEC
    | _ => state_of s' f = INIT ∨ state_of s' f = TERM
    end) → shape ph' g' s'.
Proof.
  intros [H1 H2 H3] Er Et Ec Es Hph g' Hg Hst. split; rewrite ?Er, ?Et, ?Ec, ?Es.
  - destruct (m_rootFiber s) as [f|]; [|done]. destruct H1 as (Hf & Hr & _). rewrite Hg by done.
    split_and!; [done..|by apply Hst].
  - intros E0. destruct ph' as [[|]|]; [|by destruct Hph..].
    destruct Hph as [-> _]. by apply H2.
  - destruct ph' as [[|]|]; naive_solver.
Qed.

Lemma at_heap sid s p : heap p !! sid = Some s → at_sched sid p = Ok s p.
Proof. intros Hs. unfold at_sched. mrun. by rewrite Hs. Qed.

Lemma on_heap {A} sid s p (m : M Scheduler A) a s' :
  heap p !! sid = Some s → m s = Ok a s' → on_sched sid m p = Ok a (set_heap sid s' p).
Proof. intros Hs E. unfold on_sched. by rewrite Hs, E. Qed.

Lemma enter_root sid s p me main :
  heap p !! sid = Some s → m_rootThread s = me → enter_run me sid main p = Ok tt (set_this me sid p).
Proof.
  intros Hs Hr. unfold enter_run, setThis. rewrite bind_modify.
  rewrite (bind_ok _ _ _ s (set_this me sid p)) by by apply at_heap.
  by rewrite Hr, Z.eqb_refl.
Qed.

(** The end of [stop], from a scheduler [s1] at its place: no thread but those
    to be joined is left. *)
Lemma take_alive G p q ph sid s g me s1 p' :
  alive G p → heap p !! sid = Some s → shape ph g s → serves g s1 →
  heap q = <[sid := s1]> (heap p) → (∀ i, i ≠ sid → stops q !! i = stops p !! i) → tl_scheduler q = tl_scheduler p →
  m_rootFiber s1 = m_rootFiber s → m_rootThread s1 = m_rootThread s →
  m_threadCount s1 = m_threadCount s → m_stopping s1 = true →
  (∀ t, is_Some (workers s1 !! t) → t ∈ m_threads s1) →
  (∀ f, m_rootFiber s = Some f → state_of s1 f = INIT ∨ state_of s1 f = TERM) →
  (∀ t, of_sched t s → of_sched t s1) →
  take_threads me sid q = Ok tt p' →
  alive (<[sid := g]> G) p' ∧ stops p' !! sid = Some (InJoin me (m_threads s1)).
Proof.
  intros H Hs Hsh Hsv Eh Est Etl Er Et Ec Hst Hw Hroot Hof E.
  unfold take_threads in E. rewrite (bind_ok _ _ _ s1 q) in E by (apply at_heap; rewrite Eh; apply lookup_insert_eq).
  injection E as <-. split; [|cbn; apply lookup_insert_eq].
  eapply (alive_same G p _ sid s (drop_threads s1)); try done.
  - eapply (serves_same g s1); try done. by left.
  - cbn. rewrite lookup_insert_eq. by apply (shape_phase ph (Some (InJoin me (m_threads s1))) g s).
  - cbn. by rewrite Eh, insert_insert_eq.
  - intros i Hi. cbn. rewrite lookup_insert_ne by done. by apply Est.
  - intros t _ Ho. by apply Hof in Ho.
Qed.

Section stopping.
Context (G : ghosts) (p : process) (sid : Z) (s : Scheduler) (g : ghost).
Hypotheses (H : alive G p) (Hs : heap p !! sid = Some s) (Hg : G !! sid = Some g).
Hypothesis Hst : stops p !! sid = None.

Lemma at_rest : serves g s ∧ shape None g s.
Proof.
  destruct (al_sched _ _ H sid s Hs) as (g0 & Hg0 & Hsv & Hsh).
  assert (g0 = g) as -> by congruence. by rewrite Hst in Hsh.
Qed.

(** The calling thread of a scheduler that has a root fiber is its root thread. *)
Lemma caller_is_root me :
  GetThis me p = Some sid → workers s !! me = None → m_rootThread s = me ∧ is_Some (m_rootFiber s).
Proof.
  intros Ht Hw. destruct (al_this _ _ H me sid Ht) as (s1 & Hs1 & Ho). rewrite Hs in Hs1.
  injection Hs1 as <-. destruct Ho as [[? ?]|[w Hw']]; [done|congruence].
Qed.

Lemma root_at_rest f : m_rootFiber s = Some f → state_of s f = INIT ∨ state_of s f = TERM.
Proof. intros Er. destruct at_rest as [_ Hsh]. pose proof (sh_root _ _ _ Hsh) as Hr. rewrite Er in Hr. tauto. Qed.

Lemma alive_call_root me idle s1 p' :
  workers s !! me = None → zlen (map_to_list (workers s)) + 1 < 2 ^ 64 →
  g !! idle = None → m_rootFiber s ≠ Some idle → serves g s1 → workers s1 = workers s →
  m_rootFiber s1 = m_rootFiber s → m_rootThread s1 = m_rootThread s → m_threads s1 = m_threads s →
  m_threadCount s1 = m_threadCount s → m_stopping s1 = true →
  (m_rootThread s ≠ -1 → GetThis me p = Some sid) →
  call_root me sid idle (set_heap sid s1 p) = Ok tt p' →
  stops p' !! sid = Some (InRoot me) ∧ alive (<[sid := <[idle := IdleOf me]> g]> G) p'.
Proof.
  intros Hw Hb Hi Hri Hsv1 Ew Er Et Ets Ec Hstop Hmine E. destruct at_rest as [Hsv Hsh].
  unfold call_root in E. rewrite (bind_ok _ _ _ s1 (set_heap sid s1 p)) in E by (apply at_heap, lookup_insert_eq).
  rewrite Er in E. pose proof (sh_root _ _ _ Hsh) as Hr. destruct (m_rootFiber s) as [f|] eqn:Erf; [|done].
  destruct Hr as (Hf & Hr & _). destruct (caller_is_root me) as [Hme _]; [by apply Hmine|done|].
  destruct (state_of s1 f) eqn:Ef; try done.
  rewrite (bind_ok _ _ _ tt (set_heap sid (set_fib f EXEC s1) (set_heap sid s1 p))) in E
    by (eapply on_heap; [apply lookup_insert_eq|done]).
  rewrite (bind_ok _ _ _ _ _ (enter_root sid (set_fib f EXEC s1) _ me f (lookup_insert_eq _ _ _) ltac:(cbn; congruence))) in E.
  rewrite (bind_ok _ _ _ tt (set_heap sid (spawn me idle (set_fib f EXEC s1))
    (set_this me sid (set_heap sid (set_fib f EXEC s1) (set_heap sid s1 p))))) in E
    by (eapply on_heap; [apply lookup_insert_eq|done]).
  injection E as <-. split; [apply lookup_insert_eq|].
  assert (state_of (spawn me idle (set_fib f EXEC s1)) f = EXEC) as Hex.
  { unfold spawn. change (state_of (set_worker _ _ ?x)) with (state_of x).
    rewrite state_set_fib, decide_False by congruence. by rewrite state_set_fib, decide_True. }
  apply (alive_update G p _ sid (spawn me idle (set_fib f EXEC s1))).
  - done.
  - apply serves_spawn; [by apply serves_unknown|cbn; congruence|done|]. cbn. by rewrite Ew.
  - cbn. rewrite lookup_insert_eq. apply (shape_phase None (Some (InRoot me)) g s); try (cbn; congruence); try done.
    + rewrite Erf. cbn. split_and!; [congruence..|eauto|]. intros t. rewrite Ew, Ets. intros Ht.
      destruct (decide (t = me)) as [->|Hne]; [by left|right]. rewrite lookup_insert_ne in Ht by done.
      by apply (sh_phase _ _ _ Hsh).
    + intros f'. rewrite Erf. intros [= <-]. rewrite lookup_insert_ne by congruence. done.
  - cbn. by rewrite !insert_insert_eq.
  - intros i Hne. cbn. by rewrite lookup_insert_ne.
  - intros t i. unfold GetThis. cbn. intros [[<- <-]|[Hne Ht]]%lookup_insert_Some.
    + left. split; [done|]. right. cbn. rewrite lookup_insert_eq. eauto.
    + destruct (decide (i = sid)) as [->|]; [left|by right]. split; [done|].
      destruct (al_this _ _ H t sid Ht) as (s2 & Hs2 & Ho). rewrite Hs in Hs2. injection Hs2 as <-.
      unfold of_sched in *. cbn. rewrite Er, Et, Ew, lookup_insert_ne by done. by rewrite <- Erf.
Qed.

Lemma alive_stop virt me idle p' :
  workers s !! me = None → zlen (map_to_list (workers s)) + 1 < 2 ^ 64 →
  g !! idle = None → m_rootFiber s ≠ Some idle → stop_sched virt me sid idle p = Ok tt p' →
  alive (<[sid := match stops p' !! sid with
                  | Some (InRoot t) => <[idle := IdleOf t]> g | _ => g end]> G) p'.
Proof.
  intros Hw Hb Hi Hri E. destruct at_rest as [Hsv Hsh]. unfold stop_sched in E. rewrite bind_get in E.
  unfold on_sched at 1 in E. unfold mbind, M_bind in E. rewrite Hs in E.
  destruct (stop virt _ s) as [r s1| | |] eqn:E1; try done.
  destruct (stop_effect _ _ _ _ _ E1) as (_ & F2 & F3 & _ & _ & F6 & _).
  destruct (stop_conf _ _ _ _ _ E1) as ((C1 & C2 & C3 & C4) & Cr).
  pose proof (serves_stop _ _ _ _ _ _ Hsv E1) as Hsv1.
  assert (∀ f, state_of s1 f = state_of s f) as Est by (intros f; unfold state_of; by rewrite F2).
  destruct r.
  - injection E as <-. cbn. rewrite Hst. eapply (alive_same G p _ sid s s1); try done.
    + cbn. rewrite Hst. apply (shape_phase None None g s); try done.
      * rewrite F3, C4. destruct (sh_phase _ _ _ Hsh) as [Hph _]. split; [done|by apply Hsh].
      * intros f Hf. rewrite Est. by apply root_at_rest.
    + intros t _. unfold of_sched. by rewrite C2, C3, F3.
  - destruct (alive_call_root me idle s1 p') as [-> Ha]; try done.
    intros Hr. by apply Cr, bool_decide_eq_true in Hr.
  - destruct (take_alive G p (set_heap sid s1 p) None sid s g me s1 p') as [Ha ->]; try done.
    + rewrite F3, C4. apply Hsh.
    + intros f Hf. rewrite Est. by apply root_at_rest.
    + intros t. unfold of_sched. by rewrite C2, C3, F3.
Qed.
End stopping.

Lemma exited_worker t s : has_exited t s = true → ∃ w, workers s !! t = Some w ∧ w_pc w = Exited.
Proof. unfold has_exited. destruct (workers s !! t) as [w|]; [|done]. intros Hx. exists w. by destruct (w_pc w). Qed.

Lemma alive_back G p me sid s p' :
  alive G p → heap p !! sid = Some s → stops p !! sid = Some (InRoot me) → has_exited me s = true →
  root_back me sid p = Ok tt p' → alive G p'.
Proof.
  intros H Hs Hst (w & Hw & Hx)%exited_worker E. destruct (al_sched _ _ H sid s Hs) as (g & Hg & Hsv & Hsh).
  rewrite Hst in Hsh. pose proof (sh_root _ _ _ Hsh) as Hr. destruct (sh_phase _ _ _ Hsh) as (Hsp & Hme & [f Hf] & Hph).
  rewrite Hf in Hr. destruct Hr as (Hgf & _ & _).
  unfold root_back in E. rewrite (bind_ok _ _ _ _ _ (at_heap _ _ _ Hs)), Hf in E.
  rewrite (bind_ok _ _ p tt (set_heap sid (leave_run me (set_fib f TERM s)) p)) in E by by eapply on_heap.
  rewrite <- (insert_id G sid g Hg).
  apply (take_alive G p (set_heap sid (leave_run me (set_fib f TERM s)) p) _ sid s g me
    (leave_run me (set_fib f TERM s)) p' H Hs Hsh); try done.
  - eapply serves_leave; [by apply serves_unknown|done|done].
  - intros t. cbn. intros [u [Hne Hu]%lookup_delete_Some]. destruct (Hph t) as [->|]; [eauto|done|done].
  - intros f'. rewrite Hf. intros [= <-]. right. change (state_of (leave_run _ ?x)) with (state_of x).
    by rewrite state_set_fib, decide_True.
  - intros t [?|[u Hu]]; [by left|]. destruct (decide (t = me)) as [->|]; [left; eauto|right].
    cbn. rewrite lookup_delete_ne by done. eauto.
Qed.

Lemma alive_exit G p t sid s p' :
  alive G p → heap p !! sid = Some s → has_exited t s = true →
  (∀ me, stops p !! sid = Some (InRoot me) → t ≠ me) →
  thread_exit t sid p = Ok tt p' → alive G p'.
Proof.
  intros H Hs (w & Hw & Hx)%exited_worker Hne E. destruct (al_sched _ _ H sid s Hs) as (g & Hg & Hsv & Hsh).
  unfold thread_exit in E. rewrite (bind_ok _ _ p tt (set_heap sid (leave_run t s) p)) in E by by eapply on_heap.
  injection E as <-. rewrite <- (insert_id G sid g Hg).
  assert (∀ u, is_Some (workers (leave_run t s) !! u) → is_Some (workers s !! u)) as Hsub.
  { intros u. cbn. intros [x [_ Hu]%lookup_delete_Some]. eauto. }
  apply (alive_update G p _ sid (leave_run t s)); try done.
  - by eapply serves_leave.
  - cbn. destruct Hsh as [H1 H2 H3]. split; [done|done|].
    destruct (stops p !! sid) as [[me|me thrs]|].
    + destruct H3 as (? & ? & ? & H3). split_and!; [done..|]. auto.
    + destruct H3 as (? & ? & H3). split_and!; [done..|]. auto.
    + destruct H3 as (H3 & ?). split; [|done]. auto.
  - intros u i. unfold GetThis. cbn. intros [Hnu Hu]%lookup_delete_Some.
    destruct (decide (i = sid)) as [->|]; [left|by right]. split; [done|].
    destruct (al_this _ _ H u sid Hu) as (s1 & Hs1 & Ho). rewrite Hs in Hs1. injection Hs1 as <-.
    destruct Ho as [?|[x Hx']]; [by left|right]. cbn. rewrite lookup_delete_ne by done. eauto.
Qed.

Lemma alive_joined G p sid me thrs s :
  alive G p → heap p !! sid = Some s → stops p !! sid = Some (InJoin me thrs) →
  (∀ t, t ∈ thrs → workers s !! t = None) → alive G (end_stop sid p).
Proof.
  intros H Hs Hst Hthr. destruct (al_sched _ _ H sid s Hs) as (g & Hg & Hsv & Hsh).
  rewrite Hst in Hsh. rewrite <- (insert_id G sid g Hg).
  eapply (alive_same G p _ sid s s); try done.
  - cbn. rewrite lookup_delete_eq. destruct Hsh as [H1 H2 (H3 & H4 & H5)]. split; [done|done|].
    split; [|done]. intros t [w Hw]. specialize (H5 t ltac:(eauto)). rewrite (Hthr t H5) in Hw. done.
  - cbn. by rewrite insert_id.
  - intros i Hi. cbn. by rewrite lookup_delete_ne.
Qed.

(** ** Destruction *)

Lemma destroy_run G p me sid s :
  alive G p → heap p !! sid = Some s → stops p !! sid = None → m_stopping s = true →
  m_rootFiber s = None ∨ m_rootThread s = me →
  ∃ p', destroy me sid p = Ok tt p' ∧ heap p' = delete sid (heap p) ∧ stops p' = stops p ∧
    ∀ t i, GetThis t p' = Some i → i ≠ sid ∧ GetThis t p = Some i.
Proof.
  intros H Hs Hst Hstop Hme. destruct (al_sched _ _ H sid s Hs) as (g & Hg & Hsv & Hsh).
  rewrite Hst in Hsh. destruct (workers_empty g s Hsh Hstop) as [Ew _]. pose proof (sh_root _ _ _ Hsh) as Hr.
  assert (∀ t, GetThis t p = Some sid → t = me) as Honly.
  { intros t Ht. destruct (al_this _ _ H t sid Ht) as (s1 & Hs1 & Ho). rewrite Hs in Hs1. injection Hs1 as <-.
    destruct Ho as [[[f Hf] Hrt]|[w Hw]]; [|by rewrite Ew in Hw]. destruct Hme; congruence. }
  unfold destroy. rewrite (bind_ok _ _ _ _ _ (at_heap _ _ _ Hs)). mrun. rewrite Hstop.
  assert (match m_rootFiber s with
          | Some f => resettable (state_of s f) = true | None => True end) as Hre.
  { destruct (m_rootFiber s) as [f|]; [|done]. destruct Hr as (_ & _ & [-> | ->]); done. }
  case_bool_decide as Ht; (destruct (m_rootFiber s) as [f|]; [rewrite Hre|]);
    (eexists; split_and!; [done|done|done|]); unfold GetThis in *; cbn; intros t i.
  all: try (intros [Hne Hi]%lookup_delete_Some; split; [|done]; intros ->; by destruct (Honly t Hi)).
  all: intros Hi; split; [|done]; intros ->; apply Honly in Hi as He; by subst t.
Qed.

Lemma alive_destroy G p me sid s p' :
  alive G p → heap p !! sid = Some s → stops p !! sid = None →
  m_rootFiber s = None ∨ m_rootThread s = me → destroy me sid p = Ok tt p' → alive (delete sid G) p'.
Proof.
  intros H Hs Hst Hme E.
  assert (m_stopping s = true) as Hstop.
  { unfold destroy in E. rewrite (bind_ok _ _ _ _ _ (at_heap _ _ _ Hs)) in E.
    minv E. unfold peng_assert in E0. by destruct (m_stopping s). }
  destruct (destroy_run G p me sid s H Hs Hst Hstop Hme) as (p1 & E1 & Eh & Es & Ht).
  rewrite E in E1. injection E1 as <-. split.
  - intros i s1. rewrite Eh. intros [Hne Hi]%lookup_delete_Some. rewrite lookup_delete_ne, Es by done.
    by apply (al_sched _ _ H).
  - intros t i [Hne Hi]%Ht. rewrite Eh, lookup_delete_ne by done. by apply (al_this _ _ H t).
  - intros i. rewrite Es, Eh. intros Hi. rewrite lookup_delete_ne; [by apply (al_stops _ _ H)|].
    intros <-. rewrite Hst in Hi. by destruct Hi.
Qed.

Lemma life_alive G p : life G p → alive G p.
Proof.
  induction 1 as [|G p me sid threads uc root p' _ IH Hs Hme E|G p sid s s' g g' _ IH Hs Hg Hin
    |G p sid s g ids p' _ IH Hs Hg Hst Hl Hf E|G p virt me sid idle s g p' _ IH Hs Hg Hst Hw Hb Hi Hri E
    |G p me sid s p' _ IH Hs Hst Hx E|G p t sid s p' _ IH Hs Hx Hne E|G p sid me thrs s _ IH Hs Hst Hthr
    |G p me sid s p' _ IH Hs Hst Hme E].
  - split.
    + intros sid s. by rewrite lookup_empty.
    + intros t sid. unfold GetThis. cbn. by rewrite lookup_empty.
    + intros sid. cbn. rewrite lookup_empty. by intros [].
  - by eapply alive_new.
  - by eapply alive_inner.
  - by eapply alive_start.
  - by eapply alive_stop.
  - by eapply alive_back.
  - by eapply alive_exit.
  - by eapply alive_joined.
  - by eapply alive_destroy.
Qed.

(** C21: in every run of a process that builds, starts, stops and destroys schedulers, each
    destroyed by the thread that built it if that thread is one of its workers, GetThis() of
    a thread is null or a scheduler that exists; a scheduler that is not running has no
    worker left, its destruction fails no assertion, and leaves no thread a pointer to it.
    *)
Theorem scheduler_lifecycle G p :
  life G p →
  (∀ t sid, GetThis t p = Some sid → is_Some (heap p !! sid)) ∧
  (∀ me sid s, heap p !! sid = Some s → stops p !! sid = None → m_stopping s = true →
     m_rootFiber s = None ∨ m_rootThread s = me →
     workers s = ∅ ∧
     ∃ p', destroy me sid p = Ok tt p' ∧ heap p' !! sid = None ∧ ∀ t, GetThis t p' ≠ Some sid).
Proof.
  intros H%life_alive. split.
  - intros t sid Ht. destruct (al_this _ _ H t sid Ht) as (s & Hs & _). eauto.
  - intros me sid s Hs Hst Hstop Hme.
    destruct (al_sched _ _ H sid s Hs) as (g & _ & _ & Hsh). rewrite Hst in Hsh.
    split; [by eapply workers_empty|].
    destruct (destroy_run G p me sid s H Hs Hst Hstop Hme) as (p' & E & Eh & _ & Ht).
    exists p'. split_and!; [done|by rewrite Eh, lookup_delete_eq|]. by intros t [? _]%Ht.
Qed.

(** ** IOManager *)

(** [IOManager::~IOManager] after its [stop]: the epoll instance and both ends
    of the pipe are closed, the contexts deleted; [fds]: the open descriptors. *)
Definition io_release (epfd rd wr : Z) (fds : gset Z) (s : IOManager.IOManager) :
    gset Z * IOManager.IOManager :=
  (fds ∖ {[epfd]} ∖ {[rd]} ∖ {[wr]}, IOManager.set_interest ∅ (IOManager.set_contexts [] s)).

(** The descriptors the constructor opened are given back. *)
Lemma io_release_fds epfd rd wr fds s :
  {[epfd; rd; wr]} ## fds → (io_release epfd rd wr ({[epfd; rd; wr]} ∪ fds) s).1 = fds.
Proof. intros Hd. cbn. set_solver. Qed.

(** ** Concrete runs *)

Lemma set_heap_twice sid s1 s2 p : set_heap sid s2 (set_heap sid s1 p) = set_heap sid s2 p.
Proof. unfold set_heap. cbn. by rewrite insert_insert_eq. Qed.

Lemma set_heap_id sid s p : heap p !! sid = Some s → set_heap sid s p = p.
Proof. intros Hs. unfold set_heap. rewrite insert_id by done. by destruct p. Qed.

Lemma life_play fresh l sid : ∀ G p g s g' s',
  life G p → heap p !! sid = Some s → G !! sid = Some g → play fresh l g s = Some (g', s') →
  life (<[sid := g']> G) (set_heap sid s' p).
Proof.
  induction l as [|[t e] r IH]; intros G p g s g' s' H Hs Hg; simpl.
  { intros [= <- <-]. by rewrite insert_id, set_heap_id. }
  destruct (legalb t e fresh s g) eqn:El; [|done]. apply legalb_spec in El as (Hw & Hl & Hr).
  destruct (run_step t e fresh s) as [[] s1| | |] eqn:E; try done. intros Hp.
  rewrite <- (insert_insert_eq G sid g' (ghost_step t fresh s g)), <- (set_heap_twice sid s1).
  eapply IH; [|apply lookup_insert_eq..|exact Hp]. eapply life_inner; try done. by eapply inner_step.
Qed.

Definition no_process : process := mkProc ∅ ∅ ∅ ∅.
Definition run_or {A} (m : M process A) (p : process) : process := match m p with Ok _ p' => p' | _ => no_process end.
Definition sched_at (sid : Z) (p : process) : Scheduler := default blank (heap p !! sid).
Definition play_at (fresh : Z) (l : list (Z * slice_end)) (sid : Z) (G : ghosts) (p : process) : ghosts * process :=
  match play fresh l (default ∅ (G !! sid)) (sched_at sid p) with
  | Some (g, s) => (<[sid := g]> G, set_heap sid s p)
  | None => (∅, no_process)
  end.

(** A scheduler of two threads that includes its caller, thread 100: it is
    built and started, and [stop] joins the thread 1. *)
Definition boot1 : process := run_or (construct 100 7 2 true 50) no_process.
Definition boot2 : process := run_or (start_threads 7 [(1, 61, 21)]) boot1.
Definition boot3 : process := run_or (stop_sched stopping 100 7 22) boot2.
Definition boot4 : ghosts * process :=
  play_at 99 (steps 1 6 ToHold) 7 {[7 := <[21 := IdleOf 1]> ∅]} boot3.
Definition boot5 : process := end_stop 7 (run_or (thread_exit 1 7) boot4.2).

Lemma life_eq G G' p : life G p → G = G' → life G' p.
Proof. by intros H <-. Qed.

Lemma boot_life : ∃ G, life G boot5.
Proof.
  assert (life {[7 := <[21 := IdleOf 1]> ∅]} boot2) as L2.
  { apply (life_eq (<[7 := if m_stopping (sched_at 7 boot1) then spawn_ghost [(1, 61, 21)] ∅ else ∅]> {[7 := ∅]}));
      [|vm_compute; reflexivity].
    apply (life_start {[7 := ∅]} boot1 7 (sched_at 7 boot1) ∅ [(1, 61, 21)]); try (vm_compute; reflexivity).
    - apply (life_eq (<[7 := ∅]> ∅)); [|done]. apply (life_new ∅ no_process 100 7 2 true 50); [apply life_init|done|done|vm_compute; reflexivity].
    - split_and!; [apply NoDup_singleton..|done|]. intros i ->%list_elem_of_singleton. by split. }
  assert (life {[7 := <[21 := IdleOf 1]> ∅]} boot3) as L3.
  { apply (life_eq (<[7 := match stops boot3 !! 7 with Some (InRoot t) => <[22 := IdleOf t]> (<[21 := IdleOf 1]> ∅)
                           | _ => <[21 := IdleOf 1]> ∅ end]> {[7 := <[21 := IdleOf 1]> ∅]})); [|vm_compute; reflexivity].
    apply (life_stop {[7 := <[21 := IdleOf 1]> ∅]} boot2 stopping 100 7 22 (sched_at 7 boot2) (<[21 := IdleOf 1]> ∅)); try (vm_compute; reflexivity).
    - done.
    - vm_compute. discriminate. }
  assert (life boot4.1 boot4.2) as L4.
  { change boot4 with (play_at 99 (steps 1 6 ToHold) 7 {[7 := <[21 := IdleOf 1]> ∅]} boot3).
    unfold play_at. destruct (play _ _ _ _) as [[g s]|] eqn:E; [|vm_compute in E; discriminate E].
    eapply (life_play 99 (steps 1 6 ToHold) 7); [exact L3| |reflexivity|exact E]. vm_compute. reflexivity. }
  assert (life boot4.1 (run_or (thread_exit 1 7) boot4.2)) as L5.
  { apply (life_exit boot4.1 boot4.2 1 7 (sched_at 7 boot4.2)); try (vm_compute; reflexivity); [done|].
    intros me. vm_compute. discriminate. }
  exists boot4.1.
  apply (life_joined boot4.1 _ 7 100 [1] (sched_at 7 (run_or (thread_exit 1 7) boot4.2)) L5); vm_compute; reflexivity.
Qed.

Lemma scheduler_lifecycle_witness :
  ∃ p', destroy 100 7 boot5 = Ok tt p' ∧ heap p' !! 7 = None ∧ ∀ t, GetThis t p' ≠ Some 7.
Proof.
  destruct boot_life as [G HL].
  apply (proj2 (scheduler_lifecycle G boot5 HL) 100 7 (sched_at 7 boot5)); try (vm_compute; reflexivity).
  right. vm_compute. reflexivity.
Defined.

(** The destructor forgets [t_fiber]: the thread still has the address of the
    root fiber that was destroyed. *)
Example main_fiber_dangles :
  let p := run_or (destroy 100 7) boot5 in GetThis 100 p = None ∧ GetMainFiber 100 p = Some 50.
Proof. vm_compute. split; reflexivity. Qed.

(** Destroyed by another thread, the scheduler stays the [GetThis()] of its
    caller; [stop] with no thread and nothing to do lets this happen. *)
Example destroyed_elsewhere_dangles :
  let p := run_or (construct 100 7 1 true 50;; stop_sched stopping 200 7 22;; destroy 200 7) no_process in
  GetThis 100 p = Some 7 ∧ heap p !! 7 = None.
Proof. vm_compute. split; reflexivity. Qed.

(** A scheduler with its caller is started, run and stopped; it cannot be used
    again: the root fiber has ended, and the next [stop] that finds work calls it. *)
Definition first_life : process :=
  let p1 := run_or (construct 100 7 1 true 50;; start_threads 7 [];;
                    on_sched 7 (schedule (mkFT None (Some 1) (-1)));; stop_sched stopping 100 7 22) no_process in
  let '(G2, p2) := play_at 99 (steps 100 2 ToHold) 7 {[7 := <[22 := IdleOf 100]> ∅]} p1 in
  let '(_, p3) := play_at 98 (steps 100 9 (ToEnd Returned)) 7 G2 p2 in
  end_stop 7 (run_or (root_back 100 7) p3).

Example restart_aborts :
  m_fibers (sched_at 7 first_life) = [] ∧
  (start_threads 7 [];; on_sched 7 (schedule (mkFT None (Some 1) (-1)));; stop_sched stopping 100 7 23) first_life
    = Abort "never reach fiber_id=".
Proof. vm_compute. split; reflexivity. Qed.
