(* ===== verification/FdManager.v ===== *)
(** * Descriptor contexts (fd_manager.h, fd_manager.cc)

    The table of [FdCtx] objects over the kernel's descriptor table, which the
    real [fstat] and [fcntl] read and change: whether a descriptor is a socket
    and its status flags. *)

From S2P Require Import Prelude.

Definition O_NONBLOCK : Z := 2048.
Definition SO_RCVTIMEO : Z := 20.
Definition SO_SNDTIMEO : Z := 21.

(** A timeout of [(uint64_t)-1]. *)
Definition no_timeout : Z := 2 ^ 64 - 1.

(** An open file of the kernel. *)
Record kfile := mkFile { k_socket : bool; k_flags : Z }.

Record FdCtx := mkCtx {
  m_isInit : bool;
  m_isSocket : bool;
  m_sysNonblock : bool;
  m_userNonblock : bool;
  m_isClosed : bool;
  m_fd : Z;
  m_recvTimeout : Z;
  m_sendTimeout : Z
}.

Record fds := mkFds { m_datas : list (option FdCtx); kernel : gmap Z kfile }.

Definition set_datas (l : list (option FdCtx)) (s : fds) : fds := mkFds l (kernel s).
Definition set_kernel (k : gmap Z kfile) (s : fds) : fds := mkFds (m_datas s) k.

(** [fcntl_f(fd, F_SETFL, flags)]: flags of an open descriptor. *)
Definition sys_setfl (fd flags : Z) (k : gmap Z kfile) : gmap Z kfile :=
  match k !! fd with Some f => <[fd := mkFile (k_socket f) flags]> k | None => k end.

(** [fcntl_f(fd, F_GETFL)]; -1 for a descriptor that is not open. *)
Definition sys_getfl (fd : Z) (k : gmap Z kfile) : Z :=
  match k !! fd with Some f => k_flags f | None => -1 end.

Definition init (c : FdCtx) : M fds (FdCtx * bool) :=
  if m_isInit c then mret (c, true)
  else
    s ← get;
    let '(is_init, is_socket) :=
      match kernel s !! m_fd c with
      | None => (false, false)
      | Some f => (true, k_socket f)
      end in
    when is_socket
      (let flags := sys_getfl (m_fd c) (kernel s) in
       when (negb (Z.lnot (Z.land flags O_NONBLOCK) =? 0))
         (modify (λ s, set_kernel (sys_setfl (m_fd c) (Z.lor flags O_NONBLOCK) (kernel s)) s)));;
    mret (mkCtx is_init is_socket is_socket false false (m_fd c) no_timeout no_timeout, is_init).

Definition new_FdCtx (fd : Z) : M fds FdCtx :=
  '(c, _) ← init (mkCtx false false false false false fd no_timeout no_timeout);
  mret c.

Definition setTimeout (type v : Z) (c : FdCtx) : FdCtx :=
  if type =? SO_RCVTIMEO then
    mkCtx (m_isInit c) (m_isSocket c) (m_sysNonblock c) (m_userNonblock c) (m_isClosed c) (m_fd c)
      v (m_sendTimeout c)
  else
    mkCtx (m_isInit c) (m_isSocket c) (m_sysNonblock c) (m_userNonblock c) (m_isClosed c) (m_fd c)
      (m_recvTimeout c) v.

Definition getTimeout (type : Z) (c : FdCtx) : Z :=
  if type =? SO_RCVTIMEO then m_recvTimeout c else m_sendTimeout c.

Definition setUserNonblock (v : bool) (c : FdCtx) : FdCtx :=
  mkCtx (m_isInit c) (m_isSocket c) (m_sysNonblock c) v (m_isClosed c) (m_fd c)
    (m_recvTimeout c) (m_sendTimeout c).

(** [FdManager::FdManager]. *)
Definition new_FdManager (k : gmap Z kfile) : fds := mkFds (replicate 64 None) k.

(** [m_datas[fd]]: an index outside the vector is undefined. *)
Definition data_at (fd : Z) : M fds (option FdCtx) :=
  s ← get;
  of_option "m_datas out of range" (if fd <? 0 then None else m_datas s !! Z.to_nat fd).

Definition put_data (fd : Z) (o : option FdCtx) : M fds unit :=
  data_at fd;;
  modify (λ s, set_datas (<[Z.to_nat fd := o]> (m_datas s)) s).

Definition FdManager_get (fd : Z) (auto_create : bool) : M fds (option FdCtx) :=
  s ← get;
  let create :=
    c ← new_FdCtx fd;
    put_data fd (Some c);;
    mret (Some c) in
  if zlen (m_datas s) <=? fd then
    if auto_create then create else mret None
  else
    o ← data_at fd;
    match o with
    | Some c => mret (Some c)
    | None => if auto_create then create else mret None
    end.

Definition FdManager_del (fd : Z) : M fds unit :=
  s ← get;
  if zlen (m_datas s) <=? fd then mret tt else put_data fd None.

(** ** Invariant: a context is that of its descriptor, and a socket's
    descriptor is non-blocking in the kernel. *)

Definition ctx_ok (k : gmap Z kfile) (fd : Z) (c : FdCtx) : Prop :=
  m_fd c = fd ∧ m_isClosed c = false ∧ m_sysNonblock c = m_isSocket c ∧
  (m_isSocket c = true → ∃ f, k !! fd = Some f ∧ k_socket f = true ∧
     Z.testbit (k_flags f) 11 = true).

Record fds_ok (s : fds) : Prop := {
  fo_len : length (m_datas s) = 64%nat;
  fo_ctx : ∀ i c, m_datas s !! i = Some (Some c) → ctx_ok (kernel s) (Z.of_nat i) c
}.

Lemma data_at_run s fd o :
  0 <= fd → m_datas s !! Z.to_nat fd = Some o → data_at fd s = Ok o s.
Proof.
  intros Hfd Ho. unfold data_at. mrun. destruct (fd <? 0) eqn:E; [lia|]. by rewrite Ho.
Qed.

Lemma data_at_out s fd :
  0 <= fd → m_datas s !! Z.to_nat fd = None → data_at fd s = Undef "m_datas out of range".
Proof.
  intros Hfd Ho. unfold data_at. mrun. destruct (fd <? 0) eqn:E; [lia|]. by rewrite Ho.
Qed.

(** The context made for a descriptor, and the kernel after it. *)
Definition made (s : fds) (fd : Z) : FdCtx * fds :=
  match kernel s !! fd with
  | Some f =>
      (mkCtx true (k_socket f) (k_socket f) false false fd no_timeout no_timeout,
       if k_socket f then
         set_kernel (<[fd := mkFile true (Z.lor (k_flags f) O_NONBLOCK)]> (kernel s)) s
       else s)
  | None => (mkCtx false false false false false fd no_timeout no_timeout, s)
  end.

Lemma new_FdCtx_run s fd : new_FdCtx fd s = Ok (made s fd).1 (made s fd).2.
Proof.
  unfold new_FdCtx, init, made. cbn [m_isInit m_fd]. unfold sys_getfl, sys_setfl. mrun.
  destruct (kernel s !! fd) as [[[] fl]|] eqn:E; cbn [k_socket k_flags]; [|done..].
  assert (Z.lnot (Z.land fl O_NONBLOCK) =? 0 = false) as ->; [|cbn; by rewrite E].
  apply Z.eqb_neq. intros H. apply (f_equal Z.lnot) in H. rewrite Z.lnot_involutive in H.
  assert (Z.testbit (Z.land fl O_NONBLOCK) 0 = true) as Hb by (by rewrite H).
  rewrite Z.land_spec in Hb. by rewrite andb_false_r in Hb.
Qed.

Lemma testbit_O_NONBLOCK fl : Z.testbit (Z.lor fl O_NONBLOCK) 11 = true.
Proof. rewrite Z.lor_spec. apply orb_true_r. Qed.

(** Making a context keeps what the other contexts rely on. *)
Lemma made_kernel s fd i c :
  ctx_ok (kernel s) i c → ctx_ok (kernel (made s fd).2) i c.
Proof.
  intros (H1 & H2 & H3 & H4). split_and!; [done|done|done|]. intros Hs.
  destruct (H4 Hs) as (f & Hf & Hsock & Hb). unfold made.
  destruct (kernel s !! fd) as [g|] eqn:E; [|by exists f].
  destruct (k_socket g) eqn:Eg; [|by exists f]. cbn.
  destruct (decide (i = fd)) as [->|Hne].
  - rewrite lookup_insert_eq. eexists. split_and!; [done|done|]. apply testbit_O_NONBLOCK.
  - rewrite lookup_insert_ne by done. by exists f.
Qed.

Lemma made_ok s fd : ctx_ok (kernel (made s fd).2) fd (made s fd).1 ∧ m_datas (made s fd).2 = m_datas s.
Proof.
  unfold made. destruct (kernel s !! fd) as [[[] fl]|] eqn:E; cbn; (split; [|done]); split_and!; try done.
  intros _. rewrite lookup_insert_eq. eexists. split_and!; [done|done|]. apply testbit_O_NONBLOCK.
Qed.

(** The kernel a descriptor relies on did not change. *)
Lemma fds_ok_put s fd o :
  fds_ok s → (∀ c, o = Some c → ctx_ok (kernel s) fd c) → 0 <= fd < 64 →
  put_data fd o s = Ok tt (set_datas (<[Z.to_nat fd := o]> (m_datas s)) s) ∧
  fds_ok (set_datas (<[Z.to_nat fd := o]> (m_datas s)) s).
Proof.
  intros [Hl Hc] Ho Hfd. destruct (lookup_lt_is_Some_2 (m_datas s) (Z.to_nat fd)) as [x Hx]; [lia|].
  split.
  - unfold put_data. by mstep (data_at_run s fd x (proj1 Hfd) Hx).
  - split; cbn; [by rewrite length_insert|]. intros i c.
    destruct (decide (Z.to_nat fd = i)) as [<-|Hne].
    + rewrite list_lookup_insert_eq by lia. intros [= Hoc]. rewrite Z2Nat.id by lia. by apply Ho.
    + rewrite list_lookup_insert_ne by done. apply Hc.
Qed.

Lemma in_table s fd : fds_ok s → fd < 64 → zlen (m_datas s) <=? fd = false.
Proof. intros Hok Hfd. apply Z.leb_gt. unfold zlen. rewrite (fo_len s Hok). done. Qed.

(** For a descriptor below 64 in a well-formed table, FdManager::get(fd, true) returns
    the context already there without changing anything or makes one for that descriptor, a
    socket's with the kernel's O_NONBLOCK set; get(fd, false) then returns the same context
    and after del(fd) none; the table stays well-formed. *)
Theorem get_creates_once s fd :
  fds_ok s → 0 <= fd < 64 →
  ∃ c s', FdManager_get fd true s = Ok (Some c) s' ∧ fds_ok s' ∧ ctx_ok (kernel s') fd c ∧
    (∀ c0, m_datas s !! Z.to_nat fd = Some (Some c0) → c = c0 ∧ s' = s) ∧
    FdManager_get fd false s' = Ok (Some c) s' ∧
    ∃ s'', FdManager_del fd s' = Ok tt s'' ∧ fds_ok s'' ∧ FdManager_get fd false s'' = Ok None s''.
Proof.
  intros Hok Hfd. pose proof (fo_len s Hok) as Hlen.
  assert (∀ s1 c, fds_ok s1 → m_datas s1 !! Z.to_nat fd = Some (Some c) →
    FdManager_get fd false s1 = Ok (Some c) s1 ∧ FdManager_get fd true s1 = Ok (Some c) s1) as Hget.
  { intros s1 c Hok1 Hc. unfold FdManager_get. rewrite !bind_get, !in_table by (done || lia).
    by rewrite !(bind_ok _ _ _ _ _ (data_at_run s1 fd _ (proj1 Hfd) Hc)). }
  assert (∀ s1, fds_ok s1 → ∃ s2, FdManager_del fd s1 = Ok tt s2 ∧ fds_ok s2 ∧
    FdManager_get fd false s2 = Ok None s2) as Hdel.
  { intros s1 Hok1. destruct (fds_ok_put s1 fd None Hok1) as [E H]; [done|done|].
    eexists. split_and!; [|exact H|].
    - unfold FdManager_del. rewrite bind_get, in_table by (done || lia). exact E.
    - unfold FdManager_get. rewrite bind_get, in_table by (done || lia).
      rewrite (bind_ok _ _ _ None (set_datas (<[Z.to_nat fd := None]> (m_datas s1)) s1)); [done|].
      apply data_at_run; [lia|]. cbn. apply list_lookup_insert_eq. rewrite (fo_len s1 Hok1). lia. }
  destruct (lookup_lt_is_Some_2 (m_datas s) (Z.to_nat fd)) as [[c|] Hx]; [lia|..].
  - destruct (Hget s c Hok Hx) as [G1 G2]. exists c, s. split_and!; [done|done| | |done|by apply Hdel].
    + pose proof (fo_ctx s Hok _ _ Hx) as Hc. by rewrite Z2Nat.id in Hc by lia.
    + intros c0 Hc0. by simplify_eq.
  - destruct (made_ok s fd) as [Hc Hd]. set (c := (made s fd).1) in *. set (s1 := (made s fd).2) in *.
    assert (fds_ok s1) as Hok1.
    { split; [by rewrite Hd|]. intros i c' Hi. apply made_kernel, (fo_ctx s Hok). by rewrite <- Hd. }
    destruct (fds_ok_put s1 fd (Some c) Hok1) as [E2 Hok2]; [by intros ? [= <-]|done|].
    set (s2 := set_datas _ s1) in *.
    assert (m_datas s2 !! Z.to_nat fd = Some (Some c)) as Hs2.
    { cbn. apply list_lookup_insert_eq. rewrite Hd. lia. }
    exists c, s2. split_and!; [|done|done|intros; congruence|by apply Hget|by apply Hdel].
    unfold FdManager_get. rewrite bind_get, in_table by (done || lia).
    rewrite (bind_ok _ _ _ _ _ (data_at_run s fd None (proj1 Hfd) Hx)).
    rewrite (bind_ok _ _ _ _ _ (new_FdCtx_run s fd)). fold c s1. by mstep E2.
Qed.

(** The table has 64 entries and never grows: a context for a descriptor beyond it is stored
    outside the vector. *)
Theorem get_beyond_table_undefined s fd :
  fds_ok s → 64 <= fd → FdManager_get fd true s = Undef "m_datas out of range".
Proof.
  intros Hok Hfd. unfold FdManager_get. rewrite bind_get. unfold zlen. rewrite (fo_len s Hok).
  rewrite (proj2 (Z.leb_le (Z.of_nat 64) fd)) by exact Hfd.
  rewrite (bind_ok _ _ _ _ _ (new_FdCtx_run s fd)). apply bind_undef. unfold put_data.
  apply bind_undef, data_at_out; [lia|]. apply lookup_ge_None_2.
  destruct (made_ok s fd) as [_ ->]. rewrite (fo_len s Hok). lia.
Qed.

(** ** Concrete runs *)

Definition fds0 : fds := new_FdManager (<[5 := mkFile true 2]> ∅).

Lemma fds0_ok : fds_ok fds0.
Proof.
  split; [done|]. intros i c Hi. unfold fds0, new_FdManager in Hi. cbn [m_datas] in Hi. apply lookup_replicate in Hi as [Hi _]. done.
Qed.

Lemma get_creates_once_witness :
  ∃ c s', FdManager_get 5 true fds0 = Ok (Some c) s' ∧ fds_ok s' ∧
    FdManager_get 5 false s' = Ok (Some c) s' ∧ kernel s' !! 5 = Some (mkFile true 2050).
Proof.
  destruct (get_creates_once fds0 5 fds0_ok ltac:(lia)) as (c & s' & E & H & _ & _ & E' & _).
  exists c, s'. split; [exact E|]. split; [exact H|]. split; [exact E'|].
  assert (∃ c1 s1, FdManager_get 5 true fds0 = Ok c1 s1 ∧ kernel s1 !! 5 = Some (mkFile true 2050))
    as (c1 & s1 & E1 & H1) by (eexists _, _; split; [vm_compute; reflexivity|reflexivity]).
  rewrite E in E1. injection E1 as _ ->. exact H1.
Defined.

Lemma get_beyond_table_undefined_witness :
  fds_ok fds0 ∧ FdManager_get 64 true fds0 = Undef "m_datas out of range".
Proof.
  split; [exact fds0_ok|]. exact (get_beyond_table_undefined fds0 64 fds0_ok ltac:(lia)).
Defined.
