(* ===== verification/Hook.v ===== *)
(** * Hooked system calls (hook.h, hook.cc)

    A hooked call runs in a fiber and talks to the system: it calls the
    original function, adds timers and events, and is suspended.  The model
    runs it against a script of what the system answers, and records what it
    did.  [fcntl], [ioctl] and [close] act on the descriptor table of
    [FdManager]. *)

From S2P Require Import Prelude.
From S2P Require Import FdManager.

Definition EINTR : Z := 4.
Definition EBADF : Z := 9.
Definition EAGAIN : Z := 11.
Definition ETIMEDOUT : Z := 110.
Definition EINPROGRESS : Z := 115.

(** What the system answers to each interaction. *)
Inductive answer :=
| Sys (n err : Z)          (* the original function returned [n] with [errno] [err] *)
| Added (rt err : Z)       (* [addEvent] returned *)
| Woken (cancelled : Z)    (* the fiber runs again, with this [tinfo->cancelled] *)
| SoError (rt error : Z).  (* [getsockopt(SO_ERROR)] returned *)

(** What the call did. *)
Inductive action :=
| CallOrigin
| AddTimer (ms : Z)
| AddEvent (event : Z)
| Yield
| CancelTimer
| GetSoError.

Definition is_add_timer (a : action) : bool := match a with AddTimer _ => true | _ => false end.
Definition is_cancel_timer (a : action) : bool := match a with CancelTimer => true | _ => false end.
Definition is_add_event (a : action) : bool := match a with AddEvent _ => true | _ => false end.

Definition count (f : action → bool) (tr : list action) : nat := length (filter (λ a, f a = true) tr).

(** The actions so far and the returned value with [errno] (meaningful when
    the value is -1); [None] while the script has not answered. *)
Definition run : Type := list action * option (Z * Z).

Definition then_do (tr : list action) (r : run) : run := (tr ++ r.1, r.2).

Definition timer_on (to : Z) : list action := if to =? no_timeout then [] else [AddTimer to].
Definition timer_off (to : Z) : list action := if to =? no_timeout then [] else [CancelTimer].

(** The part of [do_io] from its label [retry], [to] being the timeout of the
    descriptor, on a thread that has an [IOManager]: elsewhere line 122 gives a
    null pointer, which lines 126 and 140 follow. *)
Fixpoint do_io_loop (to event : Z) (env : list answer) : run :=
  match env with
  | Sys n err :: env1 =>
      if (n =? -1) && (err =? EINTR) then then_do [CallOrigin] (do_io_loop to event env1)
      else if (n =? -1) && (err =? EAGAIN) then
        match env1 with
        | Added rt err1 :: env2 =>
            if negb (rt =? 0) then
              (CallOrigin :: timer_on to ++ [AddEvent event] ++ timer_off to, Some (-1, err1))
            else
              match env2 with
              | Woken cancelled :: env3 =>
                  let tr := CallOrigin :: timer_on to ++ [AddEvent event; Yield] ++ timer_off to in
                  if negb (cancelled =? 0) then (tr, Some (-1, cancelled))
                  else then_do tr (do_io_loop to event env3)
              | _ => (CallOrigin :: timer_on to ++ [AddEvent event; Yield], None)
              end
        | _ => (CallOrigin :: timer_on to ++ [AddEvent event], None)
        end
      else ([CallOrigin], Some (n, err))
  | _ => ([CallOrigin], None)
  end.

Definition direct (env : list answer) : run :=
  match env with Sys n err :: _ => ([CallOrigin], Some (n, err)) | _ => ([CallOrigin], None) end.

(** [ctx] is what [FdMgr] holds for the descriptor. *)
Definition do_io (t_hook_enable : bool) (ctx : option FdCtx) (event timeout_so : Z) (env : list answer) :
    run :=
  if negb t_hook_enable then direct env
  else match ctx with
  | None => direct env
  | Some c =>
      if m_isClosed c then ([], Some (-1, EBADF))
      else if negb (m_isSocket c) || m_userNonblock c then direct env
      else do_io_loop (getTimeout timeout_so c) event env
  end.

Definition IO_READ : Z := 1.
Definition IO_WRITE : Z := 4.

Definition read (hook : bool) (ctx : option FdCtx) := do_io hook ctx IO_READ SO_RCVTIMEO.
Definition readv (hook : bool) (ctx : option FdCtx) := do_io hook ctx IO_READ SO_RCVTIMEO.
Definition recv (hook : bool) (ctx : option FdCtx) := do_io hook ctx IO_READ SO_RCVTIMEO.
Definition recvfrom (hook : bool) (ctx : option FdCtx) := do_io hook ctx IO_READ SO_RCVTIMEO.
Definition recvmsg (hook : bool) (ctx : option FdCtx) := do_io hook ctx IO_READ SO_RCVTIMEO.
Definition write (hook : bool) (ctx : option FdCtx) := do_io hook ctx IO_WRITE SO_SNDTIMEO.
Definition writev (hook : bool) (ctx : option FdCtx) := do_io hook ctx IO_WRITE SO_SNDTIMEO.
Definition send (hook : bool) (ctx : option FdCtx) := do_io hook ctx IO_WRITE SO_SNDTIMEO.
Definition sendto (hook : bool) (ctx : option FdCtx) := do_io hook ctx IO_WRITE SO_SNDTIMEO.
Definition sendmsg (hook : bool) (ctx : option FdCtx) := do_io hook ctx IO_WRITE SO_SNDTIMEO.

(** [accept]: a context for the new descriptor. *)
Definition accept (hook : bool) (ctx : option FdCtx) (env : list answer) : run * M fds unit :=
  let r := do_io hook ctx IO_READ SO_RCVTIMEO env in
  (r, match r.2 with
      | Some (fd, _) => if 0 <=? fd then FdManager_get fd true;; mret tt else mret tt
      | None => mret tt
      end).

(** [socket], [fd] being what [socket_f] returned. *)
Definition socket (hook : bool) (fd : Z) : M fds Z :=
  if negb hook then mret fd
  else if fd =? -1 then mret fd
  else FdManager_get fd true;; mret fd.

(** The check of [SO_ERROR] that ends [connect_with_timeout]. *)
Definition connect_check (env : list answer) : run :=
  match env with
  | SoError rt error :: _ =>
      ([GetSoError],
       Some (if negb (rt =? 0) then (-1, error)
             else if error =? 0 then (0, 0) else (-1, error)))
  | _ => ([GetSoError], None)
  end.

Definition connect_with_timeout (hook : bool) (ctx : option FdCtx) (timeout_ms : Z) (env : list answer) :
    run :=
  if negb hook then direct env
  else match ctx with
  | None => ([], Some (-1, EBADF))
  | Some c =>
      if m_isClosed c then ([], Some (-1, EBADF))
      else if negb (m_isSocket c) then direct env
      else if m_userNonblock c then direct env
      else
        match env with
        | Sys n err :: env1 =>
            if n =? 0 then ([CallOrigin], Some (0, err))
            else if negb (n =? -1) || negb (err =? EINPROGRESS) then ([CallOrigin], Some (n, err))
            else
              match env1 with
              | Added rt err1 :: env2 =>
                  if rt =? 0 then
                    match env2 with
                    | Woken cancelled :: env3 =>
                        let tr := CallOrigin :: timer_on timeout_ms ++ [AddEvent IO_WRITE; Yield] ++
                                  timer_off timeout_ms in
                        if negb (cancelled =? 0) then (tr, Some (-1, cancelled))
                        else then_do tr (connect_check env3)
                    | _ => (CallOrigin :: timer_on timeout_ms ++ [AddEvent IO_WRITE; Yield], None)
                    end
                  else
                    then_do (CallOrigin :: timer_on timeout_ms ++ [AddEvent IO_WRITE] ++ timer_off timeout_ms)
                      (connect_check env2)
              | _ => (CallOrigin :: timer_on timeout_ms ++ [AddEvent IO_WRITE], None)
              end
        | _ => ([CallOrigin], None)
        end
  end.

(** [s_connect_timeout] as [_HookIniter] and its listener set it from the
    [int] of tcp.connect.timeout, and [connect], which waits that long. *)
Definition connect_timeout_of (value : Z) : Z := u64 value.
Definition connect (hook : bool) (ctx : option FdCtx) (s_connect_timeout : Z) (env : list answer) : run :=
  connect_with_timeout hook ctx s_connect_timeout env.

(** ** Sleeping: the interval of the timer that wakes the fiber *)

(** [seconds * 1000] in [unsigned int]. *)
Definition sleep (hook : bool) (seconds : Z) : list action :=
  if negb hook then [CallOrigin] else [AddTimer (u32 (seconds * 1000)); Yield].

Definition usleep (hook : bool) (usec : Z) : list action :=
  if negb hook then [CallOrigin] else [AddTimer (usec / 1000); Yield].

(** [timeout_ms] is an [int], the parameter of [addTimer] a [uint64_t]. *)
Definition nanosleep (hook : bool) (tv_sec tv_nsec : Z) : list action :=
  if negb hook then [CallOrigin]
  else [AddTimer (u64 (s32 (tv_sec * 1000 + Z.quot (Z.quot tv_nsec 1000) 1000))); Yield].

(** ** Descriptor flags *)

Inductive fcntl_cmd := F_DUPFD | F_DUPFD_CLOEXEC | F_SETFD | F_SETFL | F_GETFD | F_GETFL | F_OTHER.

Section descriptors.
(** What the kernel answers to the commands that do not touch status flags. *)
Context (other : fcntl_cmd → Z → Z → Z).

Definition fcntl_f (cmd : fcntl_cmd) (fd arg : Z) : M fds Z :=
  match cmd with
  | F_SETFL => modify (λ s, set_kernel (sys_setfl fd arg (kernel s)) s);; mret 0
  | F_GETFL => gets (λ s, sys_getfl fd (kernel s))
  | _ => mret (other cmd fd arg)
  end.

Definition passes (o : option FdCtx) : bool :=
  match o with None => true | Some c => m_isClosed c || negb (m_isSocket c) end.

Definition fcntl (fd : Z) (cmd : fcntl_cmd) (arg : Z) : M fds Z :=
  match cmd with
  | F_DUPFD | F_DUPFD_CLOEXEC | F_SETFD | F_SETFL =>
      o ← FdManager_get fd false;
      if passes o then fcntl_f cmd fd arg
      else match o with
      | Some c =>
          put_data fd (Some (setUserNonblock (negb (Z.land arg O_NONBLOCK =? 0)) c));;
          let arg := if m_sysNonblock c then Z.lor arg O_NONBLOCK else Z.ldiff arg O_NONBLOCK in
          fcntl_f cmd fd arg
      | None => fcntl_f cmd fd arg
      end
  | F_GETFD | F_GETFL =>
      arg ← fcntl_f cmd fd 0;
      o ← FdManager_get fd false;
      if passes o then mret arg
      else match o with
      | Some c => mret (if m_userNonblock c then Z.lor arg O_NONBLOCK else Z.ldiff arg O_NONBLOCK)
      | None => mret arg
      end
  | F_OTHER => fcntl_f cmd fd arg
  end.

(** [ioctl(d, FIONBIO, &value)]; [ioctl_f] sets or clears the kernel's flag. *)
Definition ioctl_FIONBIO (d value : Z) : M fds Z :=
  let ioctl_f := modify (λ s, set_kernel (sys_setfl d
      (if value =? 0 then Z.ldiff (sys_getfl d (kernel s)) O_NONBLOCK
       else Z.lor (sys_getfl d (kernel s)) O_NONBLOCK) (kernel s)) s);; mret 0 in
  o ← FdManager_get d false;
  if passes o then ioctl_f
  else match o with
  | Some c => put_data d (Some (setUserNonblock (negb (value =? 0)) c));; ioctl_f
  | None => ioctl_f
  end.

(** [ioctl]; [ioctl_f] answers the other requests. *)
Inductive ioctl_request := FIONBIO (value : Z) | IOCTL_OTHER (request : Z).
Definition ioctl (ioctl_f : Z → Z → Z) (d : Z) (request : ioctl_request) : M fds Z :=
  match request with FIONBIO value => ioctl_FIONBIO d value | IOCTL_OTHER q => mret (ioctl_f d q) end.

(** [close]: whether [cancelAll] was called, and the descriptor gone. *)
Definition close (hook has_iom : bool) (fd : Z) : M fds bool :=
  let close_f := modify (λ s, set_kernel (delete fd (kernel s)) s) in
  if negb hook then close_f;; mret false
  else
    o ← FdManager_get fd false;
    match o with
    | Some _ => FdManager_del fd;; close_f;; mret has_iom
    | None => close_f;; mret false
    end.

(** [setsocket], [timeo] being the option and the [timeval] when the option is
    a timeout and [rt] what [setsocket_f] returns.  With hooks off it calls
    itself with the same arguments. *)
Fixpoint setsocket (fuel : nat) (hook : bool) (sockfd : Z) (timeo : option (Z * Z * Z)) (rt : Z) :
    option (M fds Z) :=
  match fuel with
  | O => None
  | S fuel' =>
      if negb hook then setsocket fuel' hook sockfd timeo rt
      else Some (match timeo with
                 | Some (optname, tv_sec, tv_usec) =>
                     o ← FdManager_get sockfd false;
                     match o with
                     | Some c => put_data sockfd
                         (Some (setTimeout optname (u64 (tv_sec * 1000 + Z.quot tv_usec 1000)) c));; mret rt
                     | None => mret rt
                     end
                 | None => mret rt
                 end)
  end.
End descriptors.

(** ** [do_io] *)

Lemma count_app f l1 l2 : count f (l1 ++ l2) = (count f l1 + count f l2)%nat.
Proof. unfold count. rewrite list.filter_app. apply length_app. Qed.

(** How a hooked call can end. *)
Definition io_result (env : list answer) (n err : Z) : Prop :=
  (Sys n err ∈ env ∧ ¬ (n = -1 ∧ (err = EINTR ∨ err = EAGAIN))) ∨
  (n = -1 ∧ err ≠ 0 ∧ Woken err ∈ env) ∨
  (n = -1 ∧ ∃ rt, rt ≠ 0 ∧ Added rt err ∈ env).

(** Every timer that was added was cancelled, one per event waited for. *)
Definition balanced (to : Z) (tr : list action) : Prop :=
  count is_add_timer tr = count is_cancel_timer tr ∧
  count is_add_timer tr = if to =? no_timeout then 0%nat else count is_add_event tr.

Lemma balanced_app to l1 l2 : balanced to l1 → balanced to l2 → balanced to (l1 ++ l2).
Proof.
  intros [H1 H2] [H3 H4]. unfold balanced. rewrite !count_app. split; [lia|].
  destruct (to =? no_timeout); lia.
Qed.

Lemma balanced_round to event l :
  l = [AddEvent event] ∨ l = [AddEvent event; Yield] →
  balanced to (CallOrigin :: timer_on to ++ l ++ timer_off to).
Proof.
  intros Hl. change (CallOrigin :: timer_on to ++ l ++ timer_off to)
    with ([CallOrigin] ++ timer_on to ++ l ++ timer_off to).
  unfold balanced. rewrite !count_app.
  unfold timer_on, timer_off. destruct Hl as [-> | ->], (to =? no_timeout); split; reflexivity.
Qed.

Lemma balanced_call to : balanced to [CallOrigin].
Proof. unfold balanced. split; [reflexivity|]. destruct (to =? no_timeout); reflexivity. Qed.

Lemma io_result_mono env env' n err :
  (∀ a, a ∈ env → a ∈ env') → io_result env n err → io_result env' n err.
Proof. unfold io_result. naive_solver. Qed.

Lemma do_io_loop_sound to event env : ∀ tr n err,
  do_io_loop to event env = (tr, Some (n, err)) → balanced to tr ∧ io_result env n err.
Proof.
  induction env as [env IH] using (induction_ltof1 _ (@length answer)). unfold ltof in IH.
  intros tr n err. destruct env as [|[n1 e1|rt e1|c|rt e1] env1]; simpl; try done.
  destruct ((n1 =? -1) && (e1 =? EINTR)) eqn:Ei.
  { destruct (do_io_loop to event env1) as [tr1 [[n2 e2]|]] eqn:E; [|done].
    intros [= <- <- <-]. destruct (IH env1 ltac:(simpl; lia) _ _ _ E) as [Hb Hr]. split.
    - apply (balanced_app to [CallOrigin]); [apply balanced_call|exact Hb].
    - eapply io_result_mono; [|done]. set_solver. }
  destruct ((n1 =? -1) && (e1 =? EAGAIN)) eqn:Ea.
  2: { intros [= <- <- <-]. split; [apply balanced_call|].
       left. split; [by left|]. lia. }
  destruct env1 as [|[n2 e2|rt e2|c|rt e2] env2]; try done. destruct (rt =? 0) eqn:Ert; simpl.
  2: { intros [= <- <- <-]. split; [exact (balanced_round to event [AddEvent event] (or_introl eq_refl))|].
       right; right. split; [done|]. exists rt. split; [lia|]. set_solver. }
  destruct env2 as [|[n3 e3|rt3 e3|c|rt3 e3] env3]; try done. destruct (c =? 0) eqn:Ec; simpl.
  - destruct (do_io_loop to event env3) as [tr1 [[n3 e3]|]] eqn:E; [|done].
    intros [= <- <- <-]. destruct (IH env3 ltac:(simpl; lia) _ _ _ E) as [Hb Hr]. split.
    + exact (balanced_app to _ _ (balanced_round to event [AddEvent event; Yield] (or_intror eq_refl)) Hb).
    + eapply io_result_mono; [|done]. set_solver.
  - intros [= <- <- <-]. split; [exact (balanced_round to event [AddEvent event; Yield] (or_intror eq_refl))|].
    right; left. split; [done|]. split; [lia|]. set_solver.
Qed.

(** C25: when a hooked call on a blocking socket returns, the value is that of the original
    function and not an interruption or EAGAIN, or it is -1 with the error the timeout left,
    or it is -1 after a failed addEvent; every timer added was cancelled, one per event
    waited for and none for a socket without timeout. *)
Theorem do_io_sound c event so env tr n err :
  m_isClosed c = false → m_isSocket c = true → m_userNonblock c = false →
  do_io true (Some c) event so env = (tr, Some (n, err)) →
  io_result env n err ∧ balanced (getTimeout so c) tr.
Proof.
  intros H1 H2 H3. unfold do_io. rewrite H1, H2, H3. simpl. intros E.
  apply do_io_loop_sound in E as [Hb Hr]. done.
Qed.

(** One round of a call that has to wait: interruptions, then [EAGAIN], an
    event added, and a wake-up. *)
Definition round (interruptions : nat) : list answer :=
  replicate interruptions (Sys (-1) EINTR) ++ [Sys (-1) EAGAIN; Added 0 0; Woken 0].

Lemma loop_interrupted to event k env :
  (do_io_loop to event (replicate k (Sys (-1) EINTR) ++ env)).2 = (do_io_loop to event env).2.
Proof. induction k as [|k IH]; [done|]. simpl. exact IH. Qed.

(** C26: a hooked call on a blocking socket returns the value of the original function after
    any number of interruptions, EAGAIN answers and wake-ups: it neither gives up nor loops
    on. *)
Theorem do_io_completes c event so rounds k n err rest :
  m_isClosed c = false → m_isSocket c = true → m_userNonblock c = false →
  ¬ (n = -1 ∧ (err = EINTR ∨ err = EAGAIN)) →
  (do_io true (Some c) event so
     (concat (round <$> rounds) ++ replicate k (Sys (-1) EINTR) ++ Sys n err :: rest)).2 = Some (n, err).
Proof.
  intros H1 H2 H3 Hn. unfold do_io. rewrite H1, H2, H3. simpl. set (to := getTimeout so c). clearbody to.
  induction rounds as [|i rounds IH]; simpl.
  - rewrite loop_interrupted. simpl. destruct ((n =? -1) && (err =? EINTR)) eqn:Ei; [lia|].
    destruct ((n =? -1) && (err =? EAGAIN)) eqn:Ea; [lia|]. done.
  - unfold round at 1. rewrite <- !app_assoc, loop_interrupted. simpl. exact IH.
Qed.

(** ** Descriptor flags *)

Section flags.
Context (other : fcntl_cmd → Z → Z → Z).

Lemma get_present s fd c :
  fds_ok s → 0 <= fd → m_datas s !! Z.to_nat fd = Some (Some c) →
  FdManager_get fd false s = Ok (Some c) s ∧ fd < 64.
Proof.
  intros Hok Hfd Hc. pose proof (lookup_lt_Some _ _ _ Hc) as Hlt. rewrite (fo_len s Hok) in Hlt.
  assert (fd < 64) by lia. split; [|done]. unfold FdManager_get.
  rewrite bind_get, in_table by done. by mstep (data_at_run s fd _ Hfd Hc).
Qed.

Lemma ldiff_lor_nonblock a : Z.land a O_NONBLOCK = 0 → Z.ldiff (Z.lor a O_NONBLOCK) O_NONBLOCK = a.
Proof.
  intros H. apply Z.bits_inj. intros i. rewrite Z.ldiff_spec, Z.lor_spec.
  assert (Z.testbit (Z.land a O_NONBLOCK) i = false) as Hb by (by rewrite H, Z.bits_0).
  rewrite Z.land_spec in Hb. destruct (Z.testbit a i), (Z.testbit O_NONBLOCK i); done.
Qed.

Lemma lor_nonblock a : Z.land a O_NONBLOCK ≠ 0 → Z.lor (Z.lor a O_NONBLOCK) O_NONBLOCK = a.
Proof.
  intros H. rewrite <- Z.lor_assoc, Z.lor_diag. apply Z.bits_inj. intros i. rewrite Z.lor_spec.
  destruct (Z.testbit O_NONBLOCK i) eqn:Eb; [|apply orb_false_r]. rewrite orb_true_r.
  assert (i = 11) as ->.
  { change O_NONBLOCK with (2 ^ 11) in Eb. destruct (decide (0 <= i)) as [Hi|Hi].
    - rewrite Z.pow2_bits_eqb in Eb by lia. lia.
    - rewrite Z.testbit_neg_r in Eb by lia. done. }
  destruct (Z.testbit a 11) eqn:Ea; [done|]. destruct H. apply Z.bits_inj. intros j.
  rewrite Z.bits_0, Z.land_spec. change O_NONBLOCK with (2 ^ 11).
  destruct (decide (0 <= j)); [|by rewrite (Z.testbit_neg_r a) by lia].
  rewrite Z.pow2_bits_eqb by lia. destruct (11 =? j) eqn:Ej; [|apply andb_false_r].
  apply Z.eqb_eq in Ej as <-. by rewrite Ea.
Qed.

(** For a managed socket fcntl(F_SETFL, arg) succeeds and fcntl(F_GETFL) then returns
    arg, with or without O_NONBLOCK, while the kernel's flag stays set; the descriptor table
    stays well-formed. *)
Theorem fcntl_flags_roundtrip s fd c arg :
  fds_ok s → 0 <= fd → m_datas s !! Z.to_nat fd = Some (Some c) → m_isSocket c = true →
  ∃ s', fcntl other fd F_SETFL arg s = Ok 0 s' ∧ fds_ok s' ∧
    fcntl other fd F_GETFL 0 s' = Ok arg s' ∧
    Z.testbit (sys_getfl fd (kernel s')) 11 = true.
Proof.
  intros Hok Hfd Hc Hs. destruct (get_present s fd c Hok Hfd Hc) as [Hg Hlt].
  pose proof (fo_ctx s Hok _ _ Hc) as Hcok. rewrite Z2Nat.id in Hcok by lia.
  pose proof Hcok as (Hf & Hcl & Hsys & Hk). destruct (Hk Hs) as (kf & Hkf & Hsock & Hb).
  set (u := negb (Z.land arg O_NONBLOCK =? 0)). set (c' := setUserNonblock u c).
  destruct (fds_ok_put s fd (Some c') Hok) as [E1 Hok1]; [|done|].
  { intros ? [= <-]. split_and!; [done|done|done|]. intros _. by exists kf. }
  set (s1 := set_datas _ s) in *.
  set (s2 := set_kernel (<[fd := mkFile true (Z.lor arg O_NONBLOCK)]> (kernel s1)) s1).
  assert (fcntl other fd F_SETFL arg s = Ok 0 s2) as Eset.
  { unfold fcntl. mstep Hg. cbn [passes]. rewrite Hcl, Hs. cbn [orb negb]. mstep E1.
    rewrite Hsys, Hs. unfold fcntl_f. rewrite bind_modify. cbn. unfold sys_setfl.
    by rewrite Hkf, Hsock. }
  assert (fds_ok s2) as Hok2.
  { destruct Hok1 as [L1 L2]. split; [done|]. intros i d Hi.
    destruct (L2 i d Hi) as (D1 & D2 & D3 & D4). split_and!; [done|done|done|]. intros Hd.
    destruct (D4 Hd) as (kg & Hkg & Hgs & Hgb). destruct (decide (Z.of_nat i = fd)) as [E|Hne].
    - rewrite E. cbn. rewrite lookup_insert_eq. eexists. split_and!; [done|done|].
      apply testbit_O_NONBLOCK.
    - cbn. rewrite lookup_insert_ne by done. by exists kg. }
  exists s2. split_and!; [done|done| |].
  - assert (m_datas s2 !! Z.to_nat fd = Some (Some c')) as Hc2.
    { cbn. apply list_lookup_insert_eq. rewrite (fo_len s Hok). lia. }
    destruct (get_present s2 fd c' Hok2 Hfd Hc2) as [Hg2 _].
    unfold fcntl. rewrite (bind_ok _ _ s2 (Z.lor arg O_NONBLOCK) s2).
    2: { unfold fcntl_f, gets, sys_getfl. cbn. by rewrite lookup_insert_eq. }
    mstep Hg2. cbn [passes c' setUserNonblock m_isClosed m_isSocket m_userNonblock]. rewrite Hcl, Hs.
    cbn [orb negb]. unfold u. destruct (Z.land arg O_NONBLOCK =? 0) eqn:Ea; cbn [negb].
    + by rewrite ldiff_lor_nonblock by lia.
    + by rewrite lor_nonblock by lia.
  - unfold sys_getfl. cbn. rewrite lookup_insert_eq. apply testbit_O_NONBLOCK.
Qed.
End flags.

(** ** Concrete runs *)

Definition socket_ctx : FdCtx := mkCtx true true true false false 5 30 no_timeout.

Lemma do_io_sound_witness :
  io_result [Sys (-1) EAGAIN; Added 0 0; Woken 0; Sys 7 0] 7 0 ∧
  balanced 30 [CallOrigin; AddTimer 30; AddEvent IO_READ; Yield; CancelTimer; CallOrigin].
Proof.
  apply (do_io_sound socket_ctx IO_READ SO_RCVTIMEO); reflexivity.
Defined.

Lemma do_io_completes_witness :
  (read true (Some socket_ctx)
     (concat (round <$> [0%nat; 2%nat]) ++ replicate 1 (Sys (-1) EINTR) ++ [Sys 7 0])).2 = Some (7, 0).
Proof.
  apply (do_io_completes socket_ctx IO_READ SO_RCVTIMEO [0%nat; 2%nat] 1 7 0 []);
    [reflexivity..|]. intros [H _]. discriminate H.
Defined.

(** A socket whose wait times out fails with [ETIMEDOUT]. *)
Example recv_times_out :
  recv true (Some socket_ctx) [Sys (-1) EAGAIN; Added 0 0; Woken ETIMEDOUT] =
  ([CallOrigin; AddTimer 30; AddEvent IO_READ; Yield; CancelTimer], Some (-1, ETIMEDOUT)).
Proof. reflexivity. Qed.

Definition ctx5 : FdCtx := mkCtx true true true false false 5 no_timeout no_timeout.
Definition fds5 : fds := mkFds (<[5%nat := Some ctx5]> (replicate 64 None)) (<[5 := mkFile true 2050]> ∅).

Lemma fds5_ok : fds_ok fds5.
Proof.
  split; [reflexivity|]. intros i c Hi. unfold fds5 in Hi. cbn [m_datas] in Hi.
  destruct (decide (i = 5%nat)) as [->|Hne].
  - injection Hi as <-. split_and!; [reflexivity..|]. intros _. eexists. split_and!; reflexivity.
  - rewrite list_lookup_insert_ne in Hi by congruence. by apply lookup_replicate in Hi as [? _].
Qed.

Lemma fcntl_flags_roundtrip_witness :
  ∃ s', fcntl (λ _ _ _, 0) 5 F_SETFL 2 fds5 = Ok 0 s' ∧ fcntl (λ _ _ _, 0) 5 F_GETFL 0 s' = Ok 2 s'.
Proof.
  destruct (fcntl_flags_roundtrip (λ _ _ _, 0) fds5 5 ctx5 2 fds5_ok ltac:(lia) eq_refl eq_refl)
    as (s' & E & _ & E' & _).
  exists s'. split; [exact E|exact E'].
Defined.

(** ** Behaviour at the edges *)

(** 4294968 seconds are 704 milliseconds. *)
Example sleep_wraps : sleep true 4294968 = [AddTimer 704; Yield].
Proof. reflexivity. Qed.

(** A request of 2147484 seconds is a timer for more than 10^19 milliseconds. *)
Example nanosleep_wraps : nanosleep true 2147484 0 = [AddTimer 18446744071562068320; Yield].
Proof. reflexivity. Qed.

(** [F_DUPFD] on a socket asks for a descriptor of at least 2048. *)
Example dupfd_minimum :
  (λ r, match r with Ok v _ => Some v | _ => None end) (fcntl (λ _ _ arg, arg) 5 F_DUPFD 0 fds5) = Some 2048.
Proof. vm_compute. reflexivity. Qed.

(** [FIONBIO] with 0 makes a managed socket blocking in the kernel. *)
Example fionbio_blocks :
  (λ r, match r with Ok _ s => Some (sys_getfl 5 (kernel s)) | _ => None end) (ioctl_FIONBIO 5 0 fds5) = Some 2.
Proof. vm_compute. reflexivity. Qed.

(** A connection in progress whose event could not be added is reported as
    established when [SO_ERROR] is 0. *)
Example connect_without_event :
  connect_with_timeout true (Some ctx5) no_timeout [Sys (-1) EINPROGRESS; Added (-1) 0; SoError 0 0] =
  ([CallOrigin; AddEvent IO_WRITE; GetSoError], Some (0, 0)).
Proof. reflexivity. Qed.

Lemma setsocket_unhooked fuel sockfd timeo rt : setsocket fuel false sockfd timeo rt = None.
Proof. induction fuel as [|fuel IH]; [done|]. exact IH. Qed.

(** A configured timeout of -1 waits without limit, one of -2 for 2^64 - 2
    milliseconds. *)
Example negative_connect_timeout : connect_timeout_of (-1) = no_timeout ∧ connect_timeout_of (-2) = 18446744073709551614.
Proof. split; reflexivity. Qed.
