(* ===== verification/IoWait.v ===== *)
(** * A hooked call that waits (hook.cc, iomanager.cc, timer.cc)

    [do_io] of Hook.v over the manager of IOManager.v instead of a script: the
    call registers its fiber for an event, sets a condition timer, and is
    suspended; a report of epoll, the callback of the timer and the closing of
    the descriptor by another fiber compete to wake it.  The steps of the call,
    of the callback and of everybody else interleave. *)

From S2P Require Import Prelude.
From S2P Require Timer.
From S2P Require Import Fiber Scheduler IOManager.
From S2P Require FdManager Hook.

(** Where the call is: before the original function, with [EAGAIN] from it,
    with the timer set, registered, suspended, back from the yield, with the
    timer cancelled; or refused by [addEvent], which left [errno]; or returned
    with a value and [errno]. *)
Inductive phase :=
| Calling
| Blocked
| Armed (timer : option Z)
| Registered (timer : option Z)
| Suspended (timer : option Z)
| Woken (timer : option Z)
| Checking
| Refused (timer : option Z) (err : Z)
| Finished (n err : Z).

Record wait := mkWait {
  w_io : IOManager;
  w_phase : phase;
  (** [tinfo->cancelled] *)
  cancelled : Z;
  (** callbacks that hold [tinfo] and are before the assignment of
      [t->cancelled], and those between it and the end of [cancelEvent] *)
  checked : nat;
  marked : nat
}.

Definition set_io (s : IOManager) (w : wait) : wait := mkWait s (w_phase w) (cancelled w) (checked w) (marked w).
Definition set_phase (x : phase) (w : wait) : wait := mkWait (w_io w) x (cancelled w) (checked w) (marked w).
Definition set_cancelled (c : Z) (w : wait) : wait := mkWait (w_io w) (w_phase w) c (checked w) (marked w).
Definition set_cbs (c m : nat) (w : wait) : wait := mkWait (w_io w) (w_phase w) (cancelled w) c m.

Definition on_io {A} (m : M IOManager A) : M wait A := λ w,
  match m (w_io w) with
  | Ok a s => Ok a (set_io s w)
  | Throw e s => Throw e (set_io s w)
  | Abort x => Abort x
  | Undef x => Undef x
  end.

Section wait.
(** The manager, the identity of callbacks, and the call: its fiber, the
    descriptor, the event and the timeout; [tinfo] is the address of its
    [timer_info] and [lambda] the identity of its callback. *)
Context (self : Z) (cb_id : Timer.callback → Z) (me fd event to tinfo lambda : Z).

(** [iom->addConditionTimer(to, [winfo, fd, iom, event]() { ... }, winfo)], if
    the descriptor has a timeout. *)
Definition arm (p now : Z) : M IOManager (option Z) :=
  if to =? FdManager.no_timeout then mret None
  else t ← lift_timer (Timer.addConditionTimer p to (Some (Timer.Fn lambda)) tinfo false now); mret (Some t).

(** [if (timer) { timer->cancel(); }] *)
Definition disarm (timer : option Z) : M IOManager unit :=
  match timer with
  | Some t => lift_timer (Timer.cancel t);; mret tt
  | None => mret tt
  end.

(** The next statement of the call that others can see: the original function
    answers [n] and [err]; a new timer is at [p], the time is [now], and
    [epoll_ctl] answers [rt], leaving [err1].  [YieldToHold] is the step from
    [Registered] to [Suspended]. *)
Definition wait_call (n err p now rt err1 : Z) : M wait unit :=
  w ← get;
  match w_phase w with
  | Calling =>
      if (n =? -1) && (err =? Hook.EINTR) then mret tt
      else if (n =? -1) && (err =? Hook.EAGAIN) then modify (set_phase Blocked)
      else modify (set_phase (Finished n err))
  | Blocked => timer ← on_io (arm p now); modify (set_phase (Armed timer))
  | Armed timer =>
      r ← on_io (addEvent (mkCaller (Some self) me EXEC) rt fd event None);
      modify (set_phase (if negb (r =? 0) then Refused timer err1 else Registered timer))
  | Registered timer => modify (set_phase (Suspended timer))
  | Refused timer err => on_io (disarm timer);; modify (set_phase (Finished (-1) err))
  | Woken timer => on_io (disarm timer);; modify (set_phase Checking)
  | Checking =>
      modify (set_phase (if negb (cancelled w =? 0) then Finished (-1) (cancelled w) else Calling))
  | Suspended _ | Finished _ _ => undef "the call is not running"
  end.

(** The fiber is swapped in again: [YieldToHold] returns. *)
Definition wait_resume : M wait unit :=
  w ← get;
  match w_phase w with
  | Suspended timer => modify (set_phase (Woken timer))
  | _ => undef "the fiber is not suspended"
  end.

(** [winfo.lock()] is null once the call returned and no callback holds its
    [timer_info]. *)
Definition info_gone (w : wait) : bool :=
  match w_phase w with Finished _ _ => bool_decide (checked w = 0%nat ∧ marked w = 0%nat) | _ => false end.

(** The callback of the timer: up to [if (!t || t->cancelled) return;], whether
    it goes on; [t->cancelled = ETIMEDOUT]; [iom->cancelEvent(fd, event)], to
    which [epoll_ctl] answers [rt]. *)
Definition timer_cb_check : M wait bool :=
  w ← get;
  if info_gone w || negb (cancelled w =? 0) then mret false
  else modify (set_cbs (S (checked w)) (marked w));; mret true.

Definition timer_cb_mark : M wait unit :=
  w ← get;
  match checked w with
  | S c => modify (set_cancelled Hook.ETIMEDOUT);; modify (set_cbs c (S (marked w)))
  | O => undef "no callback is here"
  end.

Definition timer_cb_cancel (rt : Z) : M wait unit :=
  w ← get;
  match marked w with
  | S m => on_io (cancelEvent self rt fd event);; modify (set_cbs (checked w) m)
  | O => undef "no callback is here"
  end.

(** The callback without interruption. *)
Definition timer_cb (rt : Z) : M wait unit :=
  go ← timer_cb_check;
  if go : bool then timer_cb_mark;; timer_cb_cancel rt else mret tt.

(** Taking the task [ft] from the queue, wherever it is. *)
Definition takes_task (ft : FiberAndThread) (s s' : IOManager) : Prop :=
  ∃ l1 l2, m_fibers (base s) = l1 ++ ft :: l2 ∧ s' = set_base (set_queue (l1 ++ l2) (base s)) s.

Definition my_task : FiberAndThread := mkFT (Some me) None (-1).
Definition my_callback : FiberAndThread :=
  mkFT None (Some (cb_id (Timer.BindOnTimer tinfo (Some (Timer.Fn lambda))))) (-1).

(** What other code does with the manager: not in the name of this fiber, and
    it does not delete the event, which would drop the waiter. *)
Definition others (o : io_op) : Prop :=
  match o with
  | IoAdd who _ _ _ cb => cur_fiber who ≠ me ∨ cb ≠ None
  | IoDel _ fd' e' => fd' ≠ fd ∨ e' ≠ event
  | _ => True
  end.

Context (tfd : Z).

(** The steps of a run in which no assertion stops the process.  A worker
    passes over a task whose fiber is still running, so the task of the call
    is taken when the call is suspended.  The other threads' work: operations
    on descriptors, any operation on the timers, which include those of
    [idle], scheduling and taking tasks, and the counters of the workers. *)
Inductive wstep : wait → wait → Prop :=
| step_call w n err p now rt err1 w' : wait_call n err p now rt err1 w = Ok tt w' → wstep w w'
| step_resume w s w' :
    takes_task my_task (w_io w) s → wait_resume (set_io s w) = Ok tt w' → wstep w w'
| step_cb_check w s b w' :
    takes_task my_callback (w_io w) s → timer_cb_check (set_io s w) = Ok b w' → wstep w w'
| step_cb_mark w w' : timer_cb_mark w = Ok tt w' → wstep w w'
| step_cb_cancel w rt w' : timer_cb_cancel rt w = Ok tt w' → wstep w w'
| step_io w o s :
    others o → io_args tfd o (w_io w) → io_exec self o (w_io w) = Ok tt s → wstep w (set_io s w)
| step_timers w {A} (m : M Timer.TimerManager A) a s :
    lift_timer m (w_io w) = Ok a s → wstep w (set_io s w)
| step_take w ft s :
    ft_fiber ft ≠ Some me → takes_task ft (w_io w) s → wstep w (set_io s w)
| step_schedule w ft s :
    ft_fiber ft ≠ Some me → lift (schedule ft) (w_io w) = Ok tt s → wstep w (set_io s w)
| step_schedule_all w fts s :
    Forall (λ ft, ft_fiber ft ≠ Some me) fts → lift (schedule_all fts) (w_io w) = Ok tt s → wstep w (set_io s w)
| step_workers w b n :
    m_fibers b = m_fibers (base (w_io w)) → wstep w (set_io (set_pipe n (set_base b (w_io w))) w).

Inductive wreach (s0 : IOManager) : wait → Prop :=
| wreach_init : wreach s0 (mkWait s0 Calling 0 0 0)
| wreach_step w w' : wreach s0 w → wstep w w' → wreach s0 w'.

(** ** The invariant *)

(** How often the fiber is in the queue of the manager. *)
Definition queued (s : IOManager) : nat :=
  length (filter (λ ft, ft_fiber ft = Some me) (m_fibers (base s))).

Definition is_mine (x : Z * FiberAndThread) : bool := bool_decide (ft_fiber x.2 = Some me).

(** No waiter but possibly that of the event is the fiber. *)
Definition mine_only_at (s : IOManager) (b : bool) : Prop :=
  ∀ fd' e' x, 0 <= fd' → is_event e' → waiter s fd' e' = Some x → is_mine x = true →
    b = true ∧ fd' = fd ∧ e' = event.

Record waits (w : wait) : Prop := {
  wt_inv : io_inv tfd (w_io w);
  wt_phase : match w_phase w with
             | Registered _ | Suspended _ =>
                 (waiter (w_io w) fd event = Some (self, my_task) ∧ mine_only_at (w_io w) true ∧
                  queued (w_io w) = 0%nat) ∨
                 (mine_only_at (w_io w) false ∧ queued (w_io w) = 1%nat)
             | _ => mine_only_at (w_io w) false ∧ queued (w_io w) = 0%nat
             end;
  wt_cancelled : cancelled w = 0 ∨ cancelled w = Hook.ETIMEDOUT
}.

(** What the invariant looks at. *)
Definition same_waiters (s s' : IOManager) : Prop :=
  m_fdContexts s' = m_fdContexts s ∧ m_pendingEventCount s' = m_pendingEventCount s ∧ interest s' = interest s.

Lemma same_inv s s' : same_waiters s s' → io_inv tfd s → io_inv tfd s'.
Proof. intros (E1 & E2 & E3) [H1 H2 H3 H4]. split; rewrite ?E1, ?E2, ?E3; done. Qed.

Lemma same_waiter s s' fd' e' : same_waiters s s' → waiter s' fd' e' = waiter s fd' e'.
Proof. intros (E & _). unfold waiter. by rewrite E. Qed.

Lemma same_mine s s' b : same_waiters s s' → mine_only_at s b → mine_only_at s' b.
Proof. intros Hs H fd' e' x. rewrite (same_waiter s s') by done. apply H. Qed.

Lemma waits_same w s' :
  waits w → same_waiters (w_io w) s' → queued s' = queued (w_io w) →
  waits (set_io s' w).
Proof.
  intros [H1 H2 H3] Hs Hq. split; cbn [w_io w_phase cancelled set_io].
  - by eapply same_inv.
  - rewrite Hq, (same_waiter (w_io w)) by done.
    destruct (w_phase w); naive_solver eauto using same_mine.
  - done.
Qed.

Lemma queued_app s s' l : m_fibers (base s') = m_fibers (base s) ++ l → 
  queued s' = (queued s + length (filter (λ ft, ft_fiber ft = Some me) l))%nat.
Proof. intros E. unfold queued. by rewrite E, list.filter_app, length_app. Qed.

Lemma take_same ft s s' :
  takes_task ft s s' → same_waiters s s' ∧
  queued s = (queued s' + if bool_decide (ft_fiber ft = Some me) then 1 else 0)%nat.
Proof.
  intros (l1 & l2 & E & ->). split; [done|]. unfold queued. cbn [base set_base m_fibers set_queue].
  rewrite E, !list.filter_app, !length_app, filter_cons. case_bool_decide.
  - rewrite decide_True by done. cbn [length]. lia.
  - rewrite decide_False by done. lia.
Qed.

Lemma lift_timer_same {A} (m : M Timer.TimerManager A) s a s' :
  lift_timer m s = Ok a s' → same_waiters s s' ∧ base s' = base s.
Proof.
  unfold lift_timer. destruct (m (timers s)) as [a' x| | |]; try done. intros [= <- <-].
  unfold onTimerInsertedAtFront.
  destruct (iter_tickle (Timer.tickles x - Timer.tickles (timers s)) (set_timers x s)) as ((E1 & E2 & E3 & _) & Eb & _).
  unfold same_waiters. rewrite E1, E2, E3, Eb. by split_and!.
Qed.

Lemma queued_base s s' : base s' = base s → queued s' = queued s.
Proof. unfold queued. by intros ->. Qed.

(** ** The operations of the manager *)

Definition my_share (ts : list (Z * FiberAndThread)) : nat :=
  length (filter (λ ft, ft_fiber ft = Some me) (snd <$> filter (λ x : Z * FiberAndThread, x.1 = self) ts)).

Lemma my_share_app l1 l2 : my_share (l1 ++ l2) = (my_share l1 + my_share l2)%nat.
Proof. unfold my_share. by rewrite list.filter_app, fmap_app, list.filter_app, length_app. Qed.

Lemma my_share_other x : is_mine x = false → my_share [x] = 0%nat.
Proof.
  unfold is_mine, my_share. intros Hx%bool_decide_eq_false. destruct (decide (x.1 = self)).
  - rewrite filter_cons_True by done. cbn [fmap list_fmap]. by rewrite filter_cons_False.
  - by rewrite filter_cons_False.
Qed.

Lemma my_share_mine : my_share [(self, my_task)] = 1%nat.
Proof.
  unfold my_share. rewrite filter_cons_True by done. cbn [fmap list_fmap snd].
  by rewrite filter_cons_True.
Qed.

(** The share of this fiber in what an operation takes at [fd'], [e']. *)
Lemma share_at s b (c : bool) fd' e' :
  0 <= fd' → is_event e' → mine_only_at s b →
  (b = true → waiter s fd event = Some (self, my_task)) →
  my_share (if c then option_list (waiter s fd' e') else []) =
  (if b && c && (fd' =? fd) && (e' =? event) then 1%nat else 0%nat).
Proof.
  intros Hfd He Hm Hb. destruct c; [|rewrite andb_false_r; done]. rewrite andb_true_r.
  destruct (waiter s fd' e') as [x|] eqn:Ew.
  - change (option_list (Some x)) with [x]. destruct (is_mine x) eqn:Ex.
    + destruct (Hm fd' e' x Hfd He Ew Ex) as (-> & -> & ->). rewrite Hb in Ew by done. injection Ew as <-.
      rewrite !Z.eqb_refl. apply my_share_mine.
    + rewrite my_share_other by done. destruct b; [|done]. cbn.
      destruct (fd' =? fd) eqn:E1; [|done]. destruct (e' =? event) eqn:E2; [|done]. exfalso.
      apply Z.eqb_eq in E1 as ->. apply Z.eqb_eq in E2 as ->. rewrite Hb in Ew by done. injection Ew as <-.
      unfold is_mine in Ex. cbn in Ex. by rewrite bool_decide_eq_true_2 in Ex.
  - destruct b; [|done]. cbn. destruct (fd' =? fd) eqn:E1; [|done]. destruct (e' =? event) eqn:E2; [|done]. exfalso.
    apply Z.eqb_eq in E1 as ->. apply Z.eqb_eq in E2 as ->. rewrite Hb in Ew; done.
Qed.

Lemma fires_share s b o :
  io_args tfd o s → others o → is_event event → mine_only_at s b →
  (b = true → waiter s fd event = Some (self, my_task)) →
  my_share (fires o s) = (if b && takes o s fd event then 1%nat else 0%nat).
Proof.
  intros Hl Ho Hev Hm Hb.
  assert (READ ≠ WRITE) as Hrw by done.
  destruct o as [who rt fd' e' cb|rt fd' e'|rt fd' e'|rt fd'|fd' ev rt]; cbn [fires takes io_args others] in *.
  - by rewrite andb_false_r.
  - destruct Ho as [Ho|Ho]; apply not_eq_sym, Z.eqb_neq in Ho; rewrite Ho; by rewrite ?andb_false_r.
  - destruct Hl as (Hfd & _ & He). rewrite (share_at s b) by done. rewrite !Z.eqb_refl, (Z.eqb_sym fd), (Z.eqb_sym event).
    by destruct b, (rt =? 0), (fd' =? fd), (e' =? event).
  - destruct Hl as (Hfd & _). rewrite my_share_app, (share_at s b _ fd' READ Hfd (or_introl eq_refl) Hm Hb),
      (share_at s b _ fd' WRITE Hfd (or_intror eq_refl) Hm Hb).
    rewrite !Z.eqb_refl, (Z.eqb_sym fd).
    destruct Hev as [-> | ->]; cbn; by destruct b, (rt =? 0), (fd' =? fd).
  - destruct Hl as ((Hfd & _) & _). rewrite my_share_app, (share_at s b _ fd' READ Hfd (or_introl eq_refl) Hm Hb),
      (share_at s b _ fd' WRITE Hfd (or_intror eq_refl) Hm Hb).
    rewrite !Z.eqb_refl, (Z.eqb_sym fd). destruct (fd' =? fd) eqn:E; [apply Z.eqb_eq in E as ->|].
    + destruct Hev as [-> | ->]; cbn; by destruct b, (rt =? 0), (reported s fd ev READ), (reported s fd ev WRITE).
    + by rewrite !andb_false_r.
Qed.

Lemma waiter_after_mine s b o :
  others o → mine_only_at s b →
  ∀ fd' e' x, 0 <= fd' → is_event e' → waiter_after o s fd' e' = Some x → is_mine x = true →
    b = true ∧ fd' = fd ∧ e' = event ∧ takes o s fd event = false.
Proof.
  intros Ho Hm fd' e' x Hfd He. unfold waiter_after. destruct (takes o s fd' e') eqn:Et; [done|].
  assert (∀ y, waiter s fd' e' = Some y → is_mine y = true →
    b = true ∧ fd' = fd ∧ e' = event ∧ takes o s fd event = false) as Hold.
  { intros y Hy Hmy. destruct (Hm fd' e' y Hfd He Hy Hmy) as (-> & -> & ->). done. }
  destruct o as [who rt fd2 e2 cb| | | |]; try (apply Hold).
  destruct ((rt =? 0) && (fd' =? fd2) && (e' =? e2)); [|apply Hold].
  intros [= <-] Hmy. unfold is_mine, new_task in Hmy. cbn in Hmy. apply bool_decide_eq_true in Hmy.
  cbn in Ho. destruct cb as [c|]; cbn in Hmy; [done|]. destruct Ho; congruence.
Qed.

Lemma waits_io w o s :
  waits w → is_event event → 0 <= fd → others o → io_legal tfd o (w_io w) →
  refines self tfd o (w_io w) s → waits (set_io s w).
Proof.
  intros [H1 H2 H3] Hev Hfd Ho [Hl Hna] (Hinv & [Hq _] & Hw).
  apply queued_app in Hq. fold (my_share (fires o (w_io w))) in Hq.
  assert (∀ b, mine_only_at (w_io w) b →
    mine_only_at s (b && negb (takes o (w_io w) fd event))) as Hmine.
  { intros b Hm fd' e' x Hfd' He' Hx Hmy. rewrite Hw in Hx by done.
    destruct (waiter_after_mine (w_io w) b o Ho Hm fd' e' x Hfd' He' Hx Hmy) as (-> & -> & -> & ->). done. }
  assert (mine_only_at (w_io w) false → mine_only_at s false ∧ queued s = queued (w_io w)) as Hidle.
  { intros Hm. split; [exact (Hmine false Hm)|]. rewrite Hq, (fires_share (w_io w) false) by done. simpl. lia. }
  assert (waiter (w_io w) fd event = Some (self, my_task) ∧ mine_only_at (w_io w) true ∧ queued (w_io w) = 0%nat →
    (waiter s fd event = Some (self, my_task) ∧ mine_only_at s true ∧ queued s = 0%nat) ∨
    (mine_only_at s false ∧ queued s = 1%nat)) as Hreg.
  { intros (Hreg & Hm & E).
    rewrite (fires_share (w_io w) true) in Hq by done. cbn in Hq. specialize (Hmine true Hm). cbn in Hmine.
    destruct (takes o (w_io w) fd event) eqn:Et; [right; split; [done|lia]|].
    left. split_and!; [|done|lia]. rewrite Hw by done. unfold waiter_after. rewrite Et.
    destruct o as [who rt fd2 e2 cb| | | |]; try done.
    destruct ((rt =? 0) && (fd =? fd2) && (event =? e2)) eqn:Ec; [|done]. exfalso.
    apply andb_true_iff in Ec as [[_ E1%Z.eqb_eq]%andb_true_iff E2%Z.eqb_eq]. subst.
    apply Hna. left. rewrite Hreg. eauto. }
  split; cbn [w_io w_phase cancelled set_io]; [done| |done].
  destruct (w_phase w); try (destruct H2 as [Hm E]; apply Hidle in Hm as [? ->]; done).
  all: destruct H2 as [H2|[Hm E]]; [by apply Hreg|right; apply Hidle in Hm as [? ->]; done].
Qed.

(** An operation that returned is legal. *)
Lemma ok_legal o s s' :
  io_inv tfd s → io_args tfd o s → io_exec self o s = Ok tt s' →
  io_legal tfd o s ∧ refines self tfd o s s'.
Proof.
  intros Hinv Ha E.
  assert (io_legal tfd o s) as Hl.
  { split; [done|]. intros Hs. destruct (io_exec_aborts self tfd o s Hinv Ha Hs) as [x Ex]. congruence. }
  split; [done|]. destruct (io_exec_refines self tfd o s Hinv Hl) as (s1 & E1 & Hr). congruence.
Qed.

(** ** The steps of the call *)

Lemma arm_same p now s t s' : arm p now s = Ok t s' → same_waiters s s' ∧ base s' = base s.
Proof.
  unfold arm. destruct (to =? FdManager.no_timeout); [by intros [= <- <-]|].
  intros E. minv E. injection E as <- <-. by eapply lift_timer_same.
Qed.

Lemma disarm_same t s u s' : disarm t s = Ok u s' → same_waiters s s' ∧ base s' = base s.
Proof.
  unfold disarm. destruct t; [|by intros [= _ <-]]. intros E. minv E. injection E as _ <-. by eapply lift_timer_same.
Qed.

Lemma on_io_inv {A} (m : M IOManager A) w a w' :
  on_io m w = Ok a w' → ∃ s, m (w_io w) = Ok a s ∧ w' = set_io s w.
Proof. unfold on_io. destruct (m (w_io w)); try done. intros [= <- <-]. eauto. Qed.

Lemma addEvent_result who rt fd' e' cb s r s' :
  addEvent who rt fd' e' cb s = Ok r s' → r = if rt =? 0 then 0 else -1.
Proof.
  unfold addEvent. intros E. do 4 minv E. destruct (rt =? 0); cbn in E.
  - do 3 minv E. minv E. by injection E.
  - by injection E.
Qed.

(** Registering: the call becomes the waiter of its event. *)
Lemma add_registers s rt r s' :
  io_inv tfd s → mine_only_at s false → queued s = 0%nat → 0 <= fd < 2 ^ 31 → fd ≠ tfd → is_event event →
  addEvent (mkCaller (Some self) me EXEC) rt fd event None s = Ok r s' →
  io_inv tfd s' ∧ queued s' = 0%nat ∧
  if r =? 0 then waiter s' fd event = Some (self, my_task) ∧ mine_only_at s' true else mine_only_at s' false.
Proof.
  intros Hinv Hm Hq Hfd Hne Hev E. set (o := IoAdd (mkCaller (Some self) me EXEC) rt fd event None).
  destruct (ok_legal o s s' Hinv) as (_ & Hinv1 & [Hq1 _] & Hw1).
  { cbn. split_and!; try done; try lia; eauto. }
  { cbn [io_exec o]. by rewrite (bind_ok _ _ _ _ _ E). }
  cbn [fires] in Hq1. apply queued_app in Hq1. cbn in Hq1.
  split_and!; [done|lia|]. rewrite (addEvent_result _ _ _ _ _ _ _ _ E).
  assert (∀ fd' e', 0 <= fd' → is_event e' → waiter s' fd' e' =
    if (rt =? 0) && (fd' =? fd) && (e' =? event) then Some (self, my_task) else waiter s fd' e') as Hw2 by done.
  destruct (rt =? 0) eqn:Er; cbn.
  - split; [rewrite Hw2 by (done || lia); by rewrite !Z.eqb_refl|].
    intros fd' e' x Hfd' He'. rewrite Hw2 by done. cbn.
    destruct (fd' =? fd) eqn:E1; [destruct (e' =? event) eqn:E2|]; cbn.
    + intros _ _. split_and!; lia.
    + intros Hx Hmy. destruct (Hm fd' e' x Hfd' He' Hx Hmy) as [? _]. done.
    + intros Hx Hmy. destruct (Hm fd' e' x Hfd' He' Hx Hmy) as [? _]. done.
  - intros fd' e' x Hfd' He'. rewrite Hw2 by done. cbn. by apply Hm.
Qed.

(** A step that leaves waiters and queue alone, between phases in which the
    fiber is nowhere. *)
Lemma waits_moved w s ph :
  waits w → same_waiters (w_io w) s → queued s = 0%nat → mine_only_at s false →
  match ph with Registered _ | Suspended _ => False | _ => True end → waits (set_phase ph (set_io s w)).
Proof.
  intros [H1 _ H3] Hs Hq Hm Hph. split; cbn; [by eapply same_inv| |done]. by destruct ph.
Qed.

Lemma waits_call w n err p now rt err1 w' :
  waits w → 0 <= fd < 2 ^ 31 → fd ≠ tfd → is_event event →
  wait_call n err p now rt err1 w = Ok tt w' → waits w'.
Proof.
  intros H Hfd Hne Hev. pose proof (wt_phase w H) as H2. unfold wait_call. mget.
  destruct (w_phase w) as [| |t|t|t|t| |t err2|n2 err2] eqn:Hph; try done.
  - assert (∀ ph, match ph with Registered _ | Suspended _ => False | _ => True end → waits (set_phase ph w)) as Hmv
      by (intros ph Hp; destruct H2; by apply (waits_moved w (w_io w) ph)).
    destruct ((n =? -1) && (err =? Hook.EINTR)); [by intros [= <-]|].
    destruct ((n =? -1) && (err =? Hook.EAGAIN)); intros [= <-]; by apply Hmv.
  - destruct H2 as [Hm Hq]. intros E. minv E. apply on_io_inv in E0 as (s1 & E0 & ->). injection E as <-.
    apply arm_same in E0 as [Hs1 Hb1]. apply waits_moved; try done; [by rewrite (queued_base (w_io w))|by eapply same_mine].
  - destruct H2 as [Hm Hq]. intros E. minv E. apply on_io_inv in E0 as (s1 & E0 & ->). injection E as <-.
    destruct (add_registers (w_io w) rt a s1) as (Hinv & Hq' & Hr); try done; [apply H|].
    destruct (a =? 0); cbn [negb]; (split; cbn; [done| |apply H]); [left; naive_solver|done].
  - intros [= <-]. destruct H as [K1 _ K3]. by split.
  - destruct H2 as [Hm Hq]. intros E. minv E. apply on_io_inv in E0 as (s1 & E0 & ->). injection E as <-.
    apply disarm_same in E0 as [Hs1 Hb1]. apply waits_moved; try done; [by rewrite (queued_base (w_io w))|by eapply same_mine].
  - destruct H2 as [Hm Hq]. intros [= <-]. by apply (waits_moved w (w_io w)); [..|by destruct (cancelled w =? 0)].
  - destruct H2 as [Hm Hq]. intros E. minv E. apply on_io_inv in E0 as (s1 & E0 & ->). injection E as <-.
    apply disarm_same in E0 as [Hs1 Hb1]. apply waits_moved; try done; [by rewrite (queued_base (w_io w))|by eapply same_mine].
Qed.

Lemma waits_resume w s w' :
  waits w → takes_task my_task (w_io w) s → wait_resume (set_io s w) = Ok tt w' → waits w'.
Proof.
  intros H Ht. apply take_same in Ht as [Hs Hq]. rewrite bool_decide_eq_true_2 in Hq by done.
  unfold wait_resume. mget. cbn [w_phase set_io]. pose proof (wt_phase w H) as H2.
  destruct (w_phase w) eqn:Hph; try done. intros [= <-]. destruct H2 as [(_ & _ & ?)|[Hm Hq']]; [lia|].
  apply (waits_moved w s); [done|done|lia|by eapply same_mine|done].
Qed.

Lemma waits_check w s b w' :
  waits w → takes_task my_callback (w_io w) s → timer_cb_check (set_io s w) = Ok b w' → waits w'.
Proof.
  intros H Ht E. apply take_same in Ht as [Hs Hq]. rewrite bool_decide_eq_false_2 in Hq by done.
  assert (waits (set_io s w)) as H' by (apply waits_same; [done..|lia]).
  unfold timer_cb_check in E. rewrite bind_get in E. destruct (_ || _); [by injection E as <- <-|].
  rewrite bind_modify in E. injection E as <- <-. destruct H' as [K1 K2 K3]. by split.
Qed.

Lemma waits_mark w w' : waits w → timer_cb_mark w = Ok tt w' → waits w'.
Proof.
  intros [H1 H2 H3]. unfold timer_cb_mark. mget. destruct (checked w); [done|].
  rewrite bind_modify. intros [= <-]. split; cbn; [done|done|by right].
Qed.

Lemma waits_cancel w rt w' :
  waits w → 0 <= fd → fd ≠ tfd → is_event event → timer_cb_cancel rt w = Ok tt w' → waits w'.
Proof.
  intros H Hfd Hne Hev. unfold timer_cb_cancel. mget. destruct (marked w) as [|m]; [done|]. intros E. minv E.
  apply on_io_inv in E0 as (s2 & E0 & ->). injection E as <-.
  destruct (ok_legal (IoCancel rt fd event) (w_io w) s2) as [Hl Hr]; [apply H|done| |].
  { cbn [io_exec]. by rewrite (bind_ok _ _ _ _ _ E0). }
  destruct (waits_io w (IoCancel rt fd event) s2) as [K1 K2 K3]; done.
Qed.

(** ** The steps of the others *)

Lemma schedule_all_mine fts b : ∀ s r s',
  Forall (λ ft, ft_fiber ft ≠ Some me) fts → scheduleNoLock_all fts b s = Ok r s' →
  filter (λ ft, ft_fiber ft = Some me) (m_fibers s') = filter (λ ft, ft_fiber ft = Some me) (m_fibers s).
Proof.
  revert b. induction fts as [|ft r IH]; intros b s n s' Hf; cbn [scheduleNoLock_all]; [by intros [= <- <-]|].
  apply list.Forall_cons in Hf as [Hft Hf]. intros E. minv E. rewrite (IH _ _ _ _ Hf E).
  unfold scheduleNoLock in E0. rewrite bind_get in E0. minv E0. injection E0 as <- <-.
  unfold when in E1. destruct (_ || _); injection E1 as <- <-; [|done].
  cbn [m_fibers set_queue]. rewrite list.filter_app, filter_cons_False by done. by rewrite app_nil_r.
Qed.

Lemma lift_mine {A} (m : M Scheduler A) s a s' :
  lift m s = Ok a s' →
  same_waiters s s' ∧ ∃ b, m (base s) = Ok a b ∧ m_fibers (base s') = m_fibers b.
Proof.
  unfold lift. destruct (m (base s)) as [a' b| | |] eqn:E; try done. intros [= <- <-].
  destruct (iter_tickle (tickled b - tickled (base s)) (set_base b s)) as ((E1 & E2 & E3 & _) & Eb & _).
  unfold same_waiters. rewrite E1, E2, E3, Eb. split; [by split_and!|]. by exists b.
Qed.

Lemma schedule_list_mine fts s s' :
  Forall (λ ft, ft_fiber ft ≠ Some me) fts → lift (schedule_all fts) s = Ok tt s' →
  same_waiters s s' ∧ queued s' = queued s.
Proof.
  intros Hf [Hs (b & Eb & Eq)]%lift_mine. split; [done|]. unfold queued. rewrite Eq. f_equal.
  unfold schedule_all in Eb. minv Eb. rewrite <- (schedule_all_mine fts false (base s) a s0) by done.
  unfold when in Eb. destruct a; by injection Eb as <-.
Qed.

Lemma schedule_mine ft s s' :
  ft_fiber ft ≠ Some me → lift (schedule ft) s = Ok tt s' → same_waiters s s' ∧ queued s' = queued s.
Proof.
  intros Hft [Hs (b & Eb & Eq)]%lift_mine. split; [done|]. unfold queued. rewrite Eq. f_equal.
  unfold schedule in Eb. minv Eb.
  assert (scheduleNoLock_all [ft] false (base s) = Ok (a || false) s0) as E1.
  { cbn [scheduleNoLock_all]. by rewrite (bind_ok _ _ _ _ _ E). }
  rewrite <- (schedule_all_mine [ft] false (base s) (a || false) s0); [|by constructor|done].
  unfold when in Eb. destruct a; by injection Eb as <-.
Qed.

Lemma wstep_waits w w' :
  is_event event → 0 <= fd < 2 ^ 31 → fd ≠ tfd → wstep w w' → waits w → waits w'.
Proof.
  intros Hev Hfd Hne Hstep H. destruct Hstep.
  - by eapply waits_call.
  - by eapply waits_resume.
  - by eapply waits_check.
  - by eapply waits_mark.
  - eapply waits_cancel; try done; lia.
  - destruct (ok_legal o (w_io w) s) as [Hl Hr]; [apply H|done|done|]. apply (waits_io w o s); try done; lia.
  - match goal with E : lift_timer _ _ = _ |- _ => apply lift_timer_same in E as [? ?] end.
    apply waits_same; [done..|by apply queued_base].
  - match goal with E : takes_task _ _ _ |- _ => apply take_same in E as [? Hq] end.
    rewrite bool_decide_eq_false_2 in Hq by done. apply waits_same; [done..|lia].
  - match goal with E : lift _ _ = _ |- _ => apply schedule_mine in E as [? ?]; [|done] end. by apply waits_same.
  - match goal with E : lift _ _ = _ |- _ => apply schedule_list_mine in E as [? ?]; [|done] end. by apply waits_same.
  - apply waits_same; [done..|]. unfold queued. cbn. congruence.
Qed.

Lemma wreach_waits s0 w :
  io_inv tfd s0 → mine_only_at s0 false → queued s0 = 0%nat → is_event event → 0 <= fd < 2 ^ 31 → fd ≠ tfd →
  wreach s0 w → waits w.
Proof.
  intros H1 H2 H3 Hev Hfd Hne. induction 1 as [|w w' _ IH Hstep].
  - split; [done|done|by left].
  - by eapply wstep_waits.
Qed.

(** Cancelling the event queues a registered fiber. *)
Lemma cancel_wakes w :
  waits w → waiter (w_io w) fd event = Some (self, my_task) → queued (w_io w) = 0%nat →
  match w_phase w with Registered _ | Suspended _ => True | _ => False end →
  0 <= fd → fd ≠ tfd → is_event event →
  ∃ s r, cancelEvent self 0 fd event (w_io w) = Ok r s ∧ queued s = 1%nat.
Proof.
  intros H Hw Hq0 Hph Hfd Hne Hev.
  destruct (io_exec_refines self tfd (IoCancel 0 fd event) (w_io w)) as (s & E & Hr); [apply H|by split; [|intros []]|].
  assert (waits (set_io s w)) as H' by (by eapply (waits_io w (IoCancel 0 fd event)); try done; split; [|intros []]).
  cbn [io_exec] in E. minv E. injection E as ->. exists s, a. split; [done|].
  destruct Hr as (_ & _ & Hwa). pose proof (wt_phase _ H') as Hp. cbn in Hp.
  destruct (w_phase w); try done; (destruct Hp as [(Hw' & _)|[_ ?]]; [exfalso|done]);
    rewrite Hwa in Hw' by done; unfold waiter_after in Hw'; cbn in Hw'; by rewrite !Z.eqb_refl in Hw'.
Qed.

(** The callback of the timer wakes a waiting call. *)
Lemma callback_wakes w :
  waits w → waiter (w_io w) fd event = Some (self, my_task) → queued (w_io w) = 0%nat →
  match w_phase w with Registered _ | Suspended _ => True | _ => False end → cancelled w = 0 →
  0 <= fd → fd ≠ tfd → is_event event →
  ∃ w', timer_cb 0 w = Ok tt w' ∧ queued (w_io w') = 1%nat ∧ w_phase w' = w_phase w ∧
    cancelled w' = Hook.ETIMEDOUT.
Proof.
  intros H Hw Hq Hph Hc Hfd Hne Hev. destruct (cancel_wakes w) as (s & r & E & Hq1); try done.
  assert (info_gone w = false) as Hg by (unfold info_gone; by destruct (w_phase w)).
  exists (set_cbs (checked w) (marked w) (set_cancelled Hook.ETIMEDOUT (set_io s w))). split; [|done].
  unfold timer_cb. rewrite (bind_ok _ _ w true (set_cbs (S (checked w)) (marked w) w)).
  2: { unfold timer_cb_check. mget. rewrite Hg, Hc. done. }
  rewrite (bind_ok _ _ _ tt (set_cbs (checked w) (S (marked w)) (set_cancelled Hook.ETIMEDOUT w))) by done.
  unfold timer_cb_cancel. mget. cbn [marked set_cbs].
  rewrite (bind_ok _ _ _ r (set_io s (set_cbs (checked w) (S (marked w)) (set_cancelled Hook.ETIMEDOUT w)))); [done|].
  unfold on_io. cbn [w_io set_cbs set_cancelled]. by rewrite E.
Qed.

(** C27: a hooked call that waits is woken exactly once: over the manager and the timers, in
    every interleaving, with no assertion failing, of the statements of do_io (setting the
    timer, addEvent and the yield are separate), of the statements of its timers' callbacks,
    and of epoll reports, closes, timer operations and scheduling by other code that neither
    registers or queues this fiber nor calls delEvent for its event, the fiber is from
    addEvent to its resumption either registered for its event and not queued, or queued
    once and registered nowhere, and at all other times neither. While it is registered, a
    callback of its timer that finds cancelled 0 and an epoll_ctl that succeeds queues it
    with ETIMEDOUT recorded, and so does any cancelEvent that succeeds. (A callback that
    runs when the call is not registered leaves the next wait without a timeout.) This is
    the discipline scheduler_never_aborts asks of its clients. *)
Theorem io_wait_wakes_once s0 w :
  io_inv tfd s0 → mine_only_at s0 false → queued s0 = 0%nat → is_event event → 0 <= fd < 2 ^ 31 → fd ≠ tfd →
  wreach s0 w →
  match w_phase w with
  | Registered _ | Suspended _ =>
      (waiter (w_io w) fd event = Some (self, my_task) ∧ mine_only_at (w_io w) true ∧ queued (w_io w) = 0%nat ∧
       (cancelled w = 0 → ∃ w', timer_cb 0 w = Ok tt w' ∧ queued (w_io w') = 1%nat ∧
          w_phase w' = w_phase w ∧ cancelled w' = Hook.ETIMEDOUT) ∧
       (∃ s r, cancelEvent self 0 fd event (w_io w) = Ok r s ∧ queued s = 1%nat)) ∨
      (mine_only_at (w_io w) false ∧ queued (w_io w) = 1%nat)
  | _ => mine_only_at (w_io w) false ∧ queued (w_io w) = 0%nat
  end.
Proof.
  intros H1 H2 H3 Hev Hfd Hne Hr. pose proof (wreach_waits s0 w H1 H2 H3 Hev Hfd Hne Hr) as H.
  pose proof (wt_phase _ H) as Hp. pose proof (callback_wakes w H) as Hcb. pose proof (cancel_wakes w H) as Hcc.
  destruct (w_phase w) eqn:Eph; try done; (destruct Hp as [(Hw & Hm & Hq)|Hp]; [left|by right]);
    (split_and!; [done..| |]); [intros Hc; apply Hcb|apply Hcc|intros Hc; apply Hcb|apply Hcc]; done || lia.
Qed.
End wait.

(** ** A concrete call: descriptor 9 with a timeout of 100 ms, on manager 7 *)

Definition ids (_ : Timer.callback) : Z := 77.

(** What the call and the others do: a statement of the call, with [EAGAIN]
    from the original function; the timers that expired by [now]; scheduling
    the callback; a report for descriptor 9; taking the [i]-th task, which is
    the fiber or the callback; and the two other parts of the callback. *)
Inductive act :=
| ACall (p now : Z) | AExpire (now : Z) | ASchedule | AReady | AResume (i : nat) | ACheck (i : nat) | AMark | ACancel.

#[local] Instance FiberAndThread_eq_dec : EqDecision FiberAndThread.
Proof. solve_decision. Defined.

Definition result {S A} (o : outcome S A) : option S := match o with Ok _ s => Some s | _ => None end.

Definition drop_task (i : nat) (w : wait) : wait :=
  set_io (set_base (set_queue (delete i (m_fibers (base (w_io w)))) (base (w_io w))) (w_io w)) w.

Definition run_act (a : act) (w : wait) : option wait :=
  match a with
  | ACall p now => result (wait_call 7 40 9 READ 100 600 601 (-1) Hook.EAGAIN p now 0 0 w)
  | AExpire now => result (on_io (lift_timer (Timer.listExpiredCb 900 now [])) w)
  | ASchedule => result (on_io (lift (schedule_all [my_callback ids 600 601])) w)
  | AReady => guard (9 < zlen (m_fdContexts (w_io w)));; result (on_io (io_exec 7 (IoReady 9 EPOLLIN 0)) w)
  | AResume i => guard (m_fibers (base (w_io w)) !! i = Some (my_task 40));; result (wait_resume (drop_task i w))
  | ACheck i => guard (m_fibers (base (w_io w)) !! i = Some (my_callback ids 600 601));;
      result (timer_cb_check (drop_task i w))
  | AMark => result (timer_cb_mark w)
  | ACancel => result (timer_cb_cancel 7 9 READ 0 w)
  end.

Fixpoint run_acts (l : list act) (w : wait) : option wait :=
  match l with [] => Some w | a :: l' => w' ← run_act a w; run_acts l' w' end.

Abbreviation reaches := (wreach 7 ids 40 9 READ 100 600 601 3 io0).

Lemma result_inv {S A} (o : outcome S A) s : result o = Some s → ∃ a, o = Ok a s.
Proof. destruct o; try done. intros [= ->]. eauto. Qed.

Lemma result_unit {S} (o : outcome S unit) s : result o = Some s → o = Ok tt s.
Proof. by intros [[] E]%result_inv. Qed.

Lemma drop_takes i ft w :
  m_fibers (base (w_io w)) !! i = Some ft → takes_task ft (w_io w) (w_io (drop_task i w)).
Proof.
  intros Hi. exists (take i (m_fibers (base (w_io w)))), (drop (S i) (m_fibers (base (w_io w)))).
  split; [symmetry; by apply take_drop_middle|]. cbn. by rewrite delete_take_drop.
Qed.

Lemma run_act_step a w w' : run_act a w = Some w' → wstep 7 ids 40 9 READ 100 600 601 3 w w'.
Proof.
  destruct a as [p now|now| | |i|i| |]; cbn [run_act].
  - intros E%result_unit. by eapply step_call.
  - intros [cbs E]%result_inv. apply on_io_inv in E as (s & E & ->). by eapply step_timers.
  - intros E%result_unit. apply on_io_inv in E as (s & E & ->). eapply step_schedule_all; [|exact E]. by repeat constructor.
  - case_guard as Hl; [|done]. intros E%result_unit. apply on_io_inv in E as (s & E & ->).
    eapply (step_io _ _ _ _ _ _ _ _ _ w (IoReady 9 EPOLLIN 0)); [done| |exact E].
    split; [split; [lia|exact Hl]|lia].
  - case_guard as Hl; [|done]. intros E%result_unit. eapply step_resume; [by apply drop_takes|exact E].
  - case_guard as Hl; [|done]. intros [b E]%result_inv. eapply step_cb_check; [by apply drop_takes|exact E].
  - intros E%result_unit. by apply step_cb_mark.
  - intros E%result_unit. by eapply step_cb_cancel.
Qed.

Lemma run_acts_reach l : ∀ w w', reaches w → run_acts l w = Some w' → reaches w'.
Proof.
  induction l as [|a l IH]; intros w w' H; cbn [run_acts]; [by intros [= <-]|].
  destruct (run_act a w) as [w1|] eqn:E; [|done]. apply IH. eapply wreach_step; [exact H|by eapply run_act_step].
Qed.

Definition script (l : list act) : wait := default (mkWait io0 Calling 0 0 0) (run_acts l (mkWait io0 Calling 0 0 0)).

Lemma script_reach l : is_Some (run_acts l (mkWait io0 Calling 0 0 0)) → reaches (script l).
Proof. intros [w E]. unfold script. rewrite E. eapply run_acts_reach; [apply wreach_init|exact E]. Qed.

(** The call waits from 1000 ms, with the timer 500. *)
Definition waiting : list act := [ACall 500 1000; ACall 500 1000; ACall 500 1000; ACall 500 1000].

(** At 1200 ms its timer has expired, and then the descriptor is ready: the
    callback and the fiber are queued. *)
Definition both : list act := waiting ++ [AExpire 1200; ASchedule; AReady].

Lemma io0_free : mine_only_at 40 9 READ io0 false ∧ queued 40 io0 = 0%nat.
Proof.
  split; [|vm_compute; reflexivity]. intros fd e x Hfd He Hx. exfalso.
  assert (forallb (λ c, c_events c =? 0) (m_fdContexts io0) = true) as Hall by (vm_compute; reflexivity).
  unfold waiter in Hx. destruct (m_fdContexts io0 !! Z.to_nat fd) as [c|] eqn:Hc; [|discriminate Hx].
  rewrite forallb_forall in Hall. apply list_elem_of_lookup_2, list_elem_of_In, Hall, Z.eqb_eq in Hc.
  unfold has in Hx. rewrite Hc in Hx. cbn in Hx. discriminate Hx.
Qed.

(** The descriptor became ready: the fiber is queued once. *)
Lemma io_wait_wakes_once_witness :
  w_phase (script both) = Suspended (Some 500) ∧ queued 40 (w_io (script both)) = 1%nat.
Proof.
  destruct io0_free as [Hm Hq].
  assert (w_phase (script both) = Suspended (Some 500)) as Hph by (vm_compute; reflexivity).
  split; [exact Hph|].
  assert (reaches (script both)) as Hr by (apply script_reach; vm_compute; eauto).
  pose proof (io_wait_wakes_once 7 ids 40 9 READ 100 600 601 3 io0 (script both) io0_inv Hm Hq (or_introl eq_refl)
    ltac:(lia) ltac:(lia) Hr) as H.
  rewrite Hph in H. destruct H as [(Hw & _)|[_ H]]; [|exact H].
  vm_compute in Hw. discriminate Hw.
Defined.

(** The fiber is taken first; the callback of the first timer marks the call
    while it is between two waits; there is nothing to read, the call waits
    again with a second timer, which expires. *)
Definition second_wait : list act :=
  both ++ [AResume 1; ACall 0 0; ACall 0 0; ACheck 0; AMark; ACancel] ++
  [ACall 501 1200; ACall 501 1200; ACall 501 1200; ACall 501 1200; AExpire 1400; ASchedule; ACheck 0].

(** The second wait has no timeout any more: its timer has expired and its
    callback done nothing, no timer and no task is left, and only the
    descriptor can wake the fiber. *)
Lemma lost_timeout :
  let w := script second_wait in
  reaches w ∧ w_phase w = Suspended (Some 501) ∧ cancelled w = Hook.ETIMEDOUT ∧
  Timer.m_timers (timers (w_io w)) = [] ∧ m_fibers (base (w_io w)) = [] ∧ marked w = 0%nat ∧
  waiter (w_io w) 9 READ = Some (7, my_task 40).
Proof. split; [apply script_reach; vm_compute; eauto|vm_compute; repeat split]. Qed.

(** The timer expires and its callback runs after [addConditionTimer] and
    before [addEvent]: the call is suspended without a timeout. *)
Definition early_timeout : list act :=
  [ACall 500 1000; ACall 500 1000; AExpire 1200; ASchedule; ACheck 0; AMark; ACancel; ACall 0 0; ACall 0 0].

Lemma timeout_before_registration :
  let w := script early_timeout in
  reaches w ∧ w_phase w = Suspended (Some 500) ∧ cancelled w = Hook.ETIMEDOUT ∧
  Timer.m_timers (timers (w_io w)) = [] ∧ m_fibers (base (w_io w)) = [] ∧ marked w = 0%nat ∧
  waiter (w_io w) 9 READ = Some (7, my_task 40).
Proof. split; [apply script_reach; vm_compute; eauto|vm_compute; repeat split]. Qed.
