(* ===== verification/Address.v ===== *)
(** * Network addresses (address.h, address.cc)

    The four address classes over their [sockaddr] structures: object bytes on
    a host of either byte order, comparison, prefix arithmetic, text, the path
    of a Unix address, and the parsing of host strings.  [getaddrinfo],
    [inet_pton] and [getifaddrs] belong to the C library: what they return is
    an argument. *)

From Stdlib Require Import Ascii.
From S2P Require Import Prelude Endian.

Definition AF_UNSPEC : Z := 0.
Definition AF_UNIX : Z := 1.
Definition AF_INET : Z := 2.
Definition AF_INET6 : Z := 10.

(** The structures of the system; integer members hold the value the host
    reads, byte members their bytes. *)
Record sockaddr_in := mkIn { sin_family : Z; sin_port : Z; s_addr : Z; sin_zero : list byte }.
Record sockaddr_in6 := mkIn6 {
  sin6_family : Z; sin6_port : Z; sin6_flowinfo : Z; s6_addr : list byte; sin6_scope_id : Z
}.
Record sockaddr_un := mkUn { sun_family : Z; sun_path : list byte }.
Record sockaddr := mkSa { sa_family : Z; sa_data : list byte }.

Inductive Address :=
| IPv4Address (m_addr : sockaddr_in)
| IPv6Address (m_addr : sockaddr_in6)
| UnixAddress (m_addr : sockaddr_un) (m_length : Z)
| UnknownAddress (m_addr : sockaddr).

(** What a [sockaddr *] points to. *)
Inductive any_sockaddr := SaIn (a : sockaddr_in) | SaIn6 (a : sockaddr_in6) | SaOther (a : sockaddr).

Definition zeros (n : nat) : list byte := replicate n (byte.of_Z 0).

(** [CreateMask<T>]: [1] is an [int], so a shift by 31 overflows in the
    subtraction and a shift by more is undefined. *)
Definition CreateMask (T : ctype) (prefix : Z) : option Z :=
  let n := u64 (bits T - prefix) in
  if n <? 31 then Some (cast T (Z.shiftl 1 n - 1)) else None.

(** [CountBytes]: the loop with a bound on the turns. *)
Fixpoint CountBytes_loop (fuel : nat) (value result : Z) : option Z :=
  if value =? 0 then Some result
  else match fuel with
  | O => None
  | S fuel' => CountBytes_loop fuel' (Z.land value (value - 1)) (result + 1)
  end.
Definition CountBytes (T : ctype) (value : Z) : option Z := CountBytes_loop (Z.to_nat (bits T)) value 0.

Section host.
Context (host : endian).

Abbreviation ntoh16 := (byteswapOnLittleEndian host uint16_t).
Abbreviation ntoh32 := (byteswapOnLittleEndian host uint32_t).

(** *** Constructors *)

Definition new_IPv4Address (address port : Z) : sockaddr_in :=
  mkIn AF_INET (ntoh16 port) (ntoh32 address) (zeros 8).

Definition new_IPv6Address : sockaddr_in6 := mkIn6 AF_INET6 0 0 (zeros 16) 0.

Definition IPv6Address_of_bytes (address : list byte) (port : Z) : sockaddr_in6 :=
  mkIn6 AF_INET6 (ntoh16 port) 0 address 0.

(** [Address::Create]: a null pointer gives no address. *)
Definition Create (addr : option any_sockaddr) : option Address :=
  match addr with
  | None => None
  | Some (SaIn a) => Some (IPv4Address a)
  | Some (SaIn6 a) => Some (IPv6Address a)
  | Some (SaOther a) => Some (UnknownAddress a)
  end.

(** [IPv4Address::Create], [pton] being what [inet_pton] wrote: the four
    bytes in network order, as the host reads them. *)
Definition IPv4Address_Create (pton : option Z) (port : Z) : option sockaddr_in :=
  match pton with
  | Some a => Some (mkIn AF_INET (ntoh16 port) a (zeros 8))
  | None => None
  end.

Definition IPv6Address_Create (pton : option (list byte)) (port : Z) : option sockaddr_in6 :=
  match pton with
  | Some a => Some (mkIn6 AF_INET6 (ntoh16 port) 0 a 0)
  | None => None
  end.

Definition setPort4 (v : Z) (a : sockaddr_in) : sockaddr_in :=
  mkIn (sin_family a) (ntoh16 v) (s_addr a) (sin_zero a).
Definition getPort4 (a : sockaddr_in) : Z := ntoh16 (sin_port a).

Definition setPort6 (v : Z) (a : sockaddr_in6) : sockaddr_in6 :=
  mkIn6 (sin6_family a) (ntoh16 v) (sin6_flowinfo a) (s6_addr a) (sin6_scope_id a).
Definition getPort6 (a : sockaddr_in6) : Z := ntoh16 (sin6_port a).

(** [IPAddress::Create], [results] being what [getaddrinfo] found for a
    numeric host. *)
Definition IPAddress_Create (results : option any_sockaddr) (port : Z) : option Address :=
  match results with
  | None => None
  | Some sa =>
      match Create (Some sa) with
      | Some (IPv4Address a) => Some (IPv4Address (setPort4 port a))
      | Some (IPv6Address a) => Some (IPv6Address (setPort6 port a))
      | _ => None
      end
  end.

(** *** Prefix arithmetic; [None] inside is the null pointer, [None] outside
    undefined behaviour. *)

Definition set_s_addr (v : Z) (a : sockaddr_in) : sockaddr_in :=
  mkIn (sin_family a) (sin_port a) v (sin_zero a).

Definition broadcastAddress4 (a : sockaddr_in) (prefix_len : Z) : option (option sockaddr_in) :=
  if 32 <? prefix_len then Some None
  else mask ← CreateMask uint32_t prefix_len;
    Some (Some (set_s_addr (Z.lor (s_addr a) (ntoh32 mask)) a)).

Definition networdAddress4 (a : sockaddr_in) (prefix_len : Z) : option (option sockaddr_in) :=
  if 32 <? prefix_len then Some None
  else mask ← CreateMask uint32_t prefix_len;
    Some (Some (set_s_addr (Z.land (s_addr a) (ntoh32 mask)) a)).

Definition subnetMask4 (prefix_len : Z) : option sockaddr_in :=
  mask ← CreateMask uint32_t prefix_len;
  Some (mkIn AF_INET 0 (u32 (Z.lnot (ntoh32 mask))) (zeros 8)).

(** [for (i = from; i < 16; ++i) s6_addr[i] = v]. *)
Definition fill_from (from : nat) (v : Z) (l : list byte) : list byte :=
  take from l ++ replicate (length l - from) (byte.of_Z v).

Definition set_s6_addr (l : list byte) (a : sockaddr_in6) : sockaddr_in6 :=
  mkIn6 (sin6_family a) (sin6_port a) (sin6_flowinfo a) l (sin6_scope_id a).

Definition broadcastAddress6 (a : sockaddr_in6) (prefix_len : Z) : option sockaddr_in6 :=
  let k := Z.to_nat (prefix_len / 8) in
  b ← s6_addr a !! k;
  mask ← CreateMask uint8_t (prefix_len mod 8);
  Some (set_s6_addr (fill_from (S k) 0xff
    (<[k := byte.of_Z (Z.lor (byte.unsigned b) mask)]> (s6_addr a))) a).

Definition networdAddress6 (a : sockaddr_in6) (prefix_len : Z) : option sockaddr_in6 :=
  let k := Z.to_nat (prefix_len / 8) in
  b ← s6_addr a !! k;
  mask ← CreateMask uint8_t (prefix_len mod 8);
  Some (set_s6_addr (fill_from (S k) 0x00
    (<[k := byte.of_Z (Z.land (byte.unsigned b) mask)]> (s6_addr a))) a).

Definition subnetMask6 (prefix_len : Z) : option sockaddr_in6 :=
  let k := Z.to_nat (prefix_len / 8) in
  _ ← zeros 16 !! k;
  mask ← CreateMask uint8_t (prefix_len mod 8);
  let l := <[k := byte.of_Z (Z.lnot mask)]> (zeros 16) in
  Some (mkIn6 AF_INET6 0 0 (replicate k (byte.of_Z 0xff) ++ drop k l) 0).

(** *** Object bytes, length and comparison *)

Definition getAddr (a : Address) : list byte :=
  match a with
  | IPv4Address m =>
      to_mem host uint16_t (sin_family m) ++ to_mem host uint16_t (sin_port m) ++
      to_mem host uint32_t (s_addr m) ++ sin_zero m
  | IPv6Address m =>
      to_mem host uint16_t (sin6_family m) ++ to_mem host uint16_t (sin6_port m) ++
      to_mem host uint32_t (sin6_flowinfo m) ++ s6_addr m ++ to_mem host uint32_t (sin6_scope_id m)
  | UnixAddress m _ => to_mem host uint16_t (sun_family m) ++ sun_path m
  | UnknownAddress m => to_mem host uint16_t (sa_family m) ++ sa_data m
  end.

Definition getAddrLen (a : Address) : Z :=
  match a with
  | IPv4Address _ => 16
  | IPv6Address _ => 28
  | UnixAddress _ m_length => m_length
  | UnknownAddress _ => 16
  end.

Definition getFamily (a : Address) : Z :=
  match a with
  | IPv4Address m => sin_family m
  | IPv6Address m => sin6_family m
  | UnixAddress m _ => sun_family m
  | UnknownAddress m => sa_family m
  end.

(** [memcmp]: the sign of the first difference. *)
Fixpoint memcmp (n : nat) (l1 l2 : list byte) : Z :=
  match n, l1, l2 with
  | S n', b1 :: l1', b2 :: l2' =>
      if byte.unsigned b1 <? byte.unsigned b2 then -1
      else if byte.unsigned b2 <? byte.unsigned b1 then 1
      else memcmp n' l1' l2'
  | _, _, _ => 0
  end.

Definition op_lt (a rhs : Address) : bool :=
  let minlen := Z.min (getAddrLen a) (getAddrLen rhs) in
  let result := memcmp (Z.to_nat minlen) (getAddr a) (getAddr rhs) in
  if result <? 0 then true
  else if 0 <? result then false
  else getAddrLen a <? getAddrLen rhs.

Definition op_eq (a rhs : Address) : bool :=
  (getAddrLen a =? getAddrLen rhs) && (memcmp (Z.to_nat (getAddrLen a)) (getAddr a) (getAddr rhs) =? 0).

Definition op_ne (a rhs : Address) : bool := negb (op_eq a rhs).
End host.

(** *** Text *)

Section text_of.
Context (host : endian).

Abbreviation ntoh16 := (byteswapOnLittleEndian host uint16_t).

Definition insert4 (m : sockaddr_in) : text :=
  let addr := byteswapOnLittleEndian host uint32_t (s_addr m) in
  dec (Z.land (Z.shiftr addr 24) 0xff) ++ txt "." ++ dec (Z.land (Z.shiftr addr 16) 0xff) ++ txt "." ++
  dec (Z.land (Z.shiftr addr 8) 0xff) ++ txt "." ++ dec (Z.land addr 0xff) ++
  txt ":" ++ dec (ntoh16 (sin_port m)).

(** [std::hex]: lower case, no leading zero. *)
Definition hex_digit (d : Z) : Ascii.ascii :=
  Ascii.ascii_of_N (Z.to_N (if d <? 10 then 48 + d else 87 + d)).
Fixpoint hex_go (fuel : nat) (z : Z) (acc : text) : text :=
  let acc' := hex_digit (z mod 16) :: acc in
  match fuel with
  | O => acc'
  | S fuel' => if z / 16 =? 0 then acc' else hex_go fuel' (z / 16) acc'
  end.
Definition hex (z : Z) : text := hex_go 7 z [].

(** The groups as the host reads them. *)
Fixpoint groups16 (l : list byte) : list Z :=
  match l with
  | b1 :: b2 :: l' => of_mem host uint16_t [b1; b2] :: groups16 l'
  | _ => []
  end.

(** The loop, from group [i] with the group before it; the text and
    [used_zeros]. *)
Fixpoint insert6_loop (i : nat) (prev : Z) (addr : list Z) (used_zeros : bool) : text * bool :=
  match addr with
  | [] => ([], used_zeros)
  | g :: addr' =>
      if (g =? 0) && negb used_zeros then insert6_loop (S i) g addr' used_zeros
      else
        let gap := negb (Nat.eqb i 0) && (prev =? 0) && negb used_zeros in
        let used_zeros := gap || used_zeros in
        let r := insert6_loop (S i) g addr' used_zeros in
        ((if gap then txt ":" else []) ++ (if Nat.eqb i 0 then [] else txt ":") ++ hex (ntoh16 g) ++ r.1, r.2)
  end.

Definition insert6 (m : sockaddr_in6) : text :=
  let addr := groups16 (s6_addr m) in
  let r := insert6_loop 0 0 addr false in
  txt "[" ++ r.1 ++ (if negb r.2 && (default 1 (addr !! 7%nat) =? 0) then txt "::" else []) ++
  txt "]:" ++ dec (ntoh16 (sin6_port m)).

(** [offsetof(sockaddr_un, sun_path)] and [MAX_PATH_LEN]. *)
Definition off_path : Z := 2.
Definition MAX_PATH_LEN : Z := 107.

Definition byte_char (b : byte) : Ascii.ascii := Ascii.ascii_of_nat (Z.to_nat (byte.unsigned b)).

(** A C string in a buffer. *)
Fixpoint c_string (l : list byte) : list byte :=
  match l with
  | [] => []
  | b :: l' => if byte.unsigned b =? 0 then [] else b :: c_string l'
  end.

Definition new_UnixAddress : Address :=
  UnixAddress (mkUn AF_UNIX (zeros 108)) (off_path + MAX_PATH_LEN).

(** [UnixAddress(path)]: [path.c_str()] ends with a zero byte. *)
Definition UnixAddress_of_path {S} (path : list byte) : M S Address :=
  let m_length := zlen path + 1 in
  let m_length := match path with
    | b :: _ => if byte.unsigned b =? 0 then m_length - 1 else m_length
    | [] => m_length
    end in
  if 108 <? m_length then throw (logic_error "path too long")
  else mret (UnixAddress
    (mkUn AF_UNIX (splice (zeros 108) 0 (slice (path ++ zeros 1) 0 m_length))) (m_length + off_path)).

Definition setAddrLen (v : Z) (a : Address) : Address :=
  match a with UnixAddress m _ => UnixAddress m v | _ => a end.

Definition getPath (m : sockaddr_un) (m_length : Z) : text :=
  match sun_path m with
  | b :: rest =>
      if (off_path <? m_length) && (byte.unsigned b =? 0) then
        txt "\0" ++ map byte_char (slice rest 0 (m_length - off_path - 1))
      else map byte_char (c_string (sun_path m))
  | [] => []
  end.

Definition insert (a : Address) : text :=
  match a with
  | IPv4Address m => insert4 m
  | IPv6Address m => insert6 m
  | UnixAddress m m_length => getPath m m_length
  | UnknownAddress m => txt "[UnknownAddress family=" ++ dec (sa_family m) ++ txt "]"
  end.
End text_of.

(** *** Looking up a host *)

Fixpoint memchr (c : Ascii.ascii) (l : text) : option nat :=
  match l with
  | [] => None
  | x :: l' => if Ascii.eqb x c then Some O else S <$> memchr c l'
  end.

Definition colon : Ascii.ascii := ":"%char.

(** The node and the service [Lookup] passes to [getaddrinfo]. *)
Definition host_parts (host : text) : text * option text :=
  let bracket :=
    match host with
    | c :: t =>
        if Ascii.eqb c "["%char then
          match memchr "]"%char t with
          | Some i =>
              (take i t,
               match drop (S i) t with
               | c' :: t' => if Ascii.eqb c' colon then Some t' else None
               | [] => None
               end)
          | None => ([], None)
          end
        else ([], None)
    | [] => ([], None)
    end in
  let parts :=
    match bracket.1 with
    | [] =>
        match memchr colon host with
        | Some i =>
            match memchr colon (drop (S i) host) with
            | None => (take i host, Some (drop (S i) host))
            | Some _ => ([], Some (drop i host))
            end
        | None => ([], None)
        end
    | _ => bracket
    end in
  (match parts.1 with [] => host | node => node end, parts.2).

Section lookup.
(** An error code or the addresses found. *)
Context (getaddrinfo : text → option text → Z → Z → Z → Z + list any_sockaddr).

Definition Lookup (result : list Address) (host : text) (family type protocol : Z) : bool * list Address :=
  let '(node, service) := host_parts host in
  match getaddrinfo node service family type protocol with
  | inl _ => (false, result)
  | inr results =>
      let result := result ++ omap (λ sa, Create (Some sa)) results in
      (negb (Nat.eqb (length result) 0), result)
  end.

Definition LookupAny (host : text) (family type protocol : Z) : option Address :=
  match Lookup [] host family type protocol with
  | (true, result) => head result
  | _ => None
  end.

Definition is_ip (a : Address) : bool :=
  match a with IPv4Address _ | IPv6Address _ => true | _ => false end.

Definition LookupAnyIPAddress (host : text) (family type protocol : Z) : option Address :=
  match Lookup [] host family type protocol with
  | (true, result) => head (filter (λ a, is_ip a = true) result)
  | _ => None
  end.
End lookup.

(** *** Interfaces *)

(** An entry of [getifaddrs]; [ifa_addr] is null for an interface without
    address.  The netmask is an address of the same family. *)
Record ifaddrs := mkIf { ifa_name : string; ifa_addr : option any_sockaddr; ifa_netmask : any_sockaddr }.

Definition family_of (sa : any_sockaddr) : Z :=
  match sa with SaIn _ => AF_INET | SaIn6 _ => AF_INET6 | SaOther a => sa_family a end.

(** A [std::multimap] as its sorted sequence: a new entry goes after those
    with a key not greater. *)
Fixpoint multi_insert {A} (k : string) (v : A) (l : list (string * A)) : list (string * A) :=
  match l with
  | [] => [(k, v)]
  | (k', v') :: l' =>
      if String.ltb k k' then (k, v) :: l else (k', v') :: multi_insert k v l'
  end.

Fixpoint sum_bytes (l : list byte) : option Z :=
  match l with
  | [] => Some 0
  | b :: l' => n ← CountBytes uint8_t (byte.unsigned b); r ← sum_bytes l'; Some (n + r)
  end.

(** The address and prefix length of an entry; [None] outside is a null
    pointer followed. *)
Definition interface_entry (family : Z) (e : ifaddrs) : option (option (Address * Z)) :=
  sa ← ifa_addr e;
  if negb (family =? AF_UNSPEC) && negb (family =? family_of sa) then Some None
  else match sa, ifa_netmask e with
  | SaIn a, SaIn mask => n ← CountBytes uint32_t (s_addr mask); Some (Some (IPv4Address a, n))
  | SaIn6 a, SaIn6 mask => n ← sum_bytes (s6_addr mask); Some (Some (IPv6Address a, n))
  | _, _ => Some None
  end.

Fixpoint GetInterfaceAddresses (results : list ifaddrs) (family : Z) (result : list (string * (Address * Z))) :
    option (list (string * (Address * Z))) :=
  match results with
  | [] => Some result
  | e :: results' =>
      r ← interface_entry family e;
      GetInterfaceAddresses results' family
        (match r with Some v => multi_insert (ifa_name e) v result | None => result end)
  end.

(** [GetInterfaceAddresses] for one interface, [results] being what
    [getifaddrs] found. *)
Definition GetInterfaceAddresses_of (host : endian) (results : option (list ifaddrs))
    (iface : string) (family : Z) (result : list (Address * Z)) : option (bool * list (Address * Z)) :=
  if String.eqb iface "" || String.eqb iface "*" then
    let r4 := if (family =? AF_INET) || (family =? AF_UNSPEC)
      then [(IPv4Address (new_IPv4Address host 0 0), 0)] else [] in
    let r6 := if (family =? AF_INET6) || (family =? AF_UNSPEC)
      then [(IPv6Address new_IPv6Address, 0)] else [] in
    Some (true, result ++ r4 ++ r6)
  else match results with
  | None => Some (false, result)
  | Some rs =>
      all ← GetInterfaceAddresses rs family [];
      match all with
      | [] => Some (false, result)
      | _ =>
          let result := result ++ (filter (λ p : string * (Address * Z), p.1 = iface) all).*2 in
          Some (negb (Nat.eqb (length result) 0), result)
      end
  end.

(** ** Prefix arithmetic *)

(** The bit of the swapped word a bit comes from. *)
Definition swapped (i : Z) : Z := 24 - 8 * (i / 8) + i mod 8.

Lemma bswap_32_bit x i : 0 <= i < 32 → Z.testbit (bswap_32 x) i = Z.testbit x (swapped i).
Proof.
  intros Hi. assert (∃ n, (n < 32)%nat ∧ i = Z.of_nat n) as (n & Hn & ->) by (exists (Z.to_nat i); lia).
  unfold bswap_32. rewrite !Z.lor_spec, !Z.shiftr_spec, !Z.shiftl_spec, !Z.land_spec by lia.
  do 32 (destruct n as [|n]; [cbn; rewrite ?andb_true_r, ?andb_false_r, ?orb_false_r; reflexivity|]). lia.
Qed.

Lemma swapped_range i : 0 <= i < 32 → 0 <= swapped i < 32.
Proof. unfold swapped. pose proof (Z.mod_pos_bound i 8). pose proof (Z.div_mod i 8). lia. Qed.

Lemma testbit_high w x i : 0 <= x < 2 ^ w → 0 <= w <= i → Z.testbit x i = false.
Proof.
  intros Hx Hi. destruct (decide (x = 0)) as [->|Hne]; [apply Z.bits_0|].
  apply Z.bits_above_log2; [lia|]. assert (Z.log2 x < w) by (apply Z.log2_lt_pow2; lia). lia.
Qed.

Lemma byteswap_32_bit x i :
  0 <= i < 32 → Z.testbit (byteswap uint32_t x) i = Z.testbit x (swapped i).
Proof.
  intros Hi. pose proof (swapped_range i Hi). cbn [byteswap]. unfold cast. cbn [is_signed].
  unfold wrapu at 1. change (bits uint32_t) with 32. rewrite Z.mod_pow2_bits_low by lia.
  rewrite bswap_32_bit by done. unfold wrapu. by rewrite Z.mod_pow2_bits_low by lia.
Qed.

(** Words that agree on their bits are equal. *)
Lemma u32_ext x y :
  in_type uint32_t x → in_type uint32_t y →
  (∀ i, 0 <= i < 32 → Z.testbit x i = Z.testbit y i) → x = y.
Proof.
  intros Hx Hy H. apply Z.bits_inj'. intros i Hi. destruct (decide (i < 32)); [apply H; lia|].
  change (in_type uint32_t x) with (0 <= x < 2 ^ 32) in Hx.
  change (in_type uint32_t y) with (0 <= y < 2 ^ 32) in Hy.
  by rewrite !(testbit_high 32) by lia.
Qed.

Lemma u32_range x : (∀ i, 32 <= i → Z.testbit x i = false) → 0 <= x → in_type uint32_t x.
Proof.
  intros H Hx. change (0 <= x < 2 ^ 32). split; [done|].
  destruct (decide (x = 0)) as [->|Hne]; [lia|]. apply Z.log2_lt_pow2; [lia|].
  destruct (decide (Z.log2 x < 32)); [done|]. specialize (H (Z.log2 x) ltac:(lia)).
  rewrite Z.bit_log2 in H by lia. done.
Qed.

(** Bitwise operations on words. *)
Lemma lor_u32 x y : in_type uint32_t x → in_type uint32_t y → in_type uint32_t (Z.lor x y).
Proof.
  intros Hx Hy. pose proof Hx as [Hx0 _]. pose proof Hy as [Hy0 _]. apply u32_range.
  - intros i Hi. rewrite Z.lor_spec. by rewrite !(testbit_high 32) by (done || lia).
  - by apply Z.lor_nonneg.
Qed.

Lemma land_u32 x y : in_type uint32_t x → in_type uint32_t y → in_type uint32_t (Z.land x y).
Proof.
  intros Hx Hy. pose proof Hx as [Hx0 _]. apply u32_range.
  - intros i Hi. rewrite Z.land_spec. by rewrite (testbit_high 32 x) by (done || lia).
  - apply Z.land_nonneg. by left.
Qed.

Lemma byteswap_lor x y :
  in_type uint32_t x → in_type uint32_t y →
  byteswap uint32_t (Z.lor x y) = Z.lor (byteswap uint32_t x) (byteswap uint32_t y).
Proof.
  intros Hx Hy. apply u32_ext; [apply byteswap_in_type, lor_u32; done|apply lor_u32; by apply byteswap_in_type|].
  intros i Hi. rewrite Z.lor_spec, !byteswap_32_bit, Z.lor_spec by done. done.
Qed.

Lemma byteswap_land x y :
  in_type uint32_t x → in_type uint32_t y →
  byteswap uint32_t (Z.land x y) = Z.land (byteswap uint32_t x) (byteswap uint32_t y).
Proof.
  intros Hx Hy. apply u32_ext; [apply byteswap_in_type, land_u32; done|apply land_u32; by apply byteswap_in_type|].
  intros i Hi. rewrite Z.land_spec, !byteswap_32_bit, Z.land_spec by done. done.
Qed.

Section prefix.
Context (host : endian).
Abbreviation ntoh32 := (byteswapOnLittleEndian host uint32_t).

Lemma ntoh32_in x : in_type uint32_t x → in_type uint32_t (ntoh32 x).
Proof. destruct host; [apply byteswap_in_type|done]. Qed.

Lemma ntoh32_twice x : in_type uint32_t x → ntoh32 (ntoh32 x) = x.
Proof. destruct host; cbn [byteswapOnLittleEndian]; [apply byteswap_involutive|done]. Qed.

Lemma ntoh32_lor x y : in_type uint32_t x → in_type uint32_t y → ntoh32 (Z.lor x y) = Z.lor (ntoh32 x) (ntoh32 y).
Proof. destruct host; cbn [byteswapOnLittleEndian]; [apply byteswap_lor|done]. Qed.

(** The masks exist for prefix lengths 2 to 32. *)
Lemma CreateMask_32 p :
  0 <= p <= 32 → CreateMask uint32_t p = if p <? 2 then None else Some (2 ^ (32 - p) - 1).
Proof.
  intros Hp. unfold CreateMask. change (bits uint32_t) with 32.
  rewrite (wrapu_small 64) by lia. destruct (p <? 2) eqn:E; [by rewrite (proj2 (Z.ltb_ge _ _)) by lia|].
  rewrite (proj2 (Z.ltb_lt _ _)) by lia. rewrite Z.shiftl_1_l, cast_id; [done|].
  change (0 <= 2 ^ (32 - p) - 1 < 2 ^ 32). pose proof (Z.pow_pos_nonneg 2 (32 - p)).
  assert (2 ^ (32 - p) <= 2 ^ 32) by (apply Z.pow_le_mono_r; lia). lia.
Qed.

Lemma CreateMask_beyond p : 32 < p < 2 ^ 32 → CreateMask uint32_t p = None.
Proof.
  intros Hp. unfold CreateMask. change (bits uint32_t) with 32.
  assert (u64 (32 - p) = 2 ^ 64 + 32 - p) as ->.
  { unfold wrapu. rewrite <- (Z.mod_small (2 ^ 64 + 32 - p) (2 ^ 64)) by lia.
    replace (2 ^ 64 + 32 - p) with (32 - p + 1 * 2 ^ 64) by lia. by rewrite Z.mod_add by lia. }
  by rewrite (proj2 (Z.ltb_ge _ _)) by lia.
Qed.

Lemma mask_in p : 2 <= p <= 32 → in_type uint32_t (2 ^ (32 - p) - 1).
Proof.
  intros Hp. change (0 <= 2 ^ (32 - p) - 1 < 2 ^ 32). pose proof (Z.pow_pos_nonneg 2 (32 - p)).
  assert (2 ^ (32 - p) <= 2 ^ 32) by (apply Z.pow_le_mono_r; lia). lia.
Qed.
End prefix.

(** C29: for prefix lengths 2 to 32, on a host of either byte order, broadcastAddress sets
    exactly the host bits of an IPv4 address and keeps the port and the family, and
    subnetMask is the mask of the network bits, of which CountBytes gives the prefix length
    back. *)
Theorem ipv4_prefix_arithmetic host a p :
  in_type uint32_t (s_addr a) → 2 <= p <= 32 →
  let addr m := byteswapOnLittleEndian host uint32_t (s_addr m) in
  ∃ b m,
    broadcastAddress4 host a p = Some (Some b) ∧ addr b = Z.lor (addr a) (2 ^ (32 - p) - 1) ∧
    sin_port b = sin_port a ∧ sin_family b = sin_family a ∧
    subnetMask4 host p = Some m ∧ addr m = 2 ^ 32 - 2 ^ (32 - p) ∧
    CountBytes uint32_t (s_addr m) = Some p.
Proof.
  intros Ha Hp addr. pose proof (mask_in p Hp) as Hm.
  pose proof (ntoh32_in host _ Hm) as Hm'.
  unfold broadcastAddress4, subnetMask4. rewrite CreateMask_32 by lia.
  rewrite (proj2 (Z.ltb_ge 32 p)) by lia. rewrite (proj2 (Z.ltb_ge p 2)) by lia. cbn [mbind option_bind].
  eexists _, _. split; [reflexivity|]. split.
  { unfold addr. cbn [s_addr set_s_addr]. rewrite ntoh32_lor by done. by rewrite ntoh32_twice by done. }
  split; [reflexivity|]. split; [reflexivity|]. split; [reflexivity|]. unfold addr. cbn [s_addr].
  assert (∃ n, (n < 31)%nat ∧ p = 2 + Z.of_nat n) as (n & Hn & ->) by (exists (Z.to_nat (p - 2)); lia).
  destruct host; do 31 (destruct n as [|n]; [vm_compute; split; reflexivity|]); lia.
Qed.

Lemma ipv4_undefined_prefixes host a p :
  (0 <= p <= 1 → broadcastAddress4 host a p = None ∧ networdAddress4 host a p = None ∧ subnetMask4 host p = None) ∧
  (32 < p < 2 ^ 32 →
     broadcastAddress4 host a p = Some None ∧ networdAddress4 host a p = Some None ∧ subnetMask4 host p = None).
Proof.
  unfold broadcastAddress4, networdAddress4, subnetMask4. split; intros Hp.
  - rewrite CreateMask_32 by lia. rewrite (proj2 (Z.ltb_lt p 2)) by lia. by rewrite (proj2 (Z.ltb_ge 32 p)) by lia.
  - rewrite CreateMask_beyond by done. by rewrite (proj2 (Z.ltb_lt 32 p)) by lia.
Qed.

(** Bit [j] of an address in network order, the first being 0. *)
Definition bit6 (l : list byte) (j : Z) : bool :=
  match l !! Z.to_nat (j / 8) with
  | Some b => Z.testbit (byte.unsigned b) (7 - j mod 8)
  | None => false
  end.

(** The mask of the byte a prefix ends in. *)
Lemma CreateMask_8 r : 0 <= r < 8 → CreateMask uint8_t r = Some (Z.ones (8 - r)).
Proof.
  intros Hr. assert (∃ n, (n < 8)%nat ∧ r = Z.of_nat n) as (n & Hn & ->) by (exists (Z.to_nat r); lia).
  do 8 (destruct n as [|n]; [reflexivity|]). lia.
Qed.

Lemma byte_bit z i : 0 <= i < 8 → Z.testbit (byte.unsigned (byte.of_Z z)) i = Z.testbit z i.
Proof. intros Hi. rewrite byte.unsigned_of_Z. apply Z.mod_pow2_bits_low. lia. Qed.

Lemma ones_bit n i : 0 <= n → 0 <= i → Z.testbit (Z.ones n) i = (i <? n).
Proof.
  intros Hn Hi. destruct (i <? n) eqn:E; [apply Z.ones_spec_low; lia|apply Z.ones_spec_high; lia].
Qed.

(** An address changed in byte [k], with the bytes after it set to [v]. *)
Lemma bit6_fill l k b v j :
  length l = 16%nat → (k < 16)%nat → 0 <= j < 128 →
  bit6 (fill_from (S k) v (<[k := byte.of_Z b]> l)) j =
    if Nat.ltb (Z.to_nat (j / 8)) k then bit6 l j
    else if Nat.eqb (Z.to_nat (j / 8)) k then Z.testbit b (7 - j mod 8)
    else Z.testbit v (7 - j mod 8).
Proof.
  intros Hl Hk Hj. pose proof (Z.mod_pos_bound j 8 ltac:(lia)). pose proof (Z.div_mod j 8 ltac:(lia)).
  unfold bit6, fill_from. rewrite length_insert, Hl. set (q := Z.to_nat (j / 8)).
  assert ((q < 16)%nat) by lia. destruct (Nat.ltb_spec q k) as [Hq|Hq].
  { rewrite lookup_app_l by (rewrite length_take, length_insert; lia).
    rewrite lookup_take_lt by lia. by rewrite list_lookup_insert_ne by lia. }
  destruct (Nat.eqb_spec q k) as [->|Hne].
  - rewrite lookup_app_l by (rewrite length_take, length_insert; lia).
    rewrite lookup_take_lt by lia. rewrite list_lookup_insert_eq by lia. apply byte_bit. lia.
  - rewrite lookup_app_r by (rewrite length_take, length_insert; lia).
    rewrite length_take, length_insert, Hl, lookup_replicate_2 by lia. apply byte_bit. lia.
Qed.

(** Where bit [j] lies relative to the byte a prefix of [p] bits ends in. *)
Lemma prefix_cases p j :
  0 <= p < 128 → 0 <= j < 128 →
  let k := Z.to_nat (p / 8) in let q := Z.to_nat (j / 8) in
  ((q < k)%nat → j < p) ∧ ((k < q)%nat → p < j) ∧
  (q = k → (7 - j mod 8 <? 8 - p mod 8) = (p <=? j)) ∧ (k < 16)%nat.
Proof.
  intros Hp Hj k q. pose proof (Z.mod_pos_bound j 8 ltac:(lia)). pose proof (Z.div_mod j 8 ltac:(lia)).
  pose proof (Z.mod_pos_bound p 8 ltac:(lia)). pose proof (Z.div_mod p 8 ltac:(lia)).
  split_and!; lia.
Qed.

(** The mask of a prefix of [p] bits. *)
Lemma bit6_mask p j :
  0 <= p < 128 → 0 <= j < 128 → let k := Z.to_nat (p / 8) in
  bit6 (replicate k (byte.of_Z 255) ++ drop k (<[k:=byte.of_Z (Z.lnot (Z.ones (8 - p mod 8)))]> (zeros 16))) j
  = (j <? p).
Proof.
  intros Hp Hj k. destruct (prefix_cases p j Hp Hj) as (C1 & C2 & C3 & C4). fold k in C1, C2, C3, C4.
  pose proof (Z.mod_pos_bound j 8 ltac:(lia)). pose proof (Z.mod_pos_bound p 8 ltac:(lia)).
  pose proof (Z.div_mod j 8 ltac:(lia)).
  unfold bit6. set (q := Z.to_nat (j / 8)) in *. destruct (decide (q < k)%nat) as [Hq|Hq].
  - rewrite lookup_app_l by (rewrite length_replicate; lia). rewrite lookup_replicate_2 by done.
    rewrite byte_bit by lia. change 255 with (Z.ones 8). rewrite ones_bit by lia. lia.
  - rewrite lookup_app_r by (rewrite length_replicate; lia). rewrite length_replicate, lookup_drop.
    replace (k + (q - k))%nat with q by lia. destruct (decide (q = k)) as [->|Hne].
    + rewrite list_lookup_insert_eq by (unfold zeros; rewrite length_replicate; lia).
      rewrite byte_bit, Z.lnot_spec, ones_bit by lia. rewrite C3 by done. lia.
    + rewrite list_lookup_insert_ne by lia. unfold zeros. rewrite lookup_replicate_2 by lia.
      rewrite byte_bit by lia. rewrite Z.bits_0. lia.
Qed.

(** For prefix lengths below 128, bit by bit, broadcastAddress sets the host bits of an
    IPv6 address, subnetMask has ones in the first prefix_len bits only, and networdAddress
    keeps whole bytes of the network part, clears the rest of it in the byte the prefix ends
    in, keeps the host bits of that byte and clears the bytes after it. *)
Theorem ipv6_prefix_arithmetic a p :
  length (s6_addr a) = 16%nat → 0 <= p < 128 →
  ∃ b n m,
    broadcastAddress6 a p = Some b ∧ networdAddress6 a p = Some n ∧ subnetMask6 p = Some m ∧
    ∀ j, 0 <= j < 128 →
      bit6 (s6_addr b) j = (bit6 (s6_addr a) j || (p <=? j)) ∧
      bit6 (s6_addr m) j = (j <? p) ∧
      bit6 (s6_addr n) j =
        (if j / 8 <? p / 8 then bit6 (s6_addr a) j
         else (j / 8 =? p / 8) && bit6 (s6_addr a) j && (p <=? j)).
Proof.
  intros Hl Hp. pose proof (Z.mod_pos_bound p 8 ltac:(lia)) as Hr.
  pose proof (Z.div_mod p 8 ltac:(lia)) as Hd. unfold broadcastAddress6, networdAddress6, subnetMask6.
  set (k := Z.to_nat (p / 8)). destruct (lookup_lt_is_Some_2 (s6_addr a) k) as [x Hx]; [lia|].
  rewrite Hx, CreateMask_8 by done. cbn [mbind option_bind].
  destruct (lookup_lt_is_Some_2 (zeros 16) k) as [z Hz]; [unfold zeros; rewrite length_replicate; lia|].
  rewrite Hz. cbn [mbind option_bind]. eexists _, _, _. split_and!; [reflexivity..|]. intros j Hj.
  destruct (prefix_cases p j Hp Hj) as (C1 & C2 & C3 & C4). fold k in C1, C2, C3, C4.
  pose proof (Z.mod_pos_bound j 8 ltac:(lia)) as Hrj. pose proof (Z.div_mod j 8 ltac:(lia)) as Hdj.
  cbn [s6_addr set_s6_addr]. rewrite !bit6_fill by done.
  pose proof (bit6_mask p j Hp Hj) as Hmask. cbv zeta in Hmask. fold k in Hmask. rewrite Hmask. clear Hmask. set (q := Z.to_nat (j / 8)) in *.
  assert (bit6 (s6_addr a) j = match s6_addr a !! q with Some b => Z.testbit (byte.unsigned b) (7 - j mod 8) | None => false end)
    as Hb by done.
  destruct (Nat.ltb_spec q k) as [Hq|Hq].
  { split_and!; [|done|]; [|by rewrite (proj2 (Z.ltb_lt (j / 8) (p / 8))) by lia].
    rewrite (proj2 (Z.leb_gt p j)) by lia. by rewrite orb_false_r. }
  rewrite (proj2 (Z.ltb_ge (j / 8) (p / 8))) by lia. destruct (Nat.eqb_spec q k) as [E|Hne].
  - rewrite Hb, E, Hx, Z.lor_spec, Z.land_spec, ones_bit, C3 by (done || lia).
    rewrite (proj2 (Z.eqb_eq (j / 8) (p / 8))) by lia. done.
  - change 255 with (Z.ones 8). rewrite ones_bit, Z.bits_0 by lia.
    rewrite (proj2 (Z.eqb_neq (j / 8) (p / 8))) by lia. split_and!; [|done|done].
    rewrite (proj2 (Z.leb_le p j)) by lia. rewrite orb_true_r. lia.
Qed.

(** ** Comparison *)

(** The bytes an address compares by. *)
Definition key (host : endian) (a : Address) : list Z :=
  byte.unsigned <$> take (Z.to_nat (getAddrLen a)) (getAddr host a).

(** The length does not reach past the structure. *)
Definition addr_ok (host : endian) (a : Address) : Prop :=
  0 <= getAddrLen a ∧ (Z.to_nat (getAddrLen a) <= length (getAddr host a))%nat.

(** [memcmp] over the shorter length and then the lengths is that order. *)
Lemma memcmp_lex n1 : ∀ n2 l1 l2,
  (n1 <= length l1)%nat → (n2 <= length l2)%nat →
  let r := memcmp (n1 `min` n2) l1 l2 in
  lex_cmp (byte.unsigned <$> take n1 l1) (byte.unsigned <$> take n2 l2) =
    if r <? 0 then Lt else if 0 <? r then Gt else Nat.compare n1 n2.
Proof.
  induction n1 as [|n1 IH]; intros [|n2] [|b1 l1] [|b2 l2] H1 H2; simpl in *; try lia; try done.
  destruct (Z.ltb_spec (byte.unsigned b1) (byte.unsigned b2)) as [Hlt|Hge].
  { by rewrite (proj2 (Z.compare_lt_iff _ _)). }
  destruct (Z.ltb_spec (byte.unsigned b2) (byte.unsigned b1)) as [Hlt|Hge'].
  { by rewrite (proj2 (Z.compare_gt_iff _ _)). }
  rewrite (proj2 (Z.compare_eq_iff _ _)) by lia. apply IH; lia.
Qed.

Section order.
Context (host : endian).

Lemma op_lt_key a b : addr_ok host a → addr_ok host b →
  op_lt host a b = match lex_cmp (key host a) (key host b) with Lt => true | _ => false end.
Proof.
  intros [Ha1 Ha2] [Hb1 Hb2]. unfold op_lt, key. rewrite memcmp_lex by done. rewrite Z2Nat.inj_min.
  destruct (_ <? 0); [done|]. destruct (0 <? _); [done|].
  destruct (Nat.compare_spec (Z.to_nat (getAddrLen a)) (Z.to_nat (getAddrLen b))); lia.
Qed.

Lemma op_eq_key a b : addr_ok host a → addr_ok host b → op_eq host a b = true ↔ key host a = key host b.
Proof.
  intros [Ha1 Ha2] [Hb1 Hb2]. rewrite <- lex_cmp_eq. unfold op_eq, key. rewrite memcmp_lex by done.
  destruct (Z.eqb_spec (getAddrLen a) (getAddrLen b)) as [E|Hne].
  - rewrite <- E in Hb2 |- *. rewrite Nat.min_id, Nat.compare_refl. simpl.
    destruct (Z.ltb_spec (memcmp (Z.to_nat (getAddrLen a)) (getAddr host a) (getAddr host b)) 0),
      (Z.ltb_spec 0 (memcmp (Z.to_nat (getAddrLen a)) (getAddr host a) (getAddr host b))); split; (done || lia).
  - simpl. split; [done|]. destruct (_ <? 0); [done|]. destruct (0 <? _); [done|]. rewrite Nat.compare_eq_iff. lia.
Qed.

(** C30: operator< of addresses of any classes whose length stays in their structure is
    transitive and total, exactly one of a < b, a == b and b < a holds, and equal addresses
    compare alike with every other. *)
Theorem address_total_order a b c :
  addr_ok host a → addr_ok host b → addr_ok host c →
  (op_lt host a b = true → op_lt host b c = true → op_lt host a c = true) ∧
  (op_lt host a b = negb (op_eq host a b) && negb (op_lt host b a)) ∧
  (op_eq host a b = true → op_lt host a b = false ∧ op_lt host a c = op_lt host b c ∧ op_lt host c a = op_lt host c b).
Proof.
  intros Ha Hb Hc. rewrite !op_lt_key by done. split_and!.
  - destruct (lex_cmp (key host a) _) eqn:E1; try done. destruct (lex_cmp (key host b) (key host c)) eqn:E2; try done.
    by rewrite (lex_cmp_trans _ _ _ E1 E2).
  - rewrite (lex_cmp_antisym (key host a)). destruct (op_eq host a b) eqn:E.
    + apply op_eq_key in E; [|done..]. by rewrite (proj2 (lex_cmp_eq _ _) E).
    + destruct (lex_cmp _ _) eqn:E1; try done. apply lex_cmp_eq, op_eq_key in E1; [|done..]. congruence.
  - intros E. apply op_eq_key in E; [|done..]. rewrite E. by rewrite (proj2 (lex_cmp_eq _ _) eq_refl).
Qed.
End order.

(** ** The text of an IPv6 address

    A reader of the notation: groups of hexadecimal digits separated by
    colons, with at most one [::] that stands for the missing zeros. *)

Inductive token := Colon | Group (g : Z).

Definition hex_value (c : Ascii.ascii) : option Z :=
  let n := Z.of_N (Ascii.N_of_ascii c) in
  if (48 <=? n) && (n <=? 57) then Some (n - 48)
  else if (97 <=? n) && (n <=? 102) then Some (n - 87)
  else None.

Definition flush (cur : option Z) : list token := match cur with Some g => [Group g] | None => [] end.

Fixpoint tokens (l : text) (cur : option Z) : option (list token) :=
  match l with
  | [] => Some (flush cur)
  | c :: l' =>
      if Ascii.eqb c colon then ts ← tokens l' None; Some (flush cur ++ Colon :: ts)
      else d ← hex_value c; tokens l' (Some (default 0 cur * 16 + d))
  end.

(** The groups of a part without [::]. *)
Fixpoint unjoin (ts : list token) : option (list Z) :=
  match ts with
  | [] => Some []
  | [Group g] => Some [g]
  | Group g :: Colon :: ((_ :: _) as ts') => gs ← unjoin ts'; Some (g :: gs)
  | _ => None
  end.

(** The parts before and after the first [::]. *)
Fixpoint split_gap (ts : list token) : option (list token * list token) :=
  match ts with
  | Colon :: Colon :: ts' => Some ([], ts')
  | t :: ts' => p ← split_gap ts'; Some (t :: p.1, p.2)
  | [] => None
  end.

Definition read6 (l : text) : option (list Z) :=
  ts ← tokens l None;
  match split_gap ts with
  | Some (ts1, ts2) =>
      gs1 ← unjoin ts1; gs2 ← unjoin ts2;
      let n := (length gs1 + length gs2)%nat in
      if Nat.ltb n 8 then Some (gs1 ++ replicate (8 - n) 0 ++ gs2) else None
  | None => gs ← unjoin ts; if Nat.eqb (length gs) 8 then Some gs else None
  end.

(** *** What [insert6_loop] writes *)

Section ipv6_text.
Context (host : endian).
Abbreviation ntoh16 := (byteswapOnLittleEndian host uint16_t).

Fixpoint tail_text (gs : list Z) : text :=
  match gs with [] => [] | g :: gs' => colon :: hex (ntoh16 g) ++ tail_text gs' end.
Definition join_text (gs : list Z) : text :=
  match gs with [] => [] | g :: gs' => hex (ntoh16 g) ++ tail_text gs' end.

Lemma loop_used i prev gs : (0 < i)%nat → insert6_loop host i prev gs true = (tail_text gs, true).
Proof.
  revert i prev. induction gs as [|g gs IH]; intros i prev Hi; [done|]. simpl.
  destruct i as [|i]; [lia|]. rewrite !andb_false_r. cbn [orb Nat.eqb]. rewrite IH by lia. done.
Qed.

Lemma loop_zeros i gs k :
  match gs with g :: _ => g ≠ 0 | [] => True end →
  (0 < k)%nat →
  ∀ prev, insert6_loop host i prev (replicate k 0 ++ gs) false =
    match gs with [] => ([], false) | _ => (txt "::" ++ join_text gs, true) end.
Proof.
  intros Hgs. revert i. induction k as [|k IH]; intros i Hk prev; [lia|]. simpl.
  destruct k as [|k]; [|apply IH; lia]. simpl. destruct gs as [|g gs]; [done|]. simpl.
  rewrite (proj2 (Z.eqb_neq g 0)) by done. simpl. by rewrite loop_used by lia.
Qed.

(** The groups before the first zero. *)
Lemma loop_front A rest : ∀ i prev,
  Forall (λ g, g ≠ 0) A → (0 < i)%nat → prev ≠ 0 →
  insert6_loop host i prev (A ++ rest) false =
    let r := insert6_loop host (i + length A) (default prev (list.last A)) rest false in
    (tail_text A ++ r.1, r.2).
Proof.
  induction A as [|g A IH]; intros i prev HA Hi Hp; simpl.
  { rewrite Nat.add_0_r. by destruct (insert6_loop host i prev rest false). }
  apply list.Forall_cons in HA as [Hg HA].
  rewrite (proj2 (Z.eqb_neq g 0)), (proj2 (Z.eqb_neq prev 0)) by done.
  destruct i as [|i]; [lia|]. rewrite andb_false_r. cbn [orb andb Nat.eqb].
  rewrite (IH (S (S i)) g) by (done || lia). cbv zeta. cbn [fst snd].
  replace (S (S i) + length A)%nat with (S i + S (length A))%nat by lia.
  assert (default prev (list.last (g :: A)) = default g (list.last A))
    as -> by (rewrite list.last_cons; by destruct (list.last A)).
  simpl. by rewrite <- app_assoc.
Qed.
(** The groups split at the first run of zeros. *)
Lemma zero_run gs : ∃ A k B,
  gs = A ++ replicate k 0 ++ B ∧ Forall (λ g, g ≠ 0) A ∧
  match B with g :: _ => g ≠ 0 | [] => True end ∧ (k = 0%nat → B = []).
Proof.
  induction gs as [|g gs (A & k & B & -> & HA & HB & Hk)]; [by exists [], 0%nat, []|].
  destruct (decide (g = 0)) as [->|Hg].
  - destruct A as [|a A]; [exists [], (S k), B; done|]. apply list.Forall_cons in HA as [Ha HA].
    exists [], 1%nat, (a :: A ++ replicate k 0 ++ B). done.
  - exists (g :: A), k, B. split_and!; [done| |done|done]. by constructor.
Qed.

(** The text between the brackets. *)
Definition body6 (gs : list Z) : text :=
  let r := insert6_loop host 0 0 gs false in
  r.1 ++ (if negb r.2 && (default 1 (gs !! 7%nat) =? 0) then txt "::" else []).

Lemma body6_spec A k B :
  length (A ++ replicate k 0 ++ B) = 8%nat → Forall (λ g, g ≠ 0) A →
  match B with g :: _ => g ≠ 0 | [] => True end → (k = 0%nat → B = []) →
  body6 (A ++ replicate k 0 ++ B) =
    if Nat.eqb k 0 then join_text A else join_text A ++ txt "::" ++ join_text B.
Proof.
  intros Hlen HA HB Hk. unfold body6.
  assert (k = 0%nat → default 1 ((A ++ replicate k 0 ++ B) !! 7%nat) ≠ 0) as Hlast0.
  { intros ->. rewrite (Hk eq_refl). simpl. rewrite app_nil_r.
    destruct (A !! 7%nat) eqn:E; [|done]. exact (proj1 (list.Forall_forall _ _) HA _ (list_elem_of_lookup_2 _ _ _ E)). }
  assert ((0 < k)%nat → B = [] → default 1 ((A ++ replicate k 0 ++ B) !! 7%nat) = 0) as Hlast1.
  { intros Hk0 ->. rewrite app_nil_r in *. rewrite length_app, length_replicate in Hlen.
    by rewrite lookup_app_r, lookup_replicate_2 by lia. }
  cbv zeta. generalize dependent (default 1 ((A ++ replicate k 0 ++ B) !! 7%nat)). intros d Hlast0 Hlast1.
  assert (∀ i prev, insert6_loop host i prev (replicate k 0 ++ B) false =
    if Nat.eqb k 0 then ([], false)
    else match B with [] => ([], false) | _ => (txt "::" ++ join_text B, true) end) as Hz.
  { intros i prev. destruct k as [|k]; [by rewrite Hk|]. by apply loop_zeros; [|lia]. }
  destruct A as [|g A].
  - simpl app in *. rewrite Hz. destruct k as [|k].
    + rewrite Hk in Hlen by done. done.
    + simpl Nat.eqb. destruct B; [|simpl; by rewrite app_nil_r].
      cbn [fst snd negb andb]. by rewrite Hlast1 by (done || lia).
  - apply list.Forall_cons in HA as [Hg HA]. simpl app in *. simpl insert6_loop. rewrite (proj2 (Z.eqb_neq g 0)) by done.
    cbn [andb orb negb Nat.eqb]. rewrite loop_front by (done || lia). cbv zeta. rewrite Hz.
    destruct k as [|k]; cbn [Nat.eqb fst snd negb andb].
    + rewrite (proj2 (Z.eqb_neq d 0) (Hlast0 eq_refl)). by rewrite !app_nil_r.
    + destruct B as [|b B]; cbn [fst snd negb andb].
      * rewrite Hlast1 by (done || lia). simpl. by rewrite !app_nil_r, <- app_assoc.
      * simpl. by rewrite app_nil_r, <- !app_assoc.
Qed.
(** *** Reading it back *)

(** A group ends where the text goes on. *)
Definition ends_group (l : text) : Prop :=
  ∀ g, tokens l (Some g) = (ts ← tokens l None; Some (Group g :: ts)).

Lemma ends_nil : ends_group [].
Proof. done. Qed.

Lemma ends_colon l : ends_group (colon :: l).
Proof. intros g. simpl. by destruct (tokens l None). Qed.

Definition digits_value (l : text) : option Z :=
  foldl (λ acc c, a ← acc; d ← hex_value c; Some (a * 16 + d)) (Some 0) l.

Lemma tokens_digits l rest : ∀ cur v,
  Forall (λ c, Ascii.eqb c colon = false) l → l ≠ [] →
  foldl (λ acc c, a ← acc; d ← hex_value c; Some (a * 16 + d)) (Some (default 0 cur)) l = Some v →
  tokens (l ++ rest) cur = tokens rest (Some v).
Proof.
  induction l as [|c l IH]; intros cur v Hl Hne; [done|]. apply list.Forall_cons in Hl as [Hc Hl].
  simpl. rewrite Hc. destruct (hex_value c) as [d|]; cbn [mbind option_bind].
  2: { clear. induction l; simpl; [done|]. exact IHl. }
  destruct l as [|c' l]; [by intros [= <-]|]. intros Hv. by apply (IH (Some _)).
Qed.

Lemma hex_digit_spec d : 0 <= d < 16 →
  hex_value (hex_digit d) = Some d ∧ Ascii.eqb (hex_digit d) colon = false.
Proof.
  intros Hd. assert (∃ n, (n < 16)%nat ∧ d = Z.of_nat n) as (n & Hn & ->) by (exists (Z.to_nat d); lia).
  do 16 (destruct n as [|n]; [split; reflexivity|]). lia.
Qed.

(** The digits written are those of the number. *)
Lemma hex_go_spec fuel : ∀ z acc, 0 <= z < 16 ^ (Z.of_nat fuel + 1) →
  ∃ ds, hex_go fuel z acc = ds ++ acc ∧ ds ≠ [] ∧ digits_value ds = Some z ∧
    Forall (λ c, Ascii.eqb c colon = false) ds.
Proof.
  induction fuel as [|fuel IH]; intros z acc Hz; pose proof (Z.mod_pos_bound z 16 ltac:(lia)) as Hm;
    pose proof (Z.div_mod z 16 ltac:(lia)) as Hd; destruct (hex_digit_spec (z mod 16) Hm) as [E1 E2]; simpl.
  - exists [hex_digit (z mod 16)]. split_and!; [done|done| |by constructor].
    unfold digits_value. simpl. rewrite E1. simpl. f_equal. change (16 ^ (Z.of_nat 0 + 1)) with 16 in Hz.
    rewrite Z.mod_small; lia.
  - destruct (z / 16 =? 0) eqn:Ez.
    + exists [hex_digit (z mod 16)]. split_and!; [done|done| |by constructor].
      unfold digits_value. simpl. rewrite E1. simpl. f_equal. lia.
    + destruct (IH (z / 16) (hex_digit (z mod 16) :: acc)) as (ds & -> & Hne & Hv & Hf).
      { replace (Z.of_nat (S fuel) + 1) with (Z.succ (Z.of_nat fuel + 1)) in Hz by lia.
        rewrite Z.pow_succ_r in Hz by lia. lia. }
      exists (ds ++ [hex_digit (z mod 16)]). split_and!; [by rewrite <- app_assoc|by destruct ds| |].
      * unfold digits_value in *. rewrite foldl_app, Hv. simpl. rewrite E1. simpl. f_equal. lia.
      * apply Forall_app. split; [done|by constructor].
Qed.

Lemma tokens_hex g rest : 0 <= g < 65536 → ends_group rest →
  tokens (hex g ++ rest) None = (ts ← tokens rest None; Some (Group g :: ts)).
Proof.
  intros Hg Hr. destruct (hex_go_spec 7 g []) as (ds & E & Hne & Hv & Hf); [lia|].
  unfold hex. rewrite E, app_nil_r. rewrite (tokens_digits ds rest None g); [apply Hr|done..].
Qed.

Fixpoint tail_tok (gs : list Z) : list token :=
  match gs with [] => [] | g :: gs' => Colon :: Group (ntoh16 g) :: tail_tok gs' end.
Definition join_tok (gs : list Z) : list token :=
  match gs with [] => [] | g :: gs' => Group (ntoh16 g) :: tail_tok gs' end.

Abbreviation group_ok := (λ g : Z, 0 <= ntoh16 g < 65536).

Lemma tail_ends gs rest : ends_group rest → ends_group (tail_text gs ++ rest).
Proof. destruct gs; [done|]. intros _. apply ends_colon. Qed.

Lemma tokens_tail gs rest : Forall group_ok gs → ends_group rest →
  tokens (tail_text gs ++ rest) None = (ts ← tokens rest None; Some (tail_tok gs ++ ts)).
Proof.
  intros Hgs Hr. induction gs as [|g gs IH]; [simpl; by destruct (tokens rest None)|].
  apply list.Forall_cons in Hgs as [Hg Hgs]. simpl.
  rewrite <- app_assoc, tokens_hex by (done || by apply tail_ends). rewrite IH by done.
  by destruct (tokens rest None).
Qed.

Lemma tokens_join gs rest : Forall group_ok gs → ends_group rest →
  tokens (join_text gs ++ rest) None = (ts ← tokens rest None; Some (join_tok gs ++ ts)).
Proof.
  intros Hgs Hr. destruct gs as [|g gs]; [simpl; by destruct (tokens rest None)|].
  apply list.Forall_cons in Hgs as [Hg Hgs]. simpl.
  rewrite <- app_assoc, tokens_hex by (done || by apply tail_ends). rewrite tokens_tail by done.
  by destruct (tokens rest None).
Qed.

Lemma unjoin_join gs : unjoin (join_tok gs) = Some (ntoh16 <$> gs).
Proof.
  destruct gs as [|g gs]; [done|]. simpl. revert g.
  induction gs as [|g' gs IH]; intros g; [done|]. cbn. cbn in IH. by rewrite IH.
Qed.

Lemma split_tail gs r : split_gap (tail_tok gs ++ Colon :: Colon :: r) = Some (tail_tok gs, r).
Proof. induction gs as [|g gs IH]; [done|]. cbn. cbn in IH. by rewrite IH. Qed.

Lemma split_join gs r : split_gap (join_tok gs ++ Colon :: Colon :: r) = Some (join_tok gs, r).
Proof. destruct gs as [|g gs]; [done|]. cbn. by rewrite split_tail. Qed.

Lemma split_none gs : split_gap (join_tok gs) = None.
Proof.
  destruct gs as [|g gs]; [done|]. cbn. assert (split_gap (tail_tok gs) = None) as ->; [|done].
  induction gs as [|g' gs IH]; [done|]. cbn. cbn in IH. by rewrite IH.
Qed.

Lemma read6_body gs : length gs = 8%nat → Forall group_ok gs → ntoh16 0 = 0 →
  read6 (body6 gs) = Some (ntoh16 <$> gs).
Proof.
  intros Hlen Hok H0. destruct (zero_run gs) as (A & k & B & -> & HA & HB & Hk).
  rewrite (body6_spec A k B) by done. apply Forall_app in Hok as [HokA Hok].
  apply Forall_app in Hok as [_ HokB]. unfold read6. destruct k as [|k]; cbn [Nat.eqb].
  - rewrite (Hk eq_refl) in *. simpl in Hlen |- *. rewrite app_nil_r in *.
    rewrite <- (app_nil_r (join_text A)), tokens_join by (done || apply ends_nil).
    cbn. rewrite app_nil_r, split_none, unjoin_join. cbn. by rewrite length_fmap, Hlen.
  - rewrite tokens_join by (done || apply ends_colon).
    assert (tokens (txt "::" ++ join_text B) None = Some (Colon :: Colon :: join_tok B)) as ->.
    { simpl. rewrite <- (app_nil_r (join_text B)), tokens_join by (done || apply ends_nil).
      cbn. by rewrite app_nil_r. }
    cbn [mbind option_bind]. rewrite split_join, !unjoin_join. cbn [mbind option_bind].
    rewrite !length_app, length_replicate in Hlen. rewrite !length_fmap.
    rewrite (proj2 (Nat.ltb_lt _ _)) by lia. f_equal. rewrite !fmap_app, fmap_replicate, H0. do 3 f_equal. lia.
Qed.
End ipv6_text.

Lemma ntoh16_mem host bs : length bs = 2%nat →
  byteswapOnLittleEndian host uint16_t (of_mem host uint16_t bs) = of_mem PENG_BIG_ENDIAN uint16_t bs.
Proof.
  intros H. rewrite <- (of_mem_order host PENG_BIG_ENDIAN uint16_t bs) by done.
  destruct host; by case_decide.
Qed.

Lemma groups16_ntoh host l :
  byteswapOnLittleEndian host uint16_t <$> groups16 host l = groups16 PENG_BIG_ENDIAN l.
Proof.
  induction l as [l IH] using (induction_ltof1 _ (@length byte)). unfold ltof in IH.
  destruct l as [|b1 [|b2 l]]; [done..|]. cbn [groups16 fmap list_fmap].
  rewrite ntoh16_mem by done. f_equal. apply IH. simpl. lia.
Qed.

Lemma groups16_length host l : length l = 16%nat → length (groups16 host l) = 8%nat.
Proof. intros H. do 16 (destruct l as [|? l]; [done|]). by destruct l. Qed.

Lemma groups16_range host l : Forall (λ g, 0 <= g < 65536) (groups16 host l).
Proof.
  induction l as [l IH] using (induction_ltof1 _ (@length byte)). unfold ltof in IH.
  destruct l as [|b1 [|b2 l]]; [by constructor..|]. constructor; [exact (cast_in_type uint16_t _)|].
  apply IH. simpl. lia.
Qed.

(** C31: the text IPv6Address::insert writes, on a host of either byte order, is
    [groups]:port, and reading the groups with the :: notation gives back the eight groups
    of the address. *)
Theorem ipv6_text_roundtrip host m :
  length (s6_addr m) = 16%nat →
  ∃ body, insert6 host m = txt "[" ++ body ++ txt "]:" ++ dec (getPort6 host m) ∧
    read6 body = Some (groups16 PENG_BIG_ENDIAN (s6_addr m)).
Proof.
  intros Hl. exists (body6 host (groups16 host (s6_addr m))). split.
  { unfold insert6, body6. by rewrite <- !app_assoc. }
  rewrite read6_body; [by rewrite groups16_ntoh|by apply groups16_length| |by destruct host].
  pose proof (groups16_range PENG_BIG_ENDIAN (s6_addr m)) as H. rewrite <- (groups16_ntoh host) in H.
  by apply Forall_fmap in H.
Qed.

(** ** Unix paths *)

Lemma c_string_app l rest : Forall (λ b, byte.unsigned b ≠ 0) l → c_string (l ++ byte.of_Z 0 :: rest) = l.
Proof.
  induction l as [|b l IH]; intros H; [done|]. apply list.Forall_cons in H as [Hb H]. simpl.
  rewrite (proj2 (Z.eqb_neq _ _) Hb). by rewrite IH.
Qed.

Definition is_abstract (path : list byte) : bool :=
  match path with b :: _ => byte.unsigned b =? 0 | [] => false end.

Lemma unix_splice path : (length path <= 107)%nat →
  splice (zeros 108) 0 (slice (path ++ zeros 1) 0 (zlen path + 1)) = path ++ zeros (108 - length path).
Proof.
  intros H. replace (zlen path + 1) with (zlen (path ++ zeros 1)) by (rewrite zlen_app; done).
  rewrite slice_all. unfold splice, zeros. change (Z.to_nat 0) with 0%nat.
  rewrite take_0, Nat.add_0_l, drop_replicate, app_nil_l, length_app, <- app_assoc. f_equal.
  rewrite length_replicate.
  replace (108 - length path)%nat with (S (108 - (length path + 1)))%nat by lia. done.
Qed.

(** A Unix address of a path without zero bytes throws when the path does not fit the
    structure and otherwise getPath returns the path; an abstract name may be one byte
    longer and is returned behind a backslash and 0. *)
Theorem unix_path_roundtrip path :
  path ≠ [] → Forall (λ b, byte.unsigned b ≠ 0) (if is_abstract path then tail path else path) →
  if (if is_abstract path then 108 else 107) <? zlen path
  then UnixAddress_of_path path tt = Throw (logic_error "path too long") tt
  else ∃ m len, UnixAddress_of_path path tt = Ok (UnixAddress m len) tt ∧ length (sun_path m) = 108%nat ∧
    getPath m len = if is_abstract path then txt "\0" ++ map byte_char (tail path) else map byte_char path.
Proof.
  intros Hne Hz. unfold UnixAddress_of_path. destruct path as [|b path]; [done|]. simpl is_abstract in *. simpl tail.
  destruct (byte.unsigned b =? 0) eqn:Eb.
  - replace (zlen (b :: path) + 1 - 1) with (zlen (b :: path)) by lia. destruct (108 <? zlen (b :: path)) eqn:El; [done|].
    eexists _, _. split; [reflexivity|].
    rewrite slice_app_l by (pose proof (zlen_nonneg (b :: path)); lia). rewrite slice_all.
    assert (splice (zeros 108) 0 (b :: path) = (b :: path) ++ zeros (108 - length (b :: path))) as ->.
    { unfold splice, zeros. change (Z.to_nat 0) with 0%nat. by rewrite take_0, drop_replicate. }
    assert (length path <= 107)%nat by (apply Z.ltb_ge in El; unfold zlen in El; rewrite length_cons in El; lia). split.
    { unfold sun_path. simpl. unfold zeros. rewrite length_app, length_replicate. lia. }
    unfold getPath, off_path. cbn [sun_path app]. rewrite Eb.
    rewrite (proj2 (Z.ltb_lt _ _)) by (rewrite zlen_cons; pose proof (zlen_nonneg path); lia). cbn [andb].
    replace (zlen (b :: path) + 2 - 2 - 1) with (zlen path) by (rewrite zlen_cons; lia).
    rewrite slice_app_l by (pose proof (zlen_nonneg path); lia). by rewrite slice_all.
  - destruct (107 <? zlen (b :: path)) eqn:El.
    { by rewrite (proj2 (Z.ltb_lt _ _)) by lia. }
    rewrite (proj2 (Z.ltb_ge _ _)) by lia. eexists _, _. split; [reflexivity|].
    assert (length path < 107)%nat by (apply Z.ltb_ge in El; unfold zlen in El; rewrite length_cons in El; lia).
    rewrite unix_splice by (simpl; lia). split.
    { unfold sun_path. unfold zeros. rewrite length_app, length_replicate. simpl. lia. }
    unfold getPath. cbn [sun_path app]. rewrite Eb, andb_false_r. f_equal.
    change (b :: path ++ ?x) with ((b :: path) ++ x).
    destruct (108 - length (b :: path))%nat as [|k] eqn:Ek; [simpl in Ek; lia|].
    by apply c_string_app.
Qed.

(** ** Host strings *)

Lemma memchr_none c l : c ∉ l → memchr c l = None.
Proof.
  induction l as [|x l IH]; intros H; [done|]. simpl. destruct (Ascii.eqb_spec x c) as [->|Hne]; [set_solver|].
  by rewrite IH by set_solver.
Qed.

Lemma memchr_app c l rest : c ∉ l → memchr c (l ++ c :: rest) = Some (length l).
Proof.
  induction l as [|x l IH]; intros H; simpl; [by rewrite Ascii.eqb_refl|].
  destruct (Ascii.eqb_spec x c) as [->|Hne]; [set_solver|]. by rewrite IH by set_solver.
Qed.

Definition starts_with (c : Ascii.ascii) (l : text) : bool :=
  match l with x :: _ => Ascii.eqb x c | [] => false end.

(** A string that does not open a bracket is split at its only colon. *)
Lemma host_parts_plain host : starts_with "["%char host = false →
  host_parts host =
    match memchr colon host with
    | Some i =>
        match memchr colon (drop (S i) host) with
        | None => (match take i host with [] => host | node => node end, Some (drop (S i) host))
        | Some _ => (host, Some (drop i host))
        end
    | None => (host, None)
    end.
Proof.
  intros H. unfold host_parts. assert (∀ X : text * option text,
    match host with c :: t => if Ascii.eqb c "["%char then X else ([], None) | [] => ([], None) end = ([], None)) as E.
  { intros X. destruct host as [|c host]; [done|]. simpl in H. by rewrite H. }
  destruct host as [|c host]; [done|]. simpl in H. rewrite H. cbn [fst snd].
  destruct (memchr colon (c :: host)) as [i|]; [|done]. by destruct (memchr colon (drop (S i) (c :: host))).
Qed.

Lemma host_parts_bracket v6 rest :
  v6 ≠ [] → "]"%char ∉ v6 →
  host_parts ("["%char :: v6 ++ "]"%char :: rest) =
    (v6, match rest with c :: t => if Ascii.eqb c colon then Some t else None | [] => None end).
Proof.
  intros Hne Hv. unfold host_parts. rewrite (Ascii.eqb_refl "["%char), memchr_app by done.
  rewrite take_app_length, drop_app_ge by lia.
  replace (S (length v6) - length v6)%nat with 1%nat by lia. cbn [fst snd drop].
  destruct v6 as [|c v6]; done.
Qed.

(** The forms a host is given in are split into node and service. *)
Theorem host_parts_spec name port v6 :
  name ≠ [] → colon ∉ name → starts_with "["%char name = false → colon ∉ port →
  v6 ≠ [] → "]"%char ∉ v6 →
  host_parts (name ++ colon :: port) = (name, Some port) ∧
  host_parts name = (name, None) ∧
  host_parts ("["%char :: v6 ++ "]"%char :: colon :: port) = (v6, Some port) ∧
  host_parts ("["%char :: v6 ++ ["]"%char]) = (v6, None).
Proof.
  intros Hn Hc Hs Hp Hv Hb. split_and!.
  - rewrite host_parts_plain by (destruct name; done). rewrite memchr_app by done.
    rewrite drop_app_ge by lia. replace (S (length name) - length name)%nat with 1%nat by lia.
    cbn [drop]. rewrite memchr_none, take_app_length by done. by destruct name.
  - rewrite host_parts_plain, memchr_none by done. done.
  - by rewrite host_parts_bracket by done.
  - by rewrite host_parts_bracket by done.
Qed.

(** An IPv6 address without brackets is passed with a service that starts at
    its first colon. *)
Example bare_ipv6_service : host_parts (txt "fe80::1") = (txt "fe80::1", Some (txt "::1")).
Proof. reflexivity. Qed.

(** ** Interfaces *)

(** Number of ones. *)
Fixpoint ones_pos (p : positive) : Z :=
  match p with xH => 1 | xO p' => ones_pos p' | xI p' => 1 + ones_pos p' end.
Definition ones_count (z : Z) : Z := match z with Zpos p => ones_pos p | _ => 0 end.

(** [value &= value - 1] clears one bit. *)
Lemma clear_lowest p :
  0 <= Z.land (Zpos p) (Zpos p - 1) ∧
  ones_count (Z.land (Zpos p) (Zpos p - 1)) + 1 = ones_pos p.
Proof.
  induction p as [p IH|p IH|]; [| |done].
  - replace (Zpos p~1 - 1) with (2 * Zpos p) by lia. change (Z.land (Zpos p~1) (2 * Zpos p)) with (Z.land (Zpos p~1) (Zpos p~0)).
    assert (Z.land (Zpos p~1) (Zpos p~0) = Zpos p~0) as ->.
    { apply Z.bits_inj'. intros i Hi. rewrite Z.land_spec. change (Zpos p~1) with (2 * Zpos p + 1).
      change (Zpos p~0) with (2 * Zpos p). destruct (decide (i = 0)) as [->|Hne].
      - by rewrite Z.testbit_even_0, andb_false_r.
      - replace i with (Z.succ (i - 1)) by lia. rewrite Z.testbit_odd_succ, Z.testbit_even_succ by lia. apply andb_diag. }
    split; [lia|]. cbn. lia.
  - destruct IH as [IH1 IH2]. assert (Z.land (Zpos p~0) (Zpos p~0 - 1) = 2 * Z.land (Zpos p) (Zpos p - 1)) as ->.
    { change (Zpos p~0) with (2 * Zpos p). replace (2 * Zpos p - 1) with (2 * (Zpos p - 1) + 1) by lia.
      apply Z.bits_inj'. intros i Hi. rewrite Z.land_spec. destruct (decide (i = 0)) as [->|Hne].
      - by rewrite !Z.testbit_even_0.
      - replace i with (Z.succ (i - 1)) by lia.
        rewrite Z.testbit_odd_succ, !Z.testbit_even_succ by lia. by rewrite Z.land_spec. }
    split; [lia|]. cbn [ones_pos]. rewrite <- IH2. f_equal. by destruct (Z.land _ _).
Qed.

Lemma ones_pos_pos p : 1 <= ones_pos p.
Proof. induction p; cbn [ones_pos]; lia. Qed.

Lemma CountBytes_loop_spec fuel : ∀ value result,
  0 <= value → ones_count value <= Z.of_nat fuel →
  CountBytes_loop fuel value result = Some (result + ones_count value).
Proof.
  induction fuel as [|fuel IH]; intros [|p|p] result Hv Hf; try lia; simpl.
  - by rewrite Z.add_0_r.
  - pose proof (ones_pos_pos p). cbn in Hf. lia.
  - by rewrite Z.add_0_r.
  - pose proof (clear_lowest p) as [H1 H2]. rewrite IH; [|done|cbn in Hf; lia]. f_equal. lia.
Qed.

Lemma ones_count_bound w : ∀ z, 0 <= z < 2 ^ Z.of_nat w → ones_count z <= Z.of_nat w.
Proof.
  induction w as [|w IH]; intros z Hz; [by replace z with 0 by (change (2 ^ Z.of_nat 0) with 1 in Hz; lia)|].
  rewrite Nat2Z.inj_succ, Z.pow_succ_r in Hz by lia.
  destruct z as [|[p|p|]|p]; cbn [ones_count ones_pos]; try lia; specialize (IH (Zpos p)); cbn [ones_count] in IH; lia.
Qed.

(** The bounded loop never runs out: the prefix length of a mask is the
    number of its ones. *)
Lemma CountBytes_spec T z : 0 <= z < 2 ^ bits T → CountBytes T z = Some (ones_count z).
Proof.
  intros Hz. unfold CountBytes. pose proof (bits_pos T).
  rewrite CountBytes_loop_spec; [done|lia|]. apply ones_count_bound. by rewrite Z2Nat.id by lia.
Qed.

(** ** Concrete addresses *)

(** 192.168.1.77 in a network with 24 bits, on a little-endian host. *)
Definition lan : sockaddr_in := new_IPv4Address PENG_LITTLE_ENDIAN 0xC0A8014D 80.

Lemma ipv4_prefix_arithmetic_witness :
  ∃ b m, broadcastAddress4 PENG_LITTLE_ENDIAN lan 24 = Some (Some b) ∧
    byteswapOnLittleEndian PENG_LITTLE_ENDIAN uint32_t (s_addr b) = 0xC0A801FF ∧
    subnetMask4 PENG_LITTLE_ENDIAN 24 = Some m ∧ CountBytes uint32_t (s_addr m) = Some 24.
Proof.
  destruct (ipv4_prefix_arithmetic PENG_LITTLE_ENDIAN lan 24) as (b & m & E1 & E2 & _ & _ & E3 & _ & E4).
  - vm_compute. split; congruence.
  - lia.
  - exists b, m. split; [exact E1|]. split; [rewrite E2; reflexivity|]. split; [exact E3|exact E4].
Defined.

(** Finding: the network address of a host is its host part. *)
Example network_address_is_host_part :
  (λ r, match r with Some (Some n) => Some (insert4 PENG_LITTLE_ENDIAN n) | _ => None end)
    (networdAddress4 PENG_LITTLE_ENDIAN lan 24) = Some (txt "0.0.0.77:80").
Proof. vm_compute. reflexivity. Qed.

(** fe80::1. *)
Definition link_local : sockaddr_in6 :=
  mkIn6 AF_INET6 (byteswapOnLittleEndian PENG_LITTLE_ENDIAN uint16_t 443) 0
    (byte.of_Z <$> [0xfe; 0x80; 0; 0; 0; 0; 0; 0; 0; 0; 0; 0; 0; 0; 0; 1]) 0.

Lemma ipv6_prefix_arithmetic_witness :
  ∃ b, broadcastAddress6 link_local 13 = Some b ∧ bit6 (s6_addr b) 12 = false ∧ bit6 (s6_addr b) 13 = true.
Proof.
  destruct (ipv6_prefix_arithmetic link_local 13 eq_refl ltac:(lia)) as (b & n & m & E & _ & _ & H).
  exists b. split; [exact E|]. split.
  - rewrite (proj1 (H 12 ltac:(lia))). vm_compute. reflexivity.
  - rewrite (proj1 (H 13 ltac:(lia))). vm_compute. reflexivity.
Defined.

Lemma address_total_order_witness :
  op_lt PENG_LITTLE_ENDIAN (IPv4Address lan) (IPv6Address link_local) = true ∧
  op_lt PENG_LITTLE_ENDIAN (IPv6Address link_local) (IPv4Address lan) = false.
Proof.
  assert (addr_ok PENG_LITTLE_ENDIAN (IPv4Address lan)) as H4 by (vm_compute; split; [congruence|lia]).
  assert (addr_ok PENG_LITTLE_ENDIAN (IPv6Address link_local)) as H6 by (vm_compute; split; [congruence|lia]).
  destruct (address_total_order PENG_LITTLE_ENDIAN _ _ _ H4 H6 H4) as (_ & H & _).
  assert (op_lt PENG_LITTLE_ENDIAN (IPv4Address lan) (IPv6Address link_local) = true) as E by (vm_compute; reflexivity).
  split; [exact E|]. rewrite E in H. destruct (op_lt PENG_LITTLE_ENDIAN (IPv6Address link_local) _); [|reflexivity].
  rewrite andb_false_r in H. discriminate H.
Defined.

Example link_local_text : insert6 PENG_LITTLE_ENDIAN link_local = txt "[fe80::1]:443".
Proof. vm_compute. reflexivity. Qed.

Lemma ipv6_text_roundtrip_witness :
  ∃ body, insert6 PENG_LITTLE_ENDIAN link_local = txt "[" ++ body ++ txt "]:443" ∧
    read6 body = Some [0xfe80; 0; 0; 0; 0; 0; 0; 1].
Proof.
  destruct (ipv6_text_roundtrip PENG_LITTLE_ENDIAN link_local eq_refl) as (body & E1 & E2).
  exists body. split; [exact E1|exact E2].
Defined.

Definition sock_path : list byte := byte.of_Z <$> [47; 97; 98].

Lemma unix_path_roundtrip_witness :
  ∃ m len, UnixAddress_of_path sock_path tt = Ok (UnixAddress m len) tt ∧ getPath m len = txt "/ab".
Proof.
  pose proof (unix_path_roundtrip sock_path) as H. destruct H as (m & len & E1 & _ & E2).
  - discriminate.
  - repeat constructor; vm_compute; discriminate.
  - exists m, len. split; [exact E1|exact E2].
Defined.

(** The empty path reads back as an abstract name. *)
Example empty_unix_path :
  (λ r, match r with Ok (UnixAddress m len) _ => Some (getPath m len) | _ => None end)
    (UnixAddress_of_path [] tt) = Some (txt "\0").
Proof. vm_compute. reflexivity. Qed.

(** A mask of 128 bits writes past the address. *)
Example ipv6_full_prefix : subnetMask6 128 = None ∧ broadcastAddress6 link_local 128 = None.
Proof. split; reflexivity. Qed.

Lemma host_parts_spec_witness :
  host_parts (txt "www.peng.top:80") = (txt "www.peng.top", Some (txt "80")).
Proof.
  apply (host_parts_spec (txt "www.peng.top") (txt "80") (txt "::1"));
    try discriminate; try reflexivity; (apply (bool_decide_unpack _); vm_compute; exact I).
Defined.
