(* ===== verification/Config.v ===== *)
(** * Configuration (config.h, config.cc)

    The text conversions of container types over a YAML library, which is a
    parameter, and the registry of configuration variables with its listeners
    and [LoadFromYaml]. *)

From Stdlib Require Import Ascii.
From stdpp Require Import countable pretty sorting.
From S2P Require Import Prelude.

(** ** YAML documents *)

Inductive YNode :=
| Null
| Scalar (s : string)
| Sequence (l : list YNode)
| Map (l : list (string * YNode)).

(** [node.size()]. *)
Definition node_size (n : YNode) : nat :=
  match n with Sequence l => length l | Map l => length l | _ => 0 end.

(** What the YAML library does: [YAML::Load], which may throw, the text of a
    node, and [node[i]]. *)
Class Yaml := {
  Load : string → option YNode;
  Dump : YNode → string;
  index : YNode → nat → YNode
}.

(** A node that is written reads back, and a sequence is indexed in order. *)
Class YamlLaws (Y : Yaml) : Prop := {
  load_dump n : Load (Dump n) = Some n;
  index_sequence l i n : l !! i = Some n → index (Sequence l) i = n
}.

(** ** [LexicalCast]

    [to_str] is [LexicalCast<T, std::string>] and [from_str]
    [LexicalCast<std::string, T>]; [None] is an exception. *)
Class LexicalCast (T : Type) := {
  to_str : T → option string;
  from_str : string → option T
}.

Section casts.
Context `{Yaml} {T : Type} `{LexicalCast T}.

(** The text of each element, parsed as a node. *)
Definition item_node (x : T) : option YNode := s ← to_str x; Load s.

(** [std::vector<T>] and [std::list<T>]: the loop over [node[i]]. *)
Definition sequence_items (node : YNode) : option (list T) :=
  mapM (λ i, from_str (Dump (index node i))) (seq 0 (node_size node)).

Definition vector_to_str (v : list T) : option string :=
  ns ← mapM item_node v; Some (Dump (Sequence ns)).
Definition vector_from_str (s : string) : option (list T) :=
  node ← Load s; sequence_items node.

Definition list_to_str (v : list T) : option string :=
  ns ← mapM item_node v; Some (Dump (Sequence ns)).
Definition list_from_str (s : string) : option (list T) :=
  node ← Load s; sequence_items node.

(** Maps with string keys: [order] is the order the container is visited in;
    [insert] keeps the first entry of a key. *)
Definition map_to_str (order : gmap string T → list (string * T)) (v : gmap string T) : option string :=
  ns ← mapM (λ p : string * T, n ← item_node p.2; Some (p.1, n)) (order v); Some (Dump (Map ns)).

(** Going over a sequence, [it->first.Scalar()] throws. *)
Definition map_from_str (s : string) : option (gmap string T) :=
  node ← Load s;
  match node with
  | Map l =>
      ps ← mapM (λ p : string * YNode, x ← from_str (Dump p.2); Some (p.1, x)) l;
      Some (list_to_map ps)
  | Sequence (_ :: _) => None
  | _ => Some ∅
  end.

Definition unordered_map_to_str := map_to_str.
Definition unordered_map_from_str := map_from_str.
End casts.

Section set_casts.
Context `{Yaml} {T : Type} `{LexicalCast T} `{Countable T}.

(** [std::set<T>] and [std::unordered_set<T>]. *)
Definition set_to_str (order : gset T → list T) (v : gset T) : option string :=
  ns ← mapM item_node (order v); Some (Dump (Sequence ns)).
Definition set_from_str (s : string) : option (gset T) :=
  node ← Load s; xs ← sequence_items node; Some (list_to_set xs).

Definition unordered_set_to_str := set_to_str.
Definition unordered_set_from_str := set_from_str.
End set_casts.

(** ** Variables and their registry *)

(** [std::transform(..., ::tolower)]. *)
Definition tolower (c : Ascii.ascii) : Ascii.ascii :=
  let n := Ascii.N_of_ascii c in
  if ((65 <=? n) && (n <=? 90))%N then Ascii.ascii_of_N (n + 32) else c.
Fixpoint lower (s : string) : string :=
  match s with EmptyString => EmptyString | String c s' => String (tolower c) (lower s') end.

(** The characters of a name. *)
Definition name_chars : list Ascii.ascii :=
  String.list_ascii_of_string "abcdefghijklmnopqrstuvwxyz._012345678".
Definition valid_name (s : string) : bool :=
  forallb (λ c, bool_decide (c ∈ name_chars)) (String.list_ascii_of_string s).

(** [T] are the types a variable can have and [V] their values. *)
Record ConfigVar (T V : Type) := mkVar {
  m_name : string;
  m_decription : string;
  v_type : T;
  m_val : V;
  m_cbs : list Z
}.
Arguments mkVar {T V}.
Arguments m_name {T V}.
Arguments m_decription {T V}.
Arguments v_type {T V}.
Arguments m_val {T V}.
Arguments m_cbs {T V}.

(** The registry, the listener counters ([s_fun_id], one per type) and the
    calls of listeners: variable, listener, old and new value. *)
Record Config (T V : Type) := mkConfig {
  m_datas : gmap string (ConfigVar T V);
  s_fun_id : T → Z;
  calls : list (string * Z * V * V)
}.
Arguments mkConfig {T V}.
Arguments m_datas {T V}.
Arguments s_fun_id {T V}.
Arguments calls {T V}.

Section config.
Context {T V : Type} `{EqDecision T} `{EqDecision V}.
(** [FromStr] and [ToStr] of each type; [None] is an exception. *)
Context (FromStr : T → string → option V) (ToStr : T → V → option string).
Context `{Yaml}.

Definition set_var (name : string) (v : ConfigVar T V) (s : Config T V) : Config T V :=
  mkConfig (<[name := v]> (m_datas s)) (s_fun_id s) (calls s).

Definition new_ConfigVar (name : string) (t : T) (default_value : V) (description : string) : ConfigVar T V :=
  mkVar (lower name) description t default_value [].

Definition with_val (x : V) (v : ConfigVar T V) : ConfigVar T V :=
  mkVar (m_name v) (m_decription v) (v_type v) x (m_cbs v).
Definition with_cbs (l : list Z) (v : ConfigVar T V) : ConfigVar T V :=
  mkVar (m_name v) (m_decription v) (v_type v) (m_val v) l.

Definition toString (v : ConfigVar T V) : string := default "" (ToStr (v_type v) (m_val v)).

(** [SetValue]: the listeners are called, in the order of their numbers,
    while the variable still has the old value. *)
Definition SetValue (name : string) (x : V) (s : Config T V) : Config T V :=
  match m_datas s !! name with
  | None => s
  | Some v =>
      if bool_decide (x = m_val v) then s
      else mkConfig (<[name := with_val x v]> (m_datas s)) (s_fun_id s)
             (calls s ++ ((λ i, (name, i, m_val v, x)) <$> m_cbs v))
  end.

(** [fromString]: [false] whatever happens. *)
Definition fromString (name : string) (text : string) (s : Config T V) : bool * Config T V :=
  match m_datas s !! name with
  | None => (false, s)
  | Some v =>
      match FromStr (v_type v) text with
      | Some x => (false, SetValue name x s)
      | None => (false, s)
      end
  end.

Definition AddListener (name : string) (s : Config T V) : option (Z * Config T V) :=
  v ← m_datas s !! name;
  let id := u64 (s_fun_id s (v_type v) + 1) in
  let l := if bool_decide (id ∈ m_cbs v) then m_cbs v else m_cbs v ++ [id] in
  Some (id, mkConfig (<[name := with_cbs l v]> (m_datas s))
              (λ t, if decide (t = v_type v) then id else s_fun_id s t) (calls s)).

Definition DelListener (name : string) (key : Z) (s : Config T V) : Config T V :=
  match m_datas s !! name with
  | None => s
  | Some v => set_var name (with_cbs (filter (λ i, i ≠ key) (m_cbs v)) v) s
  end.

Definition GetListener (name : string) (key : Z) (s : Config T V) : option Z :=
  v ← m_datas s !! name; if bool_decide (key ∈ m_cbs v) then Some key else None.

Definition ClearListener (name : string) (s : Config T V) : Config T V :=
  match m_datas s !! name with
  | None => s
  | Some v => set_var name (with_cbs [] v) s
  end.

(** [Config::Lookup<T>(name, default_value, description)]; [None] is a null
    pointer, and a variable is known by its name. *)
Definition Lookup_or_create (name : string) (t : T) (default_value : V) (description : string) :
    M (Config T V) (option (ConfigVar T V)) :=
  s ← get;
  match m_datas s !! name with
  | Some v => mret (if decide (v_type v = t) then Some v else None)
  | None =>
      if negb (valid_name name) then throw (invalid_argument name)
      else
        let v := new_ConfigVar name t default_value description in
        modify (set_var name v);;
        mret (Some v)
  end.

Definition Lookup (name : string) (t : T) (s : Config T V) : option (ConfigVar T V) :=
  v ← m_datas s !! name; if decide (v_type v = t) then Some v else None.

Definition LookupBase (name : string) (s : Config T V) : option (ConfigVar T V) := m_datas s !! name.

(** [ListAllMember]: a node and the members below it, each with its dotted
    name. *)
Fixpoint ListAllMember (prefix : string) (node : YNode) : list (string * YNode) :=
  if negb (valid_name prefix) then []
  else (prefix, node) ::
    match node with
    | Map l =>
        (fix members (l : list (string * YNode)) : list (string * YNode) :=
           match l with
           | [] => []
           | (k, n) :: l' =>
               ListAllMember (if String.eqb prefix "" then k else prefix +:+ "." +:+ k) n ++ members l'
           end) l
    | _ => []
    end.

(** The text given to [fromString]. *)
Definition node_text (n : YNode) : string := match n with Scalar s => s | _ => Dump n end.

Definition load_member (s : Config T V) (p : string * YNode) : Config T V :=
  if String.eqb p.1 "" then s
  else
    let key := lower p.1 in
    match LookupBase key s with
    | Some _ => (fromString key (node_text p.2) s).2
    | None => s
    end.

Definition LoadFromYaml (root : YNode) (s : Config T V) : Config T V :=
  foldl load_member s (ListAllMember "" root).

(** [Visit] in the order of the names. *)
Definition by_name (p q : string * ConfigVar T V) : Prop := String.leb p.1 q.1 = true.
#[local] Instance by_name_dec : RelDecision by_name.
Proof. intros p q. unfold by_name. apply _. Defined.
Definition Visit (s : Config T V) : list (ConfigVar T V) :=
  (merge_sort by_name (map_to_list (m_datas s))).*2.
End config.

(** ** Conversions *)

(** A conversion that reads back what it writes, also through a node. *)
Class CastLaws `{Yaml} {T} (C : LexicalCast T) : Prop := {
  cast_text x : ∃ s, to_str x = Some s ∧ from_str s = Some x;
  cast_node x : ∃ n, item_node x = Some n ∧ from_str (Dump n) = Some x
}.

Section cast_laws.
Context `{Y : Yaml} `{!YamlLaws Y} {T : Type} `{C : LexicalCast T} `{!CastLaws C}.

(** The nodes of a sequence of values, and their values. *)
Lemma items_nodes (v : list T) : ∃ ns,
  mapM item_node v = Some ns ∧ mapM (λ n, from_str (Dump n)) ns = Some v.
Proof.
  induction v as [|x v (ns & E1 & E2)]; [by exists []|]. destruct (cast_node x) as (n & F1 & F2).
  exists (n :: ns). simpl. rewrite F1, F2. simpl. rewrite E1, E2. done.
Qed.

Lemma mapM_index ns k : ∀ pre, length pre = k →
  mapM (λ i, from_str (Dump (index (Sequence (pre ++ ns)) i))) (seq k (length ns)) =
  mapM (λ n, from_str (T := T) (Dump n)) ns.
Proof.
  revert k. induction ns as [|n ns IH]; intros k pre Hk; [done|]. simpl.
  rewrite (index_sequence (pre ++ n :: ns) k n) by (by apply list_lookup_middle).
  destruct (from_str (Dump n)); simpl; [|done].
  specialize (IH (S k) (pre ++ [n])). rewrite <- app_assoc in IH. simpl in IH.
  rewrite IH; [done|]. rewrite length_app. simpl. lia.
Qed.

Lemma sequence_items_nodes ns : sequence_items (T := T) (Sequence ns) = mapM (λ n, from_str (Dump n)) ns.
Proof. exact (mapM_index ns 0 [] eq_refl). Qed.

(** A sequence that is written reads back. *)
Lemma sequence_text (v : list T) : ∃ ns,
  mapM item_node v = Some ns ∧ sequence_items (Sequence ns) = Some v.
Proof. destruct (items_nodes v) as (ns & E1 & E2). exists ns. by rewrite sequence_items_nodes. Qed.

#[global] Instance vector_cast : LexicalCast (list T) :=
  {| to_str := vector_to_str; from_str := vector_from_str |}.

#[global] Instance vector_cast_laws : CastLaws vector_cast.
Proof.
  split; intros v; destruct (sequence_text v) as (ns & E1 & E2).
  - exists (Dump (Sequence ns)). cbn. unfold vector_to_str, vector_from_str. rewrite E1, load_dump. done.
  - exists (Sequence ns). unfold item_node. cbn. unfold vector_to_str, vector_from_str. rewrite E1. cbn.
    rewrite load_dump. done.
Qed.

Lemma map_nodes (l : list (string * T)) : ∃ ns,
  mapM (λ p : string * T, n ← item_node p.2; Some (p.1, n)) l = Some ns ∧
  mapM (λ p : string * YNode, x ← from_str (Dump p.2); Some (p.1, x)) ns = Some l.
Proof.
  induction l as [|[k x] l (ns & E1 & E2)]; [by exists []|]. destruct (cast_node x) as (n & F1 & F2).
  exists ((k, n) :: ns). simpl. rewrite F1. simpl. rewrite E1. simpl. rewrite F2. simpl. by rewrite E2.
Qed.
End cast_laws.

Section container_laws.
Context `{Y : Yaml} `{!YamlLaws Y} {T : Type} `{C : LexicalCast T} `{!CastLaws C} `{Countable T}.

Lemma map_text (order : gmap string T → list (string * T)) v :
  order v ≡ₚ map_to_list v →
  ∃ ns, map_to_str order v = Some (Dump (Map ns)) ∧ map_from_str (Dump (Map ns)) = Some v.
Proof.
  intros Ho. destruct (map_nodes (order v)) as (ns & E1 & E2). exists ns.
  unfold map_to_str, map_from_str. rewrite E1, load_dump. cbn. rewrite E2. cbn. split; [done|]. f_equal.
  trans (list_to_map (M := gmap string T) (map_to_list v)); [|apply list_to_map_to_list].
  apply list_to_map_proper; [|exact Ho]. rewrite Ho. apply NoDup_fst_map_to_list.
Qed.

Lemma set_text (order : gset T → list T) v :
  order v ≡ₚ elements v →
  ∃ ns, set_to_str order v = Some (Dump (Sequence ns)) ∧ set_from_str (Dump (Sequence ns)) = Some v.
Proof.
  intros Ho. destruct (sequence_text (order v)) as (ns & E1 & E2). exists ns.
  unfold set_to_str, set_from_str. rewrite E1, load_dump. cbn [mbind option_bind]. rewrite E2. cbn [mbind option_bind]. split; [done|]. f_equal.
  apply leibniz_equiv. rewrite Ho. apply list_to_set_elements.
Qed.
End container_laws.

(** With a YAML library that reads back what it writes and an element conversion that
    does, the text of a vector, of a map from strings to vectors and of a set of vectors
    converts back to the same value, in whatever order map and set are visited. *)
Theorem container_cast_roundtrip `{Y : Yaml} `{!YamlLaws Y} {T} `{C : LexicalCast T} `{!CastLaws C} `{Countable T}
    (order_m : gmap string (list T) → list (string * list T)) (order_s : gset (list T) → list (list T)) :
  (∀ v, order_m v ≡ₚ map_to_list v) → (∀ v, order_s v ≡ₚ elements v) →
  (∀ v : list T, ∃ s, vector_to_str v = Some s ∧ vector_from_str s = Some v ∧ list_from_str s = Some v) ∧
  (∀ v : gmap string (list T), ∃ s, map_to_str order_m v = Some s ∧ map_from_str s = Some v) ∧
  (∀ v : gset (list T), ∃ s, set_to_str order_s v = Some s ∧ set_from_str s = Some v).
Proof.
  intros Hm Hs. split_and!; intros v.
  - destruct (cast_text (C := vector_cast) v) as (s & E1 & E2). by exists s.
  - destruct (map_text order_m v (Hm v)) as (ns & E1 & E2). by exists (Dump (Map ns)).
  - destruct (set_text order_s v (Hs v)) as (ns & E1 & E2). by exists (Dump (Sequence ns)).
Qed.

(** ** The registry *)

Section registry.
Context {T V : Type} `{EqDecision T} `{EqDecision V}.
Context (FromStr : T → string → option V).
Implicit Types s : Config T V.

Lemma valid_name_lower name : valid_name name = true → lower name = name.
Proof.
  unfold valid_name. induction name as [|c name IH]; [done|]. simpl. intros [Hc Hn]%andb_prop.
  rewrite IH by done. f_equal. apply bool_decide_eq_true_1 in Hc.
  assert (forallb (λ c, Ascii.eqb (tolower c) c) name_chars = true) as Hall by (vm_compute; reflexivity).
  apply list_elem_of_In, (proj1 (forallb_forall _ _) Hall) in Hc. by apply Ascii.eqb_eq.
Qed.

(** Every variable is registered under its own name. *)
Definition config_ok s : Prop := ∀ name v, m_datas s !! name = Some v → m_name v = name ∧ valid_name name = true.

(** Config::Lookup with a default returns the registered variable unchanged when its
    type is the one asked for and null when it is not, throws invalid_argument for a name
    with other characters and otherwise registers a variable with the default; no other
    variable changes, and a later Lookup finds the same variable for that type only. *)
Theorem lookup_spec s name t d description :
  config_ok s →
  match Lookup_or_create name t d description s with
  | Ok (Some v) s' =>
      v_type v = t ∧ m_name v = name ∧ m_datas s' !! name = Some v ∧ config_ok s' ∧
      (m_datas s !! name = None → m_val v = d ∧ m_cbs v = []) ∧
      (∀ v0, m_datas s !! name = Some v0 → v = v0 ∧ s' = s) ∧
      (∀ name', name' ≠ name → m_datas s' !! name' = m_datas s !! name') ∧
      (∀ t' d' des', Lookup_or_create name t' d' des' s' = Ok (if decide (t' = t) then Some v else None) s')
  | Ok None s' => s' = s ∧ ∃ v, m_datas s !! name = Some v ∧ v_type v ≠ t
  | Throw e s' => s' = s ∧ m_datas s !! name = None ∧ valid_name name = false ∧ e = invalid_argument name
  | _ => False
  end.
Proof.
  intros Hok. unfold Lookup_or_create. rewrite bind_get. destruct (m_datas s !! name) as [v|] eqn:E.
  - destruct (decide (v_type v = t)) as [Ht|Ht]; cbn; [|by eauto].
    destruct (Hok name v E) as [Hn Hv]. split_and!; try done.
    + intros v0 [= <-]. done.
    + intros t' d' des'. rewrite bind_get, E. cbn. repeat case_decide; (done || congruence).
  - destruct (valid_name name) eqn:Ev; cbn [negb]; [|done]. rewrite bind_modify. cbn.
    split_and!; try done.
    + by apply valid_name_lower.
    + apply lookup_insert_eq.
    + intros name' v. cbn. destruct (decide (name = name')) as [<-|Hne].
      * rewrite lookup_insert_eq. intros [= <-]. split; [by apply valid_name_lower|done].
      * rewrite lookup_insert_ne by done. apply Hok.
    + intros name' Hne. by rewrite lookup_insert_ne.
    + intros t' d' des'. rewrite bind_get. cbn. rewrite lookup_insert_eq. cbn.
      repeat case_decide; (done || congruence).
Qed.
End registry.

(** ** Loading a document *)

(** The name of a member. *)
Definition join (prefix k : string) : string := if String.eqb prefix "" then k else prefix +:+ "." +:+ k.

(** [below p n q m]: [m] is a member at any depth of [n], which is named [p],
    under the dotted name [q], every name on the way being valid. *)
Inductive below : string → YNode → string → YNode → Prop :=
| below_here p n : valid_name p = true → below p n p n
| below_member p l k n q m :
    valid_name p = true → (k, n) ∈ l → below (join p k) n q m → below p (Map l) q m.

Lemma ListAllMember_sound n : ∀ p q m, (q, m) ∈ ListAllMember p n → below p n q m.
Proof.
  revert n. fix IH 1. intros n p q m. destruct n as [|s|l|l]; simpl; destruct (valid_name p) eqn:Ev; cbn [negb];
    try (by intros Hin%elem_of_nil); rewrite elem_of_cons; intros [[= -> ->]|Hin];
    try (by apply below_here); try (by apply elem_of_nil in Hin).
  assert (∃ k n, (k, n) ∈ l ∧ below (join p k) n q m) as (k & n & Hk & Hb); [|by eapply below_member].
  revert Hin. induction l as [|[k n] l IHl]; [by intros Hin%elem_of_nil|].
  rewrite elem_of_app. intros [Hin|Hin].
  - exists k, n. split; [by left|]. apply IH, Hin.
  - destruct (IHl Hin) as (k' & n' & Hk & Hb). exists k', n'. split; [by right|done].
Qed.

Lemma ListAllMember_complete p n q m : below p n q m → (q, m) ∈ ListAllMember p n.
Proof.
  induction 1 as [p n Hv|p l k n q m Hv Hk Hb IH].
  - destruct n; simpl; rewrite Hv; by left.
  - simpl. rewrite Hv. right. revert Hk. induction l as [|[k' n'] l IHl]; [by intros Hin%elem_of_nil|].
    rewrite elem_of_cons, elem_of_app. intros [[= <- <-]|Hin]; [left; exact IH|right; by apply IHl].
Qed.

(** Successive changes from [x] to [y]. *)
Fixpoint chain {V} (x : V) (l : list (V * V)) (y : V) : Prop :=
  match l with
  | [] => x = y
  | (a, b) :: l' => a = x ∧ a ≠ b ∧ chain b l' y
  end.

Lemma chain_app {V} l1 : ∀ (x y z : V) l2, chain x l1 y → chain y l2 z → chain x (l1 ++ l2) z.
Proof.
  induction l1 as [|[a b] l1 IH]; intros x y z l2; simpl; [by intros ->|].
  intros (-> & Hne & Hc) H2. split_and!; [done|done|]. by eapply IH.
Qed.

(** The changes listener [i] of variable [name] was told of. *)
Definition told {V} (name : string) (i : Z) (l : list (string * Z * V * V)) : list (V * V) :=
  omap (λ c : string * Z * V * V,
    let '(n, j, a, b) := c in if String.eqb n name && (j =? i) then Some (a, b) else None) l.

Lemma told_app {V} name i (l1 l2 : list (string * Z * V * V)) : told name i (l1 ++ l2) = told name i l1 ++ told name i l2.
Proof. apply omap_app. Qed.

Lemma told_other {V} name name' i ids (a b : V) :
  name' ≠ name → told name i ((λ j, (name', j, a, b)) <$> ids) = [].
Proof.
  intros Hne. unfold told. induction ids as [|j ids IH]; [done|]. simpl.
  rewrite (proj2 (String.eqb_neq _ _) Hne). exact IH.
Qed.

Lemma told_once {V} name i ids (a b : V) :
  NoDup ids → i ∈ ids → told name i ((λ j, (name, j, a, b)) <$> ids) = [(a, b)].
Proof.
  unfold told. induction ids as [|j ids IH]; intros Hnd Hi; [by apply elem_of_nil in Hi|]. simpl.
  apply list.NoDup_cons in Hnd as [Hj Hnd]. rewrite String.eqb_refl. simpl.
  destruct (Z.eqb_spec j i) as [->|Hne].
  - f_equal. clear -Hj. induction ids as [|j ids IH]; [done|]. simpl. rewrite String.eqb_refl. simpl.
    rewrite elem_of_cons in Hj. rewrite (proj2 (Z.eqb_neq j i)) by naive_solver. apply IH. naive_solver.
  - apply IH; [done|]. apply elem_of_cons in Hi as [->|?]; done.
Qed.

Section loading.
Context {T V : Type} `{EqDecision T} `{EqDecision V}.
Context (FromStr : T → string → option V) `{Y : Yaml}.
Implicit Types s : Config T V.

(** What an entry of the document does to the value of a variable. *)
Definition load_value (t : T) (name : string) (x : V) (p : string * YNode) : V :=
  if negb (String.eqb p.1 "") && String.eqb (lower p.1) name then default x (FromStr t (node_text p.2)) else x.

Lemma with_val_same (v : ConfigVar T V) : with_val (m_val v) v = v.
Proof. by destruct v. Qed.

Lemma SetValue_var s name v x : m_datas s !! name = Some v →
  m_datas (SetValue name x s) = <[name := with_val x v]> (m_datas s) ∧
  ∃ new, calls (SetValue name x s) = calls s ++ new ∧
    (NoDup (m_cbs v) → ∀ i, i ∈ m_cbs v → chain (m_val v) (told name i new) x) ∧
    ∀ name' i, name' ≠ name → told name' i new = [].
Proof.
  intros Hv. unfold SetValue. rewrite Hv. case_bool_decide as Hx.
  - subst x. rewrite with_val_same, insert_id by done. split; [done|]. exists []. rewrite app_nil_r. done.
  - split; [done|]. eexists. split; [done|]. split.
    + intros Hnd i Hi. rewrite told_once by done. simpl. split_and!; [done|congruence|done].
    + intros name' i Hne. by apply told_other.
Qed.

(** One entry. *)
Lemma load_member_var s p name v : m_datas s !! name = Some v →
  ∃ new, m_datas (load_member FromStr s p) !! name = Some (with_val (load_value (v_type v) name (m_val v) p) v) ∧
    calls (load_member FromStr s p) = calls s ++ new ∧
    (NoDup (m_cbs v) → ∀ i, i ∈ m_cbs v →
       chain (m_val v) (told name i new) (load_value (v_type v) name (m_val v) p)).
Proof.
  intros Hv. unfold load_member, load_value, LookupBase. destruct (String.eqb p.1 ""); cbn [negb andb].
  { exists []. rewrite with_val_same, app_nil_r. done. }
  destruct (String.eqb_spec (lower p.1) name) as [Hn|Hn]; cbn [andb].
  - rewrite Hn, Hv. unfold fromString. rewrite Hv. destruct (FromStr (v_type v) (node_text p.2)) as [x|]; cbn [snd default].
    + destruct (SetValue_var s name v x Hv) as (E1 & new & E2 & H1 & _). exists new.
      rewrite E1, lookup_insert_eq. done.
    + exists []. rewrite with_val_same, app_nil_r. done.
  - rewrite with_val_same. destruct (m_datas s !! lower p.1) as [w|] eqn:Ew.
    2: { exists []. rewrite app_nil_r. done. }
    unfold fromString. rewrite Ew. destruct (FromStr (v_type w) (node_text p.2)) as [x|]; cbn [snd].
    2: { exists []. rewrite app_nil_r. done. }
    destruct (SetValue_var s _ w x Ew) as (E1 & new & E2 & _ & H2). exists new.
    rewrite E1, lookup_insert_ne by done. split_and!; [done|done|]. intros _ i _. by rewrite H2.
Qed.

Lemma load_members_var es : ∀ s name v, m_datas s !! name = Some v → NoDup (m_cbs v) →
  let s' := foldl (load_member FromStr) s es in
  let x := foldl (load_value (v_type v) name) (m_val v) es in
  ∃ new, m_datas s' !! name = Some (with_val x v) ∧ calls s' = calls s ++ new ∧
    ∀ i, i ∈ m_cbs v → chain (m_val v) (told name i new) x.
Proof.
  induction es as [|p es IH]; intros s name v Hv Hnd; simpl.
  { exists []. rewrite with_val_same, app_nil_r. done. }
  destruct (load_member_var s p name v Hv) as (new1 & E1 & C1 & H1).
  destruct (IH _ name _ E1 Hnd) as (new2 & E2 & C2 & H2). cbn [m_val with_val v_type m_cbs] in *.
  exists (new1 ++ new2). split_and!; [exact E2|by rewrite C2, C1, app_assoc|].
  intros i Hi. rewrite told_app. eapply chain_app; [by apply H1|by apply H2].
Qed.

(** C32: LoadFromYaml visits exactly the members of the document whose dotted names are
    valid; a registered variable ends with the value of the last of them that has its name
    and converts, keeping it when none does, and each of its listeners is told of every
    change once and in order, each old value being the previous new one. *)
Theorem load_yaml_spec s root name v :
  m_datas s !! name = Some v → NoDup (m_cbs v) →
  let s' := LoadFromYaml FromStr root s in
  let x := foldl (load_value (v_type v) name) (m_val v) (ListAllMember "" root) in
  (∀ q n, (q, n) ∈ ListAllMember "" root ↔ below "" root q n) ∧
  m_datas s' !! name = Some (with_val x v) ∧
  ∃ new, calls s' = calls s ++ new ∧
    ∀ i, i ∈ m_cbs v → chain (m_val v) (told name i new) x.
Proof.
  intros Hv Hnd s' x. destruct (load_members_var (ListAllMember "" root) s name v Hv Hnd) as (new & E & C & H).
  split; [|split; [exact E|by exists new]].
  intros q n. split; [apply ListAllMember_sound|apply ListAllMember_complete].
Qed.
End loading.

(** ** A concrete library

    Scalars are their own text and other nodes are written as the digits of
    their code, after a hash. *)

Module Concrete.

Fixpoint to_tree (n : YNode) : gen_tree string :=
  match n with
  | Null => GenNode 0 []
  | Scalar s => GenLeaf s
  | Sequence l => GenNode 1 (map to_tree l)
  | Map l => GenNode 2 (map (λ p : string * YNode, GenNode 3 [GenLeaf p.1; to_tree p.2]) l)
  end.

Fixpoint of_tree (t : gen_tree string) : YNode :=
  match t with
  | GenLeaf s => Scalar s
  | GenNode 0 _ => Null
  | GenNode 1 l => Sequence (map of_tree l)
  | GenNode _ l =>
      Map (map (λ t, match t with GenNode _ [GenLeaf k; t'] => (k, of_tree t') | _ => ("", Null) end) l)
  end.

Lemma of_to_tree n : of_tree (to_tree n) = n.
Proof.
  revert n. fix IH 1. intros [|s|l|l]; simpl; [done|done|f_equal..].
  - induction l as [|n l IHl]; [done|]. simpl. by rewrite IH, IHl.
  - induction l as [|[k n] l IHl]; [done|]. simpl. by rewrite IH, IHl.
Qed.

Fixpoint digits (p : positive) : string :=
  match p with xH => "" | xO p => String "0"%char (digits p) | xI p => String "1"%char (digits p) end.
Fixpoint undigits (s : string) : positive :=
  match s with
  | EmptyString => xH
  | String c s' => if Ascii.eqb c "0"%char then xO (undigits s') else xI (undigits s')
  end.

Lemma undigits_digits p : undigits (digits p) = p.
Proof. induction p as [p IH|p IH|]; simpl; by rewrite ?IH. Qed.

Definition coded (n : YNode) : string := String "#"%char (digits (encode (to_tree n))).

#[global] Instance yaml : Yaml := {|
  Load s :=
    match s with
    | String c s' => if Ascii.eqb c "#"%char then of_tree <$> decode (undigits s') else Some (Scalar s)
    | EmptyString => Some (Scalar s)
    end;
  Dump n :=
    match n with
    | Scalar (String c s') => if Ascii.eqb c "#"%char then coded n else String c s'
    | Scalar EmptyString => EmptyString
    | _ => coded n
    end;
  index n i := match n with Sequence l => default Null (l !! i) | _ => Null end
|}.

#[global] Instance yaml_laws : YamlLaws yaml.
Proof.
  assert (∀ n, Load (coded n) = Some n) as Hc.
  { intros n. cbn [Load yaml coded]. change (Ascii.eqb "#"%char "#"%char) with true. cbv iota.
    rewrite undigits_digits, decode_encode. cbn. by rewrite of_to_tree. }
  split.
  - intros [|[|c s]|l|l]; cbn [Dump yaml]; try apply Hc; [done|].
    destruct (Ascii.eqb c "#"%char) eqn:E; [apply Hc|]. cbn. by rewrite E.
  - intros l i n Hn. cbn. by rewrite Hn.
Qed.

#[global] Instance bool_cast : LexicalCast bool := {|
  to_str (b : bool) := Some (if b then "1" else "0");
  from_str s := if String.eqb s "1" then Some true else if String.eqb s "0" then Some false else None
|}.

#[global] Instance bool_cast_laws : CastLaws bool_cast.
Proof.
  split; intros [].
  - by exists "1".
  - by exists "0".
  - by exists (Scalar "1").
  - by exists (Scalar "0").
Qed.

Lemma container_cast_roundtrip_witness :
  ∃ s, map_to_str (T := list bool) map_to_list (<["a" := [true; false]]> ∅) = Some s ∧
    map_from_str s = Some (<["a" := [true; false]]> ∅ : gmap string (list bool)).
Proof.
  exact (proj1 (proj2 (container_cast_roundtrip (T := bool) map_to_list elements (λ _, reflexivity _) (λ _, reflexivity _)))
    (<["a" := [true; false]]> ∅)).
Defined.

(** *** A registry with one variable of type 0 (numbers) *)

Definition number (t : Z) (s : string) : option Z :=
  if t =? 0 then (if String.eqb s "8080" then Some 8080 else None) else None.

Definition empty_config : Config Z Z := mkConfig ∅ (λ _, 0) [].

Lemma lookup_spec_witness :
  ∃ v s', Lookup_or_create "tcp.port" 0 80 "port" empty_config = Ok (Some v) s' ∧ m_val v = 80 ∧
    Lookup_or_create "tcp.port" 1 5 "" s' = Ok None s'.
Proof.
  assert (config_ok empty_config) as H0 by (intros name v Hv; discriminate Hv).
  pose proof (lookup_spec empty_config "tcp.port" 0 80 "port" H0) as H.
  destruct (Lookup_or_create "tcp.port" 0 80 "port" empty_config) as [[v|] s'|e s'|w|w] eqn:E.
  - destruct H as (_ & _ & _ & _ & H1 & _ & _ & H2). exists v, s'. split; [reflexivity|].
    split; [exact (proj1 (H1 eq_refl))|]. rewrite H2. reflexivity.
  - destruct H as (_ & v & H & _). discriminate H.
  - destruct H as (_ & _ & H & _). discriminate H.
  - destruct H.
  - destruct H.
Defined.

Definition port : ConfigVar Z Z := mkVar "tcp.port" "port" 0 80 [1; 2].
Definition config1 : Config Z Z := mkConfig (<["tcp.port" := port]> ∅) (λ _, 2) [].
Definition document : YNode := Map [("tcp", Map [("port", Scalar "8080"); ("host", Scalar "h")])].

Lemma load_yaml_spec_witness :
  m_datas (LoadFromYaml number document config1) !! "tcp.port" = Some (mkVar "tcp.port" "port" 0 8080 [1; 2]) ∧
  ∃ new, calls (LoadFromYaml number document config1) = new ∧ chain 80 (told "tcp.port" 2 new) 8080.
Proof.
  destruct (load_yaml_spec number config1 document "tcp.port" port) as (_ & E & new & C & H).
  - reflexivity.
  - apply (bool_decide_unpack _). vm_compute. exact I.
  - split; [exact E|]. exists new. split; [exact C|]. apply (H 2). apply (bool_decide_unpack _). vm_compute. exact I.
Defined.

(** Both listeners are told while the variable has its old value. *)
Example load_calls : calls (LoadFromYaml number document config1) =
  [("tcp.port", 1, 80, 8080); ("tcp.port", 2, 80, 8080)].
Proof. vm_compute. reflexivity. Qed.

(** A name with the digit 9 cannot be registered or loaded. *)
Example digit_nine :
  Lookup_or_create "port.9" 0 80 "" empty_config = Throw (invalid_argument "port.9") empty_config ∧
  ListAllMember "" (Map [("a9", Scalar "1"); ("b", Scalar "2")]) =
    [("", Map [("a9", Scalar "1"); ("b", Scalar "2")]); ("b", Scalar "2")].
Proof. split; vm_compute; reflexivity. Qed.

(** [fromString] reports failure also when it succeeds. *)
Example fromString_false : (fromString number "tcp.port" "8080" config1).1 = false.
Proof. vm_compute. reflexivity. Qed.

End Concrete.
