(* ===== verification/Log.v ===== *)
(** * Logging (log.h, log.cc)

    Levels, the pattern parser of [LogFormatter], the loggers with their
    appenders, and the listener that applies a changed configuration.  The
    formatting of dates is a parameter.  What an appender is given to write is
    recorded as text; the streams of file appenders are in LogFile.v. *)

From Stdlib Require Import Ascii.
From S2P Require Import Prelude Config.

(** ** Levels *)

Inductive Level := UNKNOW | DEBUG | INFO | WARN | ERROR | FATAL.

#[global] Instance Level_eq_dec : EqDecision Level.
Proof. solve_decision. Defined.

Definition level_num (l : Level) : Z :=
  match l with UNKNOW => 0 | DEBUG => 1 | INFO => 2 | WARN => 3 | ERROR => 4 | FATAL => 5 end.

Definition ToString (level : Level) : string :=
  match level with
  | DEBUG => "DEBUG" | INFO => "INFO" | WARN => "WARN" | ERROR => "ERROR" | FATAL => "FATAL"
  | UNKNOW => "UNKNOW"
  end.

Definition FromString (str : string) : Level :=
  if String.eqb str "debug" then DEBUG
  else if String.eqb str "info" then INFO
  else if String.eqb str "warn" then WARN
  else if String.eqb str "error" then ERROR
  else if String.eqb str "fatal" then FATAL
  else if String.eqb str "DEBUG" then DEBUG
  else if String.eqb str "INFO" then INFO
  else if String.eqb str "WARN" then WARN
  else if String.eqb str "ERROR" then ERROR
  else if String.eqb str "FATAL" then FATAL
  else UNKNOW.

(** ** Events and format items *)

Record LogEvent := mkEvent {
  m_file : string;
  m_line : Z;
  m_elapse : Z;
  m_threadId : Z;
  m_fiberId : Z;
  m_time : Z;
  m_threadName : string;
  m_ss : text;
  m_logger : string;
  e_level : Level
}.

Inductive FormatItem :=
| MessageFormatItem | LevelFormatItem | ElapseFormatItem | NameFormatItem | ThreadIdFormatItem
| FiberIdFormatItem | ThreadNameFormatItem | DateTimeFormatItem (m_format : text) | FileNameFormatItem
| LineFormatItem | NewLineFormatItem | StringFormatItem (m_string : text) | TabFormatItem.

Definition default_date : text := txt "%Y-%m-%d %H:%M:%S".

(** The constructors: that of [StringFormatItem] does not keep its
    argument. *)
Definition new_DateTimeFormatItem (format : text) : FormatItem :=
  DateTimeFormatItem (match format with [] => default_date | _ => format end).
Definition new_StringFormatItem (str : text) : FormatItem := StringFormatItem [].

Section formatting.
(** What the buffer of [DateTimeFormatItem::format] holds as a string after
    [strftime] was called for a format and a local time: any text, also when
    the 64 bytes were too few, where [strftime] returns 0 and leaves the
    contents unspecified. *)
Context (strftime : text → Z → text).

Definition format_item (level : Level) (event : LogEvent) (i : FormatItem) : text :=
  match i with
  | MessageFormatItem => m_ss event
  | LevelFormatItem => txt (ToString level)
  | ElapseFormatItem => dec (m_elapse event)
  | NameFormatItem => txt (m_logger event)
  | ThreadIdFormatItem => dec (m_threadId event)
  | FiberIdFormatItem => dec (m_fiberId event)
  | ThreadNameFormatItem => txt (m_threadName event)
  | DateTimeFormatItem f => strftime f (m_time event)
  | FileNameFormatItem => txt (m_file event)
  | LineFormatItem => dec (m_line event)
  | NewLineFormatItem => [Ascii.ascii_of_nat 10]
  | StringFormatItem s => s
  | TabFormatItem => [Ascii.ascii_of_nat 9]
  end.
End formatting.

(** ** The pattern parser *)

Definition is_alpha (c : Ascii.ascii) : bool :=
  let n := Ascii.N_of_ascii c in
  ((65 <=? n) && (n <=? 90) || (97 <=? n) && (n <=? 122))%N.

Definition percent : Ascii.ascii := "%"%char.
Definition lbrace : Ascii.ascii := "{"%char.
Definition rbrace : Ascii.ascii := "}"%char.

(** The inner loop from [n], with the characters since [i + 1] while
    [fmt_status] is 0, or [str] and the characters since [fmt_begin + 1] while
    it is 1.  It ends with [fmt_status] 0, [str], [fmt] and the text from [n],
    or with [fmt_status] 1. *)
Fixpoint scan_item (name : text) (status : option (text * text)) (l : text) : option (text * text * text) :=
  match l with
  | [] => match status with None => Some (name, [], []) | Some _ => None end
  | c :: l' =>
      match status with
      | None =>
          if negb (is_alpha c) && negb (Ascii.eqb c lbrace) && negb (Ascii.eqb c rbrace) then Some (name, [], l)
          else if Ascii.eqb c lbrace then scan_item name (Some (name, [])) l'
          else scan_item (name ++ [c]) None l'
      | Some (str, fmt) =>
          if Ascii.eqb c rbrace then Some (str, fmt, l')
          else scan_item name (Some (str, fmt ++ [c])) l'
      end
  end.

(** The entries of [vec]. *)
Inductive entry := Literal (str : text) | Item (str fmt : text).

Definition flush_literal (nstr : text) : list entry := match nstr with [] => [] | _ => [Literal nstr] end.

Definition pattern_error : text := txt "<<pattern_error>>".

(** The outer loop from [i]: the entries and [m_error]. *)
Fixpoint parse (fuel : nat) (nstr : text) (l : text) : option (list entry * bool) :=
  match l with
  | [] => Some (flush_literal nstr, false)
  | c :: l' =>
      match fuel with
      | O => None
      | S fuel' =>
          if negb (Ascii.eqb c percent) then parse fuel' (nstr ++ [c]) l'
          else if match l' with c' :: _ => Ascii.eqb c' percent | [] => false end
          then parse fuel' (nstr ++ [percent]) l'
          else
            match scan_item [] None l' with
            | Some (str, fmt, rest) =>
                r ← parse fuel' [] rest;
                Some (flush_literal nstr ++ Item str fmt :: r.1, r.2)
            | None =>
                r ← parse fuel' nstr l';
                Some (Literal pattern_error :: r.1, true)
            end
      end
  end.

(** [s_format_items]. *)
Definition format_items (str fmt : text) : option FormatItem :=
  match str with
  | [c] =>
      if Ascii.eqb c "m"%char then Some MessageFormatItem
      else if Ascii.eqb c "p"%char then Some LevelFormatItem
      else if Ascii.eqb c "r"%char then Some ElapseFormatItem
      else if Ascii.eqb c "c"%char then Some NameFormatItem
      else if Ascii.eqb c "t"%char then Some ThreadIdFormatItem
      else if Ascii.eqb c "n"%char then Some NewLineFormatItem
      else if Ascii.eqb c "d"%char then Some (new_DateTimeFormatItem fmt)
      else if Ascii.eqb c "f"%char then Some FileNameFormatItem
      else if Ascii.eqb c "l"%char then Some LineFormatItem
      else if Ascii.eqb c "T"%char then Some TabFormatItem
      else if Ascii.eqb c "F"%char then Some FiberIdFormatItem
      else if Ascii.eqb c "N"%char then Some ThreadNameFormatItem
      else None
  | _ => None
  end.

(** The item of an entry and whether it is an error. *)
Definition item_of (e : entry) : FormatItem * bool :=
  match e with
  | Literal s => (new_StringFormatItem s, false)
  | Item str fmt =>
      match format_items str fmt with
      | Some i => (i, false)
      | None => (new_StringFormatItem (txt "<<error_format %" ++ str ++ txt ">>"), true)
      end
  end.

Record LogFormatter := mkFormatter { m_pattern : text; m_items : list FormatItem; m_error : bool }.

(** [LogFormatter::init]. *)
Definition init (pattern : text) : option LogFormatter :=
  r ← parse (length pattern) [] pattern;
  let items := item_of <$> r.1 in
  Some (mkFormatter pattern items.*1 (r.2 || existsb snd items)).

Definition new_LogFormatter (pattern : text) : LogFormatter :=
  default (mkFormatter pattern [] true) (init pattern).

Definition format (strftime : text → Z → text) (f : LogFormatter) (level : Level) (event : LogEvent) : text :=
  concat (format_item strftime level event <$> m_items f).

(** *** Every pattern is parsed *)

Lemma scan_item_length name st l r : scan_item name st l = Some r → (length r.2 <= length l)%nat.
Proof.
  revert name st. induction l as [|c l IH]; intros name [[str fmt]|]; simpl; [done|by intros [= <-]|..].
  - destruct (Ascii.eqb c rbrace); [intros [= <-]; simpl; lia|]. intros H%IH. lia.
  - destruct (_ && _); [intros [= <-]; simpl; lia|]. destruct (Ascii.eqb c lbrace); intros H%IH; lia.
Qed.

Lemma parse_total fuel : ∀ nstr l, (length l <= fuel)%nat → is_Some (parse fuel nstr l).
Proof.
  induction fuel as [|fuel IH]; intros nstr [|c l] Hl; simpl in *; try lia; try (by eexists).
  destruct (negb (Ascii.eqb c percent)); [apply IH; lia|].
  destruct (match l with [] => false | c' :: _ => Ascii.eqb c' percent end); [apply IH; lia|].
  destruct (scan_item [] None l) as [[[str fmt] rest]|] eqn:E.
  - apply scan_item_length in E. simpl in E. destruct (IH [] rest) as [r ->]; [lia|]. by eexists.
  - destruct (IH nstr l) as [r ->]; [lia|]. by eexists.
Qed.

(** *** Patterns as text *)

Definition show (e : entry) : text :=
  match e with
  | Literal s => s
  | Item str fmt => percent :: str ++ match fmt with [] => [] | _ => lbrace :: fmt ++ [rbrace] end
  end.
Fixpoint show_all (es : list entry) : text :=
  match es with [] => [] | e :: es' => show e ++ show_all es' end.

(** A character that ends a name. *)
Definition ends_name (c : Ascii.ascii) : bool :=
  negb (is_alpha c) && negb (Ascii.eqb c lbrace) && negb (Ascii.eqb c rbrace).

Definition is_literal (e : entry) : bool := match e with Literal _ => true | _ => false end.

(** Literal text without percent signs between items, a name being letters
    and ended by braces or by a character that cannot be part of it. *)
Fixpoint pattern_ok (es : list entry) : Prop :=
  match es with
  | [] => True
  | Literal s :: es' =>
      s ≠ [] ∧ percent ∉ s ∧ match es' with e :: _ => is_literal e = false | [] => True end ∧ pattern_ok es'
  | Item str fmt :: es' =>
      str ≠ [] ∧ Forall (λ c, is_alpha c = true) str ∧ rbrace ∉ fmt ∧
      (fmt = [] → match show_all es' with c :: _ => ends_name c = true | [] => True end) ∧ pattern_ok es'
  end.

Lemma scan_name str rest : Forall (λ c, is_alpha c = true) str →
  ∀ name, scan_item name None (str ++ rest) = scan_item (name ++ str) None rest.
Proof.
  induction str as [|c str IH]; intros Hs name; simpl; [by rewrite app_nil_r|].
  apply list.Forall_cons in Hs as [Hc Hs]. rewrite Hc. cbn [negb andb].
  destruct (Ascii.eqb_spec c lbrace) as [->|_]; [by vm_compute in Hc|].
  rewrite IH by done. by rewrite <- app_assoc.
Qed.

Lemma scan_fmt fmt rest : rbrace ∉ fmt → ∀ name str acc,
  scan_item name (Some (str, acc)) (fmt ++ rbrace :: rest) = Some (str, acc ++ fmt, rest).
Proof.
  induction fmt as [|c fmt IH]; intros Hf name str acc; simpl; [by rewrite app_nil_r|].
  apply not_elem_of_cons in Hf as [Hc Hf]. destruct (Ascii.eqb_spec c rbrace) as [->|_]; [done|].
  rewrite IH by done. by rewrite <- app_assoc.
Qed.

Lemma scan_show str fmt rest :
  Forall (λ c, is_alpha c = true) str → rbrace ∉ fmt →
  (fmt = [] → match rest with c :: _ => ends_name c = true | [] => True end) →
  scan_item [] None (tail (show (Item str fmt)) ++ rest) = Some (str, fmt, rest).
Proof.
  intros Hs Hf Hr. simpl. rewrite <- app_assoc, scan_name by done. simpl. destruct fmt as [|c fmt].
  - specialize (Hr eq_refl). simpl. destruct rest as [|c rest]; [done|]. simpl. unfold ends_name in Hr. by rewrite Hr.
  - cbn [app scan_item]. change (negb (is_alpha lbrace) && negb (Ascii.eqb lbrace lbrace) && negb (Ascii.eqb lbrace rbrace))
      with false. cbv iota. change (Ascii.eqb lbrace lbrace) with true. cbv iota.
    rewrite <- app_assoc. exact (scan_fmt (c :: fmt) rest Hf str str []).
Qed.

Lemma parse_literal s rest : percent ∉ s → ∀ fuel nstr,
  parse (length s + fuel) nstr (s ++ rest) = parse fuel (nstr ++ s) rest.
Proof.
  induction s as [|c s IH]; intros Hs fuel nstr; simpl; [by rewrite app_nil_r|].
  apply not_elem_of_cons in Hs as [Hc Hs]. destruct (Ascii.eqb_spec c percent) as [->|_]; [done|]. simpl.
  rewrite IH by done. by rewrite <- app_assoc.
Qed.

Lemma parse_show es : ∀ fuel nstr,
  pattern_ok es → (length (show_all es) <= fuel)%nat →
  (nstr ≠ [] → match es with e :: _ => is_literal e = false | [] => True end) →
  parse fuel nstr (show_all es) = Some (flush_literal nstr ++ es, false).
Proof.
  induction es as [|[s|str fmt] es IH]; intros fuel nstr Hok Hfuel Hn.
  - destruct fuel; simpl; by rewrite app_nil_r.
  - destruct Hok as (Hs & Hp & Hnext & Hok). destruct nstr as [|c nstr]; [|by specialize (Hn ltac:(done))].
    simpl in *. rewrite length_app in Hfuel.
    replace fuel with (length s + (fuel - length s))%nat by lia. rewrite parse_literal by done.
    rewrite IH by (done || lia). by destruct s.
  - destruct Hok as (Hs & Ha & Hf & Hr & Hok). cbn [show_all] in *.
    change (show (Item str fmt)) with (percent :: tail (show (Item str fmt))) in *.
    remember (tail (show (Item str fmt))) as body eqn:Eb.
    assert (∃ c b, body = c :: b ∧ Ascii.eqb c percent = false) as (c & b & Ebc & Hc).
    { subst body. destruct str as [|c str]; [done|]. exists c. eexists. split; [reflexivity|].
      apply list.Forall_cons in Ha as [Ha _]. destruct (Ascii.eqb_spec c percent) as [->|]; [by vm_compute in Ha|done]. }
    cbn [app length] in Hfuel. destruct fuel as [|fuel]; [lia|]. cbn [app parse].
    change (Ascii.eqb percent percent) with true. cbn [negb]. rewrite Ebc at 1. cbn [app]. rewrite Hc.
    pose proof (scan_show str fmt (show_all es) Ha Hf Hr) as E. rewrite <- Eb in E. rewrite E.
    rewrite IH; [done|done| |done]. rewrite length_app in Hfuel. lia.
Qed.

(** C33: the parser of LogFormatter::init, on the text of a sequence of literals and items
    (%name or %name{format}) in which literals are not empty, hold no percent sign and are
    not adjacent, names are letters, formats hold no closing brace, and a name without a
    format is not followed by a letter or a brace, gives back exactly that sequence, literal
    texts included, without an error; init then returns the items of the sequence in order
    and sets m_error exactly when a name is not one of the known ones. (The %% escape is
    outside of it: the second percent sign is read again.) *)
Theorem pattern_roundtrip es :
  pattern_ok es →
  parse (length (show_all es)) [] (show_all es) = Some (es, false) ∧
  init (show_all es) = Some (new_LogFormatter (show_all es)) ∧
  m_items (new_LogFormatter (show_all es)) = (item_of <$> es).*1 ∧
  m_error (new_LogFormatter (show_all es)) = existsb snd (item_of <$> es).
Proof.
  intros Hok. pose proof (parse_show es (length (show_all es)) [] Hok ltac:(done) ltac:(done)) as E.
  unfold new_LogFormatter, init. rewrite E. done.
Qed.

(** ** Loggers and appenders *)

Inductive appender_kind := Stdout | File (m_filename : string) (m_lastTime : Z).

Record LogAppender := mkAppender {
  a_kind : appender_kind;
  a_level : Level;
  m_hasFormatter : bool;
  a_formatter : option LogFormatter
}.

(** Appenders are shared objects: a logger holds addresses. *)
Record Logger := mkLogger {
  l_name : string;
  l_level : Level;
  m_appenders : list Z;
  l_formatter : option LogFormatter;
  l_has_root : bool
}.

(** The loggers by name, the appenders by address, the next address, and what
    the appenders wrote. *)
Record LogSys := mkSys {
  m_loggers : gmap string Logger;
  appenders : gmap Z LogAppender;
  next_addr : Z;
  written : list (Z * text)
}.

Definition set_logger (name : string) (l : Logger) (s : LogSys) : LogSys :=
  mkSys (<[name := l]> (m_loggers s)) (appenders s) (next_addr s) (written s).
Definition set_appender (p : Z) (a : LogAppender) (s : LogSys) : LogSys :=
  mkSys (m_loggers s) (<[p := a]> (appenders s)) (next_addr s) (written s).
Definition write_text (p : Z) (t : text) (s : LogSys) : LogSys :=
  mkSys (m_loggers s) (appenders s) (next_addr s) (written s ++ [(p, t)]).

Definition logger_at (name : string) : M LogSys Logger :=
  s ← get; of_option "null logger" (m_loggers s !! name).
Definition appender_at (p : Z) : M LogSys LogAppender :=
  s ← get; of_option "null appender" (appenders s !! p).

Definition default_pattern : text := txt "%d{%Y-%m-%d %H:%M:%S}%T%t%T%N%T%F%T[%p]%T[%c]%T%f:%l%T%m%n".

Definition new_Logger (name : string) (has_root : bool) : Logger :=
  mkLogger name DEBUG [] (Some (new_LogFormatter default_pattern)) has_root.

Definition with_appenders (l : list Z) (lg : Logger) : Logger :=
  mkLogger (l_name lg) (l_level lg) l (l_formatter lg) (l_has_root lg).
Definition with_level (v : Level) (lg : Logger) : Logger :=
  mkLogger (l_name lg) v (m_appenders lg) (l_formatter lg) (l_has_root lg).
Definition with_formatter (f : option LogFormatter) (lg : Logger) : Logger :=
  mkLogger (l_name lg) (l_level lg) (m_appenders lg) f (l_has_root lg).

(** [new StdoutLogAppender] and [new FileLogAppender]. *)
Definition new_appender (k : appender_kind) : M LogSys Z :=
  s ← get;
  put (mkSys (m_loggers s) (<[next_addr s := mkAppender k DEBUG false None]> (appenders s))
         (next_addr s + 1) (written s));;
  mret (next_addr s).

(** [LogAppender::setFormatter] and [setLevel]. *)
Definition appender_setFormatter (p : Z) (val : option LogFormatter) : M LogSys unit :=
  a ← appender_at p;
  modify (set_appender p (mkAppender (a_kind a) (a_level a) (bool_decide (is_Some val)) val)).
Definition appender_setLevel (p : Z) (level : Level) : M LogSys unit :=
  a ← appender_at p;
  modify (set_appender p (mkAppender (a_kind a) level (m_hasFormatter a) (a_formatter a))).

Section logging.
Context (strftime : text → Z → text).

(** [StdoutLogAppender::log] and [FileLogAppender::log], less [reopen] and the
    stream, which [world_log] of LogFile.v has. *)
Definition appender_log (level : Level) (event : LogEvent) (p : Z) : M LogSys unit :=
  a ← appender_at p;
  if level_num level <? level_num (a_level a) then mret tt
  else
    (match a_kind a with
     | File f last =>
         if u64 (last + 3) <=? m_time event
         then modify (set_appender p (mkAppender (File f (m_time event)) (a_level a) (m_hasFormatter a) (a_formatter a)))
         else mret tt
     | Stdout => mret tt
     end);;
    f ← of_option "null formatter" (a_formatter a);
    modify (write_text p (format strftime f level event)).

Fixpoint appenders_log (level : Level) (event : LogEvent) (l : list Z) : M LogSys unit :=
  match l with
  | [] => mret tt
  | p :: l' => appender_log level event p;; appenders_log level event l'
  end.

(** [Logger::log], [root_log] being the call on [m_root]. *)
Definition log_with (root_log : M LogSys unit) (name : string) (level : Level) (event : LogEvent) : M LogSys unit :=
  lg ← logger_at name;
  if level_num level <? level_num (l_level lg) then mret tt
  else match m_appenders lg with
  | _ :: _ => appenders_log level event (m_appenders lg)
  | [] => if l_has_root lg then root_log else mret tt
  end.

(** The root logger has no [m_root]. *)
Definition log (name : string) (level : Level) (event : LogEvent) : M LogSys unit :=
  log_with (log_with (mret tt) "root" level event) name level event.

(** [PENG_LOG_LEVEL]: the level is tested, and the temporary logs the event
    when it is destroyed. *)
Definition log_macro (name : string) (level : Level) (event : LogEvent) : M LogSys unit :=
  lg ← logger_at name;
  if level_num (l_level lg) <=? level_num level then log name level event else mret tt.
End logging.

Definition addAppender (name : string) (p : Z) : M LogSys unit :=
  lg ← logger_at name;
  a ← appender_at p;
  (match a_formatter a with
   | None => modify (set_appender p (mkAppender (a_kind a) (a_level a) (m_hasFormatter a) (l_formatter lg)))
   | Some _ => mret tt
   end);;
  modify (set_logger name (with_appenders (m_appenders lg ++ [p]) lg)).

Fixpoint remove_first (p : Z) (l : list Z) : list Z :=
  match l with [] => [] | q :: l' => if q =? p then l' else q :: remove_first p l' end.

Definition delAppender (name : string) (p : Z) : M LogSys unit :=
  lg ← logger_at name; modify (set_logger name (with_appenders (remove_first p (m_appenders lg)) lg)).

Definition clearAppender (name : string) : M LogSys unit :=
  lg ← logger_at name; modify (set_logger name (with_appenders [] lg)).

Definition setLevel (name : string) (val : Level) : M LogSys unit :=
  lg ← logger_at name; modify (set_logger name (with_level val lg)).

(** The loop of [Logger::setFormatter]. *)
Fixpoint share_formatter (f : option LogFormatter) (l : list Z) : M LogSys unit :=
  match l with
  | [] => mret tt
  | p :: l' =>
      a ← appender_at p;
      (if m_hasFormatter a then mret tt
       else modify (set_appender p (mkAppender (a_kind a) (a_level a) (m_hasFormatter a) f)));;
      share_formatter f l'
  end.

Definition setFormatter (name : string) (val : option LogFormatter) : M LogSys unit :=
  lg ← logger_at name;
  modify (set_logger name (with_formatter val lg));;
  share_formatter val (m_appenders lg).

(** [setFormatter(const std::string &)]: an invalid pattern changes nothing. *)
Definition setFormatter_pattern (name : string) (val : text) : M LogSys unit :=
  let f := new_LogFormatter val in
  if m_error f then mret tt else setFormatter name (Some f).

(** [LoggerManager::LoggerManager]: the root logger writes to standard
    output. *)
Definition new_LoggerManager : M LogSys unit :=
  put (mkSys {["root" := new_Logger "root" false]} ∅ 0 []);;
  p ← new_appender Stdout;
  addAppender "root" p.

Definition getLogger (name : string) : M LogSys unit :=
  s ← get;
  match m_loggers s !! name with
  | Some _ => mret tt
  | None => modify (set_logger name (new_Logger name true))
  end.

(** ** Configuration of the loggers *)

Record LogAppenderDefine := mkLAD { ad_type : Z; ad_level : Level; ad_formatter : string; ad_file : string }.
Record LogDefine := mkLD {
  ld_name : string;
  ld_level : Level;
  ld_formatter : string;
  ld_appenders : list LogAppenderDefine
}.

(** [operator==]. *)
#[global] Instance LogAppenderDefine_eq_dec : EqDecision LogAppenderDefine.
Proof. solve_decision. Defined.
#[global] Instance LogDefine_eq_dec : EqDecision LogDefine.
Proof. solve_decision. Defined.

Section define_casts.
Context `{Y : Yaml}.
(** [as<std::string>()] of a node. *)
Context (as_string : YNode → option string).

Fixpoint member (key : string) (l : list (string * YNode)) : option YNode :=
  match l with [] => None | (k, n) :: l' => if String.eqb k key then Some n else member key l' end.

(** [n[key]]: [None] outside when it throws, inside when it is not
    defined. *)
Definition field (key : string) (n : YNode) : option (option YNode) :=
  match n with
  | Map l => Some (member key l)
  | Scalar _ => None
  | _ => Some None
  end.

(** A member that may be missing. *)
Definition string_field (key : string) (n : YNode) : option string :=
  o ← field key n;
  match o with Some m => as_string m | None => Some "" end.

(** One appender; [None] inside when it is skipped. *)
Definition appender_define (a : YNode) : option (option LogAppenderDefine) :=
  t ← field "type" a;
  match t with
  | None => Some None
  | Some t =>
      type ← as_string t;
      if String.eqb type "FileLogAppender" then
        f ← field "file" a;
        match f with
        | None => Some None
        | Some f =>
            file ← as_string f;
            fm ← string_field "formatter" a;
            Some (Some (mkLAD 1 UNKNOW fm file))
        end
      else if String.eqb type "StdoutLogAppender" then
        fm ← string_field "formatter" a;
        Some (Some (mkLAD 2 UNKNOW fm ""))
      else Some None
  end.

(** [LexicalCast<std::string, LogDefine>]. *)
Definition LogDefine_from_str (v : string) : option LogDefine :=
  n ← Load v;
  nm ← field "name" n;
  nm ← nm;
  name ← as_string nm;
  level ← string_field "level" n;
  formatter ← string_field "formatter" n;
  aps ← field "appenders" n;
  l ← match aps with
      | None => Some []
      | Some aps => mapM (λ x, appender_define (index aps x)) (seq 0 (node_size aps))
      end;
  Some (mkLD name (FromString level) formatter (omap id l)).

Definition level_field (level : Level) : list (string * YNode) :=
  match level with UNKNOW => [] | _ => [("level", Scalar (ToString level))] end.
Definition formatter_field (f : string) : list (string * YNode) :=
  if String.eqb f "" then [] else [("formatter", Scalar f)].

Definition appender_node (a : LogAppenderDefine) : YNode :=
  match (if ad_type a =? 1 then [("type", Scalar "FileLogAppender"); ("file", Scalar (ad_file a))]
         else if ad_type a =? 2 then [("type", Scalar "StdoutLogAppender")] else []) ++
        level_field (ad_level a) ++ formatter_field (ad_formatter a) with
  | [] => Null
  | l => Map l
  end.

(** [LexicalCast<LogDefine, std::string>]. *)
Definition LogDefine_to_str (i : LogDefine) : string :=
  Dump (Map (("name", Scalar (ld_name i)) :: level_field (ld_level i) ++ formatter_field (ld_formatter i) ++
    match ld_appenders i with [] => [] | l => [("appender", Sequence (appender_node <$> l))] end)).
End define_casts.

(** *** The listener of [logs] *)

(** The appenders of a definition; the text on standard output about an invalid
    pattern is no part of the state. *)
Fixpoint build_appenders (name : string) (l : list LogAppenderDefine) : M LogSys unit :=
  match l with
  | [] => mret tt
  | a :: l' =>
      (match (if ad_type a =? 1 then Some (File (ad_file a) 0) else if ad_type a =? 2 then Some Stdout else None) with
       | None => mret tt
       | Some k =>
           ap ← new_appender k;
           appender_setLevel ap (ad_level a);;
           (if String.eqb (ad_formatter a) "" then mret tt
            else
              let fmt := new_LogFormatter (txt (ad_formatter a)) in
              if m_error fmt then mret tt else appender_setFormatter ap (Some fmt));;
           addAppender name ap
       end);;
      build_appenders name l'
  end.

(** A definition that is new or changed. *)
Definition apply_define (i : LogDefine) : M LogSys unit :=
  getLogger (ld_name i);;
  setLevel (ld_name i) (ld_level i);;
  (if String.eqb (ld_formatter i) "" then mret tt else setFormatter_pattern (ld_name i) (txt (ld_formatter i)));;
  clearAppender (ld_name i);;
  build_appenders (ld_name i) (ld_appenders i).

Fixpoint apply_new (old_value : gmap string LogDefine) (l : list LogDefine) : M LogSys unit :=
  match l with
  | [] => mret tt
  | i :: l' =>
      (if bool_decide (old_value !! ld_name i = Some i) then mret tt else apply_define i);;
      apply_new old_value l'
  end.

Definition drop_logger (name : string) : M LogSys unit :=
  getLogger name;; setLevel name UNKNOW;; clearAppender name.

Fixpoint drop_old (new_value : gmap string LogDefine) (l : list LogDefine) : M LogSys unit :=
  match l with
  | [] => mret tt
  | i :: l' =>
      (match new_value !! ld_name i with Some _ => mret tt | None => drop_logger (ld_name i) end);;
      drop_old new_value l'
  end.

(** The sets of definitions are ordered by name and compared by it; they are
    given as maps from names and visited in the order of the names. *)
Definition by_ld_name (i j : LogDefine) : Prop := String.leb (ld_name i) (ld_name j) = true.
#[global] Instance by_ld_name_dec : RelDecision by_ld_name.
Proof. intros i j. unfold by_ld_name. apply _. Defined.
Definition visit (v : gmap string LogDefine) : list LogDefine :=
  merge_sort by_ld_name ((map_to_list v).*2).

(** Where and when a statement logs: the file it is compiled from, the thread
    and its name, the fiber and the time. *)
Record moment := mkMoment { at_file : string; at_thread : Z; at_fiber : Z; at_time : Z; at_name : string }.

(** The event of the listener's first statement. *)
Definition conf_event (now : moment) : LogEvent :=
  mkEvent (at_file now) 682 0 (at_thread now) (at_fiber now) (at_time now) (at_name now)
    (txt "on_logger_conf_changed") "root" INFO.

(** The message goes to the root logger as it was before the change. *)
Definition conf_changed (strftime : text → Z → text) (now : moment) (old_value new_value : gmap string LogDefine) :
    M LogSys unit :=
  log_macro strftime "root" INFO (conf_event now);;
  apply_new old_value (visit new_value);;
  drop_old new_value (visit old_value).

(** ** Dispatch *)

(** Every appender of a logger exists and has a formatter. *)
Definition log_ok (s : LogSys) : Prop :=
  ∀ name lg p, m_loggers s !! name = Some lg → p ∈ m_appenders lg →
    ∃ a f, appenders s !! p = Some a ∧ a_formatter a = Some f.

(** The appenders an event of a logger goes to. *)
Definition targets (lg root : Logger) (level : Level) : list Z :=
  if level_num level <? level_num (l_level lg) then []
  else match m_appenders lg with
  | _ :: _ => m_appenders lg
  | [] =>
      if l_has_root lg then if level_num level <? level_num (l_level root) then [] else m_appenders root
      else []
  end.

(** The class and file of an appender. *)
Definition target_of (k : appender_kind) : appender_kind :=
  match k with Stdout => Stdout | File f _ => File f 0 end.

(** What is configured of an appender. *)
Definition settings (a : LogAppender) : appender_kind * Level * bool * option LogFormatter :=
  (target_of (a_kind a), a_level a, m_hasFormatter a, a_formatter a).

Section dispatch.
Context (strftime : text → Z → text).

(** What an appender writes for an event. *)
Definition line_of (s : LogSys) (level : Level) (event : LogEvent) (p : Z) : option (Z * text) :=
  a ← appenders s !! p;
  f ← a_formatter a;
  if level_num level <? level_num (a_level a) then None else Some (p, format strftime f level event).

(** The loggers, and the appenders but for the time of the last [reopen]. *)
Definition same_config (s s' : LogSys) : Prop :=
  m_loggers s' = m_loggers s ∧ next_addr s' = next_addr s ∧
  ∀ p, settings <$> appenders s' !! p = settings <$> appenders s !! p.

Lemma same_config_refl s : same_config s s.
Proof. done. Qed.

Lemma same_config_trans s1 s2 s3 : same_config s1 s2 → same_config s2 s3 → same_config s1 s3.
Proof.
  intros (H1 & H2 & H3) (H4 & H5 & H6). split_and!; [by rewrite H4|by rewrite H5|]. intros p. by rewrite H6.
Qed.

Lemma same_config_at s s' p a : same_config s s' → appenders s !! p = Some a →
  ∃ a', appenders s' !! p = Some a' ∧ settings a' = settings a.
Proof.
  intros (_ & _ & H) Ha. specialize (H p). rewrite Ha in H. destruct (appenders s' !! p) as [a'|]; [|done].
  apply (inj Some) in H. by exists a'.
Qed.

Lemma same_config_line s s' level event p : same_config s s' → line_of s' level event p = line_of s level event p.
Proof.
  intros (_ & _ & H). specialize (H p). unfold line_of.
  destruct (appenders s' !! p) as [a'|], (appenders s !! p) as [a|]; try done. simpl in *.
  injection H as _ H1 _ H2. by rewrite H1, H2.
Qed.

Lemma same_config_ok s s' : same_config s s' → log_ok s → log_ok s'.
Proof.
  intros Hs Hok name lg p Hl Hp. rewrite (proj1 Hs) in Hl. destruct (Hok name lg p Hl Hp) as (a & f & Ha & Hf).
  destruct (same_config_at s s' p a Hs Ha) as (a' & Ha' & [= _ _ _ E]). exists a', f. split; [done|congruence].
Qed.

Lemma appender_log_run s level event p a f :
  appenders s !! p = Some a → a_formatter a = Some f →
  ∃ s', appender_log strftime level event p s = Ok tt s' ∧ same_config s s' ∧
    written s' = written s ++ option_list (line_of s level event p).
Proof.
  intros Ha Hf. unfold appender_log, appender_at, line_of. rewrite Ha. cbn [mbind option_bind]. rewrite Hf.
  cbn [mbind option_bind]. mrun. rewrite Ha. destruct (level_num level <? level_num (a_level a)) eqn:El.
  { exists s. split_and!; [done|apply same_config_refl|]. by rewrite app_nil_r. }
  assert (∀ k, target_of k = target_of (a_kind a) → same_config s (write_text p (format strftime f level event)
    (set_appender p (mkAppender k (a_level a) (m_hasFormatter a) (a_formatter a)) s))) as Hsame.
  { intros k Hk. split_and!; [done..|]. intros q. cbn. destruct (decide (p = q)) as [<-|Hne].
    - rewrite lookup_insert_eq, Ha. unfold settings. cbn. by rewrite Hk.
    - by rewrite lookup_insert_ne. }
  destruct (a_kind a) as [|file last].
  - rewrite Hf. eexists. split_and!; [reflexivity|done|done].
  - destruct (u64 (last + 3) <=? m_time event); rewrite Hf; eexists; (split_and!; [reflexivity| |done]); [|done].
    rewrite <- Hf. by apply Hsame.
Qed.

Lemma appenders_log_run level event l : ∀ s,
  (∀ p, p ∈ l → ∃ a f, appenders s !! p = Some a ∧ a_formatter a = Some f) →
  ∃ s', appenders_log strftime level event l s = Ok tt s' ∧ same_config s s' ∧
    written s' = written s ++ omap (line_of s level event) l.
Proof.
  induction l as [|p l IH]; intros s Hl; simpl.
  { exists s. split_and!; [done|apply same_config_refl|]. by rewrite app_nil_r. }
  destruct (Hl p) as (a & f & Ha & Hf); [by left|].
  destruct (appender_log_run s level event p a f Ha Hf) as (s1 & E1 & H1 & W1).
  destruct (IH s1) as (s2 & E2 & H2 & W2).
  { intros q Hq. destruct (Hl q) as (b & g & Hb & Hg); [by right|].
    destruct (same_config_at s s1 q b H1 Hb) as (b' & Hb' & [= _ _ _ Eb]). exists b', g. split; [done|congruence]. }
  exists s2. split_and!; [by mstep E1|by eapply same_config_trans|].
  rewrite W2, W1, <- app_assoc. f_equal.
  assert (omap (line_of s1 level event) l = omap (line_of s level event) l) as ->.
  { apply list_omap_ext, Forall2_same_length_lookup; split; [done|]. intros i x y Hx Hy. simplify_eq. by apply same_config_line. }
  by destruct (line_of s level event p).
Qed.

(** An event reaches the appenders it should. *)
Lemma log_run s name lg root level event :
  log_ok s → m_loggers s !! name = Some lg → m_loggers s !! "root" = Some root →
  ∃ s', log strftime name level event s = Ok tt s' ∧ same_config s s' ∧ log_ok s' ∧
    written s' = written s ++ omap (line_of s level event) (targets lg root level) ∧
    log_macro strftime name level event s = Ok tt s'.
Proof.
  intros Hok Hl Hr.
  assert (∃ s', log strftime name level event s = Ok tt s' ∧ same_config s s' ∧
    written s' = written s ++ omap (line_of s level event) (targets lg root level)) as (s' & E & Hs & W).
  { unfold log, log_with, logger_at, targets. mrun. rewrite Hl.
    destruct (level_num level <? level_num (l_level lg)).
    { exists s. split_and!; [done|apply same_config_refl|]. by rewrite app_nil_r. }
    destruct (m_appenders lg) as [|p l] eqn:Ea.
    - destruct (l_has_root lg); [|exists s; split_and!; [done|apply same_config_refl|by rewrite app_nil_r]].
      rewrite Hr. destruct (level_num level <? level_num (l_level root)).
      { exists s. split_and!; [done|apply same_config_refl|]. by rewrite app_nil_r. }
      destruct (m_appenders root) as [|q l] eqn:Eb.
      { exists s. split_and!; [by destruct (l_has_root root)|apply same_config_refl|]. by rewrite app_nil_r. }
      apply appenders_log_run. intros x Hx. apply (Hok "root" root); [done|]. by rewrite Eb.
    - apply appenders_log_run. intros x Hx. apply (Hok name lg); [done|]. by rewrite Ea. }
  exists s'. split_and!; [done|done|by eapply same_config_ok|done|]. unfold log_macro, logger_at. mrun. rewrite Hl.
  destruct (level_num (l_level lg) <=? level_num level) eqn:El; [exact E|].
  unfold log, log_with, logger_at in E. revert E. mrun. rewrite Hl.
  rewrite (proj2 (Z.ltb_lt _ _)) by lia. done.
Qed.

(** C34: Logger::log of an event at or above the logger's level writes one formatted line to
    each of its appenders whose level allows it, in order, or to those of the root logger
    when it has none and the root's level allows it, and nothing otherwise; configuration is
    unchanged and the level test of the macro agrees. *)
Theorem log_dispatch s name lg root level event :
  log_ok s → m_loggers s !! name = Some lg → m_loggers s !! "root" = Some root →
  ∃ s', log strftime name level event s = Ok tt s' ∧ same_config s s' ∧ log_ok s' ∧
    written s' = written s ++ omap (line_of s level event) (targets lg root level) ∧
    log_macro strftime name level event s = Ok tt s'.
Proof. apply log_run. Qed.
End dispatch.

(** ** Conversion of definitions *)

Lemma FromString_ToString l : FromString (ToString l) = l.
Proof. by destruct l. Qed.

(** The text of a definition of a logger reads back without its appenders. *)
Theorem log_define_text `{Y : Yaml} `{!YamlLaws Y} (as_string : YNode → option string) i :
  (∀ s, as_string (Scalar s) = Some s) →
  LogDefine_from_str as_string (LogDefine_to_str i) =
    Some (mkLD (ld_name i) (ld_level i) (ld_formatter i) []).
Proof.
  intros Has. unfold LogDefine_from_str, LogDefine_to_str. rewrite load_dump. cbn [mbind option_bind].
  unfold string_field. destruct i as [name level fm l]. cbn [ld_name ld_level ld_formatter ld_appenders].
  unfold formatter_field. destruct (String.eqb_spec fm "") as [->|_], l as [|a l], level;
    cbn; rewrite ?Has; cbn; rewrite ?Has; reflexivity.
Qed.

(** ** Applying a configuration *)

(** The class, file and level of an appender. *)
Definition shape (s : LogSys) (p : Z) : option (appender_kind * Level) :=
  (λ a, (target_of (a_kind a), a_level a)) <$> appenders s !! p.

(** An appender that can write. *)
Definition ready (s : LogSys) (p : Z) : Prop :=
  ∃ a, appenders s !! p = Some a ∧ is_Some (a_formatter a).

(** Addresses not given out are free, loggers have formatters and hold
    appenders that can write, and there is a root logger. *)
Record sys_ok (s : LogSys) : Prop := {
  so_free p : next_addr s <= p → appenders s !! p = None;
  so_ready name lg p : m_loggers s !! name = Some lg → p ∈ m_appenders lg → ready s p;
  so_formatter name lg : m_loggers s !! name = Some lg → is_Some (l_formatter lg);
  so_root : is_Some (m_loggers s !! "root")
}.

Lemma sys_ok_log s : sys_ok s → log_ok s.
Proof. intros H name lg p Hl Hp. destruct (so_ready s H name lg p Hl Hp) as (a & Ha & f & Hf). by exists a, f. Qed.

(** Only logger [name] changed, no appender lost its shape, and nothing was
    written. *)
Record frame (name : string) (s s' : LogSys) : Prop := {
  fr_ok : sys_ok s';
  fr_other n : n ≠ name → m_loggers s' !! n = m_loggers s !! n;
  fr_shape p x : shape s p = Some x → shape s' p = Some x;
  fr_written : written s' = written s
}.

(** An appender that is replaced or added, by one that can write. *)
Lemma ready_insert s m n w p a q : is_Some (a_formatter a) → ready s q →
  ready (mkSys m (<[p := a]> (appenders s)) n w) q.
Proof.
  intros Ha (b & Hb & Hf). unfold ready. cbn. destruct (decide (p = q)) as [<-|Hne].
  - rewrite lookup_insert_eq. by exists a.
  - rewrite lookup_insert_ne by done. by exists b.
Qed.

(** A lookup after an insertion that keeps what is asked. *)
Lemma is_Some_insert {A} (m : gmap string A) k k' x : is_Some (m !! k') → is_Some (<[k := x]> m !! k').
Proof. rewrite lookup_insert_is_Some'. tauto. Qed.

Lemma frame_trans name s1 s2 s3 : frame name s1 s2 → frame name s2 s3 → frame name s1 s3.
Proof.
  intros [H1 H2 H3 Hw] [H4 H5 H6 Hw']. split; [done| | |by rewrite Hw'].
  - intros n Hn. by rewrite H5, H2.
  - intros p x Hp. by apply H6, H3.
Qed.

Lemma frame_refl name s : sys_ok s → frame name s s.
Proof. by split. Qed.

(** A logger is replaced by one with a formatter and appenders that can write. *)
Lemma frame_set_logger s name lg :
  sys_ok s → is_Some (l_formatter lg) → (∀ p, p ∈ m_appenders lg → ready s p) → frame name s (set_logger name lg s).
Proof.
  intros [Hf Hl Hm Hr] Hfm Hlg. split; [split; [done|..]| |done|done].
  - cbn. intros n l p [[<- <-]|[_ H]]%lookup_insert_Some; [apply Hlg|by apply (Hl n l p)].
  - cbn. intros n l [[<- <-]|[_ H]]%lookup_insert_Some; [done|by apply (Hm n l)].
  - by apply is_Some_insert.
  - intros n Hn. cbn. by rewrite lookup_insert_ne.
Qed.

(** An appender is replaced by one of the same shape that can write. *)
Lemma frame_set_appender s name p a a' :
  sys_ok s → appenders s !! p = Some a → a_kind a' = a_kind a → a_level a' = a_level a → is_Some (a_formatter a') →
  frame name s (set_appender p a' s).
Proof.
  intros [Hf Hl Hm Hr] Ha Hk Hv Hfm. split; [split; [| |exact Hm|done]|done| |done].
  - intros q Hq. cbn in *. destruct (decide (p = q)) as [<-|Hne]; [by rewrite Hf in Ha|].
    rewrite lookup_insert_ne by done. by apply Hf.
  - intros n l q Hn Hq. apply ready_insert; [done|]. by eapply Hl.
  - intros q x. unfold shape. cbn. destruct (decide (p = q)) as [<-|Hne].
    + rewrite Ha, lookup_insert_eq. simpl. by rewrite Hk, Hv.
    + by rewrite lookup_insert_ne.
Qed.

Lemma getLogger_run s name : sys_ok s →
  ∃ lg, getLogger name s = Ok tt (set_logger name lg s) ∧ frame name s (set_logger name lg s).
Proof.
  intros Hok. unfold getLogger. rewrite bind_get. destruct (m_loggers s !! name) as [lg|] eqn:E.
  - exists lg. assert (set_logger name lg s = s) as ->.
    { destruct s. unfold set_logger. cbn in *. by rewrite insert_id. }
    split; [done|by apply frame_refl].
  - exists (new_Logger name true). split; [done|]. apply frame_set_logger; [done|by eexists|]. intros p Hp. by apply elem_of_nil in Hp.
Qed.

Lemma logger_at_run s name lg : m_loggers s !! name = Some lg → logger_at name s = Ok lg s.
Proof. intros E. unfold logger_at. mrun. by rewrite E. Qed.

Lemma appender_at_run s p a : appenders s !! p = Some a → appender_at p s = Ok a s.
Proof. intros E. unfold appender_at. mrun. by rewrite E. Qed.

Lemma share_formatter_run f l : ∀ s name, sys_ok s → (∀ p, p ∈ l → ready s p) →
  ∃ s', share_formatter (Some f) l s = Ok tt s' ∧ frame name s s' ∧ m_loggers s' = m_loggers s.
Proof.
  induction l as [|p l IH]; intros s name Hok Hl; simpl.
  { exists s. split_and!; [done|by apply frame_refl|done]. }
  destruct (Hl p) as (a & Ha & _); [by left|]. mstep (appender_at_run s p a Ha). destruct (m_hasFormatter a).
  - rewrite bind_mret. apply IH; [done|]. intros q Hq. apply Hl. by right.
  - rewrite bind_modify. set (s1 := set_appender _ _ _).
    assert (frame name s s1) as F by (eapply frame_set_appender; [done|done|done|done|by eexists]).
    destruct (IH s1 name (fr_ok _ _ _ F)) as (s' & E & F' & El).
    { intros q Hq. apply ready_insert; [by eexists|]. apply Hl. by right. }
    exists s'. split_and!; [done|by eapply frame_trans|by rewrite El].
Qed.

(** The operations of [apply_define] on its logger. *)
Lemma prepare_run s name level fm : sys_ok s → is_Some (m_loggers s !! name) →
  ∃ s' lg, (setLevel name level;;
    (if String.eqb fm "" then mret tt else setFormatter_pattern name (txt fm));;
    clearAppender name) s = Ok tt s' ∧ frame name s s' ∧
    m_loggers s' !! name = Some lg ∧ l_level lg = level ∧ m_appenders lg = [].
Proof.
  intros Hok [lg Hlg]. pose proof (so_formatter s Hok name lg Hlg) as Hfm. set (s1 := set_logger name (with_level level lg) s).
  assert (frame name s s1) as F1 by (apply frame_set_logger; [done|done|]; intros p Hp; by eapply so_ready).
  assert (setLevel name level s = Ok tt s1) as E1 by (unfold setLevel; by mstep (logger_at_run s name lg Hlg)).
  mstep E1. assert (∃ s2 lg2, (if String.eqb fm "" then mret tt else setFormatter_pattern name (txt fm)) s1 = Ok tt s2 ∧
    frame name s1 s2 ∧ m_loggers s2 !! name = Some lg2 ∧ l_level lg2 = level) as (s2 & lg2 & E2 & F2 & Hlg2 & Hlv).
  { assert (m_loggers s1 !! name = Some (with_level level lg)) as Hlg1 by apply lookup_insert_eq.
    pose proof (fr_ok _ _ _ F1) as Hok1.
    assert (∃ s2 lg2, (mret tt : M LogSys unit) s1 = Ok tt s2 ∧ frame name s1 s2 ∧ m_loggers s2 !! name = Some lg2 ∧ l_level lg2 = level) as Hsame.
    { exists s1, (with_level level lg). split_and!; [done|by apply frame_refl|done|done]. }
    destruct (String.eqb fm ""); [done|]. unfold setFormatter_pattern. destruct (m_error _); [done|].
    unfold setFormatter. mstep (logger_at_run s1 name _ Hlg1). rewrite bind_modify. set (lg' := with_formatter _ _).
    assert (frame name s1 (set_logger name lg' s1)) as F by (apply frame_set_logger; [done|by eexists|]; intros p Hp; by eapply (so_ready _ Hok1)).
    destruct (share_formatter_run (new_LogFormatter (txt fm)) (m_appenders (with_level level lg)) _ name (fr_ok _ _ _ F))
      as (s2 & E & F' & El).
    { intros p Hp. by eapply (so_ready _ Hok1). }
    exists s2, lg'. split_and!; [done|by eapply frame_trans|rewrite El; apply lookup_insert_eq|done]. }
  mstep E2. unfold clearAppender. mstep (logger_at_run s2 name lg2 Hlg2).
  exists (set_logger name (with_appenders [] lg2) s2), (with_appenders [] lg2). split_and!; [done| |apply lookup_insert_eq|done|done].
  eapply frame_trans; [done|]. eapply frame_trans; [done|]. apply frame_set_logger; [apply (fr_ok _ _ _ F2)|by apply (so_formatter _ (fr_ok _ _ _ F2) name lg2)|].
  intros p Hp. by apply elem_of_nil in Hp.
Qed.

Definition kind_of (a : LogAppenderDefine) : option appender_kind :=
  if ad_type a =? 1 then Some (File (ad_file a) 0) else if ad_type a =? 2 then Some Stdout else None.

Lemma target_of_kind a k : kind_of a = Some k → target_of k = k.
Proof. unfold kind_of. repeat case_match; by intros [= <-]. Qed.

(** A definition of an appender and the appender made for it. *)
Definition realises (s : LogSys) (a : LogAppenderDefine) (p : Z) : Prop :=
  ∃ k, kind_of a = Some k ∧ shape s p = Some (k, ad_level a).

(** The state with a new appender at the end of a logger. *)
Definition appended (s : LogSys) (name : string) (lg : Logger) (a : LogAppender) : LogSys :=
  mkSys (<[name := with_appenders (m_appenders lg ++ [next_addr s]) lg]> (m_loggers s))
    (<[next_addr s := a]> (appenders s)) (next_addr s + 1) (written s).

Lemma frame_appended s name lg a :
  sys_ok s → m_loggers s !! name = Some lg → is_Some (a_formatter a) → frame name s (appended s name lg a).
Proof.
  intros [Hf Hl Hm Hr] Hlg Ha. split; [split| | |done].
  - intros p Hp. cbn in *. rewrite lookup_insert_ne by lia. apply Hf. lia.
  - cbn [appended m_loggers]. intros n l p [[<- <-]|[_ H]]%lookup_insert_Some Hp; [|apply ready_insert; [done|by apply (Hl n l)]].
    cbn in Hp. apply elem_of_app in Hp as [Hp|Hp%list_elem_of_singleton]; [apply ready_insert; [done|by apply (Hl name lg)]|].
    subst p. exists a. split; [apply lookup_insert_eq|done].
  - cbn. intros n l [[<- <-]|[_ H]]%lookup_insert_Some; [by apply (Hm name lg)|by apply (Hm n l)].
  - by apply is_Some_insert.
  - intros n Hn. cbn. by rewrite lookup_insert_ne.
  - intros p x Hp. unfold shape in *. cbn. destruct (decide (next_addr s = p)) as [<-|Hq].
    + rewrite Hf in Hp by lia. done.
    + by rewrite lookup_insert_ne.
Qed.

Lemma build_one_run s name lg k level fm :
  m_loggers s !! name = Some lg → is_Some (l_formatter lg) →
  ∃ a, (ap ← new_appender k;
    appender_setLevel ap level;;
    (if String.eqb fm "" then mret tt
     else
       let fmt := new_LogFormatter (txt fm) in
       if m_error fmt then mret tt else appender_setFormatter ap (Some fmt));;
    addAppender name ap) s = Ok tt (appended s name lg a) ∧ a_kind a = k ∧ a_level a = level ∧ is_Some (a_formatter a).
Proof.
  intros Hlg Hfm. unfold new_appender, appender_setLevel, appender_setFormatter, addAppender, appended,
    logger_at, appender_at, set_appender, set_logger. mrun. cbn [appenders m_loggers next_addr written].
  rewrite lookup_insert_eq. cbn [a_kind a_level m_hasFormatter a_formatter].
  destruct (String.eqb fm ""); [|destruct (m_error (new_LogFormatter (txt fm)))];
    repeat first [rewrite Hlg | rewrite lookup_insert_eq
      | progress cbn [appenders m_loggers next_addr written a_kind a_level m_hasFormatter a_formatter]];
    rewrite ?insert_insert_eq; eexists; (split_and!; [reflexivity..|]); [done|done|by eexists].
Qed.

Lemma build_run name l : ∀ s lg, sys_ok s → m_loggers s !! name = Some lg →
  ∃ s' lg' ps, build_appenders name l s = Ok tt s' ∧ frame name s s' ∧ m_loggers s' !! name = Some lg' ∧
    l_level lg' = l_level lg ∧ m_appenders lg' = m_appenders lg ++ ps ∧
    Forall2 (realises s') (filter (λ a, is_Some (kind_of a)) l) ps.
Proof.
  induction l as [|a l IH]; intros s lg Hok Hlg; cbn [build_appenders].
  { exists s, lg, []. split_and!; [done|by apply frame_refl|done|done|by rewrite app_nil_r|constructor]. }
  fold (kind_of a). destruct (kind_of a) as [k|] eqn:Ek.
  - destruct (build_one_run s name lg k (ad_level a) (ad_formatter a) Hlg (so_formatter s Hok name lg Hlg))
      as (b & E & Hk & Hv & Hb). rewrite (bind_ok _ _ _ _ _ E).
    pose proof (frame_appended s name lg b Hok Hlg Hb) as F.
    destruct (IH (appended s name lg b) (with_appenders (m_appenders lg ++ [next_addr s]) lg) (fr_ok _ _ _ F))
      as (s' & lg' & ps & E' & F' & Hlg' & Hlv & Hap & H2); [apply lookup_insert_eq|].
    exists s', lg', (next_addr s :: ps). split_and!; [done|by eapply frame_trans|done|done| |].
    + rewrite Hap. cbn. by rewrite <- app_assoc.
    + rewrite filter_cons_True by (by eexists). constructor; [|done]. exists k. split; [done|].
      apply (fr_shape _ _ _ F'). unfold shape. cbn. rewrite lookup_insert_eq. simpl. by rewrite Hk, Hv, (target_of_kind a k).
  - rewrite bind_mret. destruct (IH s lg Hok Hlg) as (s' & lg' & ps & H). exists s', lg', ps.
    rewrite filter_cons_False; [done|]. rewrite Ek. intros [? [=]].
Qed.

(** *** The listener *)

(** What a definition asks of its logger. *)
Definition applied (s : LogSys) (i : LogDefine) : Prop :=
  ∃ lg, m_loggers s !! ld_name i = Some lg ∧ l_level lg = ld_level i ∧
    Forall2 (realises s) (filter (λ a, is_Some (kind_of a)) (ld_appenders i)) (m_appenders lg).

Lemma applied_frame name s s' i : frame name s s' → ld_name i ≠ name → applied s i → applied s' i.
Proof.
  intros F Hn (lg & Hl & Hv & H). exists lg. split_and!; [by rewrite (fr_other _ _ _ F)|done|].
  eapply list.Forall2_impl; [exact H|]. intros a p (k & Hk & Hp). exists k. split; [done|]. by apply (fr_shape _ _ _ F).
Qed.

Lemma apply_define_run s i : sys_ok s →
  ∃ s', apply_define i s = Ok tt s' ∧ frame (ld_name i) s s' ∧ applied s' i.
Proof.
  intros Hok. unfold apply_define. destruct (getLogger_run s (ld_name i) Hok) as (lg0 & E0 & F0).
  mstep E0. destruct (prepare_run _ (ld_name i) (ld_level i) (ld_formatter i) (fr_ok _ _ _ F0))
    as (s1 & lg1 & E1 & F1 & Hlg1 & Hv1 & Ha1); [exists lg0; apply lookup_insert_eq|].
  destruct (build_run (ld_name i) (ld_appenders i) s1 lg1 (fr_ok _ _ _ F1) Hlg1)
    as (s2 & lg2 & ps & E2 & F2 & Hlg2 & Hv2 & Ha2 & H2).
  exists s2. split_and!.
  - revert E1. intros E1. minv E1. minv E1. mstep E. mstep E3. mstep E1. exact E2.
  - eapply frame_trans; [done|]. by eapply frame_trans.
  - exists lg2. split_and!; [done|by rewrite Hv2|]. rewrite Ha2, Ha1. done.
Qed.

(** A removed logger. *)
Definition dropped (s : LogSys) (name : string) : Prop :=
  ∃ lg, m_loggers s !! name = Some lg ∧ l_level lg = UNKNOW ∧ m_appenders lg = [].

Lemma drop_logger_run s name : sys_ok s →
  ∃ s', drop_logger name s = Ok tt s' ∧ frame name s s' ∧ dropped s' name.
Proof.
  intros Hok. unfold drop_logger. destruct (getLogger_run s name Hok) as (lg0 & E0 & F0). mstep E0.
  destruct (prepare_run _ name UNKNOW "" (fr_ok _ _ _ F0)) as (s1 & lg1 & E1 & F1 & Hlg1 & Hv1 & Ha1).
  { exists lg0. apply lookup_insert_eq. }
  exists s1. split_and!; [|by eapply frame_trans|by exists lg1].
  minv E1. minv E1. mstep E. cbn in E2. injection E2 as <- <-. exact E1.
Qed.

(** Only loggers of [l] changed, and nothing was written. *)
Record frames (l : list string) (s s' : LogSys) : Prop := {
  fs_ok : sys_ok s';
  fs_other n : n ∉ l → m_loggers s' !! n = m_loggers s !! n;
  fs_shape p x : shape s p = Some x → shape s' p = Some x;
  fs_written : written s' = written s
}.

Lemma frames_refl s : sys_ok s → frames [] s s.
Proof. by split. Qed.

Lemma frames_cons name l s1 s2 s3 : frame name s1 s2 → frames l s2 s3 → frames (name :: l) s1 s3.
Proof.
  intros [H1 H2 H3 Hw] [H4 H5 H6 Hw']. split; [done| | |by rewrite Hw'].
  - intros n [Hn Hl]%not_elem_of_cons. by rewrite H5, H2.
  - intros p x Hp. by apply H6, H3.
Qed.

Lemma applied_frames l s s' i : frames l s s' → ld_name i ∉ l → applied s i → applied s' i.
Proof.
  intros F Hn (lg & Hl & Hv & H). exists lg. split_and!; [by rewrite (fs_other _ _ _ F)|done|].
  eapply list.Forall2_impl; [exact H|]. intros a p (k & Hk & Hp). exists k. split; [done|]. by apply (fs_shape _ _ _ F).
Qed.

(** The definitions that are new or changed, and the names that are gone. *)
Definition changed (old_value : gmap string LogDefine) (l : list LogDefine) : list LogDefine :=
  filter (λ i, old_value !! ld_name i ≠ Some i) l.
Definition gone (new_value : gmap string LogDefine) (l : list LogDefine) : list string :=
  filter (λ n, new_value !! n = None) (ld_name <$> l).

Lemma apply_new_run old_value l : ∀ s, sys_ok s → NoDup (ld_name <$> l) →
  ∃ s', apply_new old_value l s = Ok tt s' ∧ frames (ld_name <$> changed old_value l) s s' ∧
    ∀ i, i ∈ changed old_value l → applied s' i.
Proof.
  induction l as [|i l IH]; intros s Hok Hnd; cbn [apply_new].
  { exists s. split_and!; [done|by apply frames_refl|]. intros i Hi. by apply elem_of_nil in Hi. }
  rewrite fmap_cons in Hnd. apply list.NoDup_cons in Hnd as [Hi Hnd]. unfold changed. case_bool_decide as Ho.
  - rewrite bind_mret, filter_cons_False by naive_solver. by apply IH.
  - rewrite filter_cons_True by done. destruct (apply_define_run s i Hok) as (s1 & E1 & F1 & A1). mstep E1.
    destruct (IH s1 (fr_ok _ _ _ F1) Hnd) as (s2 & E2 & F2 & A2). exists s2. split_and!; [done|by eapply frames_cons|].
    intros j. rewrite elem_of_cons. intros [->|Hj]; [|by apply A2]. eapply applied_frames; [done| |done].
    intros (k & Hk & Hin)%list_elem_of_fmap. apply list_elem_of_filter in Hin as [_ Hin].
    apply Hi. rewrite Hk. apply list_elem_of_fmap. by exists k.
Qed.

Lemma drop_old_run new_value l : ∀ s, sys_ok s → NoDup (ld_name <$> l) →
  ∃ s', drop_old new_value l s = Ok tt s' ∧ frames (gone new_value l) s s' ∧
    ∀ n, n ∈ gone new_value l → dropped s' n.
Proof.
  induction l as [|i l IH]; intros s Hok Hnd; cbn [drop_old].
  { exists s. split_and!; [done|by apply frames_refl|]. intros n Hn. by apply elem_of_nil in Hn. }
  rewrite fmap_cons in Hnd. apply list.NoDup_cons in Hnd as [Hi Hnd]. unfold gone. rewrite fmap_cons.
  destruct (new_value !! ld_name i) as [d|] eqn:E.
  - rewrite bind_mret, filter_cons_False by (by rewrite E). by apply IH.
  - rewrite filter_cons_True by done. destruct (drop_logger_run s (ld_name i) Hok) as (s1 & E1 & F1 & D1). mstep E1.
    destruct (IH s1 (fr_ok _ _ _ F1) Hnd) as (s2 & E2 & F2 & D2). exists s2. split_and!; [done|by eapply frames_cons|].
    intros n. rewrite elem_of_cons. intros [->|Hn]; [|by apply D2]. destruct D1 as (lg & Hl & H).
    exists lg. split; [|done]. rewrite (fs_other _ _ _ F2); [done|]. intros [_ Hin]%list_elem_of_filter. done.
Qed.

(** A set of definitions is keyed by their names. *)
Definition keyed (v : gmap string LogDefine) : Prop := ∀ n d, v !! n = Some d → ld_name d = n.

Lemma visit_spec v d : keyed v → d ∈ visit v ↔ v !! ld_name d = Some d.
Proof.
  intros Hk. unfold visit. rewrite merge_sort_Permutation, list_elem_of_fmap. split.
  - intros ([n d'] & -> & H). apply elem_of_map_to_list in H. cbn. by rewrite (Hk _ _ H).
  - intros H. exists (ld_name d, d). split; [done|]. by apply elem_of_map_to_list.
Qed.

Lemma visit_names v : keyed v → NoDup (ld_name <$> visit v).
Proof.
  intros Hk. unfold visit. rewrite merge_sort_Permutation.
  assert (ld_name <$> (map_to_list v).*2 = (map_to_list v).*1) as ->; [|apply NoDup_fst_map_to_list].
  rewrite <- list_fmap_compose. apply list_fmap_ext. intros i [n d] H. cbn. apply Hk.
  apply elem_of_map_to_list. by eapply list_elem_of_lookup_2.
Qed.

(** The state after an event was logged. *)
Lemma same_config_frames s s' : sys_ok s → same_config s s' →
  sys_ok s' ∧ (∀ p x, shape s p = Some x → shape s' p = Some x).
Proof.
  intros Hok Hs. pose proof Hs as (El & En & Ha). split; [split|].
  - intros p Hp. rewrite En in Hp. specialize (Ha p). rewrite (so_free s Hok p Hp) in Ha. by destruct (appenders s' !! p).
  - intros name lg p Hl Hp. rewrite El in Hl. destruct (so_ready s Hok name lg p Hl Hp) as (a & Ea & f & Ef).
    destruct (same_config_at s s' p a Hs Ea) as (a' & Ea' & [= _ _ _ E]). exists a'. split; [done|]. exists f. congruence.
  - intros name lg. rewrite El. apply (so_formatter s Hok).
  - rewrite El. apply (so_root s Hok).
  - intros p x Hx. unfold shape in *. destruct (appenders s !! p) as [a|] eqn:Ea; [|done]. injection Hx as <-.
    destruct (same_config_at s s' p a Hs Ea) as (a' & -> & [= E1 E2 _ _]). simpl. by rewrite E1, E2.
Qed.

Section listener.
Context (strftime : text → Z → text).

(** The lines of the message: those of the root logger before the change. *)
Definition conf_lines (now : moment) (s : LogSys) : list (Z * text) :=
  match m_loggers s !! "root" with
  | Some root => omap (line_of strftime s INFO (conf_event now)) (targets root root INFO)
  | None => []
  end.

(** What a change of the definitions does after the message. *)
Lemma apply_drop_run s old_value new_value :
  sys_ok s → keyed old_value → keyed new_value →
  ∃ s', (apply_new old_value (visit new_value);; drop_old new_value (visit old_value)) s = Ok tt s' ∧ sys_ok s' ∧
    (∀ n d, new_value !! n = Some d → old_value !! n ≠ Some d → applied s' d) ∧
    (∀ n, is_Some (old_value !! n) → new_value !! n = None → dropped s' n) ∧
    (∀ n, new_value !! n = old_value !! n → m_loggers s' !! n = m_loggers s !! n) ∧
    (∀ p x, shape s p = Some x → shape s' p = Some x) ∧ written s' = written s.
Proof.
  intros Hok Ho Hn.
  destruct (apply_new_run old_value (visit new_value) s Hok (visit_names _ Hn)) as (s1 & E1 & F1 & A1).
  destruct (drop_old_run new_value (visit old_value) s1 (fs_ok _ _ _ F1) (visit_names _ Ho)) as (s2 & E2 & F2 & D2).
  exists s2. split; [by mstep E1|]. split; [apply (fs_ok _ _ _ F2)|]. split_and!.
  - intros n d Hd Hne. pose proof (Hn n d Hd) as Hname. eapply applied_frames; [exact F2| |].
    + intros [H _]%list_elem_of_filter. congruence.
    + apply A1. apply list_elem_of_filter. split; [by rewrite Hname|]. apply visit_spec; [done|]. by rewrite Hname.
  - intros n [d Hd] Hnone. apply D2. apply list_elem_of_filter. split; [done|]. apply list_elem_of_fmap.
    exists d. split; [by rewrite (Ho n d Hd)|]. apply visit_spec; [done|]. by rewrite (Ho n d Hd).
  - intros n Heq. rewrite (fs_other _ _ _ F2), (fs_other _ _ _ F1); [done| |].
    + intros (i & -> & Hi)%list_elem_of_fmap. apply list_elem_of_filter in Hi as [Hne Hi].
      apply visit_spec in Hi; [|done]. congruence.
    + intros [Hnone Hin]%list_elem_of_filter. apply list_elem_of_fmap in Hin as (d & -> & Hd).
      apply visit_spec in Hd; [|done]. congruence.
  - intros p x Hp. by apply (fs_shape _ _ _ F2), (fs_shape _ _ _ F1).
  - by rewrite (fs_written _ _ _ F2), (fs_written _ _ _ F1).
Qed.

Lemma conf_changed_run now s old_value new_value :
  sys_ok s → keyed old_value → keyed new_value →
  ∃ s', conf_changed strftime now old_value new_value s = Ok tt s' ∧ sys_ok s' ∧
    (∀ n d, new_value !! n = Some d → old_value !! n ≠ Some d → applied s' d) ∧
    (∀ n, is_Some (old_value !! n) → new_value !! n = None → dropped s' n) ∧
    (∀ n, new_value !! n = old_value !! n → m_loggers s' !! n = m_loggers s !! n) ∧
    (∀ p x, shape s p = Some x → shape s' p = Some x) ∧
    written s' = written s ++ conf_lines now s.
Proof.
  intros Hok Ho Hn. destruct (so_root s Hok) as [root Hr].
  destruct (log_run strftime s "root" root root INFO (conf_event now) (sys_ok_log s Hok) Hr Hr)
    as (s1 & _ & Hs & _ & W & E).
  destruct (same_config_frames s s1 Hok Hs) as [Hok1 Hsh].
  destruct (apply_drop_run s1 old_value new_value Hok1 Ho Hn) as (s2 & E2 & H1 & H2 & H3 & H4 & H5 & H6).
  exists s2. unfold conf_changed, conf_lines. mstep E. rewrite Hr, H6, W. split_and!; [done..| | |done].
  - intros n Heq. rewrite H4 by done. by rewrite (proj1 Hs).
  - intros p x Hp. by apply H5, Hsh.
Qed.

(** The listener of logs, for any change of the set of definitions, gives each new or
    changed logger its level and one appender per definition with its kind, file and level
    in order, takes level and appenders from removed loggers, leaves the loggers of
    unchanged definitions and all others as they were, writes its message to the root logger
    as it was and nothing else, and never follows a null pointer. *)
Theorem log_config_applied now s old_value new_value :
  sys_ok s → keyed old_value → keyed new_value →
  ∃ s', conf_changed strftime now old_value new_value s = Ok tt s' ∧ sys_ok s' ∧
    (∀ n d, new_value !! n = Some d → old_value !! n ≠ Some d → applied s' d) ∧
    (∀ n, is_Some (old_value !! n) → new_value !! n = None → dropped s' n) ∧
    (∀ n, new_value !! n = old_value !! n → m_loggers s' !! n = m_loggers s !! n) ∧
    written s' = written s ++ conf_lines now s.
Proof.
  intros Hok Ho Hn. destruct (conf_changed_run now s old_value new_value Hok Ho Hn) as (s' & E & H1 & H2 & H3 & H4 & _ & H5). by exists s'.
Qed.
End listener.

(** ** Concrete logs *)

Definition no_date (f : text) (t : Z) : text := dec t.

Definition sample : LogEvent := mkEvent "a.cc" 7 0 11 0 1000 "main" (txt "hello") "system" INFO.

(** [%d{%H}%T[%p]%m%n]. *)
Definition sample_pattern : list entry :=
  [Item (txt "d") (txt "%H"); Item (txt "T") []; Literal (txt "["); Item (txt "p") []; Literal (txt "]");
   Item (txt "m") []; Item (txt "n") []].

Lemma pattern_roundtrip_witness :
  parse 16 [] (txt "%d{%H}%T[%p]%m%n") = Some (sample_pattern, false) ∧
  m_items (new_LogFormatter (txt "%d{%H}%T[%p]%m%n")) =
    [DateTimeFormatItem (txt "%H"); TabFormatItem; StringFormatItem []; LevelFormatItem; StringFormatItem [];
     MessageFormatItem; NewLineFormatItem].
Proof.
  assert (pattern_ok sample_pattern) as Hok.
  { cbn. repeat (split; try discriminate); try reflexivity; try (repeat constructor);
      try (apply (bool_decide_unpack _); vm_compute; exact I). }
  destruct (pattern_roundtrip sample_pattern Hok) as (Hp & _ & Hi & _).
  split; [exact Hp|exact Hi].
Defined.

(** The literal text of a pattern is not written. *)
Example literals_are_lost :
  format no_date (new_LogFormatter (txt "[%p] %m")) INFO sample = txt "INFOhello".
Proof. vm_compute. reflexivity. Qed.

(** Two percent signs are read as a percent sign and the start of an item. *)
Example double_percent :
  parse 3 [] (txt "%%m") = Some ([Literal (txt "%"); Item (txt "m") []], false) ∧
  m_error (new_LogFormatter (txt "100%%")) = true.
Proof. split; vm_compute; reflexivity. Qed.

(** A system with the root logger and the logger [system]. *)
Definition sys0 : LogSys :=
  mkSys (<["system" := new_Logger "system" true]>
           {["root" := with_appenders [0] (new_Logger "root" false)]})
    {[0 := mkAppender Stdout DEBUG false (Some (new_LogFormatter (txt "%p%T%m")))]} 1 [].

Lemma sys0_loggers name lg : m_loggers sys0 !! name = Some lg →
  (name = "system" ∧ lg = new_Logger "system" true) ∨
  (name = "root" ∧ lg = with_appenders [0] (new_Logger "root" false)).
Proof.
  unfold sys0. cbn [m_loggers]. destruct (decide ("system" = name)) as [<-|Hne].
  - rewrite lookup_insert_eq. intros [= <-]. by left.
  - rewrite lookup_insert_ne by done. intros [<- <-]%lookup_singleton_Some. by right.
Qed.

Lemma sys0_log_ok : log_ok sys0.
Proof.
  intros name lg p Hl Hp. apply sys0_loggers in Hl as [[_ ->]|[_ ->]]; [by apply elem_of_nil in Hp|].
  apply list_elem_of_singleton in Hp as ->. eexists _, _. split; [reflexivity|reflexivity].
Qed.

Lemma sys0_ok : sys_ok sys0.
Proof.
  split.
  - intros p Hp. unfold sys0 in *. cbn [appenders next_addr] in *. apply lookup_singleton_None. lia.
  - intros name lg p Hl Hp. destruct (sys0_log_ok name lg p Hl Hp) as (a & f & Ha & Hf). exists a. split; [done|by exists f].
  - intros name lg Hl. apply sys0_loggers in Hl as [[_ ->]|[_ ->]]; by eexists.
  - by eexists.
Qed.

Lemma log_dispatch_witness :
  ∃ s', log no_date "system" INFO sample sys0 = Ok tt s' ∧ written s' = [(0, txt "INFO" ++ [Ascii.ascii_of_nat 9] ++ txt "hello")].
Proof.
  destruct (log_dispatch no_date sys0 "system" (new_Logger "system" true) (with_appenders [0] (new_Logger "root" false))
    INFO sample sys0_log_ok) as (s' & E & _ & _ & W & _).
  - reflexivity.
  - reflexivity.
  - exists s'. split; [exact E|]. rewrite W. vm_compute. reflexivity.
Defined.

Definition to_file : LogDefine := mkLD "system" ERROR "" [mkLAD 1 UNKNOW "" "system.log"; mkLAD 2 UNKNOW "" ""].

Lemma log_define_text_witness :
  LogDefine_from_str (λ n, match n with Scalar s => Some s | _ => None end) (LogDefine_to_str to_file) =
    Some (mkLD "system" ERROR "" []).
Proof.
  apply (log_define_text (λ n, match n with Scalar s => Some s | _ => None end) to_file). intros s. reflexivity.
Defined.

Definition noon : moment := mkMoment "log.cc" 11 0 43200 "main".

Lemma log_config_applied_witness :
  ∃ s', conf_changed no_date noon ∅ {["system" := to_file]} sys0 = Ok tt s' ∧ applied s' to_file ∧
    m_loggers s' !! "root" = m_loggers sys0 !! "root" ∧
    written s' = [(0, txt "INFO" ++ [Ascii.ascii_of_nat 9] ++ txt "on_logger_conf_changed")].
Proof.
  destruct (log_config_applied no_date noon sys0 ∅ {["system" := to_file]}) as (s' & E & _ & H1 & _ & H2 & H3).
  - exact sys0_ok.
  - intros n d H. discriminate H.
  - intros n d H. apply lookup_singleton_Some in H as [<- <-]. reflexivity.
  - exists s'. split; [exact E|]. split; [|split].
    + apply (H1 "system"); [reflexivity|discriminate].
    + apply H2. reflexivity.
    + rewrite H3. vm_compute. reflexivity.
Defined.
