(* ===== verification/LogYaml.v ===== *)
(** * Events and the YAML text of the loggers (log.h, log.cc)

    The calls that make and log an event, and the text [toYamlString] writes
    for appenders, loggers and the manager, which the configuration of Log.v
    reads back. *)

From S2P Require Import Prelude Config Log.

(** ** Events *)

Definition new_LogEvent (logger : string) (level : Level) (file : string) (line elapse thread_id fiber_id time : Z)
    (thread_name : string) : LogEvent :=
  mkEvent file line elapse thread_id fiber_id time thread_name [] logger level.

(** What is streamed into an event. *)
Definition append_ss (t : text) (e : LogEvent) : LogEvent :=
  mkEvent (m_file e) (m_line e) (m_elapse e) (m_threadId e) (m_fiberId e) (m_time e) (m_threadName e)
    (m_ss e ++ t) (m_logger e) (e_level e).

(** [LogEvent::format], over what [vasprintf] makes of the arguments; [None]
    is its failure. *)
Definition event_format (vasprintf : option text) (e : LogEvent) : LogEvent :=
  match vasprintf with Some buf => append_ss buf e | None => e end.

Section events.
Context (strftime : text → Z → text).

(** [LogEventWrap::~LogEventWrap]. *)
Definition wrap_destroy (e : LogEvent) : M LogSys unit := log strftime (m_logger e) (e_level e) e.

(** [PENG_LOG_LEVEL(logger, level) << t] and [PENG_LOG_FMT_LEVEL]: the event is
    made only when the level is enabled, and logged at the end of the
    statement. *)
Definition log_stream (name : string) (e : LogEvent) (t : text) : M LogSys unit :=
  lg ← logger_at name;
  if level_num (l_level lg) <=? level_num (e_level e) then wrap_destroy (append_ss t e) else mret tt.
Definition log_fmt (name : string) (e : LogEvent) (vasprintf : option text) : M LogSys unit :=
  lg ← logger_at name;
  if level_num (l_level lg) <=? level_num (e_level e) then wrap_destroy (event_format vasprintf e) else mret tt.

(** [Logger::debug] to [Logger::error]. *)
Definition debug (name : string) (e : LogEvent) : M LogSys unit := log strftime name DEBUG e.
Definition info (name : string) (e : LogEvent) : M LogSys unit := log strftime name INFO e.
Definition warn (name : string) (e : LogEvent) : M LogSys unit := log strftime name WARN e.
Definition fatal (name : string) (e : LogEvent) : M LogSys unit := log strftime name FATAL e.
Definition error (name : string) (e : LogEvent) : M LogSys unit := log strftime name ERROR e.
End events.

(** ** The YAML text *)

Definition str (t : text) : string := String.string_of_list_ascii t.

Lemma str_txt s : str (txt s) = s.
Proof. apply String.string_of_list_ascii_of_string. Qed.

Section yaml_text.
Context `{Y : Yaml}.

Definition pattern_field (f : option LogFormatter) : list (string * YNode) :=
  match f with Some f => [("formatter", Scalar (str (m_pattern f)))] | None => [] end.

Definition stdout_toYamlString (a : LogAppender) : string :=
  Dump (Map (("type", Scalar "StdoutLogAppender") :: level_field (a_level a) ++
             pattern_field (if m_hasFormatter a then a_formatter a else None))).

Definition file_toYamlString (m_filename : string) (a : LogAppender) : string :=
  Dump (Map (("type", Scalar "FileLogAppender") :: ("file", Scalar m_filename) :: level_field (a_level a) ++
             pattern_field (if m_hasFormatter a then a_formatter a else None))).

(** The virtual call. *)
Definition appender_toYamlString (a : LogAppender) : string :=
  match a_kind a with Stdout => stdout_toYamlString a | File f _ => file_toYamlString f a end.

(** [Logger::toYamlString]; [None] when [YAML::Load] throws. *)
Definition logger_toYamlString (s : LogSys) (lg : Logger) : option string :=
  nodes ← mapM (λ p, a ← appenders s !! p; Load (appender_toYamlString a)) (m_appenders lg);
  Some (Dump (Map (("name", Scalar (l_name lg)) :: level_field (l_level lg) ++ pattern_field (l_formatter lg) ++
    match nodes with [] => [] | _ => [("appenders", Sequence nodes)] end))).

(** The loggers in the order of their names. *)
Definition by_name (p q : string * Logger) : Prop := String.leb p.1 q.1 = true.
#[global] Instance by_name_dec : RelDecision by_name.
Proof. intros p q. unfold by_name. apply _. Defined.
Definition in_order (m : gmap string Logger) : list (string * Logger) := merge_sort by_name (map_to_list m).

(** [LoggerManager::toYamlString]. *)
Definition manager_toYamlString (s : LogSys) : option string :=
  nodes ← mapM (λ p : string * Logger, t ← logger_toYamlString s p.2; Load t) (in_order (m_loggers s));
  Some (Dump (match nodes with [] => Null | _ => Sequence nodes end)).

(** [LexicalCast<std::string, std::set<LogDefine>>]: the set is ordered by
    name and keeps the first definition of a name. *)
Context (as_string : YNode → option string).
Definition defines_from_str (t : string) : option (gmap string LogDefine) :=
  node ← Load t;
  ds ← mapM (λ i, LogDefine_from_str as_string (Dump (index node i))) (seq 0 (node_size node));
  Some (list_to_map ((λ d, (ld_name d, d)) <$> ds)).
End yaml_text.

(** ** What is read back *)

(** The definitions of an appender and of a logger; the level of an appender
    is not read. *)
Definition define_of_appender (a : LogAppender) : LogAppenderDefine :=
  let formatter := match (if m_hasFormatter a then a_formatter a else None) with
                   | Some f => str (m_pattern f) | None => "" end in
  match a_kind a with
  | Stdout => mkLAD 2 UNKNOW formatter ""
  | File f _ => mkLAD 1 UNKNOW formatter f
  end.

Definition define_of (s : LogSys) (lg : Logger) : LogDefine :=
  mkLD (l_name lg) (l_level lg)
    match l_formatter lg with Some f => str (m_pattern f) | None => "" end
    (omap (λ p, define_of_appender <$> (appenders s !! p)) (m_appenders lg)).

(** Every appender of a logger exists, and loggers are found by their name. *)
Definition named (s : LogSys) : Prop :=
  ∀ name lg, m_loggers s !! name = Some lg →
    l_name lg = name ∧ ∀ p, p ∈ m_appenders lg → is_Some (appenders s !! p).

Section reload.
Context `{Y : Yaml} `{!YamlLaws Y} (as_string : YNode → option string).
Hypothesis as_string_scalar : ∀ s, as_string (Scalar s) = Some s.

(** Going over the elements of a sequence by index. *)
Lemma mapM_index_gen {A} (f : YNode → option A) ns k : ∀ pre, length pre = k →
  mapM (λ i, f (index (Sequence (pre ++ ns)) i)) (seq k (length ns)) = mapM f ns.
Proof.
  revert k. induction ns as [|n ns IH]; intros k pre Hk; [done|]. simpl.
  rewrite (index_sequence (pre ++ n :: ns) k n) by (by apply list_lookup_middle).
  destruct (f n); simpl; [|done]. specialize (IH (S k) (pre ++ [n])). rewrite <- app_assoc in IH. simpl in IH.
  rewrite IH; [done|]. rewrite length_app. simpl. lia.
Qed.

Lemma mapM_sequence {A} (f : YNode → option A) ns :
  mapM (λ i, f (index (Sequence ns) i)) (seq 0 (length ns)) = mapM f ns.
Proof. exact (mapM_index_gen f ns 0 [] eq_refl). Qed.

(** The text of an appender reads back as its definition. *)
Lemma appender_reload a : ∃ n, Load (appender_toYamlString a) = Some n ∧
  appender_define as_string n = Some (Some (define_of_appender a)).
Proof.
  unfold appender_toYamlString, stdout_toYamlString, file_toYamlString, define_of_appender.
  destruct a as [[|f t] level [] [fm|]]; (eexists; split; [apply load_dump|]);
    unfold appender_define, string_field; destruct level; cbn; repeat (rewrite as_string_scalar; cbn); reflexivity.
Qed.

Lemma appenders_reload s l : (∀ p, p ∈ l → is_Some (appenders s !! p)) → ∃ ns,
  mapM (λ p, a ← appenders s !! p; Load (appender_toYamlString a)) l = Some ns ∧
  mapM (appender_define as_string) ns = Some (Some <$> omap (λ p, define_of_appender <$> (appenders s !! p)) l).
Proof.
  induction l as [|p l IH]; intros Hl; [by exists []|].
  destruct (Hl p) as [a Ha]; [by left|]. destruct IH as (ns & E1 & E2); [intros q Hq; apply Hl; by right|].
  destruct (appender_reload a) as (n & F1 & F2). exists (n :: ns). simpl. rewrite Ha. simpl. rewrite F1. simpl.
  rewrite E1, F2. simpl. rewrite E2. done.
Qed.

Lemma omap_Some {A} (l : list A) : omap id (Some <$> l) = l.
Proof. induction l as [|x l IH]; [done|]. simpl. f_equal. exact IH. Qed.

(** The text of a logger reads back as its definition. *)
Lemma logger_reload s lg : (∀ p, p ∈ m_appenders lg → is_Some (appenders s !! p)) → ∃ t,
  logger_toYamlString s lg = Some t ∧ ∃ n, Load t = Some n ∧ LogDefine_from_str as_string (Dump n) = Some (define_of s lg).
Proof.
  intros Hl. destruct (appenders_reload s (m_appenders lg) Hl) as (ns & E1 & E2). unfold logger_toYamlString. rewrite E1.
  eexists. split; [reflexivity|]. eexists. split; [apply load_dump|]. unfold LogDefine_from_str. rewrite load_dump.
  unfold define_of. destruct lg as [name level aps fm root]. cbn [l_name l_level l_formatter m_appenders] in *.
  set (ds := omap _ aps) in *. clearbody ds.
  assert (∀ l, ns = l → mapM (λ x, appender_define as_string (index (Sequence l) x)) (seq 0 (length l)) = Some (Some <$> ds))
    as Hm by (intros l <-; by rewrite mapM_sequence).
  destruct ns as [|n ns].
  - injection E2 as E2. symmetry in E2. apply fmap_nil_inv in E2 as ->. unfold string_field.
    destruct level, fm; cbn; repeat (rewrite as_string_scalar; cbn); reflexivity.
  - specialize (Hm _ eq_refl). unfold string_field.
    destruct level, fm; cbn [mbind option_bind field member level_field pattern_field app String.eqb Ascii.eqb Bool.eqb ToString];
      repeat (rewrite as_string_scalar; cbn [mbind option_bind]); cbn [node_size]; rewrite Hm; cbn [mbind option_bind];
      rewrite omap_Some; reflexivity.
Qed.

Lemma loggers_reload s (l : list (string * Logger)) :
  (∀ p, p ∈ l → ∀ q, q ∈ m_appenders p.2 → is_Some (appenders s !! q)) → ∃ ns,
  mapM (λ p : string * Logger, t ← logger_toYamlString s p.2; Load t) l = Some ns ∧
  mapM (λ n, LogDefine_from_str as_string (Dump n)) ns = Some ((λ p, define_of s p.2) <$> l).
Proof.
  induction l as [|[name lg] l IH]; intros Hl; [by exists []|].
  destruct (logger_reload s lg) as (t & E & n & F1 & F2); [apply (Hl (name, lg)); by left|].
  destruct IH as (ns & E1 & E2); [intros p Hp; apply Hl; by right|].
  exists (n :: ns). simpl. rewrite E. simpl. rewrite F1. simpl. rewrite E1, F2. simpl. rewrite E2. done.
Qed.

Lemma in_order_perm m : in_order m ≡ₚ map_to_list m.
Proof. apply merge_sort_Permutation. Qed.

Lemma in_order_defines s : named s →
  list_to_map ((λ d, (ld_name d, d)) <$> ((λ p, define_of s p.2) <$> in_order (m_loggers s))) = define_of s <$> m_loggers s.
Proof.
  intros Hn. rewrite <- list_fmap_compose.
  assert (((λ d, (ld_name d, d)) ∘ (λ p : string * Logger, define_of s p.2) <$> in_order (m_loggers s)) =
    prod_map id (define_of s) <$> in_order (m_loggers s)) as ->.
  { apply list_fmap_ext. intros i [name lg] Hi. apply list_elem_of_lookup_2 in Hi. rewrite in_order_perm in Hi.
    apply elem_of_map_to_list in Hi. destruct (Hn name lg Hi) as [E _]. unfold compose, prod_map. simpl. by rewrite E. }
  rewrite list_to_map_fmap. f_equal.
  trans (list_to_map (M := gmap string Logger) (map_to_list (m_loggers s))); [|apply list_to_map_to_list].
  apply list_to_map_proper; [|apply in_order_perm]. rewrite in_order_perm. apply NoDup_fst_map_to_list.
Qed.

(** C35: with a YAML library that reads back what it writes, the text
    LoggerManager::toYamlString writes for any system of loggers is read by the conversion
    of the logs configuration as one definition per logger, with its name, level and pattern
    and, in order, the kind, file and own pattern of each of its appenders; the levels of
    appenders are lost. *)
Theorem yaml_reload s : named s → ∃ t,
  manager_toYamlString s = Some t ∧ defines_from_str as_string t = Some (define_of s <$> m_loggers s).
Proof.
  intros Hn. destruct (loggers_reload s (in_order (m_loggers s))) as (ns & E1 & E2).
  { intros [name lg] Hp q Hq. rewrite in_order_perm in Hp. apply elem_of_map_to_list in Hp. by apply (Hn name lg). }
  unfold manager_toYamlString. rewrite E1. eexists. split; [reflexivity|]. unfold defines_from_str. rewrite load_dump.
  rewrite <- (in_order_defines s Hn). cbn [mbind option_bind]. destruct ns as [|n ns].
  - injection E2 as E2. symmetry in E2. apply fmap_nil_inv in E2 as ->. done.
  - rewrite (mapM_sequence (λ n, LogDefine_from_str as_string (Dump n)) (n :: ns)), E2. done.
Qed.
End reload.

(** ** Concrete runs *)

(** The root logger and one with a file appender of its own format. *)
Definition two_loggers : LogSys :=
  mkSys (<["root" := mkLogger "root" DEBUG [0] None false]>
          {["system" := mkLogger "system" ERROR [1; 0] (Some (new_LogFormatter (txt "%m%n"))) true]})
    (<[0 := mkAppender Stdout UNKNOW false None]>
      {[1 := mkAppender (File "a.log" 0) WARN true (Some (new_LogFormatter (txt "%d%m")))]})
    2 [].

Definition scalar_text (n : YNode) : option string := match n with Scalar s => Some s | _ => None end.

Lemma two_loggers_named : named two_loggers.
Proof.
  intros name lg H. unfold two_loggers in *. cbn [m_loggers appenders] in *.
  apply lookup_insert_Some in H as [[<- <-]|[_ [<- <-]%lookup_singleton_Some]]; (split; [done|]);
    intros p Hp; repeat (apply elem_of_cons in Hp as [->|Hp]; [by eexists|]); by apply elem_of_nil in Hp.
Qed.

Lemma yaml_reload_witness : ∃ t ds,
  manager_toYamlString (Y := Concrete.yaml) two_loggers = Some t ∧
  defines_from_str (Y := Concrete.yaml) scalar_text t = Some ds ∧
  ds !! "system" = Some (mkLD "system" ERROR "%m%n" [mkLAD 1 UNKNOW "%d%m" "a.log"; mkLAD 2 UNKNOW "" ""]).
Proof.
  destruct (yaml_reload (Y := Concrete.yaml) scalar_text ltac:(done) two_loggers two_loggers_named) as (t & E1 & E2).
  exists t, (define_of two_loggers <$> m_loggers two_loggers). split; [exact E1|]. split; [exact E2|].
  vm_compute. reflexivity.
Defined.

(** The level WARN of the file appender is lost when its text is read. *)
Example appender_level_lost :
  ad_level (define_of_appender (mkAppender (File "a.log" 0) WARN false None)) = UNKNOW.
Proof. reflexivity. Qed.

(** A formatted message whose [vasprintf] fails is logged empty. *)
Example failed_format : m_ss (event_format None (new_LogEvent "root" INFO "a.cc" 1 0 1 0 0 "t")) = [].
Proof. reflexivity. Qed.
