(* ===== verification/LogReload.v ===== *)
(** * Loggers that follow the configuration (config.h, config.cc, log.cc)

    The configuration of Config.v composed with the loggers of Log.v: a
    document is loaded, the variable [logs] gets a new value, and its listener
    changes the loggers.  Whatever documents are loaded, the loggers are those
    the variable describes. *)

From S2P Require Import Prelude Config Log LogYaml.

(** ** The process *)

(** Types and values of variables: sets of definitions, and any other. *)
Inductive ctype := TLogs | TOther.
Inductive cvalue := VLogs (d : gmap string LogDefine) | VOther (t : string).

#[global] Instance ctype_eq_dec : EqDecision ctype.
Proof. solve_decision. Defined.
#[global] Instance cvalue_eq_dec : EqDecision cvalue.
Proof. solve_decision. Defined.

(** The definitions a value stands for. *)
Definition logs_of (v : cvalue) : gmap string LogDefine := match v with VLogs d => d | VOther _ => ∅ end.

(** The registry, and the loggers. *)
Record Process := mkProcess { config : Config ctype cvalue; loggers : LogSys }.

Section process.
Context `{Y : Yaml} (as_string : YNode → option string).
(** The text of a time, and the thread and time of each call of a listener, by
    the number of calls before it. *)
Context (strftime : text → Z → text) (clock : nat → moment).

(** The calls of the listener from the [k]-th on, with the old and the new
    value. *)
Fixpoint notify (k : nat) (l : list (cvalue * cvalue)) : M LogSys unit :=
  match l with
  | [] => mret tt
  | (old_value, new_value) :: l' =>
      conf_changed strftime (clock k) (logs_of old_value) (logs_of new_value);; notify (S k) l'
  end.

(** The conversion of the other types. *)
Context (other : string → option string).

Definition cast (t : ctype) (x : string) : option cvalue :=
  match t with TLogs => VLogs <$> defines_from_str as_string x | TOther => VOther <$> other x end.

(** [g_log_defines] and [LogIniter]: the variable, and its listener. *)
Definition log_init : M (Config ctype cvalue) (option Z) :=
  Lookup_or_create "logs" TLogs (VLogs ∅) "logs config";;
  c ← get;
  match AddListener "logs" c with
  | Some (i, c') => put c';; mret (Some i)
  | None => mret None
  end.

(** [Config::LoadFromYaml], the calls of [LogIniter]'s listener included.  The
    listener does not use the registry, so it sees what it would see in the
    middle of the loading. *)
Definition load_document (i : Z) (root : YNode) : M Process unit := λ p,
  let c := LoadFromYaml cast root (config p) in
  let k := length (calls (config p)) in
  match notify k (told "logs" i (drop k (calls c))) (loggers p) with
  | Ok _ s => Ok tt (mkProcess c s)
  | Throw e s => Throw e (mkProcess c s)
  | Abort w => Abort w
  | Undef w => Undef w
  end.

Fixpoint load_documents (i : Z) (l : list YNode) : M Process unit :=
  match l with
  | [] => mret tt
  | root :: l' => load_document i root;; load_documents i l'
  end.

(** ** The loggers are those described *)

(** Every definition is applied, and the loggers named in [E] that are not
    described any more have level UNKNOW and no appender. *)
Record follows (E : gset string) (s : LogSys) (v : gmap string LogDefine) : Prop := {
  fo_ok : sys_ok s;
  fo_keyed : keyed v;
  fo_applied n d : v !! n = Some d → applied s d;
  fo_removed n : n ∈ E → v !! n = None → dropped s n
}.

Lemma applied_same s s' d : (∀ p x, shape s p = Some x → shape s' p = Some x) →
  m_loggers s' !! ld_name d = m_loggers s !! ld_name d → applied s d → applied s' d.
Proof.
  intros Hs Hl (lg & Hlg & Hv & H). exists lg. split_and!; [by rewrite Hl|done|].
  eapply list.Forall2_impl; [exact H|]. intros a p (k & Hk & Hp). exists k. split; [done|]. by apply Hs.
Qed.

Lemma conf_changed_follows now E s v v' : follows E s v → keyed v' →
  ∃ s', conf_changed strftime now v v' s = Ok tt s' ∧ follows (E ∪ dom v) s' v'.
Proof.
  intros [H1 H2 H3 H4] Hk. destruct (conf_changed_run strftime now s v v' H1 H2 Hk) as (s' & E' & G1 & G2 & G3 & G4 & G5 & _).
  exists s'. split; [done|]. split; [done|done| |].
  - intros n d Hd. destruct (decide (v !! n = Some d)) as [Hv|Hv]; [|by eapply G2].
    eapply applied_same; [exact G5| |by eapply H3]. rewrite (Hk n d Hd). apply G4. by rewrite Hd.
  - intros n Hn Hnone. destruct (v !! n) as [d|] eqn:Ev; [by eapply G3; [rewrite Ev; eexists|]|].
    assert (n ∈ E) as Hin by (apply elem_of_union in Hn as [Hn|Hn]; [done|by apply elem_of_dom in Hn as [? Hn]; congruence]).
    destruct (H4 n Hin Ev) as (lg & Hl & H). exists lg. split; [|done]. rewrite G4; [done|]. by rewrite Hnone, Ev.
Qed.

(** All names that the old values of the calls have. *)
Definition names_of (l : list (cvalue * cvalue)) : gset string := ⋃ ((λ c, dom (logs_of c.1)) <$> l).

Lemma notify_follows l : ∀ k E s x y, chain x l y → (∀ c, c ∈ l → keyed (logs_of c.2)) → follows E s (logs_of x) →
  ∃ s', notify k l s = Ok tt s' ∧ follows (E ∪ names_of l) s' (logs_of y).
Proof.
  induction l as [|[a b] l IH]; intros k E s x y Hc Hk Hf; cbn [notify].
  { exists s. split; [done|]. cbn in Hc. subst y. replace (E ∪ names_of []) with E by (unfold names_of; set_solver). done. }
  destruct Hc as (-> & _ & Hc). destruct (conf_changed_follows (clock k) E s (logs_of x) (logs_of b) Hf) as (s1 & E1 & F1).
  { apply (Hk (x, b)). by left. }
  mstep E1. destruct (IH (S k) (E ∪ dom (logs_of x)) s1 b y Hc) as (s2 & E2 & F2); [intros c Hc'; apply Hk; by right|exact F1|].
  exists s2. split; [done|]. replace (E ∪ names_of ((x, b) :: l)) with (E ∪ dom (logs_of x) ∪ names_of l) by (unfold names_of; set_solver).
  done.
Qed.

(** *** The values a listener is told of *)

Lemma list_to_map_keyed (ds : list LogDefine) : keyed (list_to_map ((λ d, (ld_name d, d)) <$> ds)).
Proof.
  intros n d H. apply elem_of_list_to_map_2 in H. apply list_elem_of_fmap in H as (d' & [= -> ->] & _). done.
Qed.

Lemma cast_keyed t x v : cast t x = Some v → keyed (logs_of v).
Proof.
  destruct t; cbn; intros H.
  - unfold defines_from_str in H. destruct (Load x) as [node|]; [|done]. cbn in H.
    destruct (mapM _ _) as [ds|]; [|done]. injection H as <-. apply list_to_map_keyed.
  - destruct (other x); [|done]. by injection H as <-.
Qed.

(** A call passes on a value that was converted. *)
Definition converted (e : string * Z * cvalue * cvalue) : Prop := ∃ t x, cast t x = Some e.2.

Lemma load_calls_converted es : ∀ c : Config ctype cvalue,
  ∃ new, calls (foldl (load_member cast) c es) = calls c ++ new ∧ Forall converted new.
Proof.
  induction es as [|p es IH]; intros c; cbn [foldl].
  { exists []. rewrite app_nil_r. done. }
  assert (∃ new, calls (load_member cast c p) = calls c ++ new ∧ Forall converted new) as (n1 & E1 & H1).
  { unfold load_member, LookupBase. destruct (String.eqb p.1 ""); [exists []; by rewrite app_nil_r|].
    destruct (m_datas c !! lower p.1) as [v|] eqn:Ev; [|exists []; by rewrite app_nil_r].
    unfold fromString. rewrite Ev. destruct (cast (v_type v) (node_text p.2)) as [x|] eqn:Ec; cbn [snd]; [|exists []; by rewrite app_nil_r].
    unfold SetValue. rewrite Ev. case_bool_decide; [exists []; by rewrite app_nil_r|]. eexists. split; [reflexivity|].
    apply Forall_fmap, list.Forall_forall. intros i _. by exists (v_type v), (node_text p.2). }
  destruct (IH (load_member cast c p)) as (n2 & E2 & H2). exists (n1 ++ n2). rewrite E2, E1, app_assoc. split; [done|].
  by apply Forall_app.
Qed.

Lemma told_converted name i l c : Forall converted l → c ∈ told name i l → keyed (logs_of c.2).
Proof.
  intros Hl Hc. unfold told in Hc. apply list_elem_of_omap in Hc as ([[[n j] a] b] & Hin & E).
  destruct (String.eqb n name && (j =? i)); [|done]. injection E as <-.
  destruct (proj1 (list.Forall_forall _ _) Hl _ Hin) as (t & x & Ht). by eapply cast_keyed.
Qed.

(** The value of [logs] after a document. *)
Definition value_after (x : cvalue) (root : YNode) : cvalue :=
  foldl (load_value cast TLogs "logs") x (ListAllMember "" root).

Lemma load_document_follows E i root p v :
  m_datas (config p) !! "logs" = Some v → v_type v = TLogs → NoDup (m_cbs v) → i ∈ m_cbs v →
  follows E (loggers p) (logs_of (m_val v)) →
  ∃ p' l, load_document i root p = Ok tt p' ∧
    m_datas (config p') !! "logs" = Some (with_val (value_after (m_val v) root) v) ∧
    chain (m_val v) l (value_after (m_val v) root) ∧
    follows (E ∪ names_of l) (loggers p') (logs_of (value_after (m_val v) root)).
Proof.
  intros Hv Ht Hnd Hi Hf. destruct (load_members_var cast (ListAllMember "" root) (config p) "logs" v Hv Hnd) as (new & E1 & E2 & Hch).
  destruct (load_calls_converted (ListAllMember "" root) (config p)) as (new' & E3 & Hconv).
  rewrite E2 in E3. apply (inj (calls (config p) ++.)) in E3 as <-. specialize (Hch i Hi). rewrite Ht in *.
  set (l := told "logs" i new) in *.
  destruct (notify_follows l (length (calls (config p))) E (loggers p) _ _ Hch (λ c, told_converted _ _ _ c Hconv) Hf) as (s' & E4 & Hf').
  unfold load_document, LoadFromYaml. rewrite E2, drop_app_length. fold l. rewrite E4.
  eexists _, l. split_and!; [reflexivity|exact E1|exact Hch|exact Hf'].
Qed.

Lemma names_of_app l k : names_of (l ++ k) = names_of l ∪ names_of k.
Proof. unfold names_of. rewrite fmap_app, union_list_app_L. done. Qed.

(** C36: the loggers follow the configuration: through any sequence of documents loaded into
    the registry, with the listener of logs called at every change, each definition in the
    current value of logs is applied to its logger (level, and one appender per definition
    with kind, file and level, in order), each logger named in an earlier value and not in
    the current one has level UNKNOW and no appender, the value is that of the last document
    that has a valid one, and no call fails, the message each call of the listener logs to
    the root logger included. *)
Theorem loggers_follow_config i docs : ∀ E p v,
  m_datas (config p) !! "logs" = Some v → v_type v = TLogs → NoDup (m_cbs v) → i ∈ m_cbs v →
  follows E (loggers p) (logs_of (m_val v)) →
  ∃ p' l, load_documents i docs p = Ok tt p' ∧
    m_datas (config p') !! "logs" = Some (with_val (foldl value_after (m_val v) docs) v) ∧
    chain (m_val v) l (foldl value_after (m_val v) docs) ∧
    follows (E ∪ names_of l) (loggers p') (logs_of (foldl value_after (m_val v) docs)).
Proof.
  induction docs as [|root docs IH]; intros E p v Hv Ht Hnd Hi Hf; cbn [load_documents foldl].
  { exists p, []. replace (E ∪ names_of []) with E by (unfold names_of; set_solver). by rewrite with_val_same. }
  destruct (load_document_follows E i root p v Hv Ht Hnd Hi Hf) as (p1 & l1 & E1 & Hv1 & Hc1 & Hf1).
  destruct (IH _ p1 _ Hv1 Ht Hnd Hi Hf1) as (p2 & l2 & E2 & Hv2 & Hc2 & Hf2). exists p2, (l1 ++ l2).
  rewrite names_of_app, (assoc_L (∪)). split_and!; [by mstep E1|exact Hv2|by eapply chain_app|exact Hf2].
Qed.
End process.

(** ** Concrete documents *)

Definition at_noon (k : nat) : moment := noon.
Definition same_text (s : string) : option string := Some s.

(** The registry after [log_init], and the loggers with only the root. *)
Definition start : Process :=
  mkProcess (mkConfig {["logs" := mkVar "logs" "logs config" TLogs (VLogs ∅) [1]]} (λ t, if decide (t = TLogs) then 1 else 0) [])
    sys0.

Example log_init_start :
  match log_init (mkConfig ∅ (λ _, 0) []) with
  | Ok r c => Some (r, m_datas c !! "logs", s_fun_id c TLogs)
  | _ => None
  end = Some (Some 1, m_datas (config start) !! "logs", 1).
Proof. vm_compute. reflexivity. Qed.

Definition entry_of (name level : string) : YNode :=
  Map [("name", Scalar name); ("level", Scalar level);
       ("appenders", Sequence [Map [("type", Scalar "FileLogAppender"); ("file", Scalar (name +:+ ".log"))]])].
(** Two loggers; then one of them changed and the other one gone. *)
Definition docs : list YNode :=
  [Map [("logs", Sequence [entry_of "db" "info"; entry_of "net" "debug"])];
   Map [("logs", Sequence [entry_of "db" "error"])]].

Lemma loggers_follow_config_witness :
  ∃ p' l, load_documents (Y := Concrete.yaml) scalar_text no_date at_noon same_text 1 docs start = Ok tt p' ∧
    chain (VLogs ∅) l (foldl (value_after (Y := Concrete.yaml) scalar_text same_text) (VLogs ∅) docs) ∧
    follows (∅ ∪ names_of l) (loggers p')
      (logs_of (foldl (value_after (Y := Concrete.yaml) scalar_text same_text) (VLogs ∅) docs)).
Proof.
  destruct (loggers_follow_config (Y := Concrete.yaml) scalar_text no_date at_noon same_text 1 docs ∅ start
    (mkVar "logs" "logs config" TLogs (VLogs ∅) [1])) as (p' & l & E & _ & H).
  - apply lookup_singleton_Some. done.
  - done.
  - apply NoDup_singleton.
  - apply list_elem_of_singleton. done.
  - split; [apply sys0_ok| | |]; cbn.
    + intros n d Hd. by rewrite lookup_empty in Hd.
    + intros n d Hd. by rewrite lookup_empty in Hd.
    + intros n Hn. by apply elem_of_empty in Hn.
  - exists p', l. split; [exact E|exact H].
Defined.

(** The changed logger has its new level and one file appender; the one that
    is gone has no appender and lets every event pass to the root logger. *)
Example docs_loaded :
  match load_documents (Y := Concrete.yaml) scalar_text no_date at_noon same_text 1 docs start with
  | Ok _ p => Some ((λ lg, (l_level lg, omap (shape (loggers p)) (m_appenders lg))) <$> m_loggers (loggers p) !! "db",
                    (λ lg, (l_level lg, m_appenders lg)) <$> m_loggers (loggers p) !! "net")
  | _ => None
  end = Some (Some (ERROR, [(File "db.log" 0, UNKNOW)]), Some (UNKNOW, [])).
Proof. vm_compute. reflexivity. Qed.
