(* ===== verification/LogFile.v ===== *)
(** * Files of the logging library (log.h, log.cc)

    [FileLogAppender] over a file system that others change too: the stream
    with its buffer and error state, [reopen], and the logging of an event.
    The abstract view has neither buffer nor error state: an appender has a
    file or none, a line goes to that file at once, and the file is looked up
    by its name again every three seconds.  The streams refine this view while
    the device takes what is written; a stream whose write failed once is
    never used again. *)

From Stdlib Require Import Ascii.
From S2P Require Import Prelude Config Log.

(** ** The file system *)

(** Names refer to files, which live on when they are renamed or removed.  A
    name may be closed to the process, and the device may be full. *)
Record FS := mkFS {
  names : gmap string Z;
  files : gmap Z text;
  next_ino : Z;
  denied : gset string;
  full : bool
}.

Definition contents (d : FS) (i : Z) : text := default [] (files d !! i).

(** [open] for appending, which makes the file when there is none. *)
Definition sys_open (f : string) (d : FS) : FS * option Z :=
  if decide (f ∈ denied d) then (d, None)
  else match names d !! f with
  | Some i => (d, Some i)
  | None =>
      (mkFS (<[f := next_ino d]> (names d)) (<[next_ino d := []]> (files d)) (next_ino d + 1) (denied d) (full d),
       Some (next_ino d))
  end.

(** [write] at the end of a file. *)
Definition append (i : Z) (t : text) (d : FS) : FS :=
  match t with
  | [] => d
  | _ => mkFS (names d) (<[i := contents d i ++ t]> (files d)) (next_ino d) (denied d) (full d)
  end.

(** What others do: rename, remove, close and open to the process. *)
Inductive outside := Rename (f g : string) | Unlink (f : string) | Deny (f : string) | Allow (f : string).

Definition change (o : outside) (d : FS) : FS :=
  match o with
  | Rename f g =>
      match names d !! f with
      | Some i => mkFS (<[g := i]> (delete f (names d))) (files d) (next_ino d) (denied d) (full d)
      | None => d
      end
  | Unlink f => mkFS (delete f (names d)) (files d) (next_ino d) (denied d) (full d)
  | Deny f => mkFS (names d) (files d) (next_ino d) ({[f]} ∪ denied d) (full d)
  | Allow f => mkFS (names d) (files d) (next_ino d) (denied d ∖ {[f]}) (full d)
  end.

(** ** Streams *)

(** The open file, the characters not yet written, and [fail()]. *)
Record ofstream := mkStream { handle : option Z; buffer : text; failed : bool }.

Definition unopened : ofstream := mkStream None [] false.
Definition setstate (st : ofstream) : ofstream := mkStream (handle st) (buffer st) true.

(** When the buffer of the C++ library is full. *)
Section streams.
Context (spill : text → bool).

(** The buffer goes to the file, or the stream fails. *)
Definition sync (x : FS * ofstream) : FS * ofstream :=
  match handle x.2, buffer x.2 with
  | _, [] => x
  | None, _ => (x.1, setstate x.2)
  | Some i, t => if full x.1 then (x.1, setstate x.2) else (append i t x.1, mkStream (Some i) [] (failed x.2))
  end.

(** [operator<<] of text: nothing on a stream that failed. *)
Definition put_text (t : text) (x : FS * ofstream) : FS * ofstream :=
  if failed x.2 then x
  else match handle x.2 with
  | None => match t with [] => x | _ => (x.1, setstate x.2) end
  | Some i =>
      let y := (x.1, mkStream (Some i) (buffer x.2 ++ t) false) in
      if spill (buffer y.2) then sync y else y
  end.

(** [std::endl]: a newline, and the buffer is written. *)
Definition newline : text := [Ascii.ascii_of_nat 10].
Definition put_endl (x : FS * ofstream) : FS * ofstream :=
  let y := put_text newline x in if failed y.2 then y else sync y.

(** [close()] fails when there is no open file or the buffer cannot be
    written; [open()] fails when there is an open file, and clears the error
    state when it succeeds. *)
Definition stream_close (x : FS * ofstream) : FS * ofstream :=
  match handle x.2 with
  | None => (x.1, setstate x.2)
  | Some _ => let y := sync x in (y.1, mkStream None [] (failed y.2))
  end.

Definition stream_open (f : string) (x : FS * ofstream) : FS * ofstream :=
  match handle x.2 with
  | Some _ => (x.1, setstate x.2)
  | None =>
      match sys_open f x.1 with
      | (d, Some i) => (d, mkStream (Some i) [] false)
      | (d, None) => (d, setstate x.2)
      end
  end.

(** [FileLogAppender::reopen]: a stream that failed is not closed. *)
Definition reopen_stream (f : string) (x : FS * ofstream) : FS * ofstream :=
  stream_open f (if failed x.2 then x else stream_close x).

Context (strftime : text → Z → text).

(** [LogFormatter::format] to a stream. *)
Definition put_item (level : Level) (event : LogEvent) (x : FS * ofstream) (i : FormatItem) : FS * ofstream :=
  match i with
  | NewLineFormatItem => put_endl x
  | _ => put_text (format_item strftime level event i) x
  end.
Definition format_to (f : LogFormatter) (level : Level) (event : LogEvent) (x : FS * ofstream) : FS * ofstream :=
  foldl (put_item level event) x (m_items f).
End streams.

(** ** Logging over a backend

    What the loggers need of the appenders: where the loggers are, the file
    system, the logging of an event by one appender, and a new file appender. *)

Class Backend (St : Type) := mkBackend {
  sys_of : St → LogSys;
  set_sys : LogSys → St → St;
  fs_of : St → FS;
  set_fs : FS → St → St;
  b_log : Level → LogEvent → Z → M St unit;
  b_new : string → M St Z
}.

(** An operation of Log.v in a larger state. *)
Definition lift_sys {St A} (get_sys : St → LogSys) (set_sys : LogSys → St → St) (m : M LogSys A) : M St A := λ x,
  match m (get_sys x) with
  | Ok a s => Ok a (set_sys s x)
  | Throw e s => Throw e (set_sys s x)
  | Abort w => Abort w
  | Undef w => Undef w
  end.

Section backend.
Context `{B : Backend St}.

Definition on_sys {A} (m : M LogSys A) : M St A := lift_sys sys_of set_sys m.

Fixpoint b_appenders_log (level : Level) (event : LogEvent) (l : list Z) : M St unit :=
  match l with
  | [] => mret tt
  | p :: l' => b_log level event p;; b_appenders_log level event l'
  end.

(** [Logger::log]. *)
Definition b_log_with (root_log : M St unit) (name : string) (level : Level) (event : LogEvent) : M St unit :=
  lg ← on_sys (logger_at name);
  if level_num level <? level_num (l_level lg) then mret tt
  else match m_appenders lg with
  | _ :: _ => b_appenders_log level event (m_appenders lg)
  | [] => if l_has_root lg then root_log else mret tt
  end.
Definition b_logger_log (name : string) (level : Level) (event : LogEvent) : M St unit :=
  b_log_with (b_log_with (mret tt) "root" level event) name level event.

(** An event is logged, a logger gets a file appender or loses its appenders
    or changes its level, or others change the file system. *)
Inductive act :=
| ALog (name : string) (level : Level) (event : LogEvent)
| AFile (name f : string) (level : Level)
| AClear (name : string)
| ALevel (name : string) (level : Level)
| AOutside (o : outside).

Definition perform (a : act) : M St unit :=
  match a with
  | ALog name level event => on_sys (getLogger name);; b_logger_log name level event
  | AFile name f level =>
      on_sys (getLogger name);;
      ap ← b_new f;
      on_sys (appender_setLevel ap level);;
      on_sys (addAppender name ap)
  | AClear name => on_sys (getLogger name);; on_sys (clearAppender name)
  | ALevel name level => on_sys (getLogger name);; on_sys (setLevel name level)
  | AOutside o => modify (λ x, set_fs (change o (fs_of x)) x)
  end.

Fixpoint run (l : list act) : M St unit :=
  match l with
  | [] => mret tt
  | a :: l' => perform a;; run l'
  end.
End backend.

(** What standard output shows when a line could not be written. *)
Definition error_line : text := txt "error" ++ newline.

(** ** The code: streams *)

Record World := mkWorld { w_sys : LogSys; w_fs : FS; streams : gmap Z ofstream; console : text }.

Definition w_print (t : text) : M World unit :=
  modify (λ w, mkWorld (w_sys w) (w_fs w) (streams w) (console w ++ t)).
Definition w_set_sys (s : LogSys) (w : World) : World := mkWorld s (w_fs w) (streams w) (console w).
Definition w_set_fs (d : FS) (w : World) : World := mkWorld (w_sys w) d (streams w) (console w).

(** An operation on the stream of an appender. *)
Definition on_stream (p : Z) (op : FS * ofstream → FS * ofstream) : M World ofstream :=
  w ← get;
  st ← of_option "null stream" (streams w !! p);
  let y := op (w_fs w, st) in
  put (mkWorld (w_sys w) y.1 (<[p := y.2]> (streams w)) (console w));;
  mret y.2.

Definition w_call {A} (m : M LogSys A) : M World A := lift_sys w_sys w_set_sys m.

Section code.
Context (spill : text → bool) (strftime : text → Z → text).

(** [reopen] returns [!!m_filestream]. *)
Definition reopen (p : Z) (f : string) : M World bool :=
  st ← on_stream p (reopen_stream f); mret (negb (failed st)).

(** [StdoutLogAppender::log].  [written] of Log.v records the line as it does
    there. *)
Definition StdoutLogAppender_log (level : Level) (event : LogEvent) (p : Z) (a : LogAppender) : M World unit :=
  if level_num level <? level_num (a_level a) then mret tt
  else
    fm ← of_option "null formatter" (a_formatter a);
    w_print (format strftime fm level event);;
    w_call (modify (write_text p (format strftime fm level event))).

(** [FileLogAppender::log] of the appender at [p], with its [m_filename] and
    [m_lastTime]. *)
Definition FileLogAppender_log (level : Level) (event : LogEvent) (p : Z) (a : LogAppender) (f : string) (last : Z) : M World unit :=
  if level_num level <? level_num (a_level a) then mret tt
  else
    (if u64 (last + 3) <=? m_time event
     then reopen p f;;
          w_call (modify (set_appender p (mkAppender (File f (m_time event)) (a_level a) (m_hasFormatter a) (a_formatter a))))
     else mret tt);;
    fm ← of_option "null formatter" (a_formatter a);
    st ← on_stream p (format_to spill strftime fm level event);
    when (failed st) (w_print error_line);;
    w_call (modify (write_text p (format strftime fm level event))).

(** The call of the virtual function. *)
Definition world_log (level : Level) (event : LogEvent) (p : Z) : M World unit :=
  a ← w_call (appender_at p);
  match a_kind a with
  | Stdout => StdoutLogAppender_log level event p a
  | File f last => FileLogAppender_log level event p a f last
  end.

(** [new FileLogAppender(f)]. *)
Definition new_FileLogAppender (f : string) : M World Z :=
  p ← w_call (new_appender (File f 0));
  modify (λ w, mkWorld (w_sys w) (w_fs w) (<[p := unopened]> (streams w)) (console w));;
  reopen p f;;
  mret p.

#[global] Instance World_backend : Backend World :=
  mkBackend World w_sys w_set_sys w_fs w_set_fs world_log new_FileLogAppender.
End code.

(** ** The abstract view: a file, or none *)

Record Spec := mkSpec { p_sys : LogSys; p_fs : FS; current : gmap Z (option Z); p_console : text }.

Definition p_set_sys (s : LogSys) (x : Spec) : Spec := mkSpec s (p_fs x) (current x) (p_console x).
Definition p_set_fs (d : FS) (x : Spec) : Spec := mkSpec (p_sys x) d (current x) (p_console x).
Definition p_print (t : text) (x : Spec) : Spec := mkSpec (p_sys x) (p_fs x) (current x) (p_console x ++ t).
Definition p_call {A} (m : M LogSys A) : M Spec A := lift_sys p_sys p_set_sys m.

(** The name is looked up. *)
Definition p_lookup (p : Z) (f : string) : M Spec unit :=
  modify (λ x, let o := sys_open f (p_fs x) in
    mkSpec (p_sys x) o.1 (<[p := o.2]> (current x)) (p_console x)).

(** A line goes to the file, or there is none and it is lost. *)
Definition p_deliver (p : Z) (t : text) : M Spec unit :=
  x ← get;
  c ← of_option "null stream" (current x !! p);
  put match c with Some i => p_set_fs (append i t (p_fs x)) x | None => p_print error_line x end.

Section abstract.
Context (strftime : text → Z → text).

Definition spec_log (level : Level) (event : LogEvent) (p : Z) : M Spec unit :=
  a ← p_call (appender_at p);
  if level_num level <? level_num (a_level a) then mret tt
  else
    fm ← of_option "null formatter" (a_formatter a);
    let t := format strftime fm level event in
    (match a_kind a with
     | File f last =>
         (if u64 (last + 3) <=? m_time event
          then p_lookup p f;;
               p_call (modify (set_appender p (mkAppender (File f (m_time event)) (a_level a) (m_hasFormatter a) (a_formatter a))))
          else mret tt);;
         p_deliver p t
     | Stdout => modify (p_print t)
     end);;
    p_call (modify (write_text p t)).

Definition spec_new (f : string) : M Spec Z :=
  p ← p_call (new_appender (File f 0));
  p_lookup p f;;
  mret p.

#[global] Instance Spec_backend : Backend Spec :=
  mkBackend Spec p_sys p_set_sys p_fs p_set_fs spec_log spec_new.
End abstract.

(** ** Streams while the device takes what is written *)

Lemma append_app i t u d : append i (t ++ u) d = append i u (append i t d).
Proof.
  destruct t as [|c t]; [done|]. destruct u as [|e u]; [by rewrite app_nil_r|].
  unfold append, contents. cbn. rewrite lookup_insert_eq, insert_insert_eq. cbn. by rewrite <- app_assoc.
Qed.

Lemma append_full i t d : full (append i t d) = full d.
Proof. by destruct t. Qed.

Lemma sys_open_full f d : full (sys_open f d).1 = full d.
Proof. unfold sys_open. case_decide; [done|]. by destruct (names d !! f). Qed.

Lemma change_full o d : full (change o d) = full d.
Proof. destruct o as [f g| | |]; cbn; [destruct (names d !! f)| | |]; done. Qed.

(** An open stream that did not fail. *)
Definition live (i : Z) (x : FS * ofstream) : Prop :=
  handle x.2 = Some i ∧ failed x.2 = false ∧ full x.1 = false.
(** The file system once the buffer is written. *)
Definition view (i : Z) (x : FS * ofstream) : FS := append i (buffer x.2) x.1.

Section stream_lemmas.
Context (spill : text → bool) (strftime : text → Z → text).

Lemma sync_live i x : live i x → live i (sync x) ∧ view i (sync x) = view i x ∧ buffer (sync x).2 = [].
Proof.
  destruct x as [d [h b fl]]. intros (Hh & Hf & Hd). cbn in *. subst h fl. unfold sync. cbn.
  destruct b as [|c b]; [done|]. rewrite Hd. repeat split. unfold view, append. cbn. by rewrite Hd.
Qed.

Lemma put_text_live i t x : live i x → live i (put_text spill t x) ∧ view i (put_text spill t x) = append i t (view i x).
Proof.
  destruct x as [d [h b fl]]. intros (Hh & Hf & Hd). cbn in *. subst h fl. unfold put_text. cbn [fst snd handle buffer failed].
  assert (view i (d, mkStream (Some i) (b ++ t) false) = append i t (view i (d, mkStream (Some i) b false))) as Hv
    by apply append_app.
  destruct (spill (b ++ t)); [|done].
  destruct (sync_live i (d, mkStream (Some i) (b ++ t) false)) as (H1 & H2 & _); [done|]. split; [done|]. by rewrite H2.
Qed.

Lemma put_endl_live i x : live i x →
  live i (put_endl spill x) ∧ view i (put_endl spill x) = append i newline (view i x) ∧ buffer (put_endl spill x).2 = [].
Proof.
  intros Hx. destruct (put_text_live i newline x Hx) as [H1 H2]. unfold put_endl.
  destruct (proj2 H1) as [Hf _]. rewrite Hf. destruct (sync_live _ _ H1) as (H3 & H4 & H5). by rewrite H4.
Qed.

Lemma put_item_live level event i x it : live i x →
  live i (put_item spill strftime level event x it) ∧
  view i (put_item spill strftime level event x it) = append i (format_item strftime level event it) (view i x).
Proof. intros Hx. destruct it; cbn; try by apply put_text_live. by destruct (put_endl_live i x Hx) as (? & ? & _). Qed.

(** Text that ends with [%n] is in the file when it has been written. *)
Definition line_formatter (f : LogFormatter) : Prop := last (m_items f) = Some NewLineFormatItem.
#[global] Instance line_formatter_dec f : Decision (line_formatter f).
Proof. unfold line_formatter. destruct (last (m_items f)) as [[]|]; (by left) || (by right). Defined.

Lemma format_items_live level event i l : ∀ x, live i x →
  live i (foldl (put_item spill strftime level event) x l) ∧
  view i (foldl (put_item spill strftime level event) x l) =
    append i (concat (format_item strftime level event <$> l)) (view i x).
Proof.
  induction l as [|it l IH]; intros x Hx; [done|]. cbn.
  destruct (put_item_live level event i x it Hx) as [H1 H2]. destruct (IH _ H1) as [H3 H4].
  split; [done|]. by rewrite H4, H2, append_app.
Qed.

Lemma format_to_live f level event i d :
  full d = false → line_formatter f →
  format_to spill strftime f level event (d, mkStream (Some i) [] false) =
    (append i (format strftime f level event) d, mkStream (Some i) [] false).
Proof.
  intros Hd Hl. unfold line_formatter in Hl. apply last_Some in Hl as [l Hl].
  unfold format_to, format. rewrite Hl, fmap_app, concat_app, foldl_app.
  destruct (format_items_live level event i l (d, mkStream (Some i) [] false)) as [H1 H2]; [done|].
  cbn [foldl put_item fmap list_fmap concat]. destruct (put_endl_live _ _ H1) as ((H3 & H4 & _) & H5 & H6).
  destruct (put_endl spill _) as [d' [h b fl]]. cbn in *. subst h b fl. f_equal.
  unfold view in H5. cbn in H5. rewrite H5. change (append i newline ?X) with (append i newline X).
  unfold view in H2. rewrite H2. cbn. by rewrite append_app.
Qed.

(** A stream that failed takes nothing. *)
Lemma put_item_failed level event x it : failed x.2 = true → put_item spill strftime level event x it = x.
Proof. intros Hf. destruct it; cbn; unfold put_endl, put_text; by rewrite Hf, ?Hf. Qed.

Lemma format_to_failed f level event x : failed x.2 = true → format_to spill strftime f level event x = x.
Proof.
  intros Hf. unfold format_to. induction (m_items f) as [|it l IH]; [done|]. cbn. by rewrite put_item_failed.
Qed.
End stream_lemmas.

(** The stream of an appender that has a file, or none. *)
Definition stream_for (c : option Z) : ofstream := mkStream c [] (bool_decide (c = None)).

Lemma reopen_stream_for f d c : reopen_stream f (d, stream_for c) = ((sys_open f d).1, stream_for (sys_open f d).2).
Proof.
  unfold reopen_stream. destruct c as [i|]; cbn; unfold stream_open; cbn; by destruct (sys_open f d) as [d' [j|]].
Qed.

Lemma reopen_unopened f d : reopen_stream f (d, unopened) = ((sys_open f d).1, stream_for (sys_open f d).2).
Proof. unfold reopen_stream, stream_open. cbn. by destruct (sys_open f d) as [d' [j|]]. Qed.

(** ** The streams refine the abstract view *)

(** A formatter is set and its lines end with [%n]. *)
Definition prints (o : option LogFormatter) : Prop := ∃ f, o = Some f ∧ line_formatter f.

(** Loggers and appenders print lines, loggers hold live appenders, and a file
    appender has a stream. *)
Record good (s : LogSys) (has_stream : Z → Prop) : Prop := {
  go_root : is_Some (m_loggers s !! "root");
  go_free p : next_addr s <= p → appenders s !! p = None;
  go_logger name lg : m_loggers s !! name = Some lg →
    prints (l_formatter lg) ∧ ∀ p, p ∈ m_appenders lg → is_Some (appenders s !! p);
  go_appender p a : appenders s !! p = Some a →
    prints (a_formatter a) ∧ ∀ f t, a_kind a = File f t → has_stream p
}.

Definition w_good (w : World) : Prop := good (w_sys w) (λ p, is_Some (streams w !! p)).

Record matches (w : World) (x : Spec) : Prop := {
  ma_sys : p_sys x = w_sys w;
  ma_fs : p_fs x = w_fs w;
  ma_console : p_console x = console w;
  ma_streams p : streams w !! p = stream_for <$> current x !! p;
  ma_device : full (w_fs w) = false
}.

(** *** Operations on the loggers *)

Lemma good_mono s (D E : Z → Prop) : (∀ p, D p → E p) → good s D → good s E.
Proof. intros Hsub [H1 H2 H3 H4]. split; naive_solver. Qed.

Lemma good_set_logger s D name lg :
  good s D → prints (l_formatter lg) → (∀ p, p ∈ m_appenders lg → is_Some (appenders s !! p)) →
  good (set_logger name lg s) D.
Proof.
  intros [H1 H2 H3 H4] Hp Ha. split; [|done| |done]; cbn.
  - destruct (decide (name = "root")) as [->|Hne]; [rewrite lookup_insert_eq; by eexists|by rewrite lookup_insert_ne].
  - intros n l. destruct (decide (name = n)) as [<-|Hne].
    + rewrite lookup_insert_eq. by intros [= <-].
    + rewrite lookup_insert_ne by done. apply H3.
Qed.

Lemma default_prints : prints (Some (new_LogFormatter default_pattern)).
Proof. eexists. split; [done|]. vm_compute. reflexivity. Qed.

Lemma getLogger_good s D name : good s D →
  ∃ lg s', getLogger name s = Ok tt s' ∧ m_loggers s' !! name = Some lg ∧ good s' D ∧
    written s' = written s ∧ appenders s' = appenders s.
Proof.
  intros Hg. unfold getLogger. rewrite bind_get. destruct (m_loggers s !! name) as [lg|] eqn:E.
  - by exists lg, s.
  - eexists _, _. split_and!; [reflexivity|apply lookup_insert_eq| |done|done].
    apply good_set_logger; [done|apply default_prints|]. intros p Hp. by apply elem_of_nil in Hp.
Qed.

Lemma clearAppender_good s D name lg : good s D → m_loggers s !! name = Some lg →
  ∃ s', clearAppender name s = Ok tt s' ∧ good s' D.
Proof.
  intros Hg Hl. unfold clearAppender. mstep (logger_at_run _ _ _ Hl). eexists. split; [done|].
  apply good_set_logger; [done|exact (proj1 (go_logger _ _ Hg name lg Hl))|]. intros p Hp. by apply elem_of_nil in Hp.
Qed.

Lemma setLevel_good s D name lg v : good s D → m_loggers s !! name = Some lg →
  ∃ s', setLevel name v s = Ok tt s' ∧ good s' D.
Proof.
  intros Hg Hl. unfold setLevel. mstep (logger_at_run _ _ _ Hl). eexists. split; [done|].
  destruct (go_logger _ _ Hg name lg Hl). by apply good_set_logger.
Qed.

(** An appender changes its time. *)
Lemma good_set_appender s D p a k : good s D → appenders s !! p = Some a → (∀ f t, k = File f t → D p) →
  good (set_appender p (mkAppender k (a_level a) (m_hasFormatter a) (a_formatter a)) s) D.
Proof.
  intros [H1 H2 H3 H4] Ha Hk. split; [done| | |]; cbn.
  - intros q Hq. destruct (decide (p = q)) as [<-|Hne]; [by rewrite H2 in Ha|]. rewrite lookup_insert_ne by done. by apply H2.
  - intros n lg Hl. destruct (H3 n lg Hl) as [Hp Hl']. split; [done|]. intros q Hq.
    destruct (decide (p = q)) as [<-|Hne]; [rewrite lookup_insert_eq; by eexists|]. rewrite lookup_insert_ne by done. by apply Hl'.
  - intros q b. destruct (decide (p = q)) as [<-|Hne].
    + rewrite lookup_insert_eq. intros [= <-]. cbn. split; [apply (H4 p a Ha)|done].
    + rewrite lookup_insert_ne by done. apply H4.
Qed.

Lemma good_write s D p t : good s D → good (write_text p t s) D.
Proof. intros [H1 H2 H3 H4]. by split. Qed.

(** A logger gets a new appender, which takes its formatter. *)
Lemma good_appended s D name lg f level : good s D → m_loggers s !! name = Some lg → D (next_addr s) →
  good (appended s name lg (mkAppender (File f 0) level false (l_formatter lg))) D.
Proof.
  intros [H1 H2 H3 H4] Hl HD. destruct (H3 name lg Hl) as [Hp Hlive].
  assert (∀ q, is_Some (appenders s !! q) →
    is_Some (<[next_addr s := mkAppender (File f 0) level false (l_formatter lg)]> (appenders s) !! q)) as Hkeep.
  { intros q Hq. destruct (decide (next_addr s = q)) as [<-|Hne]; [rewrite lookup_insert_eq; by eexists|].
    by rewrite lookup_insert_ne. }
  split; cbn.
  - destruct (decide (name = "root")) as [->|Hne]; [rewrite lookup_insert_eq; by eexists|by rewrite lookup_insert_ne].
  - intros q Hq. rewrite lookup_insert_ne by lia. apply H2. lia.
  - intros n l. destruct (decide (name = n)) as [<-|Hne].
    + rewrite lookup_insert_eq. intros [= <-]. split; [done|]. cbn. intros q. rewrite elem_of_app, list_elem_of_singleton.
      intros [Hq| ->]; [by apply Hkeep, Hlive|rewrite lookup_insert_eq; by eexists].
    + rewrite lookup_insert_ne by done. intros Hn. destruct (H3 n l Hn) as [Hn1 Hn2]. split; [done|]. intros q Hq. by apply Hkeep, Hn2.
  - intros q b. destruct (decide (next_addr s = q)) as [<-|Hne].
    + rewrite lookup_insert_eq. by intros [= <-].
    + rewrite lookup_insert_ne by done. apply H4.
Qed.

(** *** One event, one appender *)

Section refinement.
Context (spill : text → bool) (strftime : text → Z → text).
Let W : Backend World := World_backend spill strftime.
Let P : Backend Spec := Spec_backend strftime.
#[local] Existing Instances W P.

Lemma w_call_ok {A} (m : M LogSys A) w a s' : m (w_sys w) = Ok a s' → w_call m w = Ok a (w_set_sys s' w).
Proof. intros E. unfold w_call, lift_sys. by rewrite E. Qed.

Lemma p_call_ok {A} (m : M LogSys A) x a s' : m (p_sys x) = Ok a s' → p_call m x = Ok a (p_set_sys s' x).
Proof. intros E. unfold p_call, lift_sys. by rewrite E. Qed.

Lemma matches_set_sys w x s : matches w x → matches (w_set_sys s w) (p_set_sys s x).
Proof. intros [H1 H2 H3 H4 H5]. by split. Qed.

(** The streams after an operation on one of them. *)
Lemma on_stream_run w p op st : streams w !! p = Some st →
  on_stream p op w = Ok (op (w_fs w, st)).2
    (mkWorld (w_sys w) (op (w_fs w, st)).1 (<[p := (op (w_fs w, st)).2]> (streams w)) (console w)).
Proof. intros E. unfold on_stream. rewrite bind_get, E. done. Qed.

Lemma matches_stream w x p d c : matches w x → full d = false →
  matches (mkWorld (w_sys w) d (<[p := stream_for c]> (streams w)) (console w))
    (mkSpec (p_sys x) d (<[p := c]> (current x)) (p_console x)).
Proof.
  intros [H1 H2 H3 H4 H5] Hd. split; [done|done|done| |done]. intros q. cbn.
  destruct (decide (p = q)) as [<-|Hne]; [by rewrite !lookup_insert_eq|by rewrite !lookup_insert_ne].
Qed.

Lemma good_stream w d p st : w_good w →
  w_good (mkWorld (w_sys w) d (<[p := st]> (streams w)) (console w)).
Proof.
  apply good_mono. intros q Hq. cbn. destruct (decide (p = q)) as [<-|Hne].
  - rewrite lookup_insert_eq. by eexists.
  - by rewrite lookup_insert_ne.
Qed.

(** [reopen] looks the name up. *)
Lemma reopen_lookup w x p f st : matches w x → streams w !! p = Some st →
  (st = unopened ∨ is_Some (current x !! p)) →
  ∃ w' x', reopen p f w = Ok (bool_decide (is_Some (sys_open f (w_fs w)).2)) w' ∧ p_lookup p f x = Ok tt x' ∧ matches w' x' ∧
    w_sys w' = w_sys w ∧ (w_good w → w_good w') ∧ is_Some (current x' !! p).
Proof.
  intros Hm Hst Hor. unfold reopen. mstep (on_stream_run _ _ (reopen_stream f) _ Hst).
  assert (reopen_stream f (w_fs w, st) = ((sys_open f (w_fs w)).1, stream_for (sys_open f (w_fs w)).2)) as ->.
  { destruct Hor as [->|[c Hc]]; [apply reopen_unopened|]. rewrite (ma_streams _ _ Hm), Hc in Hst.
    injection Hst as <-. apply reopen_stream_for. }
  cbn [fst snd]. unfold p_lookup, modify. cbv beta zeta. rewrite (ma_fs _ _ Hm). eexists _, _. split_and!.
  - unfold mret, M_ret. f_equal. cbn. by destruct (sys_open f (w_fs w)) as [d [i|]].
  - reflexivity.
  - apply matches_stream; [done|]. rewrite sys_open_full. apply Hm.
  - done.
  - apply good_stream.
  - cbn. rewrite lookup_insert_eq. by eexists.
Qed.

(** A line is formatted to a stream, or it is lost and the loss is shown. *)
Lemma format_deliver w x p fm level event c : matches w x → current x !! p = Some c → line_formatter fm →
  ∃ w' x',
    (st ← on_stream p (format_to spill strftime fm level event); when (failed st) (w_print error_line)) w = Ok tt w' ∧
    p_deliver p (format strftime fm level event) x = Ok tt x' ∧ matches w' x' ∧ w_sys w' = w_sys w ∧ (w_good w → w_good w').
Proof.
  intros Hm Hc Hl. assert (streams w !! p = Some (stream_for c)) as Hst by by rewrite (ma_streams _ _ Hm), Hc.
  mstep (on_stream_run _ _ (format_to spill strftime fm level event) _ Hst). unfold p_deliver. rewrite bind_get, Hc.
  assert (<[p := c]> (current x) = current x) as Hid by by apply insert_id.
  destruct c as [i|].
  - unfold stream_for. rewrite bool_decide_false by done. rewrite format_to_live by (done || apply Hm).
    cbn [fst snd failed]. eexists _, _. split_and!; [reflexivity|reflexivity| |done|apply good_stream].
    unfold p_set_fs. rewrite (ma_fs _ _ Hm), <- Hid. apply (matches_stream w x p _ (Some i)); [done|].
    rewrite append_full. apply Hm.
  - rewrite format_to_failed by done. cbn [fst snd failed stream_for bool_decide decide]. eexists _, _.
    split_and!; [reflexivity|reflexivity| |done|].
    + destruct (matches_stream w x p (w_fs w) None Hm (ma_device _ _ Hm)) as [H1 H2 H3 H4 H5]. rewrite Hid in H4.
      unfold p_print. cbn in *. split; cbn; [done|apply Hm|by rewrite (ma_console _ _ Hm)|done|done].
    + apply good_stream.
Qed.

(** The file is looked up again when three seconds have passed. *)
Lemma look_again_run w x p a f last now :
  matches w x → w_good w → appenders (w_sys w) !! p = Some a → is_Some (streams w !! p) →
  let a' := mkAppender (File f now) (a_level a) (m_hasFormatter a) (a_formatter a) in
  ∃ w' x',
    (if u64 (last + 3) <=? now then reopen p f;; w_call (modify (set_appender p a')) else mret tt) w = Ok tt w' ∧
    (if u64 (last + 3) <=? now then p_lookup p f;; p_call (modify (set_appender p a')) else mret tt) x = Ok tt x' ∧
    (if u64 (last + 3) <=? now then modify (set_appender p a') else mret tt) (w_sys w) = Ok tt (w_sys w') ∧
    matches w' x' ∧ w_good w' ∧ is_Some (current x' !! p).
Proof.
  intros Hm Hg Ha [st Hst] a'. assert (is_Some (current x !! p)) as Hc.
  { rewrite (ma_streams _ _ Hm) in Hst. destruct (current x !! p); [by eexists|done]. }
  destruct (u64 (last + 3) <=? now); [|by exists w, x].
  destruct (reopen_lookup w x p f st Hm Hst (or_intror Hc)) as (w1 & x1 & E1 & E2 & Hm1 & Hs & Hg1 & Hc1).
  mstep E1. mstep E2. eexists _, _. split_and!; [reflexivity|reflexivity|cbn; by rewrite Hs| | |done].
  - rewrite (ma_sys _ _ Hm1). by apply matches_set_sys.
  - specialize (Hg1 Hg). apply good_set_appender; [done|by rewrite Hs|]. intros ???.
    rewrite (ma_streams _ _ Hm1). by destruct (current x1 !! p); [eexists|destruct Hc1].
Qed.

(** An event goes to one appender: the code, the abstract view and Log.v do
    the same to the loggers, and the view still matches. *)
Lemma log_one w x level event p :
  matches w x → w_good w → is_Some (appenders (w_sys w) !! p) →
  ∃ w' x', world_log spill strftime level event p w = Ok tt w' ∧ spec_log strftime level event p x = Ok tt x' ∧
    appender_log strftime level event p (w_sys w) = Ok tt (w_sys w') ∧ matches w' x' ∧ w_good w'.
Proof.
  intros Hm Hg [a Ha]. destruct (go_appender _ _ Hg p a Ha) as [(fm & Hfm & Hl) Hk].
  unfold world_log, StdoutLogAppender_log, FileLogAppender_log, spec_log, appender_log.
  mstep (w_call_ok _ _ _ _ (appender_at_run _ _ _ Ha)). rewrite <- (ma_sys _ _ Hm) in Ha.
  mstep (p_call_ok _ _ _ _ (appender_at_run _ _ _ Ha)). rewrite (ma_sys _ _ Hm) in *.
  mstep (appender_at_run _ _ _ Ha).
  replace (w_set_sys (w_sys w) w) with w by by destruct w.
  replace (p_set_sys (w_sys w) x) with x by (rewrite <- (ma_sys _ _ Hm); by destruct x).
  destruct (level_num level <? level_num (a_level a)); [by exists w, x; destruct (a_kind a)|]. rewrite Hfm. cbn [of_option].
  destruct (a_kind a) as [|f last]; rewrite ?bind_mret.
  { eexists _, _. split_and!; [reflexivity|reflexivity|reflexivity| |].
    - destruct Hm as [H1 H2 H3 H4 H5]. split; cbn; try done; [by rewrite H1|by rewrite H3].
    - by apply good_write. }
  destruct (look_again_run w x p a f last (m_time event) Hm Hg Ha (Hk f last eq_refl))
    as (w1 & x1 & E1 & E2 & E3 & Hm1 & Hg1 & [c Hc1]). rewrite Hfm in E1, E2, E3.
  mstep E1. rewrite bind_assoc. mstep E2. mstep E3. rewrite bind_mret.
  destruct (format_deliver w1 x1 p fm level event c Hm1 Hc1 Hl) as (w2 & x2 & E4 & E5 & Hm2 & Hs2 & Hg2).
  rewrite <- bind_assoc. mstep E4. mstep E5. eexists _, _. split_and!; [reflexivity|reflexivity| | |].
  - cbn. by rewrite Hs2.
  - rewrite (ma_sys _ _ Hm2). by apply matches_set_sys.
  - by apply good_write, Hg2.
Qed.

Lemma log_each level event l : ∀ w x, matches w x → w_good w → (∀ p, p ∈ l → is_Some (appenders (w_sys w) !! p)) →
  ∃ w' x', b_appenders_log (B := W) level event l w = Ok tt w' ∧ b_appenders_log (B := P) level event l x = Ok tt x' ∧
    appenders_log strftime level event l (w_sys w) = Ok tt (w_sys w') ∧ matches w' x' ∧ w_good w'.
Proof.
  induction l as [|p l IH]; intros w x Hm Hg Hl; [by exists w, x|]. cbn [b_appenders_log appenders_log].
  destruct (Hl p) as [a Ha]; [by left|].
  destruct (log_one w x level event p Hm Hg) as (w1 & x1 & E1 & E2 & E3 & Hm1 & Hg1); [by eexists|].
  destruct (appender_log_run strftime (w_sys w) level event p a) with
    (f := default (new_LogFormatter []) (a_formatter a)) as (s1 & E4 & (_ & _ & Hs) & _); [done| |].
  { destruct (go_appender _ _ Hg p a Ha) as [(f & -> & _) _]. done. }
  rewrite E3 in E4. injection E4 as <-.
  destruct (IH w1 x1 Hm1 Hg1) as (w2 & x2 & E5 & E6 & E7 & H).
  { intros q Hq. specialize (Hs q). destruct (Hl q) as [b Hb]; [by right|]. rewrite Hb in Hs.
    destruct (appenders (w_sys w1) !! q); [by eexists|done]. }
  exists w2, x2. cbn [b_log W P World_backend Spec_backend]. split_and!; [by mstep E1|by mstep E2|by mstep E3|apply H|apply H].
Qed.

Lemma on_sys_ok {A} (m : M LogSys A) w x a s' : matches w x → m (w_sys w) = Ok a s' →
  on_sys (B := W) m w = Ok a (w_set_sys s' w) ∧ on_sys (B := P) m x = Ok a (p_set_sys s' x) ∧
  matches (w_set_sys s' w) (p_set_sys s' x).
Proof.
  intros Hm E. split_and!; [by apply w_call_ok| |by apply matches_set_sys]. apply p_call_ok. by rewrite (ma_sys _ _ Hm).
Qed.

Lemma logger_known w x name : matches w x → is_Some (m_loggers (w_sys w) !! name) →
  ∃ lg, m_loggers (w_sys w) !! name = Some lg ∧ on_sys (B := W) (logger_at name) w = Ok lg w ∧
    on_sys (B := P) (logger_at name) x = Ok lg x ∧ logger_at name (w_sys w) = Ok lg (w_sys w).
Proof.
  intros Hm [lg Hl]. exists lg. pose proof (logger_at_run _ _ _ Hl) as E.
  destruct (on_sys_ok _ _ _ _ _ Hm E) as (E1 & E2 & _).
  replace (w_set_sys (w_sys w) w) with w in E1 by by destruct w.
  replace (p_set_sys (w_sys w) x) with x in E2 by (rewrite <- (ma_sys _ _ Hm); by destruct x). done.
Qed.

(** One logger, given what [m_root->log] does. *)
Lemma log_with_run w x name level event (rw : M World unit) (rx : M Spec unit) (rs : M LogSys unit) :
  matches w x → w_good w → is_Some (m_loggers (w_sys w) !! name) →
  (∃ w' x', rw w = Ok tt w' ∧ rx x = Ok tt x' ∧ rs (w_sys w) = Ok tt (w_sys w') ∧ matches w' x' ∧ w_good w') →
  ∃ w' x', b_log_with (B := W) rw name level event w = Ok tt w' ∧ b_log_with (B := P) rx name level event x = Ok tt x' ∧
    log_with strftime rs name level event (w_sys w) = Ok tt (w_sys w') ∧ matches w' x' ∧ w_good w'.
Proof.
  intros Hm Hg Hn Hroot. destruct (logger_known w x name Hm Hn) as (lg & Hl & E1 & E2 & E3).
  unfold b_log_with, log_with. mstep E1. mstep E2. mstep E3.
  destruct (level_num level <? level_num (l_level lg)); [by exists w, x|].
  destruct (m_appenders lg) as [|q l] eqn:Eq.
  - destruct (l_has_root lg); [exact Hroot|by exists w, x].
  - apply log_each; [done|done|]. rewrite <- Eq. apply (go_logger _ _ Hg name lg Hl).
Qed.

Lemma logger_log_run w x name level event : matches w x → w_good w → is_Some (m_loggers (w_sys w) !! name) →
  ∃ w' x', b_logger_log (B := W) name level event w = Ok tt w' ∧ b_logger_log (B := P) name level event x = Ok tt x' ∧
    log strftime name level event (w_sys w) = Ok tt (w_sys w') ∧ matches w' x' ∧ w_good w'.
Proof.
  intros Hm Hg Hn. apply log_with_run; [done|done|done|]. apply log_with_run; [done|done|apply (go_root _ _ Hg)|].
  by exists w, x.
Qed.

(** A new file appender: its name is looked up. *)
Lemma new_file_run w x f : matches w x → w_good w →
  ∃ w' x', new_FileLogAppender f w = Ok (next_addr (w_sys w)) w' ∧ spec_new f x = Ok (next_addr (w_sys w)) x' ∧
    matches w' x' ∧
    w_sys w' = mkSys (m_loggers (w_sys w)) (<[next_addr (w_sys w) := mkAppender (File f 0) DEBUG false None]> (appenders (w_sys w)))
      (next_addr (w_sys w) + 1) (written (w_sys w)) ∧
    good (w_sys w) (λ p, is_Some (streams w' !! p)) ∧ is_Some (streams w' !! next_addr (w_sys w)).
Proof.
  intros Hm Hg. unfold new_FileLogAppender, spec_new. set (p := next_addr (w_sys w)). set (s1 := mkSys _ _ _ _).
  mstep (w_call_ok (new_appender (File f 0)) w p s1 eq_refl).
  mstep (p_call_ok (new_appender (File f 0)) x p s1 (ltac:(rewrite (ma_sys _ _ Hm); reflexivity))).
  rewrite bind_modify. unfold w_set_sys at 1. cbn [w_sys w_fs streams console].
  set (w1 := mkWorld s1 (w_fs w) (<[p := unopened]> (streams w)) (console w)).
  assert (∃ w' x', (reopen p f;; mret p) w1 = Ok p w' ∧ (p_lookup p f;; mret p) (p_set_sys s1 x) = Ok p x' ∧ matches w' x' ∧
    w_sys w' = s1 ∧ streams w' = <[p := stream_for (sys_open f (w_fs w)).2]> (streams w)) as (w' & x' & E1 & E2 & Hm' & Hs & Hst).
  { unfold reopen. rewrite bind_assoc. mstep (on_stream_run w1 p (reopen_stream f) unopened (lookup_insert_eq _ _ _)).
    rewrite reopen_unopened. unfold p_lookup, modify. cbn [w_fs w1]. eexists _, _. split_and!; [reflexivity|reflexivity| |reflexivity|].
    - cbn. rewrite (ma_fs _ _ Hm), insert_insert_eq.
      apply (matches_stream (w_set_sys s1 w) (p_set_sys s1 x)); [by apply matches_set_sys|]. rewrite sys_open_full. apply Hm.
    - cbn. by rewrite insert_insert_eq. }
  exists w', x'. split_and!; [done|done|done|done| |].
  - rewrite Hst. eapply good_mono; [|exact Hg]. intros q Hq. cbn. destruct (decide (p = q)) as [<-|Hne].
    + rewrite lookup_insert_eq. by eexists.
    + by rewrite lookup_insert_ne.
  - rewrite Hst, lookup_insert_eq. by eexists.
Qed.

(** A logger gets a file appender. *)
Lemma add_file_run w x name f level lg : matches w x → w_good w → m_loggers (w_sys w) !! name = Some lg →
  ∃ w' x',
    (ap ← b_new (Backend := W) f; on_sys (B := W) (appender_setLevel ap level);; on_sys (B := W) (addAppender name ap)) w = Ok tt w' ∧
    (ap ← b_new (Backend := P) f; on_sys (B := P) (appender_setLevel ap level);; on_sys (B := P) (addAppender name ap)) x = Ok tt x' ∧
    matches w' x' ∧ w_good w'.
Proof.
  intros Hm Hg Hl. destruct (new_file_run w x f Hm Hg) as (w1 & x1 & E1 & E2 & Hm1 & Hs & Hg1 & Hst).
  cbn [b_new W P World_backend Spec_backend]. mstep E1. mstep E2.
  set (p := next_addr (w_sys w)) in *.
  assert (∃ s2, appender_setLevel p level (w_sys w1) = Ok tt s2 ∧
    addAppender name p s2 = Ok tt (appended (w_sys w) name lg (mkAppender (File f 0) level false (l_formatter lg)))) as (s2 & E3 & E4).
  { rewrite Hs. unfold appender_setLevel. mstep (appender_at_run (mkSys _ _ _ _) p _ (lookup_insert_eq _ _ _)).
    eexists. split; [reflexivity|]. unfold addAppender, set_appender. cbn [m_loggers appenders next_addr written].
    mstep (logger_at_run (mkSys _ _ _ _) name _ Hl). mstep (appender_at_run (mkSys _ _ _ _) p _ (lookup_insert_eq _ _ _)).
    unfold set_logger, set_appender, appended. mrun. cbn. by rewrite !insert_insert_eq. }
  destruct (on_sys_ok _ _ _ _ _ Hm1 E3) as (F1 & F2 & Hm2). mstep F1. mstep F2.
  destruct (on_sys_ok (addAppender name p) _ _ _ _ Hm2 E4) as (F3 & F4 & Hm3).
  eexists _, _. split_and!; [exact F3|exact F4|exact Hm3|]. by apply good_appended.
Qed.

Lemma perform_run a w x : matches w x → w_good w →
  ∃ w' x', perform (B := W) a w = Ok tt w' ∧ perform (B := P) a x = Ok tt x' ∧ matches w' x' ∧ w_good w'.
Proof.
  intros Hm Hg.
  assert (∀ name, ∃ lg w1 x1, on_sys (B := W) (getLogger name) w = Ok tt w1 ∧ on_sys (B := P) (getLogger name) x = Ok tt x1 ∧
    matches w1 x1 ∧ w_good w1 ∧ m_loggers (w_sys w1) !! name = Some lg) as Hget.
  { intros name. destruct (getLogger_good _ _ name Hg) as (lg & s1 & E & Hl & Hg1 & _).
    destruct (on_sys_ok _ _ _ _ _ Hm E) as (E1 & E2 & Hm1). by exists lg, (w_set_sys s1 w), (p_set_sys s1 x). }
  assert (∀ w1 x1 (m : M LogSys unit), matches w1 x1 → (∃ s2, m (w_sys w1) = Ok tt s2 ∧ good s2 (λ p, is_Some (streams w1 !! p))) →
    ∃ w' x', on_sys (B := W) m w1 = Ok tt w' ∧ on_sys (B := P) m x1 = Ok tt x' ∧ matches w' x' ∧ w_good w') as Hop.
  { intros w1 x1 m Hm1 (s2 & E & Hg2). destruct (on_sys_ok _ _ _ _ _ Hm1 E) as (F1 & F2 & Hm2). by eexists _, _. }
  destruct a as [name level event|name f level|name|name level|o]; cbn [perform].
  1-4: destruct (Hget name) as (lg & w1 & x1 & E1 & E2 & Hm1 & Hg1 & Hl); mstep E1; mstep E2.
  - destruct (logger_log_run w1 x1 name level event Hm1 Hg1) as (w2 & x2 & F1 & F2 & _ & H); [by eexists|]. by exists w2, x2.
  - by eapply add_file_run.
  - apply Hop; [done|]. by eapply clearAppender_good.
  - apply Hop; [done|]. by eapply setLevel_good.
  - eexists _, _. split_and!; [reflexivity|reflexivity| |done]. destruct Hm as [H1 H2 H3 H4 H5].
    split; cbn; [done|by rewrite H2|done|done|by rewrite change_full].
Qed.

Lemma run_matches l : ∀ w x, matches w x → w_good w →
  ∃ w' x', run (B := W) l w = Ok tt w' ∧ run (B := P) l x = Ok tt x' ∧ matches w' x' ∧ w_good w'.
Proof.
  induction l as [|a l IH]; intros w x Hm Hg; [by exists w, x|].
  destruct (perform_run a w x Hm Hg) as (w1 & x1 & E1 & E2 & Hm1 & Hg1).
  destruct (IH w1 x1 Hm1 Hg1) as (w2 & x2 & F1 & F2 & H). exists w2, x2.
  cbn [run]. split_and!; [by mstep E1|by mstep E2|apply H|apply H].
Qed.
End refinement.

(** ** A file has the lines of its appenders *)

Definition to_file (f : string) (s : LogSys) (p : Z) : bool :=
  match appenders s !! p with
  | Some a => match a_kind a with File g _ => bool_decide (g = f) | Stdout => false end
  | None => false
  end.

(** The lines among those written that went to appenders of file [f]. *)
Definition lines_of (f : string) (s : LogSys) (l : list (Z * text)) : text :=
  concat (omap (λ e, if to_file f s e.1 then Some e.2 else None) l).

(** [f] names file [i] and nothing else does, and exactly its appenders have
    it open. *)
Record in_place (f : string) (i : Z) (x : Spec) : Prop := {
  ip_name : names (p_fs x) !! f = Some i;
  ip_open : f ∉ denied (p_fs x);
  ip_only g : names (p_fs x) !! g = Some i → g = f;
  ip_next : i < next_ino (p_fs x);
  ip_current p a g t c : appenders (p_sys x) !! p = Some a → a_kind a = File g t → current x !! p = Some c → c = Some i ↔ g = f
}.

(** What a step from [x] to [y] does to file [i]. *)
Record grew (f : string) (i : Z) (x y : Spec) : Prop := {
  gr_place : in_place f i y;
  gr_keep p : is_Some (appenders (p_sys x) !! p) → is_Some (appenders (p_sys y) !! p) ∧ to_file f (p_sys y) p = to_file f (p_sys x) p;
  gr_lines : ∃ l, written (p_sys y) = written (p_sys x) ++ l ∧ Forall (λ e, is_Some (appenders (p_sys y) !! e.1)) l ∧
    contents (p_fs y) i = contents (p_fs x) i ++ lines_of f (p_sys y) l
}.

Lemma lines_of_app f s l k : lines_of f s (l ++ k) = lines_of f s l ++ lines_of f s k.
Proof. unfold lines_of. by rewrite omap_app, concat_app. Qed.

Lemma lines_of_ext f s s' l : Forall (λ e, to_file f s' e.1 = to_file f s e.1) l → lines_of f s' l = lines_of f s l.
Proof.
  unfold lines_of. induction 1 as [|e l He _ IH]; [done|]. cbn. rewrite He. destruct (to_file f s e.1); cbn; by rewrite IH.
Qed.

Lemma grew_refl f i x y : in_place f i y → appenders (p_sys y) = appenders (p_sys x) → written (p_sys y) = written (p_sys x) →
  contents (p_fs y) i = contents (p_fs x) i → grew f i x y.
Proof.
  intros Hp Ha Hw Hc. split; [done| |].
  - intros p Hs. unfold to_file. by rewrite Ha.
  - exists []. split_and!; [by rewrite app_nil_r|constructor|by rewrite app_nil_r].
Qed.

Lemma grew_trans f i x y z : grew f i x y → grew f i y z → grew f i x z.
Proof.
  intros [P1 K1 (l & W1 & A1 & C1)] [P2 K2 (k & W2 & A2 & C2)]. split; [done| |].
  - intros p Hs. destruct (K1 p Hs) as [H1 H2]. destruct (K2 p H1) as [H3 H4]. by rewrite H4.
  - exists (l ++ k). split_and!.
    + by rewrite W2, W1, app_assoc.
    + apply Forall_app. split; [|done]. eapply list.Forall_impl; [exact A1|]. intros e He. by apply K2.
    + rewrite C2, C1, lines_of_app, <- app_assoc. f_equal. f_equal. symmetry. apply lines_of_ext.
      eapply list.Forall_impl; [exact A1|]. intros e He. by apply K2.
Qed.

(** *** The steps *)

Lemma in_place_sys f i x s : (∀ p, (λ a, a_kind a) <$> appenders s !! p = (λ a, a_kind a) <$> appenders (p_sys x) !! p) →
  in_place f i x → in_place f i (p_set_sys s x).
Proof.
  intros Hk [H1 H2 H3 H4 H5]. split; [done|done|done|done|]. cbn. intros p a g t c Ha Hg Hc. specialize (Hk p).
  rewrite Ha in Hk. destruct (appenders (p_sys x) !! p) as [b|] eqn:Eb; [|done]. injection Hk as Hk.
  eapply H5; [exact Eb|by rewrite <- Hk|done].
Qed.

(** The name [g] is looked up for an appender of that file. *)
Lemma sys_open_place f i x g : in_place f i x → let o := sys_open g (p_fs x) in
  names o.1 !! f = Some i ∧ f ∉ denied o.1 ∧ (∀ h, names o.1 !! h = Some i → h = f) ∧ i < next_ino o.1 ∧
  (o.2 = Some i ↔ g = f) ∧ contents o.1 i = contents (p_fs x) i.
Proof.
  intros [H1 H2 H3 H4 _]. unfold sys_open. case_decide as Hd; cbn.
  { split_and!; try done. split; [done|]. by intros ->. }
  destruct (names (p_fs x) !! g) as [j|] eqn:Eg; cbn.
  { split_and!; try done. split; [|intros ->; congruence]. intros [= ->]. by apply H3. }
  assert (g ≠ f) as Hne by congruence. split_and!; try done.
  - by rewrite lookup_insert_ne.
  - intros h. destruct (decide (g = h)) as [<-|Hh]; [rewrite lookup_insert_eq; intros [= Hi]; lia|].
    rewrite lookup_insert_ne by done. apply H3.
  - lia.
  - split; [intros [= Hi]; lia|done].
  - unfold contents. cbn. rewrite lookup_insert_ne by lia. done.
Qed.

Lemma lookup_grew f i x p g x' : in_place f i x → (∀ a h t, appenders (p_sys x) !! p = Some a → a_kind a = File h t → h = g) →
  p_lookup p g x = Ok tt x' → grew f i x x'.
Proof.
  intros Hp Hk [= <-]. destruct (sys_open_place f i x g Hp) as (H1 & H2 & H3 & H4 & H5 & H6).
  apply grew_refl; [|done|done|done]. split; [done|done|done|done|]. cbn. intros q a h t c Ha Hh.
  destruct (decide (p = q)) as [<-|Hne].
  - rewrite lookup_insert_eq. intros [= <-]. by rewrite (Hk a h t Ha Hh).
  - rewrite lookup_insert_ne by done. intros Hc. by eapply (ip_current _ _ _ Hp).
Qed.

Lemma append_contents i j t d : contents (append j t d) i = contents d i ++ (if decide (j = i) then t else []).
Proof.
  unfold append, contents. destruct t as [|c t]; [by destruct (decide _); rewrite app_nil_r|]. cbn.
  destruct (decide (j = i)) as [->|Hne].
  - by rewrite lookup_insert_eq.
  - by rewrite lookup_insert_ne, app_nil_r.
Qed.

Lemma in_place_fs f i x d : names d = names (p_fs x) → denied d = denied (p_fs x) → next_ino d = next_ino (p_fs x) →
  in_place f i x → in_place f i (p_set_fs d x).
Proof. intros E1 E2 E3 [H1 H2 H3 H4 H5]. split; cbn; rewrite ?E1, ?E2, ?E3; done. Qed.

(** A line is written to an appender; the file grows when it is one of its
    own. *)
Lemma written_grew f i x p t y :
  in_place f i y → is_Some (appenders (p_sys x) !! p) → appenders (p_sys y) = appenders (p_sys x) →
  written (p_sys y) = written (p_sys x) ++ [(p, t)] →
  contents (p_fs y) i = contents (p_fs x) i ++ (if to_file f (p_sys x) p then t else []) → grew f i x y.
Proof.
  intros Hp Hs Ha Hw Hc. assert (to_file f (p_sys y) p = to_file f (p_sys x) p) as Ht by (unfold to_file; by rewrite Ha).
  split; [done| |].
  - intros q Hq. unfold to_file. by rewrite Ha.
  - exists [(p, t)]. split_and!; [done| |].
    + apply list.Forall_cons. split; [by rewrite Ha|constructor].
    + rewrite Hc. unfold lines_of. cbn. rewrite Ht. destruct (to_file f (p_sys x) p); cbn; by rewrite ?app_nil_r.
Qed.

Lemma deliver_grew f i x p a g last t x' :
  in_place f i x → appenders (p_sys x) !! p = Some a → a_kind a = File g last →
  (p_deliver p t;; p_call (modify (write_text p t))) x = Ok tt x' → grew f i x x'.
Proof.
  intros Hp Ha Hk E. unfold p_deliver in E. rewrite bind_assoc, bind_get in E.
  destruct (current x !! p) as [c|] eqn:Ec; [|done]. cbn in E.
  assert (to_file f (p_sys x) p = bool_decide (c = Some i)) as Ht.
  { unfold to_file. rewrite Ha, Hk. apply bool_decide_ext. symmetry. by eapply (ip_current _ _ _ Hp). }
  destruct c as [j|]; injection E as <-.
  - assert (in_place f i (p_set_fs (append j t (p_fs x)) x)) as Hp' by (apply in_place_fs; [by destruct t..|done]).
    apply (written_grew _ _ _ p t); [by apply (in_place_sys f i (p_set_fs _ x))|by eexists|done|done|].
    etrans; [apply append_contents|]. rewrite Ht. f_equal.
    destruct (decide (j = i)) as [->|Hne]; [by rewrite bool_decide_true|rewrite bool_decide_false by congruence; done].
  - assert (in_place f i (p_print error_line x)) as Hp' by by destruct Hp.
    apply (written_grew _ _ _ p t); [by apply (in_place_sys f i (p_print error_line x))|by eexists|done|done|].
    rewrite Ht. cbn. by rewrite app_nil_r.
Qed.

(** The time of an appender changes. *)
Lemma set_time_grew f i x p a g t t' x' :
  in_place f i x → appenders (p_sys x) !! p = Some a → a_kind a = File g t →
  p_call (modify (set_appender p (mkAppender (File g t') (a_level a) (m_hasFormatter a) (a_formatter a)))) x = Ok tt x' →
  grew f i x x' ∧ ∃ a', appenders (p_sys x') !! p = Some a' ∧ a_kind a' = File g t'.
Proof.
  intros [H1 H2 H3 H4 H5] Ha Hk [= <-]. split; [|eexists; split; [apply lookup_insert_eq|done]].
  assert (∀ q, is_Some (appenders (p_sys x) !! q) →
    is_Some (<[p := mkAppender (File g t') (a_level a) (m_hasFormatter a) (a_formatter a)]> (appenders (p_sys x)) !! q)) as Hlive.
  { intros q Hq. destruct (decide (p = q)) as [<-|Hne]; [rewrite lookup_insert_eq; by eexists|by rewrite lookup_insert_ne]. }
  split; cbn.
  - split; [done|done|done|done|]. cbn. intros q b h u c. destruct (decide (p = q)) as [<-|Hne].
    + rewrite lookup_insert_eq. intros [= <-] [= <- <-]. by apply (H5 p a g t).
    + rewrite lookup_insert_ne by done. apply H5.
  - intros q Hq. split; [by apply Hlive|]. unfold to_file. cbn. destruct (decide (p = q)) as [<-|Hne].
    + by rewrite lookup_insert_eq, Ha, Hk.
    + by rewrite lookup_insert_ne.
  - exists []. split_and!; [by rewrite app_nil_r|constructor|by rewrite app_nil_r].
Qed.

Lemma spec_log_grew strftime f i level event p x x' :
  in_place f i x → spec_log strftime level event p x = Ok tt x' → grew f i x x'.
Proof.
  intros Hp E. unfold spec_log in E. minv E. destruct (appenders (p_sys x) !! p) as [b|] eqn:Ha.
  2: { unfold p_call, lift_sys, appender_at in E0. rewrite bind_get, Ha in E0. done. }
  rewrite (p_call_ok _ _ _ _ (appender_at_run _ _ _ Ha)) in E0. injection E0 as <- <-.
  replace (p_set_sys (p_sys x) x) with x in E by by destruct x.
  destruct (level_num level <? level_num (a_level b)); [injection E as <-; by apply grew_refl|].
  destruct (a_formatter b) as [fm|] eqn:Hfm; [|done]. cbn [of_option] in E. rewrite bind_mret in E.
  cbv zeta in E. set (t := format strftime fm level event) in *. destruct (a_kind b) as [|g last] eqn:Hk.
  - injection E as <-. assert (in_place f i (p_print t x)) as Hp' by by destruct Hp.
    apply (written_grew _ _ _ p t); [by apply (in_place_sys f i (p_print t x))|by eexists|done|done|].
    unfold to_file. rewrite Ha, Hk. cbn. by rewrite app_nil_r.
  - rewrite bind_assoc in E. minv E.
    assert (grew f i x s ∧ ∃ b' u, appenders (p_sys s) !! p = Some b' ∧ a_kind b' = File g u) as (Hg & b' & u & Hb' & Hu).
    { destruct (u64 (last + 3) <=? m_time event).
      - minv E0. destruct a0. assert (grew f i x s0) as Hg0.
        { eapply lookup_grew; [done| |done]. intros c h v Hc. rewrite Ha in Hc. injection Hc as <-. rewrite Hk. by intros [= ->]. }
        assert (appenders (p_sys s0) = appenders (p_sys x)) as Hs0 by by injection E1 as <-.
        rewrite <- Hs0 in Ha. rewrite <- Hfm in E0. destruct a.
        destruct (set_time_grew f i s0 p b g last (m_time event) s (gr_place _ _ _ _ Hg0) Ha Hk E0) as [Hg1 (b' & H)].
        split; [by eapply grew_trans|by exists b', (m_time event)].
      - injection E0 as <- <-. split; [by apply grew_refl|by exists b, last]. }
    eapply grew_trans; [exact Hg|]. eapply deliver_grew; [apply Hg|exact Hb'|exact Hu|exact E].
Qed.

(** *** Sequences of steps *)

(** Operations on the loggers that write nothing and make no appender. *)
Definition quiet {A} (m : M LogSys A) : Prop := ∀ s a s', m s = Ok a s' →
  written s' = written s ∧ next_addr s' = next_addr s ∧ ∀ p, a_kind <$> appenders s' !! p = a_kind <$> appenders s !! p.

Lemma quiet_logger_at name : quiet (logger_at name).
Proof. intros s a s' E. unfold logger_at in E. rewrite bind_get in E. by destruct (m_loggers s !! name); [injection E as _ <-|]. Qed.

Lemma quiet_bind {A C} (m : M LogSys A) (k : A → M LogSys C) : quiet m → (∀ a, quiet (k a)) → quiet (m ≫= k).
Proof.
  intros Hm Hk s c s' E. minv E. destruct (Hm _ _ _ E0) as (H1 & H2 & H3), (Hk _ _ _ _ E) as (H4 & H5 & H6).
  split_and!; [congruence|congruence|]. intros p. by rewrite H6.
Qed.

Lemma quiet_set_logger name lg : quiet (modify (set_logger name lg)).
Proof. by intros s a s' [= <- <-]. Qed.

Lemma quiet_mret {A} (a : A) : quiet (mret a).
Proof. by intros s b s' [= <- <-]. Qed.

Lemma quiet_getLogger name : quiet (getLogger name).
Proof.
  intros s a s' E. unfold getLogger in E. rewrite bind_get in E.
  destruct (m_loggers s !! name); [by injection E as <- <-|by eapply quiet_set_logger].
Qed.

(** An appender changes, its kind does not. *)
Lemma quiet_appender (p : Z) (g : LogAppender → LogAppender) : (∀ a, a_kind (g a) = a_kind a) →
  quiet (a ← appender_at p; modify (set_appender p (g a))).
Proof.
  intros Hg s u s' E. destruct (appenders s !! p) as [a|] eqn:Ha.
  2: { unfold appender_at in E. rewrite bind_assoc, bind_get, Ha in E. done. }
  rewrite (bind_ok _ _ _ _ _ (appender_at_run _ _ _ Ha)) in E. injection E as _ <-. split_and!; [done|done|]. intros q. cbn.
  destruct (decide (p = q)) as [<-|Hne]; [rewrite lookup_insert_eq, Ha; cbn; by rewrite Hg|by rewrite lookup_insert_ne].
Qed.

Lemma quiet_addAppender name p : quiet (addAppender name p).
Proof.
  intros s u s' E. unfold addAppender in E. minv E. destruct (quiet_logger_at _ _ _ _ E0) as (H1 & H2 & H3).
  destruct (appenders s0 !! p) as [b|] eqn:Hb.
  2: { unfold appender_at in E. rewrite bind_assoc, bind_get, Hb in E. done. }
  rewrite (bind_ok _ _ _ _ _ (appender_at_run _ _ _ Hb)) in E.
  destruct (a_formatter b); injection E as _ <-; (split_and!; [done|done|]); [done|]. intros q. rewrite <- H3. cbn.
  destruct (decide (p = q)) as [<-|Hne]; [by rewrite lookup_insert_eq, Hb|by rewrite lookup_insert_ne].
Qed.

#[local] Hint Resolve quiet_logger_at quiet_set_logger quiet_getLogger quiet_addAppender quiet_mret : core.

Section lines.
Context (strftime : text → Z → text).
Let P : Backend Spec := Spec_backend strftime.
Context (f : string) (i : Z).

Lemma on_sys_grew {A} (m : M LogSys A) x a x' : quiet m → in_place f i x → on_sys (B := P) m x = Ok a x' →
  grew f i x x' ∧ next_addr (p_sys x') = next_addr (p_sys x) ∧
  ∀ p, appenders (p_sys x) !! p = None → appenders (p_sys x') !! p = None.
Proof.
  intros Hq Hp E. unfold on_sys, lift_sys in E. cbn in E. destruct (m (p_sys x)) as [b s| | |] eqn:Em; try done.
  injection E as _ <-. destruct (Hq _ _ _ Em) as (H1 & H2 & H3).
  assert (∀ p, is_Some (appenders s !! p) ↔ is_Some (appenders (p_sys x) !! p)) as Hs.
  { intros p. rewrite <- (fmap_is_Some a_kind), <- (fmap_is_Some a_kind (appenders (p_sys x) !! p)). by rewrite H3. }
  split_and!; [|done|].
  - split; [by apply in_place_sys| |].
    + intros p Hl. split; [by apply Hs|]. unfold to_file. cbn. specialize (H3 p).
      destruct (appenders s !! p), (appenders (p_sys x) !! p); try done. injection H3 as ->. done.
    + exists []. split_and!; [by rewrite app_nil_r|constructor|by rewrite app_nil_r].
  - intros p Hn. apply eq_None_not_Some. rewrite (Hs p), Hn. by intros [? ?].
Qed.

(** A new appender. *)
Lemma spec_new_grew g x p x' : in_place f i x → appenders (p_sys x) !! next_addr (p_sys x) = None →
  spec_new g x = Ok p x' → grew f i x x'.
Proof.
  intros Hp Hn [= <- <-]. destruct (sys_open_place f i x g Hp) as (H1 & H2 & H3 & H4 & H5 & H6).
  split; cbn.
  - split; [done|done|done|done|]. cbn. intros q a h t c. destruct (decide (next_addr (p_sys x) = q)) as [<-|Hne].
    + rewrite !lookup_insert_eq. by intros [= <-] [= <- <-] [= <-].
    + rewrite !lookup_insert_ne by done. apply Hp.
  - intros q [a Ha]. assert (next_addr (p_sys x) ≠ q) as Hne by congruence. unfold to_file. cbn.
    rewrite lookup_insert_ne by done. rewrite Ha. split; [by eexists|done].
  - exists []. split_and!; [by rewrite app_nil_r|constructor|by rewrite app_nil_r].
Qed.

Lemma each_grew level event l : ∀ x x', in_place f i x → b_appenders_log (B := P) level event l x = Ok tt x' → grew f i x x'.
Proof.
  induction l as [|p l IH]; intros x x' Hp E; cbn [b_appenders_log] in E; [injection E as <-; by apply grew_refl|].
  minv E. destruct a. apply spec_log_grew with (f := f) (i := i) in E0 as Hg; [|done].
  eapply grew_trans; [exact Hg|]. apply IH; [apply Hg|done].
Qed.

Lemma log_with_grew (r : M Spec unit) name level event x x' :
  (∀ y y', in_place f i y → r y = Ok tt y' → grew f i y y') → in_place f i x →
  b_log_with (B := P) r name level event x = Ok tt x' → grew f i x x'.
Proof.
  intros Hr Hp E. unfold b_log_with in E. minv E.
  destruct (on_sys_grew (logger_at name) x a s ltac:(auto) Hp E0) as [Hg _]. eapply grew_trans; [exact Hg|].
  destruct (level_num level <? level_num (l_level a)); [injection E as <-; apply grew_refl; try done; apply Hg|].
  destruct (m_appenders a).
  - destruct (l_has_root a); [by apply Hr; [apply Hg|]|injection E as <-; apply grew_refl; try done; apply Hg].
  - eapply each_grew; [apply Hg|done].
Qed.

(** Others leave the name of the file alone. *)
Definition leaves (a : act) : Prop :=
  match a with
  | AOutside (Rename g h) => g ≠ f ∧ h ≠ f
  | AOutside (Unlink g) | AOutside (Deny g) => g ≠ f
  | _ => True
  end.

Lemma outside_grew o x : leaves (AOutside o) → in_place f i x → grew f i x (p_set_fs (change o (p_fs x)) x).
Proof.
  intros Ho Hp. apply grew_refl; [|done|done|by destruct o; cbn; [destruct (names (p_fs x) !! _)|..]].
  destruct Hp as [H1 H2 H3 H4 H5]. destruct o as [g h|g|g|g]; cbn in *.
  - destruct Ho as [Hg Hh]. destruct (names (p_fs x) !! g) as [j|] eqn:Eg; [|done].
    split; cbn; [rewrite lookup_insert_ne, lookup_delete_ne by done; done|done| |done|done].
    intros k. destruct (decide (h = k)) as [<-|Hne].
    + rewrite lookup_insert_eq. intros [= ->]. destruct Hg. by apply H3.
    + rewrite lookup_insert_ne by done. rewrite lookup_delete_Some. intros [_ Hk]. by apply H3.
  - split; cbn; [by rewrite lookup_delete_ne|done| |done|done]. intros k. rewrite lookup_delete_Some. intros [_ Hk]. by apply H3.
  - split; cbn; [done|set_solver|done|done|done].
  - split; cbn; [done|set_solver|done|done|done].
Qed.

Lemma perform_grew a x x' : leaves a → in_place f i x → (∀ p, next_addr (p_sys x) <= p → appenders (p_sys x) !! p = None) →
  perform (B := P) a x = Ok tt x' → grew f i x x'.
Proof.
  intros Ha Hp Hfree E. destruct a as [name level event|name g level|name|name level|o]; cbn [perform] in E.
  1-4: minv E; destruct (on_sys_grew (getLogger name) x a s ltac:(auto) Hp E0) as (Hg & Hn & Hk);
    (eapply grew_trans; [exact Hg|]); clear E0; pose proof (gr_place _ _ _ _ Hg) as Hp1.
  - eapply log_with_grew; [|done|exact E]. intros y y' Hy Ey. eapply log_with_grew; [|done|exact Ey].
    intros z z' Hz [= <-]. by apply grew_refl.
  - minv E. eapply spec_new_grew in E0 as Hg1; [|done|by rewrite Hn; apply Hk, Hfree; lia].
    eapply grew_trans; [exact Hg1|]. minv E.
    destruct (on_sys_grew (appender_setLevel a0 level) _ _ _ (quiet_appender _ (λ b, mkAppender (a_kind b) level (m_hasFormatter b) (a_formatter b)) ltac:(done)) (gr_place _ _ _ _ Hg1) E1)
      as [Hg2 _]. eapply grew_trans; [exact Hg2|].
    exact (proj1 (on_sys_grew _ _ _ _ (quiet_addAppender name a0) (gr_place _ _ _ _ Hg2) E)).
  - eapply on_sys_grew; [|done|exact E]. apply quiet_bind; auto.
  - eapply on_sys_grew; [|done|exact E]. apply quiet_bind; auto.
  - injection E as <-. by apply outside_grew.
Qed.
End lines.

(** ** Theorems *)

(** C37: while the device takes what is written and lines end with %n, the streams of the
    file appenders, with buffers flushed at any moment and their error states, refine an
    abstract view in which an appender has a file or none, a line goes to that file at once
    or is reported as lost, and the file is looked up by name again at the first event three
    seconds after the last lookup, for any sequence of events, new appenders and level
    changes, and of renames, removals and permission changes by others; no call fails. *)
Theorem file_log_refines spill strftime l w x : matches w x → w_good w →
  ∃ w' x', run (B := World_backend spill strftime) l w = Ok tt w' ∧ run (B := Spec_backend strftime) l x = Ok tt x' ∧
    matches w' x' ∧ w_good w'.
Proof. apply run_matches. Qed.

(** C38: on a device that never fills up, with every appender's formatter ending in %n (so
    that a line is flushed as it is logged) and the streams of the appenders as opening left
    them, while nobody else renames, removes or closes the file a name refers to, that file
    holds what it held before followed by exactly the lines logged to its appenders, whole
    and in the order of logging, through every reopening and whatever happens to other
    files. *)
Theorem file_has_its_lines spill strftime f i l : ∀ w x,
  matches w x → w_good w → in_place f i x → Forall (leaves f) l →
  ∃ w' new, run (B := World_backend spill strftime) l w = Ok tt w' ∧
    names (w_fs w') !! f = Some i ∧ written (w_sys w') = written (w_sys w) ++ new ∧
    contents (w_fs w') i = contents (w_fs w) i ++ lines_of f (w_sys w') new.
Proof.
  intros w x Hm Hg Hp Hl.
  assert (∃ w' x', run (B := World_backend spill strftime) l w = Ok tt w' ∧ matches w' x' ∧ grew f i x x')
    as (w' & x' & E & Hm' & [Hp' _ (new & Hw & _ & Hc)]).
  { revert w x Hm Hg Hp. induction Hl as [|a l Ha Hl IH]; intros w x Hm Hg Hp.
    { exists w, x. split_and!; [done|done|by apply grew_refl]. }
    destruct (perform_run spill strftime a w x Hm Hg) as (w1 & x1 & E1 & E2 & Hm1 & Hg1).
    assert (grew f i x x1) as H1.
    { eapply perform_grew; [done|done| |exact E2]. rewrite (ma_sys _ _ Hm). apply Hg. }
    destruct (IH w1 x1 Hm1 Hg1 (gr_place _ _ _ _ H1)) as (w2 & x2 & E3 & Hm2 & H2). exists w2, x2. cbn [run].
    split_and!; [by mstep E1|done|by eapply grew_trans]. }
  exists w', new. rewrite <- (ma_sys _ _ Hm'), <- (ma_fs _ _ Hm'), <- (ma_sys _ _ Hm), <- (ma_fs _ _ Hm).
  split_and!; [done|apply Hp'|done|done].
Qed.

(** After a failed write the appender never writes again: [reopen] does not
    close a stream that failed, and opening one that is open fails. *)
Theorem failed_write_is_final spill strftime level event p w a st i :
  appenders (w_sys w) !! p = Some a → level_num (a_level a) <= level_num level → is_Some (a_formatter a) →
  a_kind a ≠ Stdout → streams w !! p = Some st → handle st = Some i → failed st = true →
  ∃ w', world_log spill strftime level event p w = Ok tt w' ∧ w_fs w' = w_fs w ∧
    streams w' !! p = Some st ∧ console w' = console w ++ error_line.
Proof.
  intros Ha Hlv [fm Hfm] Hk Hst Hh Hf. unfold world_log, FileLogAppender_log. mstep (w_call_ok _ _ _ _ (appender_at_run _ _ _ Ha)).
  destruct (a_kind a) as [|f last]; [done|]. rewrite (proj2 (Z.ltb_ge _ _)) by lia. rewrite Hfm.
  assert (reopen_stream f (w_fs w, st) = (w_fs w, st)) as Hre.
  { unfold reopen_stream, stream_open. cbn. rewrite Hf. cbn. rewrite Hh. unfold setstate. destruct st. cbn in *. by subst. }
  replace (w_set_sys (w_sys w) w) with w by by destruct w.
  assert (∃ w1, (if u64 (last + 3) <=? m_time event
    then reopen p f;; w_call (modify (set_appender p (mkAppender (File f (m_time event)) (a_level a) (m_hasFormatter a) (Some fm))))
    else mret tt) w = Ok tt w1 ∧ w_fs w1 = w_fs w ∧ streams w1 !! p = Some st ∧ console w1 = console w) as (w1 & E & H1 & H2 & H3).
  { destruct (u64 (last + 3) <=? m_time event); [|by exists w]. unfold reopen. rewrite bind_assoc.
    mstep (on_stream_run w p (reopen_stream f) st Hst). rewrite Hre. eexists. split; [reflexivity|]. cbn.
    by rewrite lookup_insert_eq. }
  mstep E. cbn [of_option]. rewrite bind_mret.
  mstep (on_stream_run w1 p (format_to spill strftime fm level event) st H2).
  rewrite format_to_failed by done. cbn [fst snd]. rewrite Hf. eexists. split; [reflexivity|]. cbn.
  by rewrite H1, H3, lookup_insert_eq.
Qed.

(** ** Examples *)

Definition disk0 : FS := mkFS ∅ ∅ 1 ∅ false.
Definition sys1 : LogSys := mkSys {["root" := new_Logger "root" false]} ∅ 0 [].
Definition world_of (d : FS) : World := mkWorld sys1 d ∅ [].
Definition view_of (d : FS) : Spec := mkSpec sys1 d ∅ [].
Abbreviation world0 := (world_of disk0).

Lemma matches_start d : full d = false → matches (world_of d) (view_of d).
Proof. intros Hd. split; [done|done|done| |done]. intros p. cbn. by rewrite !lookup_empty. Qed.

Lemma start_good d : w_good (world_of d).
Proof.
  split.
  - exists (new_Logger "root" false). by apply lookup_singleton_Some.
  - done.
  - intros name lg Hl. cbn in Hl. apply lookup_singleton_Some in Hl as [_ <-]. split; [apply default_prints|].
    intros p Hp. by apply elem_of_nil in Hp.
  - intros p a Ha. cbn in Ha. by rewrite lookup_empty in Ha.
Qed.

(** A buffer of ten characters, and messages at given times. *)
Definition ten (t : text) : bool := 10 <? Z.of_nat (length t).
Definition say (t : Z) (m : string) : act := ALog "root" INFO (mkEvent "a.cc" 7 0 11 0 t "main" (txt m) "root" INFO).

Definition after (l : list act) (w : World) : option World :=
  match run (B := World_backend ten no_date) l w with Ok _ w' => Some w' | _ => None end.

(** The file is moved away while it is open: the next line still goes to the
    old file, and one three seconds later to a new one. *)
Definition rotation : list act :=
  [AFile "root" "a.log" DEBUG; say 100 "one"; AOutside (Rename "a.log" "a.old"); say 101 "two"; say 103 "three"].
Definition holds (m : string) (t : text) : bool := existsb (λ k, bool_decide (take (String.length m) (drop k t) = txt m)) (seq 0 (length t)).

Example rotated_log :
  (λ w, (names (w_fs w) !! "a.old", names (w_fs w) !! "a.log",
         (holds "one" <$> files (w_fs w) !! 1, holds "two" <$> files (w_fs w) !! 1, holds "three" <$> files (w_fs w) !! 2),
         console w)) <$> after rotation world0 =
  Some (Some 1, Some 2, (Some true, Some true, Some true), []).
Proof. vm_compute. reflexivity. Qed.

(** A name that cannot be opened: the lines are lost, until the first event
    three seconds later. *)
Definition closed_name : list act :=
  [AOutside (Deny "a.log"); AFile "root" "a.log" DEBUG; say 100 "one"; AOutside (Allow "a.log"); say 102 "two"; say 103 "three"].

Example reopened_log :
  (λ w, (names (w_fs w) !! "a.log", (holds "one" <$> files (w_fs w) !! 1, holds "three" <$> files (w_fs w) !! 1), console w))
    <$> after closed_name world0 =
  Some (Some 1, (Some false, Some true), error_line ++ error_line).
Proof. vm_compute. reflexivity. Qed.

(** The device is full for one line, and takes everything afterwards: no
    later line is written. *)
Definition fill (b : bool) (w : World) : World :=
  w_set_fs (mkFS (names (w_fs w)) (files (w_fs w)) (next_ino (w_fs w)) (denied (w_fs w)) b) w.

Example full_device :
  (w1 ← after [AFile "root" "a.log" DEBUG] world0;
   w2 ← after [say 100 "one"] (fill true w1);
   w3 ← after [say 200 "two"; say 300 "three"] (fill false w2);
   Some (files (w_fs w3) !! 1, console w3)) =
  Some (Some [], error_line ++ error_line ++ error_line).
Proof. vm_compute. reflexivity. Qed.

(** ** Witnesses *)

Lemma file_log_refines_witness :
  ∃ w' x', run (B := World_backend ten no_date) rotation world0 = Ok tt w' ∧
    run (B := Spec_backend no_date) rotation (view_of disk0) = Ok tt x' ∧ matches w' x' ∧ w_good w'.
Proof.
  exact (file_log_refines ten no_date rotation world0 (view_of disk0) (matches_start disk0 eq_refl) (start_good disk0)).
Defined.

(** A file with a line from an earlier run. *)
Definition disk1 : FS := mkFS {["a.log" := 1]} {[1 := txt "before"]} 2 ∅ false.
Definition two_files : list act :=
  [AFile "root" "a.log" INFO; AFile "root" "b.log" DEBUG; AFile "root" "a.log" ERROR; say 100 "one";
   AOutside (Unlink "b.log"); say 104 "two"].

Lemma disk1_place : in_place "a.log" 1 (view_of disk1).
Proof.
  split; cbn; [by apply lookup_singleton_Some|set_solver| |lia|].
  - intros g Hg. by apply lookup_singleton_Some in Hg as [-> _].
  - intros p a g t c Ha. by rewrite lookup_empty in Ha.
Qed.

Lemma file_has_its_lines_witness :
  ∃ w' new, run (B := World_backend ten no_date) two_files (world_of disk1) = Ok tt w' ∧
    names (w_fs w') !! "a.log" = Some 1 ∧ written (w_sys w') = [] ++ new ∧
    contents (w_fs w') 1 = txt "before" ++ lines_of "a.log" (w_sys w') new.
Proof.
  apply (file_has_its_lines ten no_date "a.log" 1 two_files (world_of disk1) (view_of disk1)
    (matches_start disk1 eq_refl) (start_good disk1) disk1_place). by repeat constructor.
Defined.

Lemma failed_write_is_final_witness :
  ∃ w', world_log ten no_date INFO sample 0
    (mkWorld (mkSys ∅ {[0 := mkAppender (File "a.log" 0) DEBUG false (Some (new_LogFormatter default_pattern))]} 1 [])
       disk1 {[0 := mkStream (Some 1) (txt "lost") true]} []) = Ok tt w' ∧
    w_fs w' = disk1 ∧ streams w' !! 0 = Some (mkStream (Some 1) (txt "lost") true) ∧ console w' = [] ++ error_line.
Proof.
  eapply (failed_write_is_final ten no_date INFO sample 0); [by apply lookup_singleton_Some|done|by eexists|done
    |by apply lookup_singleton_Some|done|done].
Defined.
