(* ===== verification/Glue.v ===== *)
(** * Assertions and singletons (macro.h, singleton.h)

    [PENG_ASSERT] over the logging library and the backtrace of Util.v: where
    the condition holds nothing happens, and where it fails a line goes to the
    root logger and the process stops, unless assertions are compiled out.
    The other files use the outcome [Abort] for this, which [assert_is_abort]
    justifies.  The objects of [Singleton] are static variables, made by the
    first call that completes. *)

From S2P Require Import Prelude Util Config Log LogYaml LogFile.

(** ** Assertions *)

Section assertions.
Context {St : Type} (sys : St → LogSys) (set_sys : LogSys → St → St).
Context (strftime : text → Z → text).
(** Whether [NDEBUG] is defined; what [backtrace] found and
    [backtrace_symbols] returned; and the event the logging macro makes. *)
Context (ndebug : bool) (strings : option (list text)) (frames : Z) (event : LogEvent).

Definition abort {S A} (w : string) : M S A := λ _ : S, Abort w.

(** [assert(x)]. *)
Definition c_assert (x : M St bool) (w : string) : M St unit :=
  if ndebug then mret tt else x ≫= λ b : bool, if b then mret tt else abort w.

(** [BacktraceToString(100, 2, ...)], which has a vector of its own. *)
Definition backtrace_text : M St text := λ st,
  match BacktraceToString strings frames 2 (txt "     ") [] with
  | Ok t _ => Ok t st
  | Throw e _ => Throw e st
  | Abort w => Abort w
  | Undef w => Undef w
  end.

(** The text streamed by both macros; [w] is the second argument. *)
Definition assertion_text (expr : text) (w : option text) (bt : text) : text :=
  txt "ASSERTION: " ++ expr ++ Util.newline ++ match w with Some t => t ++ Util.newline | None => [] end ++
  txt "backtrace:" ++ Util.newline ++ bt.

(** The condition is evaluated a second time by [assert]. *)
Definition peng_assert_macro (x : M St bool) (expr : string) (w : option text) : M St unit :=
  x ≫= λ b : bool,
  if b then mret tt
  else
    bt ← backtrace_text;
    lift_sys sys set_sys (log_stream strftime "root" event (assertion_text (txt expr) w bt));;
    c_assert x expr.

Definition PENG_ASSERT (x : M St bool) (expr : string) : M St unit := peng_assert_macro x expr None.
Definition PENG_ASSERT2 (x : M St bool) (expr : string) (w : text) : M St unit := peng_assert_macro x expr (Some w).

(** The backtrace is there when [backtrace_symbols] succeeds. *)
Lemma backtrace_text_ok l st : strings = Some l → ∃ t, backtrace_text st = Ok t st.
Proof.
  intros Hs. unfold backtrace_text. rewrite Hs. unfold BacktraceToString, Backtrace. mrun. by eexists.
Qed.

(** What is logged about a failed assertion. *)
Lemma assertion_logged st name root lg l t :
  log_ok (sys st) → strings = Some l → m_logger event = name → m_loggers (sys st) !! name = Some lg →
  m_loggers (sys st) !! "root" = Some root →
  ∃ s', lift_sys sys set_sys (log_stream strftime "root" event t) st = Ok tt (set_sys s' st) ∧ same_config (sys st) s'.
Proof.
  intros Hok Hs Hn Hl Hr. unfold lift_sys, log_stream. rewrite (bind_ok _ _ _ _ _ (logger_at_run _ _ _ Hr)). cbv beta.
  destruct (level_num (l_level root) <=? level_num (e_level event)).
  2: { eexists. split; [reflexivity|apply same_config_refl]. }
  unfold wrap_destroy. cbn [m_logger append_ss e_level]. rewrite Hn.
  destruct (log_run strftime (sys st) name lg root (e_level event) (append_ss t event) Hok Hl Hr) as (s' & E & Hsame & _).
  rewrite E. by exists s'.
Qed.

(** For a condition that only reads the state: nothing happens where it holds;
    where it fails, the process stops, or with [NDEBUG] goes on with a line
    logged.  This is [peng_assert] of Prelude.v when assertions are on. *)
Theorem assert_is_abort (c : St → bool) expr w st root l :
  log_ok (sys st) → strings = Some l → m_logger event = "root" → m_loggers (sys st) !! "root" = Some root →
  (∀ s, c (set_sys s st) = c st) →
  (c st = true → peng_assert_macro (gets c) expr w st = Ok tt st) ∧
  (c st = false → ndebug = false → peng_assert_macro (gets c) expr w st = Abort expr) ∧
  (c st = false → ndebug = true → ∃ s', peng_assert_macro (gets c) expr w st = Ok tt (set_sys s' st) ∧ same_config (sys st) s') ∧
  (ndebug = false → peng_assert_macro (gets c) expr w st = peng_assert (c st) expr st).
Proof.
  intros Hok Hs Hn Hr Hc.
  assert (c st = false → ∃ s', same_config (sys st) s' ∧
    peng_assert_macro (gets c) expr w st = c_assert (gets c) expr (set_sys s' st)) as Hfail.
  { intros Hf. unfold peng_assert_macro. rewrite (bind_ok _ _ _ (c st) st) by done. rewrite Hf.
    destruct (backtrace_text_ok l st Hs) as [bt Eb]. mstep Eb.
    destruct (assertion_logged st "root" root root l (assertion_text (txt expr) w bt) Hok Hs Hn Hr Hr) as (s' & El & Hsame).
    mstep El. by exists s'. }
  assert (c st = true → peng_assert_macro (gets c) expr w st = Ok tt st) as Htrue.
  { intros Ht. unfold peng_assert_macro. rewrite (bind_ok _ _ _ (c st) st) by done. by rewrite Ht. }
  assert (c st = false → ndebug = false → peng_assert_macro (gets c) expr w st = Abort expr) as Hfalse.
  { intros Hf Hd. destruct (Hfail Hf) as (s' & _ & ->). unfold c_assert. rewrite Hd.
    rewrite (bind_ok _ _ _ (c (set_sys s' st)) (set_sys s' st)) by done. by rewrite Hc, Hf. }
  split_and!; [done|done| |].
  - intros Hf Hd. destruct (Hfail Hf) as (s' & Hsame & ->). exists s'. split; [|done]. unfold c_assert. by rewrite Hd.
  - intros Hd. destruct (c st) eqn:E; [by apply Htrue|by apply Hfalse].
Qed.
End assertions.

(** ** Singletons *)

(** A static variable: of [Singleton<T, X, N>::GetInstance], one in the
    program, or of the functions in the unnamed namespace, one in every
    translation unit that uses them. *)
Inductive static_key :=
| InClass (T X : string) (N : Z)
| InUnit (unit T X : string) (N : Z).
#[global] Instance static_key_eq_dec : EqDecision static_key.
Proof. solve_decision. Defined.
#[global] Program Instance static_key_countable : Countable static_key :=
  inj_countable' (λ k, match k with InClass T X N => inl (T, X, N) | InUnit u T X N => inr (u, T, X, N) end)
    (λ e, match e with inl (T, X, N) => InClass T X N | inr (u, T, X, N) => InUnit u T X N end) _.
Next Obligation. by intros []. Qed.

(** The addresses of the static objects that have been made, and the rest of
    the state. *)
Record Program_state (St : Type) := mkProgram { statics : gmap static_key Z; rest : St }.
Arguments mkProgram {St} statics rest.
Arguments statics {St} p.
Arguments rest {St} p.

Section singleton.
Context {St : Type}.

(** A local static variable: the constructor runs in the first call; when it
    throws, the next call runs it again. *)
Definition local_static (k : static_key) (ctor : M St Z) : M (Program_state St) Z := λ p,
  match statics p !! k with
  | Some v => Ok v p
  | None =>
      match ctor (rest p) with
      | Ok v st => Ok v (mkProgram (<[k := v]> (statics p)) st)
      | Throw e st => Throw e (mkProgram (statics p) st)
      | Abort w => Abort w
      | Undef w => Undef w
      end
  end.

Definition GetInstance (T X : string) (N : Z) (ctor : M St Z) : M (Program_state St) Z := local_static (InClass T X N) ctor.
Definition GetInstanceX (unit T X : string) (N : Z) (ctor : M St Z) : M (Program_state St) Z := local_static (InUnit unit T X N) ctor.

(** One object: after a call that returned, through any calls for other
    objects, the same object is returned and nothing is constructed. *)
Theorem singleton_unique T X N ctor ctor' p v p1 (others : list (static_key * M St Z)) p2 :
  GetInstance T X N ctor p = Ok v p1 →
  foldl (λ o e, q ← o; match local_static e.1 e.2 q with Ok _ q' | Throw _ q' => Some q' | _ => None end) (Some p1) others = Some p2 →
  GetInstance T X N ctor' p2 = Ok v p2.
Proof.
  intros E H. unfold GetInstance in *. assert (statics p1 !! InClass T X N = Some v) as Hv.
  { unfold local_static in E. destruct (statics p !! InClass T X N) as [u|] eqn:Eu; [by injection E as <- <-|].
    destruct (ctor (rest p)); try done. injection E as <- <-. cbn. apply lookup_insert_eq. }
  clear E. assert (statics p2 !! InClass T X N = Some v) as Hv2; [|unfold local_static; by rewrite Hv2].
  revert p1 Hv H. induction others as [|[k c] others IH]; intros p1 Hv H; [by injection H as <-|]. cbn [foldl mbind option_bind fst snd] in H.
  destruct (local_static k c p1) as [u q|e q| |] eqn:El.
  3,4: exfalso; clear - H; induction others as [|? ? IH]; [done|by apply IH].
  all: apply (IH q); [|done]; unfold local_static in El; destruct (statics p1 !! k) as [u'|] eqn:Ek;
    [by simplify_eq|destruct (c (rest p1)); simplify_eq; cbn; try done].
  rewrite lookup_insert_ne; [done|congruence].
Qed.
End singleton.

(** ** Examples and witnesses *)

Definition assert_event : LogEvent := mkEvent "fiber.cc" 75 0 11 0 1000 "main" [] "root" ERROR.

Lemma assert_is_abort_witness :
  PENG_ASSERT (λ s : LogSys, s) (λ s _, s) no_date false (Some []) 0 assert_event (gets (λ _, false)) "m_state == EXEC" sys0 =
    Abort "m_state == EXEC".
Proof.
  destruct (assert_is_abort (λ s, s) (λ s _, s) no_date false (Some []) 0 assert_event (λ _, false) "m_state == EXEC" None
    sys0 (with_appenders [0] (new_Logger "root" false)) []) as (_ & H & _);
    [apply sys0_log_ok|done|done|vm_compute; reflexivity|done|]. by apply H.
Defined.

Definition counter : M Z Z := n ← get; put (n + 1);; mret n.
Definition result {S A} (o : outcome S A) : option A := match o with Ok a _ => Some a | _ => None end.

Example constructed_once :
  result ((a ← GetInstance "LoggerManager" "void" 0 counter; b ← GetInstance "FdManager" "void" 0 counter;
    c ← GetInstance "LoggerManager" "void" 0 counter; mret (a, b, c)) (mkProgram ∅ 100)) = Some (100, 101, 100).
Proof. vm_compute. reflexivity. Qed.

(** The function in the unnamed namespace makes one object per file. *)
Example one_per_unit :
  result ((a ← GetInstanceX "a.cc" "Env" "void" 0 counter; b ← GetInstanceX "b.cc" "Env" "void" 0 counter;
    mret (a, b)) (mkProgram ∅ 7)) = Some (7, 8).
Proof. vm_compute. reflexivity. Qed.
