(* ===== verification/Http.v ===== *)
(** * HTTP messages (http/http.h, http/http.cc)

    The tables of methods and statuses, the case-insensitive maps, requests
    with their parameters and cookies, responses, and the text of both.
    [StringUtil::UrlDecode], [StringUtil::Trim] and [Time2Str] are used but not
    declared in the sources, and [boost::lexical_cast] is a library: they are
    parameters.  http.cc is not part of the build and lacks the semicolon after
    [break] in [PARSE_PARAM]; the model reads it with one. *)

From Stdlib Require Import Ascii.
From S2P Require Import Prelude.

(** ** Methods and statuses *)

Inductive HttpMethod :=
| DELETE | GET | HEAD | POST | PUT | CONNECT | OPTIONS | TRACE | COPY | LOCK | MKCOL | MOVE
| PROPFIND | PROPPATCH | SEARCH | UNLOCK | BIND | REBIND | UNBIND | ACL | REPORT | MKACTIVITY
| CHECKOUT | MERGE | MSEARCH | NOTIFY | SUBSCRIBE | UNSUBSCRIBE | PATCH | PURGE | MKCALENDAR
| LINK | UNLINK | SOURCE | INVALID_METHOD.

Inductive HttpStatus :=
| CONTINUE | SWITCHING_PROTOCOLS | PROCESSING | OK | CREATED | ACCEPTED
| NON_AUTHORITATIVE_INFORMATION | NO_CONTENT | RESET_CONTENT | PARTIAL_CONTENT | MULTI_STATUS
| ALREADY_REPORTED | IM_USED | MULTIPLE_CHOICES | MOVED_PERMANENTLY | FOUND | SEE_OTHER
| NOT_MODIFIED | USE_PROXY | TEMPORARY_REDIRECT | PERMANENT_REDIRECT | BAD_REQUEST | UNAUTHORIZED
| PAYMENT_REQUIRED | FORBIDDEN | NOT_FOUND | METHOD_NOT_ALLOWED | NOT_ACCEPTABLE
| PROXY_AUTHENTICATION_REQUIRED | REQUEST_TIMEOUT | CONFLICT | GONE | LENGTH_REQUIRED
| PRECONDITION_FAILED | PAYLOAD_TOO_LARGE | URI_TOO_LONG | UNSUPPORTED_MEDIA_TYPE
| RANGE_NOT_SATISFIABLE | EXPECTATION_FAILED | MISDIRECTED_REQUEST | UNPROCESSABLE_ENTITY | LOCKED
| FAILED_DEPENDENCY | UPGRADE_REQUIRED | PRECONDITION_REQUIRED | TOO_MANY_REQUESTS
| REQUEST_HEADER_FIELDS_TOO_LARGE | UNAVAILABLE_FOR_LEGAL_REASONS | INTERNAL_SERVER_ERROR
| NOT_IMPLEMENTED | BAD_GATEWAY | SERVICE_UNAVAILABLE | GATEWAY_TIMEOUT
| HTTP_VERSION_NOT_SUPPORTED | VARIANT_ALSO_NEGOTIATES | INSUFFICIENT_STORAGE | LOOP_DETECTED
| NOT_EXTENDED | NETWORK_AUTHENTICATION_REQUIRED.

(** [HTTP_METHOD_MAP]: the number of an enumerator and the text its third argument is turned
    into. *)
Definition HTTP_METHOD_MAP (m : HttpMethod) : Z * string :=
  match m with
  | DELETE => (0, "DELETE")
  | GET => (1, "GET")
  | HEAD => (2, "HEAD")
  | POST => (3, "POST")
  | PUT => (4, "PUT")
  | CONNECT => (5, "CONNECT")
  | OPTIONS => (6, "OPTIONS")
  | TRACE => (7, "TRACE")
  | COPY => (8, "COPY")
  | LOCK => (9, "LOCK")
  | MKCOL => (10, "MKCOL")
  | MOVE => (11, "MOVE")
  | PROPFIND => (12, "PROPFIND")
  | PROPPATCH => (13, "PROPPATCH")
  | SEARCH => (14, "SEARCH")
  | UNLOCK => (15, "UNLOCK")
  | BIND => (16, "BIND")
  | REBIND => (17, "REBIND")
  | UNBIND => (18, "UNBIND")
  | ACL => (19, "ACL")
  | REPORT => (20, "REPORT")
  | MKACTIVITY => (21, "MKACTIVITY")
  | CHECKOUT => (22, "CHECKOUT")
  | MERGE => (23, "MERGE")
  | MSEARCH => (24, "M - SEARCH")
  | NOTIFY => (25, "NOTIFY")
  | SUBSCRIBE => (26, "SUBSCRIBE")
  | UNSUBSCRIBE => (27, "UNSUBSCRIBE")
  | PATCH => (28, "PATCH")
  | PURGE => (29, "PURGE")
  | MKCALENDAR => (30, "MKCALENDAR")
  | LINK => (31, "LINK")
  | UNLINK => (32, "UNLINK")
  | SOURCE => (33, "SOURCE")
  | INVALID_METHOD => (34, "")
  end.

(** The enumerators, in the order of the table. *)
Definition methods : list HttpMethod :=
  [DELETE; GET; HEAD; POST; PUT; CONNECT; OPTIONS; TRACE; COPY; LOCK; MKCOL; MOVE; PROPFIND;
   PROPPATCH; SEARCH; UNLOCK; BIND; REBIND; UNBIND; ACL; REPORT; MKACTIVITY; CHECKOUT; MERGE;
   MSEARCH; NOTIFY; SUBSCRIBE; UNSUBSCRIBE; PATCH; PURGE; MKCALENDAR; LINK; UNLINK; SOURCE].

(** [HTTP_STATUS_MAP]. *)
Definition HTTP_STATUS_MAP (s : HttpStatus) : Z * string :=
  match s with
  | CONTINUE => (100, "Continue")
  | SWITCHING_PROTOCOLS => (101, "Switching Protocols")
  | PROCESSING => (102, "Processing")
  | OK => (200, "OK")
  | CREATED => (201, "Created")
  | ACCEPTED => (202, "Accepted")
  | NON_AUTHORITATIVE_INFORMATION => (203, "Non - Authoritative Information")
  | NO_CONTENT => (204, "No Content")
  | RESET_CONTENT => (205, "Reset Content")
  | PARTIAL_CONTENT => (206, "Partial Content")
  | MULTI_STATUS => (207, "Multi - Status")
  | ALREADY_REPORTED => (208, "Already Reported")
  | IM_USED => (226, "IM Used")
  | MULTIPLE_CHOICES => (300, "Multiple Choices")
  | MOVED_PERMANENTLY => (301, "Moved Permanently")
  | FOUND => (302, "Found")
  | SEE_OTHER => (303, "See Other")
  | NOT_MODIFIED => (304, "Not Modified")
  | USE_PROXY => (305, "Use Proxy")
  | TEMPORARY_REDIRECT => (307, "Temporary Redirect")
  | PERMANENT_REDIRECT => (308, "Permanent Redirect")
  | BAD_REQUEST => (400, "Bad Request")
  | UNAUTHORIZED => (401, "Unauthorized")
  | PAYMENT_REQUIRED => (402, "Payment Required")
  | FORBIDDEN => (403, "Forbidden")
  | NOT_FOUND => (404, "Not Found")
  | METHOD_NOT_ALLOWED => (405, "Method Not Allowed")
  | NOT_ACCEPTABLE => (406, "Not Acceptable")
  | PROXY_AUTHENTICATION_REQUIRED => (407, "Proxy Authentication Required")
  | REQUEST_TIMEOUT => (408, "Request Timeout")
  | CONFLICT => (409, "Conflict")
  | GONE => (410, "Gone")
  | LENGTH_REQUIRED => (411, "Length Required")
  | PRECONDITION_FAILED => (412, "Precondition Failed")
  | PAYLOAD_TOO_LARGE => (413, "Payload Too Large")
  | URI_TOO_LONG => (414, "URI Too Long")
  | UNSUPPORTED_MEDIA_TYPE => (415, "Unsupported Media Type")
  | RANGE_NOT_SATISFIABLE => (416, "Range Not Satisfiable")
  | EXPECTATION_FAILED => (417, "Expectation Failed")
  | MISDIRECTED_REQUEST => (421, "Misdirected Request")
  | UNPROCESSABLE_ENTITY => (422, "Unprocessable Entity")
  | LOCKED => (423, "Locked")
  | FAILED_DEPENDENCY => (424, "Failed Dependency")
  | UPGRADE_REQUIRED => (426, "Upgrade Required")
  | PRECONDITION_REQUIRED => (428, "Precondition Required")
  | TOO_MANY_REQUESTS => (429, "Too Many Requests")
  | REQUEST_HEADER_FIELDS_TOO_LARGE => (431, "Request Header Fields Too Large")
  | UNAVAILABLE_FOR_LEGAL_REASONS => (451, "Unavailable For Legal Reasons")
  | INTERNAL_SERVER_ERROR => (500, "Internal Server Error")
  | NOT_IMPLEMENTED => (501, "Not Implemented")
  | BAD_GATEWAY => (502, "Bad Gateway")
  | SERVICE_UNAVAILABLE => (503, "Service Unavailable")
  | GATEWAY_TIMEOUT => (504, "Gateway Timeout")
  | HTTP_VERSION_NOT_SUPPORTED => (505, "HTTP Version Not Supported")
  | VARIANT_ALSO_NEGOTIATES => (506, "Variant Also Negotiates")
  | INSUFFICIENT_STORAGE => (507, "Insufficient Storage")
  | LOOP_DETECTED => (508, "Loop Detected")
  | NOT_EXTENDED => (510, "Not Extended")
  | NETWORK_AUTHENTICATION_REQUIRED => (511, "Network Authentication Required")
  end.

(** [(uint32_t)m] and [(uint32_t)s]. *)
Definition method_num (m : HttpMethod) : Z := (HTTP_METHOD_MAP m).1.
Definition status_code (s : HttpStatus) : Z := (HTTP_STATUS_MAP s).1.

Definition s_method_string : list string := (λ m, (HTTP_METHOD_MAP m).2) <$> methods.

Definition HttpMethodToString (m : HttpMethod) : string :=
  let idx := method_num m in
  if zlen s_method_string <=? idx then "<unknown>" else default "" (s_method_string !! Z.to_nat idx).

Definition HttpStatusToString (s : HttpStatus) : string := (HTTP_STATUS_MAP s).2.

(** [StringToHttpMethod] and [CharsToHttpMethod]: the line that expands the
    table ends the definition of [XX] with a backslash and is part of it, so
    nothing is compared. *)
Definition StringToHttpMethod (m : text) : HttpMethod := INVALID_METHOD.
Definition CharsToHttpMethod (m : text) : HttpMethod := INVALID_METHOD.

(** ** Case-insensitive maps *)

Definition tolower (c : Ascii.ascii) : Z :=
  let n := Z.of_N (Ascii.N_of_ascii c) in
  if (65 <=? n) && (n <=? 90) then n + 32 else n.

(** The characters [strcasecmp] compares: up to the first zero byte. *)
Fixpoint fold_case (s : text) : list Z :=
  match s with
  | [] => []
  | c :: s' => if tolower c =? 0 then [] else tolower c :: fold_case s'
  end.

(** The sign of [strcasecmp]. *)
Definition strcasecmp (s1 s2 : text) : comparison := lex_cmp (fold_case s1) (fold_case s2).

(** [CaseInsensitiveLess]. *)
Definition CaseInsensitiveLess (lhs rhs : text) : bool :=
  match strcasecmp lhs rhs with Lt => true | _ => false end.

(** [std::map<std::string, std::string, CaseInsensitiveLess>] as its sorted
    sequence: keys neither less than the other are the same key. *)
Abbreviation MapType := (list (text * text)).

Fixpoint find (key : text) (m : MapType) : option text :=
  match m with
  | [] => None
  | (k, v) :: m' => match strcasecmp key k with Eq => Some v | Lt => None | Gt => find key m' end
  end.

(** [m[key] = val]: an existing entry keeps its key. *)
Fixpoint assign (key val : text) (m : MapType) : MapType :=
  match m with
  | [] => [(key, val)]
  | (k, v) :: m' =>
      match strcasecmp key k with
      | Lt => (key, val) :: m
      | Eq => (k, val) :: m'
      | Gt => (k, v) :: assign key val m'
      end
  end.

(** [m.insert]: an existing entry is kept. *)
Fixpoint map_insert (key val : text) (m : MapType) : MapType :=
  match m with
  | [] => [(key, val)]
  | (k, v) :: m' =>
      match strcasecmp key k with
      | Lt => (key, val) :: m
      | Eq => m
      | Gt => (k, v) :: map_insert key val m'
      end
  end.

Fixpoint erase (key : text) (m : MapType) : MapType :=
  match m with
  | [] => []
  | (k, v) :: m' =>
      match strcasecmp key k with Lt => m | Eq => m' | Gt => (k, v) :: erase key m' end
  end.

(** [checkGetAs] and [getAs] with [lexical_cast]. *)
Definition checkGetAs {T} (cast : text → option T) (m : MapType) (key : text) (def : T) : bool * T :=
  match find key m with
  | None => (false, def)
  | Some s => match cast s with Some v => (true, v) | None => (false, def) end
  end.

Definition getAs {T} (cast : text → option T) (m : MapType) (key : text) (def : T) : T :=
  match find key m with
  | None => def
  | Some s => default def (cast s)
  end.

(** ** Requests *)

Record HttpRequest := mkRequest {
  m_method : HttpMethod;
  m_version : Z;
  m_close : bool;
  m_websocket : bool;
  m_parserParamFlag : Z;
  m_path : text;
  m_query : text;
  m_fragment : text;
  m_body : text;
  m_headers : MapType;
  m_params : MapType;
  m_cookies : MapType
}.

Definition new_HttpRequest (version : Z) (close : bool) : HttpRequest :=
  mkRequest GET version close false 0 (txt "/") [] [] [] [] [] [].

Definition set_headers (m : MapType) (r : HttpRequest) : HttpRequest :=
  mkRequest (m_method r) (m_version r) (m_close r) (m_websocket r) (m_parserParamFlag r) (m_path r) (m_query r)
    (m_fragment r) (m_body r) m (m_params r) (m_cookies r).
Definition set_params (flag : Z) (m : MapType) (r : HttpRequest) : HttpRequest :=
  mkRequest (m_method r) (m_version r) (m_close r) (m_websocket r) flag (m_path r) (m_query r)
    (m_fragment r) (m_body r) (m_headers r) m (m_cookies r).
Definition set_cookies (flag : Z) (m : MapType) (r : HttpRequest) : HttpRequest :=
  mkRequest (m_method r) (m_version r) (m_close r) (m_websocket r) flag (m_path r) (m_query r)
    (m_fragment r) (m_body r) (m_headers r) (m_params r) m.
Definition set_close (v : bool) (r : HttpRequest) : HttpRequest :=
  mkRequest (m_method r) (m_version r) v (m_websocket r) (m_parserParamFlag r) (m_path r) (m_query r)
    (m_fragment r) (m_body r) (m_headers r) (m_params r) (m_cookies r).

(** The setters of single fields. *)
Definition setMethod (v : HttpMethod) (r : HttpRequest) : HttpRequest :=
  mkRequest v (m_version r) (m_close r) (m_websocket r) (m_parserParamFlag r) (m_path r) (m_query r)
    (m_fragment r) (m_body r) (m_headers r) (m_params r) (m_cookies r).
Definition setVersion (v : Z) (r : HttpRequest) : HttpRequest :=
  mkRequest (m_method r) v (m_close r) (m_websocket r) (m_parserParamFlag r) (m_path r) (m_query r)
    (m_fragment r) (m_body r) (m_headers r) (m_params r) (m_cookies r).
Definition setPath (v : text) (r : HttpRequest) : HttpRequest :=
  mkRequest (m_method r) (m_version r) (m_close r) (m_websocket r) (m_parserParamFlag r) v (m_query r)
    (m_fragment r) (m_body r) (m_headers r) (m_params r) (m_cookies r).
Definition setQuery (v : text) (r : HttpRequest) : HttpRequest :=
  mkRequest (m_method r) (m_version r) (m_close r) (m_websocket r) (m_parserParamFlag r) (m_path r) v
    (m_fragment r) (m_body r) (m_headers r) (m_params r) (m_cookies r).
Definition setFragment (v : text) (r : HttpRequest) : HttpRequest :=
  mkRequest (m_method r) (m_version r) (m_close r) (m_websocket r) (m_parserParamFlag r) (m_path r) (m_query r)
    v (m_body r) (m_headers r) (m_params r) (m_cookies r).
Definition request_setBody (v : text) (r : HttpRequest) : HttpRequest :=
  mkRequest (m_method r) (m_version r) (m_close r) (m_websocket r) (m_parserParamFlag r) (m_path r) (m_query r)
    (m_fragment r) v (m_headers r) (m_params r) (m_cookies r).
Definition setClose (v : bool) (r : HttpRequest) : HttpRequest := set_close v r.
Definition setWebsocket (v : bool) (r : HttpRequest) : HttpRequest :=
  mkRequest (m_method r) (m_version r) (m_close r) v (m_parserParamFlag r) (m_path r) (m_query r)
    (m_fragment r) (m_body r) (m_headers r) (m_params r) (m_cookies r).
Definition setHeaders (v : MapType) (r : HttpRequest) : HttpRequest := set_headers v r.
Definition setParams (v : MapType) (r : HttpRequest) : HttpRequest := set_params (m_parserParamFlag r) v r.
Definition setCookies (v : MapType) (r : HttpRequest) : HttpRequest := set_cookies (m_parserParamFlag r) v r.

Definition getHeader (key def : text) (r : HttpRequest) : text := default def (find key (m_headers r)).

Definition setHeader (key val : text) (r : HttpRequest) : HttpRequest := set_headers (assign key val (m_headers r)) r.
Definition setParam (key val : text) (r : HttpRequest) : HttpRequest :=
  set_params (m_parserParamFlag r) (assign key val (m_params r)) r.
Definition setCookie (key val : text) (r : HttpRequest) : HttpRequest :=
  set_cookies (m_parserParamFlag r) (assign key val (m_cookies r)) r.

Definition delheader (key : text) (r : HttpRequest) : HttpRequest := set_headers (erase key (m_headers r)) r.
Definition delParam (key : text) (r : HttpRequest) : HttpRequest :=
  set_params (m_parserParamFlag r) (erase key (m_params r)) r.
Definition delCookie (key : text) (r : HttpRequest) : HttpRequest :=
  set_cookies (m_parserParamFlag r) (erase key (m_cookies r)) r.

(** [hasHeader], [hasParam] and [hasCookie]: the result and what is stored
    through [val], which is null when [wanted] is false. *)
Definition hasHeader (key : text) (wanted : bool) (r : HttpRequest) : bool * option text :=
  match find key (m_headers r) with
  | None => (false, None)
  | Some v => (true, if wanted then Some v else None)
  end.

(** [hasParam] compares with the end of another map: a missing parameter is
    reported as present, and its value is read past the end. *)
Definition hasParam (key : text) (wanted : bool) : M HttpRequest (bool * option text) :=
  r ← get;
  match find key (m_params r) with
  | None => if wanted then undef "m_params.end() followed" else mret (true, None)
  | Some v => mret (true, if wanted then Some v else None)
  end.

Definition hasCookie (key : text) (wanted : bool) (r : HttpRequest) : bool * option text :=
  match find key (m_cookies r) with
  | None => (false, None)
  | Some v => (true, if wanted then Some v else None)
  end.

(** [init]. *)
Definition init (r : HttpRequest) : HttpRequest :=
  match getHeader (txt "connection") [] r with
  | [] => r
  | conn => set_close (match strcasecmp conn (txt "keey-alive") with Eq => false | _ => true end) r
  end.

(** *** Parameters *)

(** [str.find(c, pos)], as the text before the character and after it. *)
Fixpoint split_at (c : Ascii.ascii) (l : text) : option (text * text) :=
  match l with
  | [] => None
  | x :: l' => if Ascii.eqb x c then Some ([], l') else p ← split_at c l'; Some (x :: p.1, p.2)
  end.

Definition equals_sign : Ascii.ascii := "="%char.

Section parameters.
(** [UrlDecode], and [Trim] of cookie names. *)
Context (UrlDecode Trim : text → text).

(** The loop of [PARSE_PARAM], from [pos]. *)
Fixpoint PARSE_PARAM (fuel : nat) (trim : text → text) (flag : Ascii.ascii) (str : text) (m : MapType) :
    option MapType :=
  match fuel with
  | O => None
  | S fuel' =>
      match split_at equals_sign str with
      | None => Some m
      | Some (key, rest) =>
          match split_at flag rest with
          | None => Some (map_insert (trim key) (UrlDecode rest) m)
          | Some (val, rest') => PARSE_PARAM fuel' trim flag rest' (map_insert (trim key) (UrlDecode val) m)
          end
      end
  end.

Definition parse_params (trim : text → text) (flag : Ascii.ascii) (str : text) (m : MapType) : MapType :=
  default m (PARSE_PARAM (S (length str)) trim flag str m).

Definition ampersand : Ascii.ascii := "&"%char.
Definition semicolon : Ascii.ascii := ";"%char.

Definition initQueryParam (r : HttpRequest) : HttpRequest :=
  if negb (Z.land (m_parserParamFlag r) 0x1 =? 0) then r
  else set_params (Z.lor (m_parserParamFlag r) 0x1) (parse_params id ampersand (m_query r) (m_params r)) r.

(** [strcasestr(s, sub) != nullptr]. *)
Fixpoint has_prefix (sub l : list Z) : bool :=
  match sub, l with
  | [], _ => true
  | x :: sub', y :: l' => (x =? y) && has_prefix sub' l'
  | _, [] => false
  end.
Fixpoint has_infix (sub l : list Z) : bool :=
  has_prefix sub l || match l with [] => false | _ :: l' => has_infix sub l' end.
Definition strcasestr (s sub : text) : bool := has_infix (fold_case sub) (fold_case s).

Definition initBodyParam (r : HttpRequest) : HttpRequest :=
  if negb (Z.land (m_parserParamFlag r) 0x2 =? 0) then r
  else if negb (strcasestr (getHeader (txt "content-type") [] r) (txt "application/x-www-form-urlencoded"))
  then set_params (Z.lor (m_parserParamFlag r) 0x2) (m_params r) r
  else set_params (Z.lor (m_parserParamFlag r) 0x2) (parse_params id ampersand (m_body r) (m_params r)) r.

(** [initCookies] sets its flag only when there is no cookie header. *)
Definition initCookies (r : HttpRequest) : HttpRequest :=
  if negb (Z.land (m_parserParamFlag r) 0x4 =? 0) then r
  else
    match getHeader (txt "cookie") [] r with
    | [] => set_cookies (Z.lor (m_parserParamFlag r) 0x4) (m_cookies r) r
    | cookie => set_cookies (m_parserParamFlag r) (parse_params Trim semicolon cookie (m_cookies r)) r
    end.

Definition initParam (r : HttpRequest) : HttpRequest := initCookies (initBodyParam (initQueryParam r)).

Definition getParam (key def : text) (r : HttpRequest) : text * HttpRequest :=
  let r := initBodyParam (initQueryParam r) in (default def (find key (m_params r)), r).

Definition getCookies (key def : text) (r : HttpRequest) : text * HttpRequest :=
  let r := initCookies r in (default def (find key (m_cookies r)), r).

(** The typed accessors. *)
Definition checkGetHeaderAs {T} (cast : text → option T) (key : text) (def : T) (r : HttpRequest) : bool * T :=
  checkGetAs cast (m_headers r) key def.
Definition getHeaderAs {T} (cast : text → option T) (key : text) (def : T) (r : HttpRequest) : T :=
  getAs cast (m_headers r) key def.
Definition checkGetParamAs {T} (cast : text → option T) (key : text) (def : T) (r : HttpRequest) :
    bool * T * HttpRequest :=
  let r := initBodyParam (initQueryParam r) in (checkGetAs cast (m_params r) key def, r).
Definition getParamAs {T} (cast : text → option T) (key : text) (def : T) (r : HttpRequest) : T * HttpRequest :=
  let r := initBodyParam (initQueryParam r) in (getAs cast (m_params r) key def, r).
Definition checkGetCookies {T} (cast : text → option T) (key : text) (def : T) (r : HttpRequest) :
    bool * T * HttpRequest :=
  let r := initCookies r in (checkGetAs cast (m_cookies r) key def, r).
Definition getCookieAs {T} (cast : text → option T) (key : text) (def : T) (r : HttpRequest) : T * HttpRequest :=
  let r := initCookies r in (getAs cast (m_cookies r) key def, r).
End parameters.

(** *** The text of a request *)

Definition crlf : text := [Ascii.ascii_of_N 13; Ascii.ascii_of_N 10].

Definition is_connection (name : text) : bool :=
  match strcasecmp name (txt "connection") with Eq => true | _ => false end.

Definition version_text (version : Z) : text :=
  dec (Z.shiftr version 4) ++ txt "." ++ dec (Z.land version 0x0F).

Definition connection_line (close : bool) : text :=
  txt "connection: " ++ txt (if close then "close" else "keep-alive") ++ crlf.

Definition body_text (body : text) : text :=
  match body with
  | [] => crlf
  | _ => txt "content-length: " ++ dec (zlen body) ++ crlf ++ crlf ++ body
  end.

(** The header lines, [sep] between name and value. *)
Fixpoint header_lines (sep : text) (websocket : bool) (m : MapType) : text :=
  match m with
  | [] => []
  | (k, v) :: m' =>
      (if negb websocket && is_connection k then [] else k ++ sep ++ v ++ crlf) ++ header_lines sep websocket m'
  end.

Definition dump (r : HttpRequest) : text :=
  txt (HttpMethodToString (m_method r)) ++ txt " " ++ m_path r ++
  txt (match m_query r with [] => " " | _ => "?" end) ++ m_query r ++
  txt (match m_fragment r with [] => "" | _ => "#" end) ++ m_fragment r ++ txt " HTTP/" ++
  version_text (m_version r) ++ crlf ++
  (if m_websocket r then [] else connection_line (m_close r)) ++
  header_lines (txt ": ") (m_websocket r) (m_headers r) ++
  body_text (m_body r).

(** ** Responses *)

Record HttpResponse := mkResponse {
  r_status : HttpStatus;
  r_version : Z;
  r_close : bool;
  r_websocket : bool;
  r_body : text;
  r_reason : text;
  r_headers : MapType;
  r_cookies : list text
}.

Definition new_HttpResponse (version : Z) (close : bool) : HttpResponse :=
  mkResponse OK version close false [] [] [] [].

Definition createResponse (r : HttpRequest) : HttpResponse := new_HttpResponse (m_version r) (m_close r).

Definition response_getHeader (key def : text) (r : HttpResponse) : text := default def (find key (r_headers r)).

Definition response_checkGetHeaderAs {T} (cast : text → option T) (key : text) (def : T) (r : HttpResponse) : bool * T :=
  checkGetAs cast (r_headers r) key def.
Definition response_getHeaderAs {T} (cast : text → option T) (key : text) (def : T) (r : HttpResponse) : T :=
  getAs cast (r_headers r) key def.

(** [setBody] assigns the reason. *)
Definition setBody (v : text) (r : HttpResponse) : HttpResponse :=
  mkResponse (r_status r) (r_version r) (r_close r) (r_websocket r) (r_body r) v (r_headers r) (r_cookies r).
Definition setReason (v : text) (r : HttpResponse) : HttpResponse :=
  mkResponse (r_status r) (r_version r) (r_close r) (r_websocket r) (r_body r) v (r_headers r) (r_cookies r).
Definition setStatus (v : HttpStatus) (r : HttpResponse) : HttpResponse :=
  mkResponse v (r_version r) (r_close r) (r_websocket r) (r_body r) (r_reason r) (r_headers r) (r_cookies r).
Definition response_setHeaders (m : MapType) (r : HttpResponse) : HttpResponse :=
  mkResponse (r_status r) (r_version r) (r_close r) (r_websocket r) (r_body r) (r_reason r) m (r_cookies r).

Definition response_setVersion (v : Z) (r : HttpResponse) : HttpResponse :=
  mkResponse (r_status r) v (r_close r) (r_websocket r) (r_body r) (r_reason r) (r_headers r) (r_cookies r).
Definition response_setClose (v : bool) (r : HttpResponse) : HttpResponse :=
  mkResponse (r_status r) (r_version r) v (r_websocket r) (r_body r) (r_reason r) (r_headers r) (r_cookies r).
Definition response_setWebsocket (v : bool) (r : HttpResponse) : HttpResponse :=
  mkResponse (r_status r) (r_version r) (r_close r) v (r_body r) (r_reason r) (r_headers r) (r_cookies r).

(** [HttpResponse::setHeader] returns a [std::string] and has no return
    statement: reaching its end is undefined. *)
Definition response_setHeader (key val : text) : M HttpResponse text :=
  modify (λ r, response_setHeaders (assign key val (r_headers r)) r);;
  undef "setHeader without return".

Definition delHeader (key : text) (r : HttpResponse) : HttpResponse :=
  response_setHeaders (erase key (r_headers r)) r.

Definition setRedirect (uri : text) : M HttpResponse unit :=
  modify (setStatus FOUND);;
  response_setHeader (txt "Location") uri;;
  mret tt.

(** [setCookiie]; [Time2Str] is the text of a time. *)
Definition setCookiie (Time2Str : Z → text → text) (key val : text) (expired : Z) (path domain : text) (secure : bool)
    (r : HttpResponse) : HttpResponse :=
  let ss := key ++ txt " = " ++ val ++
    (if 0 <? expired then txt ";expired = " ++ Time2Str expired (txt "%a, %d %b %Y %H:%M:%S") ++ txt " GMT" else []) ++
    match domain with [] => [] | _ => txt ";domain = " ++ domain end ++
    match path with [] => [] | _ => txt ";path = " ++ path end ++
    (if secure then txt ";secure" else []) in
  mkResponse (r_status r) (r_version r) (r_close r) (r_websocket r) (r_body r) (r_reason r) (r_headers r)
    (r_cookies r ++ [ss]).

Definition response_dump (r : HttpResponse) : text :=
  txt "HTTP/" ++ version_text (r_version r) ++ txt " " ++ dec (status_code (r_status r)) ++ txt " " ++
  match r_reason r with [] => txt (HttpStatusToString (r_status r)) | reason => reason end ++ crlf ++
  header_lines (txt " : ") (r_websocket r) (r_headers r) ++
  concat ((λ c, txt "Set-Cookie: " ++ c ++ crlf) <$> r_cookies r) ++
  (if r_websocket r then [] else connection_line (r_close r)) ++
  body_text (r_body r).

(** ** The maps refine finite maps of the folded keys *)

Definition key_lt (a b : text * text) : Prop := strcasecmp a.1 b.1 = Lt.

(** The entries are in strictly ascending order of their keys. *)
Definition map_wf (m : MapType) : Prop := StronglySorted key_lt m.

(** The abstract map: keys up to case. *)
Fixpoint contents (m : MapType) : gmap (list Z) text :=
  match m with [] => ∅ | (k, v) :: m' => <[fold_case k := v]> (contents m') end.

(** Insertion that keeps an existing entry. *)
Definition insert_new (k : list Z) (v : text) (m : gmap (list Z) text) : gmap (list Z) text :=
  match m !! k with Some _ => m | None => <[k := v]> m end.

Lemma strcasecmp_eq a b : strcasecmp a b = Eq → fold_case a = fold_case b.
Proof. apply lex_cmp_eq. Qed.

Lemma strcasecmp_ne a b : strcasecmp a b ≠ Eq → fold_case a ≠ fold_case b.
Proof. unfold strcasecmp. by rewrite lex_cmp_eq. Qed.

Lemma strcasecmp_gt a b : strcasecmp a b = Gt → strcasecmp b a = Lt.
Proof. unfold strcasecmp. rewrite (lex_cmp_antisym (fold_case a) (fold_case b)). by intros ->. Qed.

(** The order of the keys is that of the folded keys. *)
Lemma contents_none key m :
  Forall (λ e : text * text, strcasecmp key e.1 = Lt) m → contents m !! fold_case key = None.
Proof.
  induction 1 as [|[k v] m H _ IH]; simpl; [apply lookup_empty|].
  rewrite lookup_insert_ne; [done|]. intros E. symmetry in E. revert E. apply strcasecmp_ne. simpl in H. by rewrite H.
Qed.

Lemma key_lt_tail key m k v :
  strcasecmp key k = Lt → Forall (key_lt (k, v)) m → Forall (λ e : text * text, strcasecmp key e.1 = Lt) ((k, v) :: m).
Proof.
  intros H Hm. constructor; [done|]. eapply Forall_impl; [apply Hm|]. intros e. unfold key_lt. simpl.
  by apply lex_cmp_trans.
Qed.

Lemma find_contents key m : map_wf m → find key m = contents m !! fold_case key.
Proof.
  induction 1 as [|[k v] m Hm IH H]; simpl; [done|].
  destruct (strcasecmp key k) eqn:E.
  - apply strcasecmp_eq in E as ->. by rewrite lookup_insert_eq.
  - symmetry. by apply (contents_none key ((k, v) :: m)), key_lt_tail.
  - rewrite lookup_insert_ne; [done|]. intros F. symmetry in F. revert F. apply strcasecmp_ne. by rewrite E.
Qed.

(** An update at [key] that replaces the entries of [m] by [m'] and keeps the
    rest in order. *)
Lemma Forall_key_lt_update (f : text → MapType → MapType) key m e :
  (∀ m, Forall (λ x, x ∈ m.*1 ∨ x = key) (f key m).*1) →
  strcasecmp e.1 key = Lt → Forall (key_lt e) m → Forall (key_lt e) (f key m).
Proof.
  intros Hf He Hm. apply list.Forall_forall. intros x Hx.
  pose proof (proj1 (list.Forall_forall _ _) (Hf m) x.1 (list_elem_of_fmap_2 _ _ _ Hx)) as [Hin|E];
    [|unfold key_lt; by rewrite E].
  apply list_elem_of_fmap in Hin as (y & Hy & Hin). apply (proj1 (list.Forall_forall _ _) Hm) in Hin.
  unfold key_lt in *. by rewrite Hy.
Qed.

Lemma assign_keys val key m : Forall (λ x, x ∈ m.*1 ∨ x = key) (assign key val m).*1.
Proof.
  apply list.Forall_forall. induction m as [|[k v] m IH]; simpl; [set_solver|].
  destruct (strcasecmp key k); simpl; set_solver.
Qed.

Lemma map_insert_keys val key m : Forall (λ x, x ∈ m.*1 ∨ x = key) (map_insert key val m).*1.
Proof.
  apply list.Forall_forall. induction m as [|[k v] m IH]; simpl; [set_solver|].
  destruct (strcasecmp key k); simpl; set_solver.
Qed.

Lemma erase_keys key m : Forall (λ x, x ∈ m.*1 ∨ x = key) (erase key m).*1.
Proof.
  apply list.Forall_forall. induction m as [|[k v] m IH]; simpl; [set_solver|].
  destruct (strcasecmp key k); simpl; set_solver.
Qed.

(** [assign], [map_insert] and [erase] keep the order and are insertion,
    insertion of a new key, and deletion. *)
Lemma assign_spec key val m : map_wf m →
  map_wf (assign key val m) ∧ contents (assign key val m) = <[fold_case key := val]> (contents m).
Proof.
  intros Hm. induction Hm as [|[k v] m Hm [IH1 IH2] H]; simpl; [split; [repeat constructor|done]|].
  destruct (strcasecmp key k) eqn:E; simpl.
  - apply strcasecmp_eq in E as ->. rewrite insert_insert_eq. split; [|done]. by constructor.
  - split; [|done]. constructor; [by constructor|]. by apply (key_lt_tail key m k v).
  - split.
    + constructor; [done|]. apply (Forall_key_lt_update (λ k m, assign k val m)); [apply assign_keys| |done].
      by apply strcasecmp_gt.
    + rewrite IH2. apply insert_insert_ne. intros F. symmetry in F. revert F. apply strcasecmp_ne. by rewrite E.
Qed.

Lemma insert_new_ne k k' v v' m : k ≠ k' → insert_new k v (<[k' := v']> m) = <[k' := v']> (insert_new k v m).
Proof.
  intros H. unfold insert_new. rewrite lookup_insert_ne by done. destruct (m !! k); [done|]. by apply insert_insert_ne.
Qed.

Lemma map_insert_spec key val m : map_wf m →
  map_wf (map_insert key val m) ∧ contents (map_insert key val m) = insert_new (fold_case key) val (contents m).
Proof.
  intros Hm. induction Hm as [|[k v] m Hm [IH1 IH2] H]; simpl; [split; [repeat constructor|done]|].
  destruct (strcasecmp key k) eqn:E; simpl.
  - apply strcasecmp_eq in E as ->. unfold insert_new. rewrite lookup_insert_eq. split; [by constructor|done].
  - pose proof (key_lt_tail key m k v E H) as Hk. split; [by constructor; [constructor|]|].
    pose proof (contents_none key ((k, v) :: m) Hk) as F. simpl in F. unfold insert_new. by rewrite F.
  - split.
    + constructor; [done|]. apply (Forall_key_lt_update (λ k m, map_insert k val m)); [apply map_insert_keys| |done].
      by apply strcasecmp_gt.
    + rewrite IH2, insert_new_ne; [done|]. apply strcasecmp_ne. by rewrite E.
Qed.

Lemma erase_spec key m : map_wf m →
  map_wf (erase key m) ∧ contents (erase key m) = delete (fold_case key) (contents m).
Proof.
  intros Hm. induction Hm as [|[k v] m Hm [IH1 IH2] H]; simpl; [split; [constructor|by rewrite delete_empty]|].
  destruct (strcasecmp key k) eqn:E; simpl.
  - split; [done|]. apply strcasecmp_eq in E as ->. rewrite delete_insert_eq. symmetry. by apply delete_id, contents_none.
  - split; [by constructor|]. symmetry. apply delete_id, (contents_none key ((k, v) :: m)), key_lt_tail; done.
  - split.
    + constructor; [done|]. apply (Forall_key_lt_update erase); [apply erase_keys| |done]. by apply strcasecmp_gt.
    + rewrite IH2. symmetry. apply delete_insert_ne, strcasecmp_ne. by rewrite E.
Qed.

(** *** Parsing parameters *)

Lemma split_at_app c l rest : c ∉ l → split_at c (l ++ c :: rest) = Some (l, rest).
Proof.
  induction l as [|x l IH]; simpl; intros H; [by rewrite Ascii.eqb_refl|].
  apply not_elem_of_cons in H as [H1 H2]. rewrite (proj2 (Ascii.eqb_neq x c)) by congruence.
  by rewrite IH.
Qed.

Lemma split_at_none c l : c ∉ l → split_at c l = None.
Proof.
  induction l as [|x l IH]; simpl; intros H; [done|].
  apply not_elem_of_cons in H as [H1 H2]. rewrite (proj2 (Ascii.eqb_neq x c)) by congruence. by rewrite IH.
Qed.

Lemma split_at_inv c l l1 l2 : split_at c l = Some (l1, l2) → l = l1 ++ c :: l2 ∧ c ∉ l1.
Proof.
  revert l1. induction l as [|x l IH]; simpl; intros l1 H; [done|].
  destruct (Ascii.eqb_spec x c) as [->|Hx]; [injection H as <- <-; split; [done|apply not_elem_of_nil]|].
  destruct (split_at c l) as [[a b]|]; [|done]. simpl in H. injection H as <- <-.
  destruct (IH a eq_refl) as [-> Ha]. split; [done|]. apply not_elem_of_cons. by split.
Qed.

Lemma split_at_length c l l1 l2 : split_at c l = Some (l1, l2) → (length l2 < length l)%nat.
Proof. intros [-> _]%split_at_inv. rewrite length_app. simpl. lia. Qed.

Section parameters_spec.
Context (UrlDecode Trim : text → text).

(** The pairs [PARSE_PARAM] finds, in the order of the text. *)
Definition query_text (flag : Ascii.ascii) (kvs : list (text * text)) : text :=
  match (λ kv : text * text, kv.1 ++ equals_sign :: kv.2) <$> kvs with
  | [] => []
  | p :: ps => p ++ concat ((λ q, flag :: q) <$> ps)
  end.

Definition insert_pairs (trim : text → text) (kvs : list (text * text)) (m : MapType) : MapType :=
  foldl (λ m kv, map_insert (trim kv.1) (UrlDecode kv.2) m) m kvs.

(** Enough fuel: the loop consumes at least a character in each round. *)
Lemma PARSE_PARAM_total trim flag : ∀ fuel str m, (length str < fuel)%nat →
  is_Some (PARSE_PARAM UrlDecode fuel trim flag str m).
Proof.
  induction fuel as [|fuel IH]; intros str m H; [lia|]. simpl.
  destruct (split_at equals_sign str) as [[k rest]|] eqn:E1; [|done].
  destruct (split_at flag rest) as [[v rest']|] eqn:E2; [|done].
  apply IH. apply split_at_length in E1, E2. lia.
Qed.

Lemma PARSE_PARAM_more trim flag : ∀ fuel fuel' str m r, (fuel <= fuel')%nat →
  PARSE_PARAM UrlDecode fuel trim flag str m = Some r → PARSE_PARAM UrlDecode fuel' trim flag str m = Some r.
Proof.
  induction fuel as [|fuel IH]; intros [|fuel'] str m r Hle H; [done|done|lia|]. simpl in *.
  destruct (split_at equals_sign str) as [[k rest]|]; [|done].
  destruct (split_at flag rest) as [[v rest']|]; [|done]. apply IH; [lia|done].
Qed.

(** The pairs of any text, and that the loop inserts exactly these. *)
Fixpoint query_pairs (fuel : nat) (flag : Ascii.ascii) (str : text) : list (text * text) :=
  match fuel with
  | O => []
  | S fuel' =>
      match split_at equals_sign str with
      | None => []
      | Some (key, rest) =>
          match split_at flag rest with
          | None => [(key, rest)]
          | Some (val, rest') => (key, val) :: query_pairs fuel' flag rest'
          end
      end
  end.

Lemma PARSE_PARAM_pairs trim flag : ∀ fuel str m r,
  PARSE_PARAM UrlDecode fuel trim flag str m = Some r → r = insert_pairs trim (query_pairs fuel flag str) m.
Proof.
  induction fuel as [|fuel IH]; intros str m r H; [done|]. simpl in *.
  destruct (split_at equals_sign str) as [[k rest]|]; [|by injection H as <-].
  destruct (split_at flag rest) as [[v rest']|]; [|by injection H as <-]. by apply IH in H.
Qed.

Lemma parse_params_pairs trim flag str m :
  parse_params UrlDecode trim flag str m = insert_pairs trim (query_pairs (S (length str)) flag str) m.
Proof.
  unfold parse_params. destruct (PARSE_PARAM_total trim flag (S (length str)) str m) as [r E]; [lia|].
  rewrite E. by eapply PARSE_PARAM_pairs.
Qed.

(** Reading the pairs of a text that was written from pairs. *)
Lemma query_pairs_text flag kvs : flag ≠ equals_sign →
  Forall (λ kv : text * text, equals_sign ∉ kv.1 ∧ flag ∉ kv.2) kvs →
  ∀ fuel, (length (query_text flag kvs) < fuel)%nat → query_pairs fuel flag (query_text flag kvs) = kvs.
Proof.
  intros Hf H. induction H as [|[k v] kvs [Hk Hv] _ IH]; intros [|fuel] Hl; [done|done|lia|].
  destruct kvs as [|[k' v'] kvs].
  - unfold query_text in *. cbn in *. rewrite app_nil_r in *. simpl in Hk, Hv.
    rewrite split_at_app by done. by rewrite split_at_none.
  - assert (query_text flag ((k, v) :: (k', v') :: kvs) =
      k ++ equals_sign :: v ++ flag :: query_text flag ((k', v') :: kvs)) as E.
    { unfold query_text. cbn. by rewrite <- !app_assoc. }
    rewrite E in *. cbn [query_pairs]. simpl in Hk, Hv. rewrite (split_at_app _ k), (split_at_app _ v) by done.
    rewrite IH; [done|]. rewrite length_app in Hl. simpl in Hl. rewrite length_app in Hl. simpl in Hl. lia.
Qed.

(** The first pair of a list whose key is [key]. *)
Fixpoint first_value (key : text) (kvs : list (text * text)) : option text :=
  match kvs with
  | [] => None
  | (k, v) :: kvs' => if decide (fold_case k = fold_case key) then Some v else first_value key kvs'
  end.

Lemma insert_pairs_wf trim kvs : ∀ m, map_wf m → map_wf (insert_pairs trim kvs m).
Proof.
  induction kvs as [|[k v] kvs IH]; intros m Hm; [done|]. apply IH. by apply map_insert_spec.
Qed.

Lemma insert_pairs_find trim key kvs : ∀ m, map_wf m →
  find key (insert_pairs trim kvs m) =
  match find key m with Some v => Some v | None => first_value key ((λ kv, (trim kv.1, UrlDecode kv.2)) <$> kvs) end.
Proof.
  induction kvs as [|[k v] kvs IH]; intros m Hm; [simpl; by destruct (find key m)|].
  destruct (map_insert_spec (trim k) (UrlDecode v) m Hm) as [Hw E]. cbn [insert_pairs foldl].
  etransitivity; [apply IH, Hw|]. rewrite !find_contents by done. simpl. rewrite E.
  unfold insert_new. destruct (decide (fold_case (trim k) = fold_case key)) as [->|Hne].
  - destruct (contents m !! fold_case key) eqn:F; [by rewrite F|by rewrite lookup_insert_eq].
  - destruct (contents m !! fold_case (trim k)); [done|]. by rewrite lookup_insert_ne.
Qed.

(** *** The operations of a request and the abstract request *)

(** The maps given to the whole-map setters are sorted with one entry per key,
    as every object of the type is. *)
Inductive request_op :=
| OMethod (v : HttpMethod) | OVersion (v : Z) | OPath (v : text) | OQuery (v : text) | OFragment (v : text)
| OBody (v : text) | OClose (v : bool) | OWebsocket (v : bool)
| OHeader (k v : text) | OParam (k v : text) | OCookie (k v : text)
| ODelHeader (k : text) | ODelParam (k : text) | ODelCookie (k : text)
| OHeaders (v : MapType) (Hv : map_wf v) | OParams (v : MapType) (Hv : map_wf v) | OCookies (v : MapType) (Hv : map_wf v)
| OInit | OInitQueryParam | OInitBodyParam | OInitCookies.

Definition run_op (op : request_op) : HttpRequest → HttpRequest :=
  match op with
  | OMethod v => setMethod v | OVersion v => setVersion v | OPath v => setPath v | OQuery v => setQuery v
  | OFragment v => setFragment v | OBody v => request_setBody v | OClose v => setClose v
  | OWebsocket v => setWebsocket v
  | OHeader k v => setHeader k v | OParam k v => setParam k v | OCookie k v => setCookie k v
  | OHeaders v _ => setHeaders v | OParams v _ => setParams v | OCookies v _ => setCookies v
  | ODelHeader k => delheader k | ODelParam k => delParam k | ODelCookie k => delCookie k
  | OInit => init | OInitQueryParam => initQueryParam UrlDecode | OInitBodyParam => initBodyParam UrlDecode
  | OInitCookies => initCookies UrlDecode Trim
  end.

(** The three maps up to case. *)
Record amaps := AMaps {
  a_headers : gmap (list Z) text;
  a_params : gmap (list Z) text;
  a_cookies : gmap (list Z) text
}.

Definition abs (r : HttpRequest) : amaps :=
  AMaps (contents (m_headers r)) (contents (m_params r)) (contents (m_cookies r)).

Definition request_wf (r : HttpRequest) : Prop :=
  map_wf (m_headers r) ∧ map_wf (m_params r) ∧ map_wf (m_cookies r).

(** Adds the pairs of [str] whose key is new. *)
Definition add_pairs (trim : text → text) (flag : Ascii.ascii) (str : text) (m : gmap (list Z) text) :
    gmap (list Z) text :=
  foldl (λ m kv, insert_new (fold_case (trim kv.1)) (UrlDecode kv.2) m) m (query_pairs (S (length str)) flag str).

(** What each operation does to the maps; the flag bits and the texts parsed
    are those of the request. *)
Definition spec_op (op : request_op) (r : HttpRequest) (a : amaps) : amaps :=
  let unparsed bit := Z.land (m_parserParamFlag r) bit =? 0 in
  let header name := default [] (a_headers a !! fold_case (txt name)) in
  match op with
  | OHeader k v => AMaps (<[fold_case k := v]> (a_headers a)) (a_params a) (a_cookies a)
  | OParam k v => AMaps (a_headers a) (<[fold_case k := v]> (a_params a)) (a_cookies a)
  | OCookie k v => AMaps (a_headers a) (a_params a) (<[fold_case k := v]> (a_cookies a))
  | ODelHeader k => AMaps (delete (fold_case k) (a_headers a)) (a_params a) (a_cookies a)
  | ODelParam k => AMaps (a_headers a) (delete (fold_case k) (a_params a)) (a_cookies a)
  | ODelCookie k => AMaps (a_headers a) (a_params a) (delete (fold_case k) (a_cookies a))
  | OHeaders v _ => AMaps (contents v) (a_params a) (a_cookies a)
  | OParams v _ => AMaps (a_headers a) (contents v) (a_cookies a)
  | OCookies v _ => AMaps (a_headers a) (a_params a) (contents v)
  | OInitQueryParam =>
      if unparsed 0x1 then AMaps (a_headers a) (add_pairs id ampersand (m_query r) (a_params a)) (a_cookies a) else a
  | OInitBodyParam =>
      if unparsed 0x2 && strcasestr (header "content-type") (txt "application/x-www-form-urlencoded")
      then AMaps (a_headers a) (add_pairs id ampersand (m_body r) (a_params a)) (a_cookies a) else a
  | OInitCookies =>
      if unparsed 0x4 then AMaps (a_headers a) (a_params a) (add_pairs Trim semicolon (header "cookie") (a_cookies a))
      else a
  | _ => a
  end.

Lemma parse_params_spec trim flag str m : map_wf m →
  map_wf (parse_params UrlDecode trim flag str m) ∧
  contents (parse_params UrlDecode trim flag str m) = add_pairs trim flag str (contents m).
Proof.
  rewrite parse_params_pairs. unfold add_pairs, insert_pairs. generalize (query_pairs (S (length str)) flag str).
  intros kvs. revert m. induction kvs as [|[k v] kvs IH]; intros m Hm; [done|]. simpl.
  destruct (map_insert_spec (trim k) (UrlDecode v) m Hm) as [Hw E]. rewrite <- E. by apply IH.
Qed.

Lemma getHeader_abs key def r : request_wf r →
  getHeader key def r = default def (a_headers (abs r) !! fold_case key).
Proof. intros (H & _). unfold getHeader. by rewrite find_contents. Qed.

Lemma initQueryParam_refines r : request_wf r →
  request_wf (initQueryParam UrlDecode r) ∧
  abs (initQueryParam UrlDecode r) = spec_op OInitQueryParam r (abs r).
Proof.
  intros (Hh & Hp & Hc). unfold initQueryParam, spec_op. destruct (_ =? 0); simpl; [|done].
  destruct (parse_params_spec id ampersand (m_query r) (m_params r) Hp) as [Hw E].
  split; [done|]. unfold abs. simpl. by rewrite E.
Qed.

Lemma initBodyParam_refines r : request_wf r →
  request_wf (initBodyParam UrlDecode r) ∧
  abs (initBodyParam UrlDecode r) = spec_op OInitBodyParam r (abs r).
Proof.
  intros Hwf. pose proof Hwf as (Hh & Hp & Hc). unfold initBodyParam, spec_op. rewrite getHeader_abs by done.
  destruct (_ =? 0); simpl; [|done]. destruct (strcasestr _ _); simpl; [|done].
  destruct (parse_params_spec id ampersand (m_body r) (m_params r) Hp) as [Hw E].
  split; [done|]. unfold abs. simpl. by rewrite E.
Qed.

Lemma initCookies_refines r : request_wf r →
  request_wf (initCookies UrlDecode Trim r) ∧
  abs (initCookies UrlDecode Trim r) = spec_op OInitCookies r (abs r).
Proof.
  intros Hwf. pose proof Hwf as (Hh & Hp & Hc). unfold initCookies, spec_op.
  rewrite (getHeader_abs (txt "cookie")) by done.
  destruct (_ =? 0); simpl; [|done].
  destruct (default [] _) as [|c l]; [done|].
  destruct (parse_params_spec Trim semicolon (c :: l) (m_cookies r) Hc) as [Hw E].
  split; [done|]. unfold abs. simpl. by rewrite E.
Qed.

(** C39: the header, parameter and cookie maps of a request refine finite maps of the keys
    up to case: every setter, deletion, whole-map setter and parsing step keeps each map
    sorted with one entry per key and acts on it as insertion, deletion, replacement or
    insertion of the new keys of the parsed text, and getHeader, hasHeader, hasCookie and
    getParam read the finite maps. *)
Theorem request_refines op r : request_wf r →
  (request_wf (run_op op r) ∧ abs (run_op op r) = spec_op op r (abs r)) ∧
  ∀ key def,
    getHeader key def r = default def (a_headers (abs r) !! fold_case key) ∧
    hasHeader key true r = (bool_decide (is_Some (a_headers (abs r) !! fold_case key)), a_headers (abs r) !! fold_case key) ∧
    hasCookie key true r = (bool_decide (is_Some (a_cookies (abs r) !! fold_case key)), a_cookies (abs r) !! fold_case key) ∧
    getParam UrlDecode key def r =
      (let r1 := initBodyParam UrlDecode (initQueryParam UrlDecode r) in
       (default def (a_params (abs r1) !! fold_case key), r1)).
Proof.
  intros Hwf. pose proof Hwf as (Hh & Hp & Hc). split.
  - destruct op; simpl; try done.
    all: try (by apply initQueryParam_refines || by apply initBodyParam_refines || by apply initCookies_refines).
    all: try by (unfold init; destruct (getHeader _ _ _)).
    1-3: edestruct assign_spec as [Hw E]; [|split; [|unfold abs; simpl; by rewrite E]]; [|split_and!]; eassumption.
    all: edestruct erase_spec as [Hw E]; [|split; [|unfold abs; simpl; by rewrite E]]; [|split_and!]; eassumption.
  - intros key def. split_and!.
    + by apply getHeader_abs.
    + unfold hasHeader. rewrite find_contents by done. simpl. by destruct (contents (m_headers r) !! _).
    + unfold hasCookie. rewrite find_contents by done. simpl. by destruct (contents (m_cookies r) !! _).
    + unfold getParam. simpl. destruct (initQueryParam_refines r Hwf) as [H1 _].
      destruct (initBodyParam_refines _ H1) as [(_ & H2 & _) _]. by rewrite find_contents.
Qed.

(** The loop of PARSE_PARAM ends for every text and every map, after at most one round
    per character and one, having inserted exactly the pairs found in the text in order. *)
Theorem PARSE_PARAM_terminates trim flag fuel str m : (length str < fuel)%nat →
  PARSE_PARAM UrlDecode fuel trim flag str m = Some (insert_pairs trim (query_pairs (S (length str)) flag str) m).
Proof.
  intros H. destruct (PARSE_PARAM_total trim flag (S (length str)) str m) as [r E]; [lia|].
  rewrite <- (PARSE_PARAM_pairs trim flag _ _ _ _ E). by apply (PARSE_PARAM_more _ _ (S (length str))).
Qed.

Lemma flag_set f b : Z.land (Z.lor f b) b = b.
Proof.
  apply Z.bits_inj'. intros n _. rewrite Z.land_spec, Z.lor_spec. by destruct (Z.testbit f n), (Z.testbit b n).
Qed.

Lemma initQueryParam_flag r : Z.land (m_parserParamFlag (initQueryParam UrlDecode r)) 1 ≠ 0.
Proof.
  unfold initQueryParam. destruct (Z.eqb_spec (Z.land (m_parserParamFlag r) 1) 0) as [E|E]; simpl; [|done].
  by rewrite flag_set.
Qed.

Lemma initQueryParam_done r : Z.land (m_parserParamFlag r) 1 ≠ 0 → initQueryParam UrlDecode r = r.
Proof. intros H. unfold initQueryParam. by rewrite (proj2 (Z.eqb_neq _ _) H). Qed.

Lemma initBodyParam_done r : Z.land (m_parserParamFlag r) 2 ≠ 0 → initBodyParam UrlDecode r = r.
Proof. intros H. unfold initBodyParam. by rewrite (proj2 (Z.eqb_neq _ _) H). Qed.

(** After both parsers the flags say so, and a second run changes nothing. *)
Lemma params_parsed_once r : let r1 := initBodyParam UrlDecode (initQueryParam UrlDecode r) in
  initBodyParam UrlDecode (initQueryParam UrlDecode r1) = r1.
Proof.
  intros r1. pose proof (initQueryParam_flag r) as H1.
  assert (Z.land (m_parserParamFlag r1) 1 ≠ 0 ∧ Z.land (m_parserParamFlag r1) 2 ≠ 0) as [F1 F2].
  { subst r1. revert H1. generalize (initQueryParam UrlDecode r). intros q H1. unfold initBodyParam.
    destruct (Z.eqb_spec (Z.land (m_parserParamFlag q) 2) 0) as [E|E]; simpl; [|done].
    assert (Z.land (Z.lor (m_parserParamFlag q) 2) 1 ≠ 0) as F.
    { rewrite Z.land_comm, Z.land_lor_distr_r, Z.lor_0_r, Z.land_comm. done. }
    destruct (strcasestr _ _); simpl; split; try done; by rewrite flag_set. }
  by rewrite initQueryParam_done, initBodyParam_done.
Qed.

(** For a query text k1=v1&k2=v2&... whose keys have no equals sign and whose values no
    ampersand, and a body that is not a form, getParam returns the value already set for the
    key, else the decoded value of the first pair with that key up to case, else the
    default; the headers and cookies stay as they were, and a second call returns the same
    and changes nothing. *)
Theorem query_params_roundtrip r kvs key def : request_wf r →
  Z.land (m_parserParamFlag r) 1 = 0 → m_query r = query_text ampersand kvs →
  Forall (λ kv : text * text, equals_sign ∉ kv.1 ∧ ampersand ∉ kv.2) kvs →
  strcasestr (getHeader (txt "content-type") [] r) (txt "application/x-www-form-urlencoded") = false →
  let (val, r1) := getParam UrlDecode key def r in
  val = default def
    match find key (m_params r) with
    | Some v => Some v
    | None => first_value key (prod_map id UrlDecode <$> kvs)
    end ∧
  m_headers r1 = m_headers r ∧ m_cookies r1 = m_cookies r ∧
  getParam UrlDecode key def r1 = (val, r1).
Proof.
  intros Hwf Hflag Hq Hkvs Hct. pose proof (params_parsed_once r) as Hi. unfold getParam. cbv zeta in *.
  set (r1 := initBodyParam UrlDecode (initQueryParam UrlDecode r)) in *. rewrite Hi.
  assert (m_params r1 = insert_pairs id kvs (m_params r) ∧ m_headers r1 = m_headers r ∧ m_cookies r1 = m_cookies r)
    as (-> & -> & ->).
  { subst r1. unfold initQueryParam. rewrite Hflag. cbn [Z.eqb negb].
    rewrite Hq, parse_params_pairs, query_pairs_text by (done || lia).
    unfold initBodyParam. change (getHeader (txt "content-type") [] (set_params ?f ?m r)) with
      (getHeader (txt "content-type") [] r).
    rewrite Hct. by destruct (_ =? 0). }
  rewrite insert_pairs_find by apply Hwf. done.
Qed.
End parameters_spec.

(** ** Reading the text of a message

    A reader of a message: lines end with CR LF, a header line is a name and a
    value around the first colon, a blank after it is skipped, and what
    follows the empty line is the body. *)

Definition CR : Ascii.ascii := Ascii.ascii_of_N 13.
Definition LF : Ascii.ascii := Ascii.ascii_of_N 10.
Definition colon : Ascii.ascii := ":"%char.

Definition read_line (l : text) : option (text * text) :=
  '(line, rest) ← split_at CR l;
  match rest with c :: rest' => if Ascii.eqb c LF then Some (line, rest') else None | [] => None end.

Definition skip_blank (l : text) : text :=
  match l with c :: l' => if Ascii.eqb c " "%char then l' else l | [] => [] end.

Fixpoint read_headers (fuel : nat) (l : text) : option (list (text * text) * text) :=
  match fuel with
  | O => None
  | S fuel' =>
      '(line, rest) ← read_line l;
      match line with
      | [] => Some ([], rest)
      | _ =>
          '(name, value) ← split_at colon line;
          '(hs, body) ← read_headers fuel' rest;
          Some ((name, skip_blank value) :: hs, body)
      end
  end.

(** The start line, the headers and the body. *)
Definition read_message (l : text) : option (text * list (text * text) * text) :=
  '(start, rest) ← read_line l;
  '(hs, body) ← read_headers (S (length rest)) rest;
  Some (start, hs, body).

Lemma read_line_app line rest : CR ∉ line → read_line (line ++ crlf ++ rest) = Some (line, rest).
Proof. intros H. unfold read_line. change (crlf ++ rest) with (CR :: LF :: rest). by rewrite split_at_app. Qed.

(** The lines of a list of headers. *)
Fixpoint field_lines (hs : list (text * text)) : text :=
  match hs with
  | [] => []
  | (k, v) :: hs' => k ++ txt ": " ++ v ++ crlf ++ field_lines hs'
  end.

Definition field_ok (h : text * text) : Prop := CR ∉ h.1 ∧ colon ∉ h.1 ∧ CR ∉ h.2.

Lemma read_headers_lines hs body : Forall field_ok hs → ∀ fuel, (length hs < fuel)%nat →
  read_headers fuel (field_lines hs ++ crlf ++ body) = Some (hs, body).
Proof.
  intros H. induction H as [|[k v] hs (Hk1 & Hk2 & Hv) _ IH]; intros [|fuel] Hl; try (simpl in Hl; lia); [done|].
  simpl in Hk1, Hk2, Hv. cbn [field_lines read_headers].
  assert ((k ++ txt ": " ++ v ++ crlf ++ field_lines hs) ++ crlf ++ body =
    (k ++ colon :: " "%char :: v) ++ crlf ++ (field_lines hs ++ crlf ++ body)) as ->.
  { change (txt ": ") with [colon; " "%char]. by rewrite <- !app_assoc. }
  rewrite read_line_app; cbn [mbind option_bind].
  2:{ rewrite elem_of_app, !elem_of_cons. intros [?|[F|[F|?]]]; done. }
  destruct (k ++ colon :: " "%char :: v) eqn:E; [by destruct k|]. rewrite <- E.
  rewrite split_at_app by done. cbn [mbind option_bind]. rewrite IH by (simpl in Hl; lia). done.
Qed.

Lemma field_lines_app hs1 hs2 : field_lines (hs1 ++ hs2) = field_lines hs1 ++ field_lines hs2.
Proof.
  induction hs1 as [|[k v] hs IH]; [done|]. cbn [field_lines app]. rewrite IH. by repeat rewrite <- app_assoc.
Qed.

Lemma field_lines_length hs : (length hs <= length (field_lines hs))%nat.
Proof. induction hs as [|[k v] hs IH]; simpl; [done|]. rewrite !length_app. simpl. rewrite length_app. simpl. lia. Qed.

(** A text made of a start line, headers, an empty line and a body is read
    back. *)
Lemma read_message_lines start hs body : CR ∉ start → Forall field_ok hs →
  read_message (start ++ crlf ++ field_lines hs ++ crlf ++ body) = Some (start, hs, body).
Proof.
  intros Hs Hh. unfold read_message. rewrite read_line_app by done. cbn [mbind option_bind].
  rewrite read_headers_lines; [done|done|]. rewrite length_app. pose proof (field_lines_length hs). lia.
Qed.

(** The headers a message is written with: [pre] follows the names, and the
    connection header is dropped unless the connection is a web socket. *)
Definition kept_headers (pre : text) (websocket : bool) (m : MapType) : list (text * text) :=
  (λ kv : text * text, (kv.1 ++ pre, kv.2)) <$>
  filter (λ kv : text * text, negb websocket && is_connection kv.1 = false) m.

Lemma header_lines_fields pre websocket m :
  header_lines (pre ++ txt ": ") websocket m = field_lines (kept_headers pre websocket m).
Proof.
  unfold kept_headers. induction m as [|[k v] m IH]; [done|]. cbn [header_lines]. rewrite filter_cons. cbn [fst].
  destruct (negb websocket && is_connection k).
  - rewrite decide_False by done. apply IH.
  - rewrite decide_True by done. rewrite fmap_cons. cbn [field_lines fst snd]. rewrite <- IH.
    by repeat rewrite <- app_assoc.
Qed.

Definition connection_field (websocket close : bool) : list (text * text) :=
  if websocket then [] else [(txt "connection", txt (if close then "close" else "keep-alive"))].

Definition length_field (body : text) : list (text * text) :=
  match body with [] => [] | _ => [(txt "content-length", dec (zlen body))] end.

Lemma body_text_fields body : body_text body = field_lines (length_field body) ++ crlf ++ body.
Proof. destruct body; [done|]. unfold body_text, length_field. simpl. by rewrite <- !app_assoc. Qed.

Lemma connection_line_field (websocket close : bool) :
  (if websocket then [] else connection_line close) = field_lines (connection_field websocket close).
Proof. by destruct websocket, close. Qed.

(** Decimal digits. *)
Lemma pretty_N_go_digits x : ∀ s c, c ∈ txt (pretty_N_go x s) → c ∈ txt s ∨ ∃ d, c = pretty_N_char d.
Proof.
  induction (N.lt_wf_0 x) as [x _ IH]; intros s c. destruct (decide (x = 0)%N) as [->|Hx]; [by left|].
  rewrite pretty_N_go_step by lia. intros [H|H]%IH; [|by right|apply N.div_lt; lia].
  cbn in H. apply elem_of_cons in H as [->|H]; [right; eauto|by left].
Qed.

Lemma dec_digits z c : 0 <= z → c ∈ dec z → ∃ d, c = pretty_N_char d.
Proof.
  intros Hz H. destruct z as [|p|p]; [| |lia].
  - apply elem_of_cons in H as [->|H%elem_of_nil]; [by exists 0%N|done].
  - change (dec (Z.pos p)) with (txt (pretty_N_go (N.pos p) "")) in H.
    by apply pretty_N_go_digits in H as [H%elem_of_nil|H].
Qed.

Lemma dec_no_CR z : 0 <= z → CR ∉ dec z.
Proof.
  intros Hz [d Hd]%dec_digits; [|done]. revert Hd. unfold pretty_N_char, CR. by repeat case_match.
Qed.

(** *** Requests and responses *)










Definition status_line (r : HttpResponse) : text :=
  txt "HTTP/" ++ version_text (r_version r) ++ txt " " ++ dec (status_code (r_status r)) ++ txt " " ++
  match r_reason r with [] => txt (HttpStatusToString (r_status r)) | reason => reason end.

Definition response_fields (r : HttpResponse) : list (text * text) :=
  kept_headers (txt " ") (r_websocket r) (r_headers r) ++
  ((λ c, (txt "Set-Cookie", c)) <$> r_cookies r) ++
  connection_field (r_websocket r) (r_close r) ++ length_field (r_body r).

Definition version_ok (v : Z) : Prop := 0 <= v < 2 ^ 8.

Lemma version_no_CR v : version_ok v → CR ∉ version_text v.
Proof.
  intros [H _]. unfold version_text. rewrite !elem_of_app. intros [F|[F|F]]; [| |].
  - revert F. apply dec_no_CR. by apply Z.shiftr_nonneg.
  - by apply list_elem_of_singleton in F.
  - revert F. apply dec_no_CR. apply Z.land_nonneg. by right.
Qed.

Lemma connection_field_ok (websocket close : bool) : Forall field_ok (connection_field websocket close).
Proof.
  unfold connection_field. destruct websocket, close; repeat constructor; by apply (bool_decide_unpack _).
Qed.

Lemma length_field_ok body : Forall field_ok (length_field body).
Proof.
  unfold length_field. destruct body; repeat constructor; [by apply (bool_decide_unpack _)..|].
  apply dec_no_CR, zlen_nonneg.
Qed.

Lemma kept_headers_ok pre websocket m : CR ∉ pre → colon ∉ pre → Forall field_ok m →
  Forall field_ok (kept_headers pre websocket m).
Proof.
  intros H1 H2 Hm. unfold kept_headers. apply Forall_fmap, list.Forall_forall.
  intros [k v] [_ Hin]%list_elem_of_filter. apply (proj1 (list.Forall_forall _ _) Hm) in Hin as (Hk1 & Hk2 & Hv).
  unfold field_ok. simpl in *.
  rewrite !elem_of_app. tauto.
Qed.


Lemma status_no_CR s : CR ∉ txt (HttpStatusToString s) ∧ 0 <= status_code s.
Proof. destruct s; (split; [by apply (bool_decide_unpack _)|done]). Qed.














Lemma cookie_lines_fields cs :
  concat ((λ c, txt "Set-Cookie: " ++ c ++ crlf) <$> cs) = field_lines ((λ c, (txt "Set-Cookie", c)) <$> cs).
Proof.
  induction cs as [|c cs IH]; [done|]. rewrite !fmap_cons. cbn [concat field_lines]. rewrite <- IH.
  by repeat rewrite <- app_assoc.
Qed.

(** The same reader on the text of a response: the names keep the blank that is written
    before the colon. *)
Theorem response_text_roundtrip r : version_ok (r_version r) →
  CR ∉ r_reason r → Forall field_ok (r_headers r) → Forall (CR ∉.) (r_cookies r) →
  read_message (response_dump r) = Some (status_line r, response_fields r, r_body r).
Proof.
  intros Hv Hr Hh Hc.
  assert (response_dump r = status_line r ++ crlf ++ field_lines (response_fields r) ++ crlf ++ r_body r) as ->.
  { unfold response_dump, status_line, response_fields. rewrite !field_lines_app, <- header_lines_fields.
    rewrite <- connection_line_field, <- cookie_lines_fields, body_text_fields. by repeat rewrite <- app_assoc. }
  destruct (status_no_CR (r_status r)) as [Hs Hs0].
  assert (CR ∉ txt " " ∧ colon ∉ txt " " ∧ CR ∉ txt "HTTP/" ∧ CR ∉ txt "Set-Cookie" ∧ colon ∉ txt "Set-Cookie")
    as (? & ? & ? & ? & ?) by (split_and!; by apply (bool_decide_unpack _)).
  apply read_message_lines.
  - unfold status_line. rewrite !elem_of_app. pose proof (version_no_CR _ Hv). pose proof (dec_no_CR _ Hs0).
    destruct (r_reason r); tauto.
  - unfold response_fields. rewrite !Forall_app.
    split_and!; [by apply kept_headers_ok| |apply connection_field_ok|apply length_field_ok].
    apply Forall_fmap. eapply list.Forall_impl; [apply Hc|]. done.
Qed.

(** ** Witnesses and small runs *)

Definition sample_request : HttpRequest :=
  setHeader (txt "Host") (txt "a") (setHeader (txt "CONNECTION") (txt "keep-alive")
    (setQuery (txt "id=7&Name=x&ID=9") (new_HttpRequest 0x11 true))).

Lemma sample_request_wf : request_wf sample_request.
Proof. split_and!; [|constructor..]. by apply assign_spec, assign_spec; constructor. Qed.

Lemma request_refines_witness :
  abs (delheader (txt "hOST") sample_request) =
  AMaps (delete (fold_case (txt "host")) (a_headers (abs sample_request))) ∅ ∅.
Proof.
  exact (proj2 (proj1 (request_refines id id (ODelHeader (txt "hOST")) sample_request sample_request_wf))).
Defined.

Lemma PARSE_PARAM_terminates_witness :
  PARSE_PARAM id 9 id ampersand (txt "a=1&b=2") [] = Some [(txt "a", txt "1"); (txt "b", txt "2")].
Proof.
  refine (eq_trans (PARSE_PARAM_terminates id id ampersand 9 (txt "a=1&b=2") [] _) _); [vm_compute; lia|reflexivity].
Defined.

Lemma query_params_roundtrip_witness :
  let (val, r1) := getParam id (txt "ID") [] sample_request in
  val = txt "7" ∧ m_headers r1 = m_headers sample_request ∧ m_cookies r1 = m_cookies sample_request ∧
  getParam id (txt "ID") [] r1 = (val, r1).
Proof.
  refine (query_params_roundtrip id sample_request
    [(txt "id", txt "7"); (txt "Name", txt "x"); (txt "ID", txt "9")] (txt "ID") [] sample_request_wf
    eq_refl eq_refl _ eq_refl).
  repeat constructor; by apply (bool_decide_unpack _).
Defined.


Definition sample_response : HttpResponse :=
  setCookiie (λ _ _, []) (txt "k") (txt "v") 0 [] [] true
    (response_setHeaders [(txt "Host", txt "a")] (new_HttpResponse 0x10 false)).

(** The name of a response header is read with the blank before the colon. *)
Lemma response_text_roundtrip_witness :
  read_message (response_dump sample_response) =
  Some (txt "HTTP/1.0 200 OK",
        [(txt "Host ", txt "a"); (txt "Set-Cookie", txt "k = v;secure"); (txt "connection", txt "keep-alive")], []).
Proof.
  apply (response_text_roundtrip sample_response); by apply (bool_decide_unpack _).
Defined.

(** No text is recognised as a method. *)
Example get_not_recognised : StringToHttpMethod (txt (HttpMethodToString GET)) = INVALID_METHOD.
Proof. reflexivity. Qed.

(** The text of M-SEARCH is the spacing of the table. *)
Example msearch_text : HttpMethodToString MSEARCH = "M - SEARCH" ∧ HttpMethodToString INVALID_METHOD = "<unknown>".
Proof. split; reflexivity. Qed.

(** A keep-alive header closes the connection. *)
Example keep_alive_closes : m_close (init (setClose false sample_request)) = true.
Proof. reflexivity. Qed.

(** A parameter that is not there is reported as present. *)
Example missing_param_present :
  hasParam (txt "none") false sample_request = Ok (true, None) sample_request ∧
  hasParam (txt "none") true sample_request = Undef "m_params.end() followed".
Proof. split; reflexivity. Qed.

(** A request without query is written with two blanks before the version. *)
Example empty_query_two_blanks :
  (λ x, x.1.1) <$> read_message (dump (new_HttpRequest 0x11 true)) = Some (txt "GET /  HTTP/1.1").
Proof. reflexivity. Qed.

(** A deleted cookie is parsed again. *)
Example deleted_cookie_returns :
  let r := setHeader (txt "cookie") (txt "a=1") (new_HttpRequest 0x11 true) in
  let r := delCookie (txt "a") (getCookies id id (txt "a") [] r).2 in
  (getCookies id id (txt "a") [] r).1 = txt "1".
Proof. reflexivity. Qed.

(** [setBody] of a response changes its reason. *)
Example setBody_is_reason : r_body (setBody (txt "x") sample_response) = [] ∧ r_reason (setBody (txt "x") sample_response) = txt "x".
Proof. split; reflexivity. Qed.

(** A redirection reaches the end of [setHeader] without a value. *)
Example setRedirect_undefined : setRedirect (txt "/x") sample_response = Undef "setHeader without return".
Proof. reflexivity. Qed.
