(* ===== verification/Socket.v ===== *)
(** * Sockets (socket.h, socket.cc)

    The methods of [Socket] over the hooked system calls of [Hook], the
    descriptor contexts of [FdManager] and the addresses of [Address].  What
    the system answers is a function of the calls made so far; descriptors are
    handed out by the lowest number that is not in use. *)

From S2P Require Import Prelude Endian.
From S2P Require Import FdManager.
From S2P Require Import Hook.
From S2P Require Import Address.

Definition SOCK_STREAM : Z := 1.
Definition SOCK_DGRAM : Z := 2.
Definition SOL_SOCKET : Z := 1.
Definition SO_REUSEADDR : Z := 2.
Definition SO_ERROR : Z := 4.
Definition IPPROTO_TCP : Z := 6.
Definition TCP_NODELAY : Z := 1.

Definition TCP : Z := SOCK_STREAM.
Definition UDP : Z := SOCK_DGRAM.
Definition IPv4 : Z := AF_INET.
Definition IPv6 : Z := AF_INET6.
Definition UNIX : Z := AF_UNIX.

Record Socket := mkSocket {
  m_sock : Z;
  m_family : Z;
  m_type : Z;
  m_protocol : Z;
  m_isConnected : bool;
  m_localAddress : option Address;
  m_remoteAddress : option Address
}.

Definition new_Socket (family type protocol : Z) : Socket := mkSocket (-1) family type protocol false None None.

Definition set_sock (fd : Z) (s : Socket) : Socket :=
  mkSocket fd (m_family s) (m_type s) (m_protocol s) (m_isConnected s) (m_localAddress s) (m_remoteAddress s).
Definition set_connected (b : bool) (s : Socket) : Socket :=
  mkSocket (m_sock s) (m_family s) (m_type s) (m_protocol s) b (m_localAddress s) (m_remoteAddress s).
Definition set_local (a : option Address) (s : Socket) : Socket :=
  mkSocket (m_sock s) (m_family s) (m_type s) (m_protocol s) (m_isConnected s) a (m_remoteAddress s).
Definition set_remote (a : option Address) (s : Socket) : Socket :=
  mkSocket (m_sock s) (m_family s) (m_type s) (m_protocol s) (m_isConnected s) (m_localAddress s) a.

(** ** The system *)

(** The calls of the system and of the [IOManager] that the methods make. *)
Inductive syscall :=
| CSocket (family type protocol : Z)
| CSetOption (fd level option : Z) (value : list Z)
| CGetOption (fd level option : Z)
| CBind (fd : Z) (addr : list byte) (len : Z)
| CListen (fd backlog : Z)
| CConnect (fd : Z) (addr : list byte) (len : Z)
| CAccept (fd : Z)
| CSend (fd : Z) (buffer : list byte) (flags : Z)
| CSendTo (fd : Z) (buffer : list byte) (flags : Z) (addr : list byte) (len : Z)
| CSendMsg (fd : Z) (buffers : list (list byte)) (name : option (list byte * Z)) (flags : Z)
| CRecv (fd length flags : Z)
| CRecvFrom (fd length flags len : Z)
| CRecvMsg (fd : Z) (lengths : list Z) (namelen : option Z) (flags : Z)
| CGetPeerName (fd : Z)
| CGetSockName (fd : Z)
| CUnlink (path : text)
| CCancelEvent (fd event : Z)
| CCancelAll (fd : Z).

(** What [getsockname] and [getpeername] store, for each class of address
    that can receive it, and the length. *)
Record stored_name := mkName {
  n_in : sockaddr_in; n_in6 : sockaddr_in6; n_un : sockaddr_un; n_sa : sockaddr; n_len : Z
}.

Definition store_name (n : stored_name) (a : Address) : Address :=
  match a with
  | IPv4Address _ => IPv4Address (n_in n)
  | IPv6Address _ => IPv6Address (n_in6 n)
  | UnixAddress _ len => UnixAddress (n_un n) len
  | UnknownAddress _ => UnknownAddress (n_sa n)
  end.

(** The descriptors, and the calls made so far, the last one first. *)
Record world := mkWorld { w_fds : fds; w_log : list syscall }.

(** The object a method runs on, and the world. *)
Record st := mkSt { this : Socket; the_world : world }.

Definition upd (f : Socket → Socket) : M st unit := modify (λ s, mkSt (f (this s)) (the_world s)).

(** A call on the descriptor table. *)
Definition on_fds {A} (m : M fds A) : M st A := λ s,
  match m (w_fds (the_world s)) with
  | Ok a f => Ok a (mkSt (this s) (mkWorld f (w_log (the_world s))))
  | Throw e f => Throw e (mkSt (this s) (mkWorld f (w_log (the_world s))))
  | Abort w => Abort w
  | Undef w => Undef w
  end.

(** A method of another socket. *)
Definition run_on {A} (sock : Socket) (m : M st A) : M st (A * Socket) := λ s,
  match m (mkSt sock (the_world s)) with
  | Ok a s' => Ok (a, this s') (mkSt (this s) (the_world s'))
  | Throw e s' => Throw e (mkSt (this s) (the_world s'))
  | Abort w => Abort w
  | Undef w => Undef w
  end.

(** The lowest number from [i] that is not a key of [k]. *)
Fixpoint free_from (fuel : nat) (i : Z) (k : gmap Z kfile) : Z :=
  match fuel with
  | O => i
  | S fuel' => match k !! i with None => i | Some _ => free_from fuel' (i + 1) k end
  end.
Definition lowest_free (k : gmap Z kfile) : Z := free_from (size k) 0 k.

(** A new socket is open for reading and writing. *)
Definition new_file : kfile := mkFile true 2.

Section sockets.
(** The byte order of the host, whether the thread's calls are hooked and it
    has an [IOManager], the timeout of [connect], the limit on descriptors,
    and the answers of the system: to a call, to the interactions of a hooked
    call, and the names it stores. *)
Context (host : endian) (hook has_iom : bool) (s_connect_timeout fd_limit : Z).
Context (reply : list syscall → syscall → Z * Z).
Context (script : list syscall → syscall → list answer).
Context (names : list syscall → syscall → stored_name).

(** A call, its answer being the value returned and [errno] or the option's
    value. *)
Definition sys (c : syscall) : M st (Z * Z) := λ s,
  let w := the_world s in
  Ok (reply (w_log w) c) (mkSt (this s) (mkWorld (w_fds w) (c :: w_log w))).

Definition stored (c : syscall) : M st stored_name := λ s,
  let w := the_world s in Ok (names (w_log w) c) s.

Definition answers (c : syscall) : M st (list answer) := λ s,
  let w := the_world s in
  Ok (script (w_log w) c) (mkSt (this s) (mkWorld (w_fds w) (c :: w_log w))).

(** The context a hooked call looks up. *)
Definition ctx_of (fd : Z) : M st (option FdCtx) := if hook then on_fds (FdManager_get fd false) else mret None.

(** A hooked call on [fd]: its value and [errno], or [None] while the fiber is
    suspended. *)
Definition hooked (f : bool → option FdCtx → list answer → run) (fd : Z) (c : syscall) : M st (option (Z * Z)) :=
  ctx ← ctx_of fd;
  env ← answers c;
  mret (f hook ctx env).2.

Definition open_fd (fd : Z) : M fds unit := modify (λ f, set_kernel (<[fd := new_file]> (kernel f)) f).

(** [socket_f] and the hooked [socket]. *)
Definition call_socket (family type protocol : Z) : M st Z :=
  '(rt, _) ← sys (CSocket family type protocol);
  fd ← on_fds (gets (λ f, lowest_free (kernel f)));
  if (rt =? -1) || (fd_limit <=? fd) then on_fds (socket hook (-1))
  else on_fds (open_fd fd);; on_fds (socket hook fd).

(** The hooked [accept]: the descriptor of a successful [accept_f] is the
    lowest free one. *)
Definition accept_answer (fd : Z) (a : answer) : answer :=
  match a with
  | Sys n err => if n =? -1 then a else if fd_limit <=? fd then Sys (-1) err else Sys fd err
  | _ => a
  end.

Definition call_accept (fd : Z) : M st (option Z) :=
  ctx ← ctx_of fd;
  env ← answers (CAccept fd);
  newfd ← on_fds (gets (λ f, lowest_free (kernel f)));
  let '(r, get_ctx) := accept hook ctx (accept_answer newfd <$> env) in
  match r.2 with
  | None => mret None
  | Some (n, _) =>
      when (0 <=? n) (on_fds (open_fd n));;
      on_fds get_ctx;;
      mret (Some n)
  end.

(** The hooked [close]. *)
Definition call_close (fd : Z) : M st unit :=
  cancelled ← on_fds (Hook.close hook has_iom fd);
  when cancelled (sys (CCancelAll fd);; mret tt).

(** ** The methods *)

Definition isValid (s : Socket) : bool := negb (m_sock s =? -1).

(** [getOption]: whether it succeeded, and the value or [errno]. *)
Definition getOption (level option : Z) : M st (bool * Z) :=
  s ← get;
  '(rt, v) ← sys (CGetOption (m_sock (this s)) level option);
  mret (if negb (rt =? 0) then (false, v) else (true, v)).

(** [setOption] returns true also when [setsockopt] fails. *)
Definition setOption (level option : Z) (value : list Z) : M st bool :=
  s ← get;
  sys (CSetOption (m_sock (this s)) level option value);;
  mret true.

(** [getSendTimeout] and [getRecvTimeout]: a [uint64_t] returned as [int64_t]. *)
Definition getSendTimeout : M st Z :=
  s ← get;
  ctx ← on_fds (FdManager_get (m_sock (this s)) false);
  mret (match ctx with Some c => s64 (getTimeout SO_SNDTIMEO c) | None => -1 end).

Definition getRecvTimeout : M st Z :=
  s ← get;
  ctx ← on_fds (FdManager_get (m_sock (this s)) false);
  mret (match ctx with Some c => s64 (getTimeout SO_RCVTIMEO c) | None => -1 end).

Definition timeval (v : Z) : list Z := [s32 (Z.quot v 1000); s32 (Z.rem v 1000 * 1000)].

Definition setSendTimeout (v : Z) : M st unit := setOption SOL_SOCKET SO_SNDTIMEO (timeval v);; mret tt.
Definition setRecvTimeout (v : Z) : M st unit := setOption SOL_SOCKET SO_RCVTIMEO (timeval v);; mret tt.

Definition initSock : M st unit :=
  setOption SOL_SOCKET SO_REUSEADDR [1];;
  s ← get;
  when (m_type (this s) =? SOCK_STREAM) (setOption IPPROTO_TCP TCP_NODELAY [1];; mret tt).

Definition newSock : M st unit :=
  s ← get;
  fd ← call_socket (m_family (this s)) (m_type (this s)) (m_protocol (this s));
  upd (set_sock fd);;
  when (negb (fd =? -1)) initSock.

(** The address object of a family. *)
Definition UnknownAddress_of (family : Z) : Address := UnknownAddress (mkSa (u16 family) (zeros 14)).
Definition empty_address (family : Z) : Address :=
  if family =? AF_INET then IPv4Address (new_IPv4Address host 0 0)
  else if family =? AF_INET6 then IPv6Address new_IPv6Address
  else if family =? AF_UNIX then new_UnixAddress
  else UnknownAddress_of family.

(** The address the system stores for the socket. *)
Definition fetch_name (c : syscall) : M st (option Address) :=
  s ← get;
  let family := m_family (this s) in
  n ← stored c;
  '(rt, _) ← sys c;
  mret (if negb (rt =? 0) then None
        else let result := store_name n (empty_address family) in
             Some (if family =? AF_UNIX then setAddrLen (n_len n) result else result)).

Definition getRemoteAddresses : M st Address :=
  s ← get;
  match m_remoteAddress (this s) with
  | Some a => mret a
  | None =>
      o ← fetch_name (CGetPeerName (m_sock (this s)));
      match o with
      | None => mret (UnknownAddress_of (m_family (this s)))
      | Some a => upd (set_remote (Some a));; mret a
      end
  end.

Definition getLocalAddress : M st Address :=
  s ← get;
  match m_localAddress (this s) with
  | Some a => mret a
  | None =>
      o ← fetch_name (CGetSockName (m_sock (this s)));
      match o with
      | None => mret (UnknownAddress_of (m_family (this s)))
      | Some a => upd (set_local (Some a));; mret a
      end
  end.

Definition init (sock : Z) : M st bool :=
  ctx ← on_fds (FdManager_get sock false);
  match ctx with
  | Some c =>
      if m_isSocket c && negb (m_isClosed c) then
        upd (set_sock sock);;
        upd (set_connected true);;
        initSock;;
        getLocalAddress;;
        getRemoteAddresses;;
        mret true
      else mret false
  | None => mret false
  end.

Definition close : M st bool :=
  s ← get;
  let fd := m_sock (this s) in
  if negb (m_isConnected (this s)) && (fd =? -1) then mret true
  else
    upd (set_connected false);;
    when (negb (fd =? -1)) (call_close fd;; upd (set_sock (-1)));;
    mret false.

(** [~Socket]. *)
Definition destroy : M st unit := close;; mret tt.

(** [accept]: the new socket or a null pointer; [None] while suspended.  A
    descriptor whose [init] fails is not closed. *)
Definition accept : M st (option (option Socket)) :=
  s ← get;
  o ← call_accept (m_sock (this s));
  match o with
  | None => mret None
  | Some newsock =>
      if newsock =? -1 then mret (Some None)
      else
        '(ok, sock) ← run_on (new_Socket (m_family (this s)) (m_type (this s)) (m_protocol (this s))) (init newsock);
        if (ok : bool) then mret (Some (Some sock)) else mret (Some None)
  end.

(** [::connect] is [connect_with_timeout] with the default timeout. *)
Definition connect (addr : Address) (timeout_ms : Z) : M st (option bool) :=
  upd (set_remote (Some addr));;
  s ← get;
  when (negb (isValid (this s))) newSock;;
  s ← get;
  if negb (isValid (this s)) then mret (Some false)
  else if negb (getFamily addr =? m_family (this s)) then mret (Some false)
  else
    let timeout := if timeout_ms =? no_timeout then s_connect_timeout else timeout_ms in
    let fd := m_sock (this s) in
    r ← hooked (λ h c, connect_with_timeout h c timeout) fd (CConnect fd (getAddr host addr) (getAddrLen addr));
    match r with
    | None => mret None
    | Some (n, _) =>
        if negb (n =? 0) then close;; mret (Some false)
        else
          upd (set_connected true);;
          getRemoteAddresses;;
          getLocalAddress;;
          mret (Some true)
    end.

Definition reconnect (timeout_ms : Z) : M st (option bool) :=
  s ← get;
  match m_remoteAddress (this s) with
  | None => mret (Some false)
  | Some addr => upd (set_local None);; connect addr timeout_ms
  end.

(** A Unix path is free when nothing accepts connections on it; the socket
    that tries is destroyed after [Unlink]. *)
Definition probe_unix (addr : Address) (path : text) : M st (option bool) :=
  '(r, sock) ← run_on (new_Socket UNIX TCP 0) (connect addr no_timeout);
  match r with
  | None => mret None
  | Some connected =>
      when (negb connected) (sys (CUnlink path);; mret tt);;
      run_on sock destroy;;
      mret (Some connected)
  end.

Definition bind (addr : Address) : M st (option bool) :=
  s ← get;
  when (negb (isValid (this s))) newSock;;
  s ← get;
  if negb (isValid (this s)) then mret (Some false)
  else if negb (getFamily addr =? m_family (this s)) then mret (Some false)
  else
    taken ← match addr with
            | UnixAddress m len => probe_unix addr (getPath m len)
            | _ => mret (Some false)
            end;
    match taken with
    | None => mret None
    | Some true => mret (Some false)
    | Some false =>
        '(rt, _) ← sys (CBind (m_sock (this s)) (getAddr host addr) (getAddrLen addr));
        if negb (rt =? 0) then mret (Some false)
        else getLocalAddress;; mret (Some true)
    end.

Definition listen (backlog : Z) : M st bool :=
  s ← get;
  if negb (isValid (this s)) then mret false
  else
    '(rt, _) ← sys (CListen (m_sock (this s)) backlog);
    mret (rt =? 0).

(** The transfers: -1 when the socket is not connected; the [ssize_t] of the
    system is returned as an [int]. *)
Definition transfer (f : bool → option FdCtx → list answer → run) (c : Z → syscall) : M st (option Z) :=
  s ← get;
  if m_isConnected (this s) then
    r ← hooked f (m_sock (this s)) (c (m_sock (this s)));
    mret ((λ p, s32 p.1) <$> r)
  else mret (Some (-1)).

Definition send (buffer : list byte) (flags : Z) : M st (option Z) :=
  transfer Hook.send (λ fd, CSend fd buffer flags).
Definition send_iov (buffers : list (list byte)) (flags : Z) : M st (option Z) :=
  transfer sendmsg (λ fd, CSendMsg fd buffers None flags).
Definition sendTo (buffer : list byte) (to : Address) (flags : Z) : M st (option Z) :=
  transfer sendto (λ fd, CSendTo fd buffer flags (getAddr host to) (getAddrLen to)).
Definition sendTo_iov (buffers : list (list byte)) (to : Address) (flags : Z) : M st (option Z) :=
  transfer sendmsg (λ fd, CSendMsg fd buffers (Some (getAddr host to, getAddrLen to)) flags).
Definition recv (length flags : Z) : M st (option Z) :=
  transfer Hook.recv (λ fd, CRecv fd length flags).
Definition recv_iov (lengths : list Z) (flags : Z) : M st (option Z) :=
  transfer recvmsg (λ fd, CRecvMsg fd lengths None flags).
Definition recvFrom (length : Z) (from : Address) (flags : Z) : M st (option Z) :=
  transfer recvfrom (λ fd, CRecvFrom fd length flags (getAddrLen from)).
Definition recvFrom_iov (lengths : list Z) (from : Address) (flags : Z) : M st (option Z) :=
  transfer recvmsg (λ fd, CRecvMsg fd lengths (Some (getAddrLen from)) flags).

Definition getError : M st Z :=
  '(_, v) ← getOption SOL_SOCKET SO_ERROR;
  mret v.

Definition dump (s : Socket) : text :=
  txt "[Socket sock = " ++ dec (m_sock s) ++ txt " is_connected = " ++ txt (if m_isConnected s then "1" else "0") ++
  txt " family = " ++ dec (m_family s) ++ txt " type = " ++ dec (m_type s) ++ txt " protocol = " ++ dec (m_protocol s) ++
  match m_localAddress s with Some a => txt " local_address = " ++ insert host a | None => [] end ++
  match m_remoteAddress s with Some a => txt " remote_address = " ++ insert host a | None => [] end ++
  txt "]".

(** The cancellations: [IOManager::GetThis()] is null outside a manager, and
    the manager indexes its contexts with the descriptor, which it compares
    with their number only (iomanager.cc, lines 236 and 269). *)
Definition cancel (c : Z → syscall) : M st Z :=
  s ← get;
  if negb has_iom then undef "IOManager::GetThis() is null"
  else if m_sock (this s) <? 0 then undef "m_fdContexts out of range"
  else '(rt, _) ← sys (c (m_sock (this s))); mret rt.

Definition cancelRead : M st Z := cancel (λ fd, CCancelEvent fd IO_READ).
Definition cancelWrite : M st Z := cancel (λ fd, CCancelEvent fd IO_WRITE).
Definition cancelAccept : M st Z := cancel (λ fd, CCancelEvent fd IO_READ).
Definition cancelAll : M st Z := cancel CCancelAll.

(** The factories. *)
Definition CreateTCP (address : Address) : M st Socket := mret (new_Socket (getFamily address) TCP 0).
Definition create_connected (s : Socket) : M st Socket :=
  '(_, sock) ← run_on s (newSock;; upd (set_connected true));
  mret sock.
Definition CreateUDP (address : Address) : M st Socket := create_connected (new_Socket (getFamily address) UDP 0).
Definition CreateTCPSocket : M st Socket := mret (new_Socket IPv4 TCP 0).
Definition CreateUDPSocket : M st Socket := create_connected (new_Socket IPv4 UDP 0).
Definition CreateTCPSocket6 : M st Socket := mret (new_Socket IPv6 TCP 0).
Definition CreateUDPSocket6 : M st Socket := create_connected (new_Socket IPv6 UDP 0).
Definition CreateUnixTCPSocket : M st Socket := mret (new_Socket UNIX TCP 0).
Definition CreateUnixUDPSocket : M st Socket := mret (new_Socket UNIX UDP 0).
End sockets.

(** ** Descriptors of the kernel and of the table *)

Lemma free_from_range fuel : ∀ i k, i <= free_from fuel i k <= i + Z.of_nat fuel.
Proof. induction fuel as [|fuel IH]; intros i k; simpl; [lia|]. destruct (k !! i); [|lia]. specialize (IH (i + 1) k). lia. Qed.

Lemma free_from_used fuel : ∀ i k j, i <= j < free_from fuel i k → is_Some (k !! j).
Proof.
  induction fuel as [|fuel IH]; intros i k j H; simpl in H; [lia|]. destruct (k !! i) eqn:E; [|lia].
  destruct (decide (j = i)) as [->|]; [done|]. apply (IH (i + 1)). lia.
Qed.

Lemma free_from_free fuel : ∀ i k, free_from fuel i k < i + Z.of_nat fuel → k !! free_from fuel i k = None.
Proof.
  induction fuel as [|fuel IH]; intros i k H; simpl in *; [lia|]. destruct (k !! i) eqn:E; [|done].
  apply IH. lia.
Qed.

(** A map of [n] entries has a free number below or at [n]. *)
Lemma lowest_free_spec k : 0 <= lowest_free k ∧ k !! lowest_free k = None.
Proof.
  unfold lowest_free. pose proof (free_from_range (size k) 0 k) as Hr. split; [lia|].
  destruct (decide (free_from (size k) 0 k < 0 + Z.of_nat (size k))); [by apply free_from_free|].
  destruct (k !! free_from (size k) 0 k) eqn:E; [|done]. exfalso.
  assert (free_from (size k) 0 k = Z.of_nat (size k)) as Hn by lia.
  set (l := seqZ 0 (Z.of_nat (size k) + 1)).
  assert (list_to_set l ⊆ dom k) as Hsub.
  { intros j Hj%elem_of_list_to_set. apply elem_of_seqZ in Hj. apply elem_of_dom.
    destruct (decide (j = Z.of_nat (size k))) as [->|]; [rewrite <- Hn; by eexists|].
    apply (free_from_used (size k) 0). lia. }
  apply subseteq_size in Hsub. rewrite size_list_to_set, size_dom in Hsub by apply NoDup_seqZ.
  unfold l in Hsub. rewrite length_seqZ in Hsub. lia.
Qed.

(** The descriptor table follows the kernel: contexts only of open
    descriptors, and no negative descriptors. *)
Record table_ok (f : fds) : Prop := {
  to_fds : fds_ok f;
  to_nonneg : ∀ fd, is_Some (kernel f !! fd) → 0 <= fd;
  to_open : ∀ i c, m_datas f !! i = Some (Some c) → is_Some (kernel f !! Z.of_nat i)
}.

(** The table without a descriptor. *)
Definition hide (fd : Z) (f : fds) : fds :=
  if fd =? -1 then f else mkFds (<[Z.to_nat fd := None]> (m_datas f)) (delete fd (kernel f)).

(** The descriptor of a socket is open, and known as a socket. *)
Definition owned (fd : Z) (f : fds) : Prop :=
  0 <= fd < 64 ∧ is_Some (kernel f !! fd) ∧
  ∃ c, m_datas f !! Z.to_nat fd = Some (Some c) ∧ m_isSocket c = true ∧ m_isClosed c = false.

Lemma fds_ok_hide fd f : table_ok f → 0 <= fd < 64 → table_ok (hide fd f).
Proof.
  intros [[Hl Hc] Hn Ho] Hfd. unfold hide. rewrite (proj2 (Z.eqb_neq fd (-1))) by lia.
  assert (∀ i c, <[Z.to_nat fd := None]> (m_datas f) !! i = Some (Some c) → m_datas f !! i = Some (Some c) ∧ Z.of_nat i ≠ fd)
    as Hd.
  { intros i c. destruct (decide (i = Z.to_nat fd)) as [->|Hne].
    - rewrite list_lookup_insert_eq by lia. done.
    - rewrite list_lookup_insert_ne by done. intros H. split; [done|lia]. }
  split; [split|..]; simpl.
  - by rewrite length_insert.
  - intros i c [Hi Hne]%Hd. destruct (Hc i c Hi) as (H1 & H2 & H3 & H4). split_and!; [done..|].
    rewrite lookup_delete_ne by done. done.
  - intros j Hj. apply Hn. destruct (decide (j = fd)) as [->|]; [rewrite lookup_delete_eq in Hj; by destruct Hj|].
    by rewrite lookup_delete_ne in Hj.
  - intros i c [Hi Hne]%Hd. rewrite lookup_delete_ne by done. by apply (Ho i c).
Qed.

Lemma hide_none f fd : m_datas f !! Z.to_nat fd = Some None → kernel f !! fd = None → hide fd f = f.
Proof.
  intros H1 H2. unfold hide. destruct (fd =? -1); [done|]. destruct f as [d k]. simpl in *.
  rewrite list_insert_id by done. by rewrite delete_id.
Qed.

(** Opening the lowest free descriptor and making its context. *)
Lemma open_spec f fd : table_ok f → fd = lowest_free (kernel f) → fd < 64 →
  ∃ c f', FdManager_get fd true (set_kernel (<[fd := new_file]> (kernel f)) f) = Ok (Some c) f' ∧
    table_ok f' ∧ owned fd f' ∧ hide fd f' = f.
Proof.
  intros Hok -> Hlt. destruct (lowest_free_spec (kernel f)) as [Hnn Hfree]. set (fd := lowest_free (kernel f)) in *.
  destruct Hok as [[Hl Hc] Hn Ho]. set (f1 := set_kernel _ f).
  assert (m_datas f !! Z.to_nat fd = Some None) as Hx.
  { destruct (lookup_lt_is_Some_2 (m_datas f) (Z.to_nat fd)) as [[c|] Hx]; [lia| |done].
    apply Ho in Hx. rewrite Z2Nat.id in Hx by lia. rewrite Hfree in Hx. by destruct Hx. }
  assert (fds_ok f1) as Hok1.
  { split; [done|]. intros i c Hi. destruct (Hc i c Hi) as (H1 & H2 & H3 & H4). split_and!; [done..|]. intros Hs.
    destruct (H4 Hs) as (kf & Hkf & Hr). exists kf. split; [|done]. simpl. rewrite lookup_insert_ne; [done|].
    intros E. rewrite <- E, Hfree in Hkf. done. }
  assert (kernel f1 !! fd = Some new_file) as Hk1 by apply lookup_insert_eq.
  destruct (made_ok f1 fd) as [Hm1 Hm2]. pose proof (new_FdCtx_run f1 fd) as Hrun.
  assert (made f1 fd = (mkCtx true true true false false fd no_timeout no_timeout,
    set_kernel (<[fd := mkFile true 2050]> (kernel f1)) f1)) as Em by (unfold made; by rewrite Hk1).
  rewrite Em in *. cbn [fst snd] in *. set (c := mkCtx _ _ _ _ _ fd _ _) in *. set (f2 := set_kernel _ f1) in *.
  assert (fds_ok f2) as Hok2.
  { split; [done|]. intros i c' Hi. pose proof (made_kernel f1 fd _ c' (fo_ctx f1 Hok1 i c' Hi)) as H. by rewrite Em in H. }
  destruct (fds_ok_put f2 fd (Some c) Hok2) as [E Hok3]; [by intros ? [= <-]|lia|].
  set (f3 := set_datas _ f2) in *. exists c, f3.
  assert (m_datas f3 !! Z.to_nat fd = Some (Some c)) as Hd3 by (simpl; apply list_lookup_insert_eq; lia).
  assert (∀ j, is_Some (kernel f3 !! j) ↔ j = fd ∨ is_Some (kernel f !! j)) as Hk3.
  { intros j. simpl. destruct (decide (j = fd)) as [->|].
    - rewrite lookup_insert_eq. split; [by left|done].
    - rewrite !lookup_insert_ne by done. naive_solver. }
  split_and!.
  - unfold FdManager_get. rewrite bind_get, in_table by done. mstep (data_at_run f1 fd None Hnn Hx).
    mstep Hrun. by mstep E.
  - split; [done| |].
    + intros j [->|Hj]%Hk3; [done|by apply Hn].
    + intros i c' Hi. apply Hk3. destruct (decide (i = Z.to_nat fd)) as [->|Hne]; [left; lia|right].
      simpl in Hi. rewrite list_lookup_insert_ne in Hi by done. by apply (Ho i c').
  - split; [lia|]. split; [apply Hk3; by left|]. by exists c.
  - unfold hide. rewrite (proj2 (Z.eqb_neq fd (-1))) by lia. unfold f3, f2, f1, set_datas, set_kernel. simpl.
    destruct f as [d k]. simpl in *. rewrite list_insert_insert_eq, list_insert_id by done.
    rewrite !delete_insert_eq, delete_id by done. done.
Qed.

(** Closing an owned descriptor. *)
Lemma close_spec has_iom f fd : table_ok f → owned fd f →
  Hook.close true has_iom fd f = Ok has_iom (hide fd f) ∧ table_ok (hide fd f).
Proof.
  intros Hok (Hfd & Hk & c & Hc & _). split; [|by apply fds_ok_hide]. unfold Hook.close. cbn [negb].
  destruct (get_present f fd c (to_fds f Hok) (proj1 Hfd) Hc) as [Hg _]. mstep Hg.
  destruct (fds_ok_put f fd None (to_fds f Hok)) as [E _]; [done|lia|].
  rewrite (bind_ok _ _ f tt (set_datas (<[Z.to_nat fd := None]> (m_datas f)) f)).
  2:{ unfold FdManager_del. rewrite bind_get, in_table by (apply Hok || lia). exact E. }
  rewrite bind_modify. cbv beta. unfold hide. rewrite (proj2 (Z.eqb_neq fd (-1))) by lia. done.
Qed.

(** ** Running a method: it returns, in a state that satisfies [Q] *)

Definition wp {A} (m : M st A) (s : st) (Q : A → st → Prop) : Prop := ∃ a s', m s = Ok a s' ∧ Q a s'.

Lemma wp_ret {A} (a : A) s (Q : A → st → Prop) : Q a s → wp (mret a) s Q.
Proof. intros H. by exists a, s. Qed.

Lemma wp_bind {A B} (m : M st A) (f : A → M st B) s Q : wp m s (λ a s', wp (f a) s' Q) → wp (m ≫= f) s Q.
Proof. intros (a & s' & E & b & s'' & E' & H). exists b, s''. split; [|done]. by rewrite (bind_ok _ _ _ _ _ E). Qed.

Lemma wp_mono {A} (m : M st A) s (Q Q' : A → st → Prop) : wp m s Q → (∀ a s', Q a s' → Q' a s') → wp m s Q'.
Proof. intros (a & s' & E & H) HQ. exists a, s'. auto. Qed.

Lemma wp_get {A} (f : st → M st A) s Q : wp (f s) s Q → wp (get ≫= f) s Q.
Proof. intros H. apply wp_bind. by exists s, s. Qed.

Lemma wp_when (b : bool) (m : M st unit) s Q :
  (b = true → wp m s Q) → (b = false → Q tt s) → wp (when b m) s Q.
Proof. unfold when. destruct b; intros H1 H2; [by apply H1|apply wp_ret; by apply H2]. Qed.

(** Steps that leave the descriptors as they are and change the socket at most
    by [R]: [silent] ones do not change it, [quiet] ones keep its descriptor. *)
Definition steady {A} (R : relation Socket) (m : M st A) : Prop := ∀ s, wp m s (λ _ s',
  w_fds (the_world s') = w_fds (the_world s) ∧ R (this s) (this s')).

Definition same_sock : relation Socket := λ s t, m_sock t = m_sock s.
Abbreviation silent := (steady (=)).
Abbreviation quiet := (steady same_sock).

#[export] Instance same_sock_preorder : PreOrder same_sock.
Proof. split; [done|]. intros s t u. unfold same_sock. congruence. Qed.

Section steady.
Context (R : relation Socket) `{!PreOrder R}.

Lemma steady_ret {A} (a : A) : steady R (mret a).
Proof. intros s. by apply wp_ret. Qed.

Lemma steady_bind {A B} (m : M st A) (f : A → M st B) : steady R m → (∀ a, steady R (f a)) → steady R (m ≫= f).
Proof.
  intros Hm Hf s. apply wp_bind. eapply wp_mono; [apply Hm|]. intros a s1 [E1 E2].
  eapply wp_mono; [apply Hf|]. simpl. intros b s2 [E3 E4]. split; [congruence|]. by transitivity (this s1).
Qed.

Lemma steady_get {A} (f : st → M st A) : (∀ s, steady R (f s)) → steady R (get ≫= f).
Proof. intros Hf s. apply wp_get, Hf. Qed.

Lemma steady_upd f : (∀ s, R s (f s)) → steady R (upd f).
Proof. intros Hf s. eexists _, _. split; [reflexivity|]. by split; [|apply Hf]. Qed.

Lemma steady_when b m : steady R m → steady R (when b m).
Proof. intros Hm s. apply wp_when; intros _; [apply Hm|done]. Qed.

Lemma silent_steady {A} (m : M st A) : silent m → steady R m.
Proof. intros Hm s. eapply wp_mono; [apply Hm|]. simpl. by intros a s' [E <-]. Qed.
End steady.

Create HintDb quiet.
#[export] Hint Resolve steady_ret steady_bind steady_get steady_when silent_steady : quiet.
#[export] Hint Extern 0 (PreOrder _) => typeclasses eauto : quiet.

Section proofs.
Context (host : endian) (has_iom : bool) (s_connect_timeout fd_limit : Z).
Context (reply : list syscall → syscall → Z * Z).
Context (script : list syscall → syscall → list answer).
Context (names : list syscall → syscall → stored_name).
Hypothesis limit_ok : fd_limit <= 64.

Local Abbreviation sys := (sys reply).
Local Abbreviation setOption := (setOption reply).
Local Abbreviation initSock := (initSock reply).
Local Abbreviation newSock := (newSock true fd_limit reply).
Local Abbreviation getLocalAddress := (getLocalAddress host reply names).
Local Abbreviation getRemoteAddresses := (getRemoteAddresses host reply names).
Local Abbreviation init := (init host reply names).
Local Abbreviation close := (close true has_iom reply).
Local Abbreviation destroy := (destroy true has_iom reply).
Local Abbreviation connect := (connect host true has_iom s_connect_timeout fd_limit reply script names).
Local Abbreviation reconnect := (reconnect host true has_iom s_connect_timeout fd_limit reply script names).
Local Abbreviation bind := (bind host true has_iom s_connect_timeout fd_limit reply script names).
Local Abbreviation accept := (accept host true fd_limit reply script names).

(** The calls that only talk to the system. *)
Lemma silent_sys c : silent (sys c).
Proof. intros s. by eexists _, _. Qed.
Lemma silent_stored c : silent (stored names c).
Proof. intros s. by eexists _, _. Qed.
Lemma silent_answers c : silent (answers script c).
Proof. intros s. by eexists _, _. Qed.
#[local] Hint Resolve silent_sys silent_stored silent_answers : quiet.

Lemma silent_setOption level option value : silent (setOption level option value).
Proof. unfold Socket.setOption. auto with quiet. Qed.
#[local] Hint Resolve silent_setOption : quiet.

Lemma silent_getOption level option : silent (getOption reply level option).
Proof.
  unfold getOption. apply steady_get. intros s. apply steady_bind; [apply _|auto with quiet|].
  intros [rt v]. auto with quiet.
Qed.

Lemma silent_initSock : silent initSock.
Proof. unfold Socket.initSock. auto 8 with quiet. Qed.

Lemma silent_fetch_name c : silent (fetch_name host reply names c).
Proof.
  unfold fetch_name. apply steady_get. intros s. apply steady_bind; [apply _|auto with quiet|]. intros n.
  apply steady_bind; [apply _|auto with quiet|]. intros [rt v]. auto with quiet.
Qed.
#[local] Hint Resolve silent_initSock silent_fetch_name : quiet.

(** A getter of an address changes at most the address it caches. *)
Definition same_but_remote : relation Socket := λ s t, ∃ a, t = set_remote a s.
Definition same_but_local : relation Socket := λ s t, ∃ a, t = set_local a s.

#[local] Instance same_but_remote_preorder : PreOrder same_but_remote.
Proof. split; [intros []; by eexists|]. intros s t u [a ->] [b ->]. by exists b. Qed.
#[local] Instance same_but_local_preorder : PreOrder same_but_local.
Proof. split; [intros []; by eexists|]. intros s t u [a ->] [b ->]. by exists b. Qed.

Lemma steady_getRemoteAddresses : steady same_but_remote getRemoteAddresses.
Proof.
  unfold Socket.getRemoteAddresses. apply steady_get. intros s. destruct (m_remoteAddress (this s)); [auto with quiet|].
  apply steady_bind; [apply _|auto with quiet|]. intros [a|]; [|auto with quiet].
  apply steady_bind; [apply _|apply steady_upd; intros t; by eexists|auto with quiet].
Qed.

Lemma steady_getLocalAddress : steady same_but_local getLocalAddress.
Proof.
  unfold Socket.getLocalAddress. apply steady_get. intros s. destruct (m_localAddress (this s)); [auto with quiet|].
  apply steady_bind; [apply _|auto with quiet|]. intros [a|]; [|auto with quiet].
  apply steady_bind; [apply _|apply steady_upd; intros t; by eexists|auto with quiet].
Qed.

Lemma quiet_getRemoteAddresses : quiet getRemoteAddresses.
Proof. intros s. eapply wp_mono; [apply steady_getRemoteAddresses|]. by intros a s' [E [b ->]]. Qed.
Lemma quiet_getLocalAddress : quiet getLocalAddress.
Proof. intros s. eapply wp_mono; [apply steady_getLocalAddress|]. by intros a s' [E [b ->]]. Qed.
#[local] Hint Resolve quiet_getRemoteAddresses quiet_getLocalAddress : quiet.

(** ** The invariant of a socket: [r] is the table without its descriptor *)

Definition holds (s : Socket) (f : fds) : Prop := m_sock s = -1 ∨ owned (m_sock s) f.

Record inv (r : fds) (s : st) : Prop := {
  i_table : table_ok (w_fds (the_world s));
  i_holds : holds (this s) (w_fds (the_world s));
  i_rest : hide (m_sock (this s)) (w_fds (the_world s)) = r
}.

Lemma inv_same r s s' : w_fds (the_world s') = w_fds (the_world s) → m_sock (this s') = m_sock (this s) →
  inv r s → inv r s'.
Proof. intros E1 E2 [H1 H2 H3]. split; unfold holds in *; by rewrite ?E1, ?E2. Qed.

Lemma wp_quiet {A} (m : M st A) r s : quiet m → inv r s → wp m s (λ _ s', inv r s' ∧ m_sock (this s') = m_sock (this s)).
Proof.
  intros Hm Hi. eapply wp_mono; [apply Hm|]. simpl. intros a s' [E1 E2]. split; [by apply (inv_same r s)|done].
Qed.

Lemma wp_silent {A} (m : M st A) r s : silent m → inv r s → wp m s (λ _ s', inv r s' ∧ this s' = this s).
Proof.
  intros Hm Hi. eapply wp_mono; [apply Hm|]. simpl. intros a s' [E1 E2]. split; [|done].
  apply (inv_same r s); [done|by rewrite E2|done].
Qed.

Lemma wp_on_fds {A} (m : M fds A) s a f (Q : A → st → Prop) :
  m (w_fds (the_world s)) = Ok a f → Q a (mkSt (this s) (mkWorld f (w_log (the_world s)))) → wp (on_fds m) s Q.
Proof. intros E H. eexists _, _. split; [|exact H]. unfold on_fds. by rewrite E. Qed.

Lemma wp_run_on {A} sock (m : M st A) s (Q : A * Socket → st → Prop) :
  wp m (mkSt sock (the_world s)) (λ a s', Q (a, this s') (mkSt (this s) (the_world s'))) → wp (run_on sock m) s Q.
Proof. intros (a & s' & E & H). eexists _, _. split; [|exact H]. unfold run_on. by rewrite E. Qed.

Lemma inv_nonneg r s fd : inv r s → is_Some (kernel (w_fds (the_world s)) !! fd) → 0 <= fd.
Proof. intros H. apply (to_nonneg _ (i_table r s H)). Qed.

Lemma newSock_inv r s : inv r s → m_sock (this s) = -1 →
  wp newSock s (λ _ s', inv r s' ∧ ∃ fd, this s' = set_sock fd (this s)).
Proof.
  intros [Hok Hh Hr] Hs. unfold Socket.newSock. apply wp_get. apply wp_bind. unfold call_socket.
  apply wp_bind. eexists _, _. split; [reflexivity|]. destruct (reply _ _) as [rt v]. simpl the_world.
  apply wp_bind. apply (wp_on_fds _ _ (lowest_free (kernel (w_fds (the_world s)))) (w_fds (the_world s))); [done|].
  cbn [this the_world w_fds w_log]. rewrite Hs in Hr. change (hide (-1) ?f) with f in Hr. subst r.
  set (f := w_fds (the_world s)) in *. set (fd := lowest_free (kernel f)) in *.
  destruct ((rt =? -1) || (fd_limit <=? fd)) eqn:E.
  - apply (wp_on_fds _ _ (-1) f); [done|]. cbn [this the_world w_fds w_log].
    apply wp_bind. eexists _, _. split; [reflexivity|]. apply wp_when; [done|]. intros _. split; [by split; [|left|]|by eexists].
  - destruct (lowest_free_spec (kernel f)) as [Hnn _]. fold fd in Hnn.
    destruct (open_spec f fd Hok eq_refl ltac:(lia)) as (c & f' & Eg & Hok' & Hown & Hhide).
    apply wp_bind. apply (wp_on_fds _ _ tt (set_kernel (<[fd := new_file]> (kernel f)) f)); [done|].
    apply (wp_on_fds _ _ fd f').
    { unfold socket. cbn [negb]. rewrite (proj2 (Z.eqb_neq fd (-1))) by lia. by mstep Eg. }
    cbn [this the_world w_fds w_log]. apply wp_bind. eexists _, _. split; [reflexivity|].
    apply wp_when; intros _.
    + eapply wp_mono; [apply (wp_silent _ f _ silent_initSock); by split; [|right|]|]. intros a s' [H E']. split; [done|].
      by eexists.
    + split; [by split; [|right|]|by eexists].
Qed.

Lemma close_inv r s : inv r s →
  wp close s (λ _ s', inv r s' ∧ this s' = set_sock (-1) (set_connected false (this s)) ∧ w_fds (the_world s') = r).
Proof.
  intros Hi. pose proof Hi as [Hok Hh Hr]. unfold Socket.close. apply wp_get.
  destruct (negb _ && _) eqn:E.
  - apply wp_ret. apply andb_true_iff in E as [E1 E2]. apply Z.eqb_eq in E2. rewrite E2 in Hr.
    split_and!; [done| |exact Hr]. destruct s as [[] w]. simpl in *. by destruct m_isConnected0; simplify_eq.
  - apply wp_bind. eexists _, _. split; [reflexivity|]. cbn [this the_world].
    apply wp_bind. apply wp_when; intros Efd.
    + assert (m_sock (this s) ≠ -1) as Hne by lia. destruct Hh as [?|Hown]; [done|].
      destruct (close_spec has_iom _ _ Hok Hown) as [Ec Hok'].
      apply wp_bind. unfold call_close. apply wp_bind. eapply wp_on_fds; [exact Ec|]. cbn [this the_world w_fds w_log].
      rewrite Hr in *. apply wp_when; intros _.
      * apply wp_bind. eexists _, _. split; [reflexivity|]. apply wp_ret. cbn [this the_world w_fds w_log].
        eexists _, _. split; [reflexivity|]. apply wp_ret. split_and!; [|done..]. split; [done|by left|done].
      * eexists _, _. split; [reflexivity|]. apply wp_ret. split_and!; [|done..]. split; [done|by left|done].
    + apply wp_ret. apply negb_false_iff, Z.eqb_eq in Efd. rewrite Efd in Hr. split_and!; [| |exact Hr].
      * by apply (inv_same r s).
      * destruct s as [[] w]. simpl in *. by subst.
Qed.

Lemma ctx_of_inv r s : inv r s → isValid (this s) = true →
  wp (ctx_of true (m_sock (this s))) s (λ c s', s' = s ∧ ∃ c0, c = Some c0).
Proof.
  intros [Hok Hh Hr] Hv. unfold isValid in Hv. destruct Hh as [?|(Hfd & _ & c & Hc & _)]; [lia|].
  destruct (get_present _ _ c (to_fds _ Hok) (proj1 Hfd) Hc) as [Hg _].
  eapply wp_on_fds; [exact Hg|]. destruct s as [t [f l]]. eauto.
Qed.

Lemma hooked_inv r s f c : inv r s → isValid (this s) = true →
  wp (hooked true script f (m_sock (this s)) c) s (λ _ s', inv r s' ∧ this s' = this s).
Proof.
  intros Hi Hv. unfold hooked. apply wp_bind. eapply wp_mono; [by apply (ctx_of_inv r)|].
  intros ctx s' [-> _]. apply wp_silent; [|done]. apply steady_bind; auto with quiet.
Qed.

Lemma getSendTimeout_inv r s : inv r s → isValid (this s) = true →
  wp getSendTimeout s (λ _ s', s' = s) ∧ wp getRecvTimeout s (λ _ s', s' = s).
Proof.
  intros Hi Hv. split; apply wp_get, wp_bind; (eapply wp_mono; [by apply (ctx_of_inv r s)|]);
    intros c s' [-> _]; by apply wp_ret.
Qed.

(** Connecting; nothing is said of a call that is still suspended. *)
Lemma finish_connect_inv r s addr : inv r s → m_remoteAddress (this s) = Some addr →
  wp (upd (set_connected true);; getRemoteAddresses;; getLocalAddress;; mret (Some true)) s
    (λ o s', inv r s' ∧ o = Some true ∧ ∃ l, this s' = set_local l (set_connected true (this s))).
Proof.
  intros Hi Ha. apply wp_bind. eexists _, _. split; [reflexivity|]. set (s1 := mkSt _ _).
  assert (inv r s1) as H1 by (by apply (inv_same r s)). apply wp_bind.
  assert (getRemoteAddresses s1 = Ok addr s1) as E1.
  { unfold Socket.getRemoteAddresses. rewrite bind_get. subst s1. cbn [this m_remoteAddress set_connected]. by rewrite Ha. }
  eexists _, _. split; [exact E1|]. apply wp_bind.
  eapply wp_mono; [apply steady_getLocalAddress|]. intros _ s2 [E2 [l E3]]. apply wp_ret. split_and!; [|done|by exists l].
  apply (inv_same r s1); [done|by rewrite E3|done].
Qed.

Lemma open_if_needed_inv r s : inv r s →
  wp (when (negb (isValid (this s))) newSock) s (λ _ s', inv r s' ∧ ∃ fd, this s' = set_sock fd (this s)).
Proof.
  intros Hi. apply wp_when; intros E.
  - apply newSock_inv; [done|]. unfold isValid in E. lia.
  - split; [done|]. exists (m_sock (this s)). by destruct (this s).
Qed.

Definition connect_outcome (addr : Address) (s s' : Socket) (o : option bool) : Prop :=
  m_remoteAddress s' = Some addr ∧
  (o = Some true → getFamily addr = m_family s ∧ m_isConnected s' = true ∧ m_sock s' ≠ -1) ∧
  (o = Some false → getFamily addr = m_family s → m_sock s' = -1) ∧
  (o = Some false → getFamily addr ≠ m_family s → m_isConnected s' = m_isConnected s).

Lemma connect_inv r s addr timeout_ms : inv r s →
  wp (connect addr timeout_ms) s (λ o s', is_Some o → inv r s' ∧ connect_outcome addr (this s) (this s') o).
Proof.
  intros Hi. unfold Socket.connect. apply wp_bind. eexists _, _. split; [reflexivity|]. set (s1 := mkSt _ _).
  assert (inv r s1) as H1 by (by apply (inv_same r s)).
  apply wp_get, wp_bind. eapply wp_mono; [by apply (open_if_needed_inv r)|]. intros _ s2 [H2 [fd E2]].
  apply wp_get. destruct (isValid (this s2)) eqn:Ev; cbn [negb].
  2:{ apply wp_ret. intros _. split; [done|]. unfold isValid in Ev. unfold connect_outcome. rewrite E2 in *. simpl in *.
      split_and!; [done|done|lia|done]. }
  assert (m_family (this s2) = m_family (this s)) as Ef by (by rewrite E2). rewrite Ef.
  destruct (Z.eqb_spec (getFamily addr) (m_family (this s))) as [Eq|Hne]; cbn [negb].
  2:{ apply wp_ret. intros _. split; [done|]. unfold connect_outcome. rewrite E2. simpl. by split_and!. }
  apply wp_bind. eapply wp_mono; [by apply (hooked_inv r)|]. intros [[n err]|] s3 [H3 E3]; [|apply wp_ret; by intros []].
  destruct (negb (n =? 0)).
  - apply wp_bind. eapply wp_mono; [by apply close_inv|]. intros b s4 (H4 & E4 & _). apply wp_ret. intros _.
    split; [done|]. unfold connect_outcome. rewrite E4, E3, E2. by split_and!.
  - eapply wp_mono; [apply (finish_connect_inv r s3 addr); [done|by rewrite E3, E2]|].
    intros o s4 (H4 & -> & l & E4) _. split; [done|]. unfold isValid in Ev. unfold connect_outcome.
    rewrite E4, E3, E2 in *. simpl in *. split_and!; try done. intros _. split_and!; [done|done|lia].
Qed.

Lemma reconnect_inv r s timeout_ms : inv r s → wp (reconnect timeout_ms) s (λ o s', is_Some o → inv r s').
Proof.
  intros Hi. apply wp_get. destruct (m_remoteAddress (this s)) as [a|]; [|by apply wp_ret].
  apply wp_bind. eapply wp_mono; [apply (wp_quiet _ r s); [by apply steady_upd|done]|]. intros _ s1 [H1 _].
  eapply wp_mono; [by apply connect_inv|]. intros o s2 H Ho. by apply H.
Qed.

Lemma destroy_inv r s : inv r s → wp destroy s (λ _ s', w_fds (the_world s') = r ∧ table_ok r).
Proof.
  intros Hi. apply wp_bind. eapply wp_mono; [by apply close_inv|]. intros b s' (Hi' & _ & E). apply wp_ret.
  split; [done|]. rewrite <- E. apply Hi'.
Qed.

(** The probe of a Unix path leaves the descriptors as they were. *)
Lemma probe_unix_inv r s addr path : inv r s →
  wp (probe_unix host true has_iom s_connect_timeout fd_limit reply script names addr path) s
    (λ o s', is_Some o → inv r s' ∧ m_sock (this s') = m_sock (this s)).
Proof.
  intros Hi. pose proof Hi as [Hok Hh Hr]. unfold probe_unix. apply wp_bind, wp_run_on.
  set (f := w_fds (the_world s)).
  eapply wp_mono; [apply (connect_inv f); by split; [|left|]|]. intros [connected|] s1 H1; [|apply wp_ret; by intros []].
  destruct (H1 ltac:(by eexists)) as [H2 _]. apply wp_bind.
  set (s2 := mkSt (this s) (the_world s1)).
  eapply wp_mono; [apply (steady_when same_sock _ (sys (CUnlink path);; mret tt)); auto with quiet|].
  intros _ s3 [E3 E4]. apply wp_bind, wp_run_on.
  eapply wp_mono; [apply (destroy_inv f)|].
  { apply (inv_same f s1); [exact E3|done|done]. }
  intros _ s4 [E5 _]. apply wp_ret. intros _. simpl. split; [|exact E4].
  apply (inv_same r s); [exact E5|exact E4|done].
Qed.

Lemma socket_bind_inv r s addr : inv r s → wp (bind addr) s (λ o s', is_Some o → inv r s').
Proof.
  intros Hi. apply wp_get, wp_bind. eapply wp_mono; [by apply (open_if_needed_inv r)|]. intros _ s1 [H1 _].
  apply wp_get. destruct (isValid (this s1)) eqn:Ev; cbn [negb]; [|by apply wp_ret].
  destruct (negb (getFamily addr =? m_family (this s1))); [by apply wp_ret|].
  apply wp_bind. eapply (wp_mono _ _ (λ o s', is_Some o → inv r s')).
  { destruct addr; try by apply wp_ret. eapply wp_mono; [by apply (probe_unix_inv r)|]. intros o s' H Ho. by apply H. }
  intros [[]|] s2 H2; [apply wp_ret; intros _; by apply H2| |apply wp_ret; by intros []].
  apply wp_bind. eapply wp_mono; [apply (wp_quiet _ r s2 (silent_steady _ _ (silent_sys _))), H2; by eexists|]. intros [rt v] s3 [H3 _].
  destruct (negb (rt =? 0)); [by apply wp_ret|]. apply wp_bind.
  eapply wp_mono; [by apply (wp_quiet _ r s3 quiet_getLocalAddress)|]. intros a s4 [H4 _]. by apply wp_ret.
Qed.

Lemma listen_inv r s backlog : inv r s → wp (listen reply backlog) s (λ _ s', inv r s').
Proof.
  intros Hi. apply wp_get. destruct (negb _); [by apply wp_ret|]. apply wp_bind.
  eapply wp_mono; [by apply (wp_quiet _ r s (silent_steady _ _ (silent_sys _)))|]. intros [rt v] s1 [H1 _]. by apply wp_ret.
Qed.

Lemma transfer_inv r s f c : inv r s → (m_isConnected (this s) = true → isValid (this s) = true) →
  wp (transfer true script f c) s (λ _ s', inv r s').
Proof.
  intros Hi Hv. apply wp_get. destruct (m_isConnected (this s)); [|by apply wp_ret]. specialize (Hv eq_refl). apply wp_bind.
  eapply wp_mono; [by apply (hooked_inv r)|]. intros o s1 [H1 _]. by apply wp_ret.
Qed.

Lemma cancel_inv r s c : has_iom = true → inv r s → isValid (this s) = true → wp (cancel has_iom reply c) s (λ _ s', inv r s').
Proof.
  intros Hm Hi Hv. apply wp_get. rewrite Hm. cbn [negb].
  assert ((m_sock (this s) <? 0) = false) as ->.
  { unfold isValid in Hv. destruct (i_holds _ _ Hi) as [?|(? & _)]; lia. }
  apply wp_bind.
  eapply wp_mono; [by apply (wp_quiet _ r s (silent_steady _ _ (silent_sys _)))|]. intros [rt v] s1 [H1 _]. by apply wp_ret.
Qed.

(** *** Accepting *)

Lemma accept_value fd c env tr n err :
  do_io true (Some c) IO_READ SO_RCVTIMEO (accept_answer fd_limit fd <$> env) = (tr, Some (n, err)) →
  n = -1 ∨ (n = fd ∧ fd < fd_limit).
Proof.
  assert (∀ n err, Sys n err ∈ accept_answer fd_limit fd <$> env → n = -1 ∨ (n = fd ∧ fd < fd_limit)) as Hs.
  { intros n0 e0 (a & E & _)%list_elem_of_fmap. destruct a as [n1 e1|?|?|?]; try done. simpl in E.
    destruct (n1 =? -1) eqn:E1; [apply Z.eqb_eq in E1; left; congruence|].
    destruct (fd_limit <=? fd) eqn:E2; [left; congruence|right; split; [congruence|lia]]. }
  assert (direct (accept_answer fd_limit fd <$> env) = (tr, Some (n, err)) → n = -1 ∨ (n = fd ∧ fd < fd_limit)) as Hd.
  { unfold direct. destruct (accept_answer fd_limit fd <$> env) as [|[n1 e1|?|?|?] l]; try done.
    intros [= _ <- <-]. apply (Hs n1 e1). by left. }
  unfold do_io. cbn [negb]. destruct (m_isClosed c); [intros [= _ <- _]; by left|].
  destruct (negb (m_isSocket c) || m_userNonblock c); [done|].
  intros [_ [[H _]|[[-> _]|[-> _]]]]%do_io_loop_sound; [by apply (Hs n err)|by left|by left].
Qed.

Lemma init_inv f s fd : table_ok (w_fds (the_world s)) → owned fd (w_fds (the_world s)) →
  hide fd (w_fds (the_world s)) = f → wp (init fd) s (λ ok s', ok = true ∧ inv f s' ∧ m_sock (this s') = fd).
Proof.
  intros Hok Hown Hf. pose proof Hown as (Hfd & _ & c & Hc & Hsock & Hcl). unfold Socket.init. apply wp_bind.
  destruct (get_present _ _ c (to_fds _ Hok) (proj1 Hfd) Hc) as [Hg _]. eapply wp_on_fds; [exact Hg|].
  cbv beta iota. rewrite Hsock, Hcl. cbn [negb andb]. apply wp_bind. eexists _, _. split; [reflexivity|].
  cbn [this the_world w_fds w_log].
  set (s1 := mkSt (set_sock fd (this s)) _). assert (inv f s1) as H1 by (split; [done|by right|done]).
  apply wp_bind. eapply wp_mono; [apply (wp_quiet _ f s1); [by apply steady_upd|done]|]. intros _ s2 [H2 E2].
  apply wp_bind. eapply wp_mono; [by apply (wp_quiet _ f s2 (silent_steady _ _ silent_initSock))|]. intros _ s3 [H3 E3].
  apply wp_bind. eapply wp_mono; [by apply (wp_quiet _ f s3 quiet_getLocalAddress)|]. intros _ s4 [H4 E4].
  apply wp_bind. eapply wp_mono; [by apply (wp_quiet _ f s4 quiet_getRemoteAddresses)|]. intros _ s5 [H5 E5].
  apply wp_ret. split_and!; [done|done|]. by rewrite E5, E4, E3, E2.
Qed.

(** The new socket owns the new descriptor, and the table without it is the
    one before. *)
Lemma accept_inv r s : inv r s → isValid (this s) = true →
  wp accept s (λ o s', this s' = this s ∧
    match o with
    | None => True
    | Some None => inv r s'
    | Some (Some sock) =>
        owned (m_sock sock) (w_fds (the_world s')) ∧ table_ok (w_fds (the_world s')) ∧
        hide (m_sock sock) (w_fds (the_world s')) = w_fds (the_world s)
    end).
Proof.
  intros Hi Hv. pose proof Hi as [Hok Hh Hr]. unfold Socket.accept. apply wp_get. apply wp_bind. unfold call_accept.
  apply wp_bind. eapply wp_mono; [by apply (ctx_of_inv r)|]. intros ctx s0 [-> [c ->]].
  apply wp_bind. eexists _, _. split; [reflexivity|]. cbn [this the_world w_fds w_log].
  set (f := w_fds (the_world s)) in *. set (fd := lowest_free (kernel f)).
  apply wp_bind. apply (wp_on_fds _ _ fd f); [done|]. cbn [this the_world w_fds w_log].
  unfold Hook.accept. destruct (do_io _ _ _ _ _) as [tr [[n err]|]] eqn:E; cbn [snd].
  2:{ apply wp_ret. by apply wp_ret. }
  apply accept_value in E as [->|[-> Hlt]].
  - apply wp_bind. apply wp_ret. apply wp_bind. apply (wp_on_fds _ _ tt f); [done|]. apply wp_ret, wp_ret.
    split; [done|]. by apply (inv_same r s).
  - destruct (lowest_free_spec (kernel f)) as [Hnn _]. fold fd in Hnn.
    destruct (open_spec f fd Hok eq_refl ltac:(lia)) as (c' & f' & Eg & Hok' & Hown & Hhide).
    rewrite (proj2 (Z.leb_le 0 fd)) by done. apply wp_bind.
    apply (wp_on_fds _ _ tt (set_kernel (<[fd := new_file]> (kernel f)) f)); [done|]. cbn [this the_world w_fds w_log].
    apply wp_bind. apply (wp_on_fds _ _ tt f'); [cbn [w_fds the_world]; by mstep Eg|]. apply wp_ret.
    rewrite (proj2 (Z.eqb_neq fd (-1))) by lia. apply wp_bind, wp_run_on.
    eapply wp_mono; [by apply (init_inv f)|]. intros ok s1 (-> & [H1 H2 H3] & E1). apply wp_ret. split; [done|].
    cbn [the_world]. rewrite E1 in *. split_and!; [|done|done].
    destruct H2 as [H2|H2]; rewrite E1 in H2; [lia|done].
Qed.

(** Connect records the remote address; when it returns true the families agree and the
    socket is open and connected; when it returns false with agreeing families the socket
    has no descriptor left; with different families it stays as connected as it was; no
    other descriptor changes. *)
Theorem connect_spec s addr timeout_ms :
  table_ok (w_fds (the_world s)) → holds (this s) (w_fds (the_world s)) →
  ∃ o s', connect addr timeout_ms s = Ok o s' ∧
    (is_Some o →
      table_ok (w_fds (the_world s')) ∧ holds (this s') (w_fds (the_world s')) ∧
      hide (m_sock (this s')) (w_fds (the_world s')) = hide (m_sock (this s)) (w_fds (the_world s)) ∧
      connect_outcome addr (this s) (this s') o).
Proof.
  intros Hok Hh. destruct (connect_inv _ s addr timeout_ms (Build_inv _ s Hok Hh eq_refl)) as (o & s' & E & H).
  exists o, s'. split; [done|]. intros Ho. by destruct (H Ho) as [[H1 H2 H3] H4].
Qed.
End proofs.

(** ** Programs over many sockets

    A client creates sockets, calls their methods in any order, accepts
    connections and destroys sockets.  A program ends where a call stays
    suspended. *)

Inductive method :=
| MConnect (addr : Address) (timeout_ms : Z) | MReconnect (timeout_ms : Z) | MBind (addr : Address)
| MListen (backlog : Z) | MClose
| MSend (buffer : list byte) (flags : Z) | MSendIov (buffers : list (list byte)) (flags : Z)
| MSendTo (buffer : list byte) (to : Address) (flags : Z)
| MSendToIov (buffers : list (list byte)) (to : Address) (flags : Z)
| MRecv (length flags : Z) | MRecvIov (lengths : list Z) (flags : Z)
| MRecvFrom (length : Z) (from : Address) (flags : Z) | MRecvFromIov (lengths : list Z) (from : Address) (flags : Z)
| MGetOption (level option : Z) | MSetOption (level option : Z) (value : list Z)
| MSetSendTimeout (v : Z) | MSetRecvTimeout (v : Z) | MGetSendTimeout | MGetRecvTimeout
| MGetLocalAddress | MGetRemoteAddresses | MGetError
| MCancelRead | MCancelWrite | MCancelAccept | MCancelAll.

Inductive creator :=
| KTCP (address : Address) | KUDP (address : Address) | KTCPSocket | KUDPSocket | KTCPSocket6 | KUDPSocket6
| KUnixTCPSocket | KUnixUDPSocket.

Inductive pool_op := PCreate (c : creator) | PCall (i : nat) (m : method) | PAccept (i : nat) | PDestroy (i : nat).

(** The sockets made so far; a destroyed one is gone. *)
Record pool := mkPool { socks : list (option Socket); p_world : world }.

Section pools.
Context (host : endian) (hook has_iom : bool) (s_connect_timeout fd_limit : Z).
Context (reply : list syscall → syscall → Z * Z).
Context (script : list syscall → syscall → list answer).
Context (names : list syscall → syscall → stored_name).

(** Whether the call returned. *)
Definition returns {A} (m : M st A) : M st bool := m;; mret true.
Definition may_suspend {A} (m : M st (option A)) : M st bool := o ← m; mret (match o with Some _ => true | None => false end).

Definition run_method (m : method) : M st bool :=
  match m with
  | MConnect a t => may_suspend (connect host hook has_iom s_connect_timeout fd_limit reply script names a t)
  | MReconnect t => may_suspend (reconnect host hook has_iom s_connect_timeout fd_limit reply script names t)
  | MBind a => may_suspend (bind host hook has_iom s_connect_timeout fd_limit reply script names a)
  | MListen b => returns (listen reply b)
  | MClose => returns (close hook has_iom reply)
  | MSend b fl => may_suspend (send hook script b fl)
  | MSendIov b fl => may_suspend (send_iov hook script b fl)
  | MSendTo b a fl => may_suspend (sendTo host hook script b a fl)
  | MSendToIov b a fl => may_suspend (sendTo_iov host hook script b a fl)
  | MRecv n fl => may_suspend (recv hook script n fl)
  | MRecvIov n fl => may_suspend (recv_iov hook script n fl)
  | MRecvFrom n a fl => may_suspend (recvFrom hook script n a fl)
  | MRecvFromIov n a fl => may_suspend (recvFrom_iov hook script n a fl)
  | MGetOption l o => returns (getOption reply l o)
  | MSetOption l o v => returns (setOption reply l o v)
  | MSetSendTimeout v => returns (setSendTimeout reply v)
  | MSetRecvTimeout v => returns (setRecvTimeout reply v)
  | MGetSendTimeout => returns getSendTimeout
  | MGetRecvTimeout => returns getRecvTimeout
  | MGetLocalAddress => returns (getLocalAddress host reply names)
  | MGetRemoteAddresses => returns (getRemoteAddresses host reply names)
  | MGetError => returns (getError reply)
  | MCancelRead => returns (cancelRead has_iom reply)
  | MCancelWrite => returns (cancelWrite has_iom reply)
  | MCancelAccept => returns (cancelAccept has_iom reply)
  | MCancelAll => returns (cancelAll has_iom reply)
  end.

Definition run_creator (c : creator) : M st Socket :=
  match c with
  | KTCP a => CreateTCP a
  | KUDP a => CreateUDP hook fd_limit reply a
  | KTCPSocket => CreateTCPSocket
  | KUDPSocket => CreateUDPSocket hook fd_limit reply
  | KTCPSocket6 => CreateTCPSocket6
  | KUDPSocket6 => CreateUDPSocket6 hook fd_limit reply
  | KUnixTCPSocket => CreateUnixTCPSocket
  | KUnixUDPSocket => CreateUnixUDPSocket
  end.

(** A method of a socket of the pool. *)
Definition with_socket {A} (s : Socket) (m : M st A) : M pool (A * Socket) := λ p,
  match m (mkSt s (p_world p)) with
  | Ok a s' => Ok (a, this s') (mkPool (socks p) (the_world s'))
  | Throw e s' => Throw e (mkPool (socks p) (the_world s'))
  | Abort w => Abort w
  | Undef w => Undef w
  end.

Definition set_socks (l : list (option Socket)) : M pool unit := modify (λ p, mkPool l (p_world p)).

Definition pool_step (op : pool_op) : M pool bool :=
  p ← get;
  match op with
  | PCreate c =>
      '(s, _) ← with_socket (new_Socket 0 0 0) (run_creator c);
      set_socks (socks p ++ [Some s]);;
      mret true
  | PCall i m =>
      match socks p !! i with
      | Some (Some s) =>
          '(b, s') ← with_socket s (run_method m);
          set_socks (<[i := Some s']> (socks p));;
          mret b
      | _ => mret true
      end
  | PAccept i =>
      match socks p !! i with
      | Some (Some s) =>
          '(o, s') ← with_socket s (accept host hook fd_limit reply script names);
          match o with
          | None => mret false
          | Some None => mret true
          | Some (Some sock) => set_socks (socks p ++ [Some sock]);; mret true
          end
      | _ => mret true
      end
  | PDestroy i =>
      match socks p !! i with
      | Some (Some s) =>
          with_socket s (destroy hook has_iom reply);;
          set_socks (<[i := None]> (socks p));;
          mret true
      | _ => mret true
      end
  end.

Fixpoint run_pool (ops : list pool_op) : M pool bool :=
  match ops with
  | [] => mret true
  | op :: ops' =>
      b ← pool_step op;
      if (b : bool) then run_pool ops' else mret false
  end.
End pools.

(** The calls that index a table with the descriptor of a socket that has
    none: a transfer on a socket that calls itself connected, the timeouts, the
    cancellations, and [accept]. *)
Definition out_of_table (m : method) (s : Socket) : bool :=
  negb (isValid s) &&
  match m with
  | MConnect _ _ | MReconnect _ | MBind _ | MListen _ | MClose | MGetOption _ _ | MSetOption _ _ _
  | MSetSendTimeout _ | MSetRecvTimeout _ | MGetLocalAddress | MGetRemoteAddresses | MGetError => false
  | MSend _ _ | MSendIov _ _ | MSendTo _ _ _ | MSendToIov _ _ _ | MRecv _ _ | MRecvIov _ _
  | MRecvFrom _ _ _ | MRecvFromIov _ _ _ => m_isConnected s
  | MGetSendTimeout | MGetRecvTimeout | MCancelRead | MCancelWrite | MCancelAccept | MCancelAll => true
  end.

Definition misused (op : pool_op) (p : pool) : bool :=
  match op with
  | PCall i m => match socks p !! i with Some (Some s) => out_of_table m s | _ => false end
  | PAccept i => match socks p !! i with Some (Some s) => negb (isValid s) | _ => false end
  | _ => false
  end.

(** ** The sockets of a program own the descriptors it opened *)

(** [f0] is the table without the descriptors of the sockets. *)
Fixpoint own_all (f0 : fds) (l : list (option Socket)) (f : fds) : Prop :=
  match l with
  | [] => table_ok f ∧ f = f0
  | None :: l' => own_all f0 l' f
  | Some s :: l' => table_ok f ∧ holds s f ∧ own_all f0 l' (hide (m_sock s) f)
  end.

Lemma own_all_table f0 l : ∀ f, own_all f0 l f → table_ok f.
Proof. induction l as [|[s|] l IH]; simpl; intros f; [by intros []|by intros []|apply IH]. Qed.

Lemma hide_comm a b f : 0 <= a → 0 <= b → hide a (hide b f) = hide b (hide a f).
Proof.
  intros Ha Hb. unfold hide. rewrite (proj2 (Z.eqb_neq a (-1))), (proj2 (Z.eqb_neq b (-1))) by lia. simpl. f_equal.
  - destruct (decide (a = b)) as [->|]; [done|]. by rewrite list_insert_insert_ne by lia.
  - apply delete_delete.
Qed.

Lemma hide_kernel fd j f : 0 <= fd → kernel (hide fd f) !! j = if decide (j = fd) then None else kernel f !! j.
Proof.
  intros H. unfold hide. rewrite (proj2 (Z.eqb_neq fd (-1))) by lia. simpl. destruct (decide (j = fd)) as [->|].
  - apply lookup_delete_eq.
  - by apply lookup_delete_ne.
Qed.

(** What is owned without [a] is not [a]. *)
Lemma owned_hide a b f : 0 <= a → owned b (hide a f) ↔ owned b f ∧ b ≠ a.
Proof.
  intros Ha. unfold owned. rewrite hide_kernel by done. unfold hide. rewrite (proj2 (Z.eqb_neq a (-1))) by lia. simpl.
  destruct (decide (b = a)) as [->|Hne].
  - split; [intros (_ & [] & _); done|by intros [_ []]].
  - split; intros H.
    + destruct H as (H1 & H2 & c & H3 & H4). split; [|done]. split_and!; [lia|lia|done|]. exists c. split; [|done].
      rewrite list_lookup_insert_ne in H3 by lia. done.
    + destruct H as [(H1 & H2 & c & H3 & H4) _]. split_and!; [lia|lia|done|]. exists c. split; [|done].
      rewrite list_lookup_insert_ne by lia. done.
Qed.

Lemma own_all_swap f0 o1 o2 l f : own_all f0 (o1 :: o2 :: l) f → own_all f0 (o2 :: o1 :: l) f.
Proof.
  destruct o1 as [s|], o2 as [t|]; simpl; try done.
  intros (Hf & Hs & Hf1 & Ht & H). unfold holds in *. destruct Hs as [Es|Hs].
  { rewrite Es in *. change (hide (-1) f) with f in *. split_and!; [done|done| |by left|exact H].
    by apply (own_all_table f0 l). }
  destruct Ht as [Et|Ht].
  { rewrite Et in *. change (hide (-1) ?g) with g in *. split_and!; [done|by left|done|by right|done]. }
  pose proof Hs as (Hs0 & _). pose proof Ht as (Ht0 & _). apply owned_hide in Ht as [Ht Hne]; [|lia].
  split_and!; [done|by right|by apply fds_ok_hide| |by rewrite hide_comm by lia]. right. apply owned_hide; [lia|].
  by split.
Qed.

Lemma own_all_perm f0 l l' : l ≡ₚ l' → ∀ f, own_all f0 l f → own_all f0 l' f.
Proof.
  induction 1 as [|o l l' _ IH|o1 o2 l|l1 l2 l3 _ IH1 _ IH2]; intros f Hf; [done| | |auto].
  - destruct o; simpl in *; [|by apply IH]. destruct Hf as (H1 & H2 & H3). auto.
  - by apply own_all_swap.
Qed.

(** Bringing the socket at [i] to the front, and putting it back. *)
Lemma own_all_focus f0 l i s f : l !! i = Some (Some s) → own_all f0 l f →
  ∃ rest, l ≡ₚ Some s :: rest ∧ (∀ o, <[i := o]> l ≡ₚ o :: rest) ∧
    own_all f0 rest (hide (m_sock s) f) ∧ table_ok f ∧ holds s f.
Proof.
  intros Hi Hf. apply list_elem_of_split_length in Hi as (l1 & l2 & -> & Hlen).
  exists (l1 ++ l2). assert (l1 ++ Some s :: l2 ≡ₚ Some s :: l1 ++ l2) as Hp by (symmetry; apply Permutation_middle).
  pose proof (own_all_perm f0 _ _ Hp f Hf) as (H1 & H2 & H3). split_and!; [done| |done|done|done].
  intros o. subst i. rewrite insert_app_r_alt, Nat.sub_diag by lia. simpl. symmetry. apply Permutation_middle.
Qed.

Lemma inv_intro s w : table_ok (w_fds w) → holds s (w_fds w) → inv (hide (m_sock s) (w_fds w)) (mkSt s w).
Proof. intros H1 H2. by split. Qed.

Lemma own_all_front f0 rest r s w : own_all f0 rest r → inv r (mkSt s w) → own_all f0 (Some s :: rest) (w_fds w).
Proof. intros Hr [H1 H2 H3]. simpl in *. split_and!; [done|done|]. by rewrite H3. Qed.

Section pool_proofs.
Context (host : endian) (s_connect_timeout fd_limit : Z).
Context (reply : list syscall → syscall → Z * Z).
Context (script : list syscall → syscall → list answer).
Context (names : list syscall → syscall → stored_name).
Hypothesis limit_ok : fd_limit <= 64.

Local Abbreviation run_method := (run_method host true true s_connect_timeout fd_limit reply script names).
Local Abbreviation pool_step := (pool_step host true true s_connect_timeout fd_limit reply script names).
Local Abbreviation run_pool := (run_pool host true true s_connect_timeout fd_limit reply script names).

Lemma wp_returns {A} (m : M st A) r s : wp m s (λ _ s', inv r s') → wp (returns m) s (λ b s', b = true → inv r s').
Proof. intros H. apply wp_bind. eapply wp_mono; [exact H|]. cbv beta. intros a s' H'. by apply wp_ret. Qed.

Lemma wp_may_suspend {A} (m : M st (option A)) r s :
  wp m s (λ o s', is_Some o → inv r s') → wp (may_suspend m) s (λ b s', b = true → inv r s').
Proof.
  intros H. apply wp_bind. eapply wp_mono; [exact H|]. cbv beta. intros [a|] s' H'; apply wp_ret; [|done].
  intros _. by apply H'.
Qed.

Lemma wp_quiet_inv {A} (m : M st A) r s : quiet m → inv r s → wp m s (λ _ s', inv r s').
Proof. intros Hm Hi. eapply wp_mono; [by apply (wp_quiet m r)|]. by intros a s' []. Qed.

Lemma get_negative f : FdManager_get (-1) false f = Undef "m_datas out of range".
Proof.
  unfold FdManager_get. rewrite bind_get. destruct (zlen (m_datas f) <=? -1) eqn:E; [|done].
  pose proof (zlen_nonneg (m_datas f)). lia.
Qed.

Lemma on_get_negative s : on_fds (FdManager_get (-1) false) s = Undef "m_datas out of range".
Proof. unfold on_fds. by rewrite get_negative. Qed.

(** Every method keeps the descriptors that are not the socket's. *)
Lemma run_method_inv m r s : inv r s → out_of_table m (this s) = false →
  wp (run_method m) s (λ b s', b = true → inv r s').
Proof.
  intros Hi Hout.
  assert (∀ f c, negb (isValid (this s)) && m_isConnected (this s) = false →
    wp (transfer true script f c) s (λ o s', is_Some o → inv r s')) as Ht.
  { intros f c Hb. eapply wp_mono; [apply (transfer_inv script r s); [done|]|by intros].
    intros Hc. rewrite Hc, andb_true_r in Hb. by apply negb_false_iff in Hb. }
  assert (∀ c, negb (isValid (this s)) && true = false → wp (cancel true reply c) s (λ _ s', inv r s')) as Hc
    by (intros c Hb; apply cancel_inv; [done|done|]; rewrite andb_true_r in Hb; by apply negb_false_iff in Hb).
  assert (negb (isValid (this s)) && true = false → isValid (this s) = true) as Hv
    by (rewrite andb_true_r; by intros ?%negb_false_iff).
  unfold out_of_table in Hout. destruct m; simpl run_method; cbv iota in Hout; try (by apply wp_may_suspend, Ht); try (by apply wp_returns, Hc).
  - apply wp_may_suspend. eapply wp_mono; [by apply connect_inv|]. intros o s' H Ho. by apply H.
  - apply wp_may_suspend. by apply reconnect_inv.
  - apply wp_may_suspend. by apply socket_bind_inv.
  - apply wp_returns. by apply listen_inv.
  - apply wp_returns. eapply wp_mono; [by apply close_inv|]. by intros o s' [H _].
  - apply wp_returns, wp_quiet_inv; [apply silent_steady; [apply _|apply silent_getOption]|done].
  - apply wp_returns, wp_quiet_inv; [apply silent_steady; [apply _|apply silent_setOption]|done].
  - apply wp_returns, wp_quiet_inv; [|done]. apply steady_bind; [apply _|apply silent_steady; [apply _|apply silent_setOption]|auto with quiet].
  - apply wp_returns, wp_quiet_inv; [|done]. apply steady_bind; [apply _|apply silent_steady; [apply _|apply silent_setOption]|auto with quiet].
  - apply wp_returns. destruct (getSendTimeout_inv r s Hi (Hv Hout)) as [H _].
    eapply wp_mono; [exact H|]. by intros a s' ->.
  - apply wp_returns. destruct (getSendTimeout_inv r s Hi (Hv Hout)) as [_ H].
    eapply wp_mono; [exact H|]. by intros a s' ->.
  - apply wp_returns, wp_quiet_inv; [apply quiet_getLocalAddress|done].
  - apply wp_returns, wp_quiet_inv; [apply quiet_getRemoteAddresses|done].
  - apply wp_returns, wp_quiet_inv; [|done]. apply steady_bind; [apply _|apply silent_steady; [apply _|apply silent_getOption]|]. intros []. auto with quiet.
Qed.

(** And the others index a table with -1. *)
Lemma run_method_undef m s : out_of_table m (this s) = true → ∃ x, run_method m s = Undef x.
Proof.
  unfold out_of_table. intros [Hv Hm]%andb_true_iff. apply negb_true_iff, negb_false_iff, Z.eqb_eq in Hv.
  assert (m_isConnected (this s) = true → ∀ f c, may_suspend (transfer true script f c) s = Undef "m_datas out of range") as Ht.
  { intros Hc f c. apply bind_undef. unfold transfer. rewrite bind_get, Hc, Hv. do 2 apply bind_undef.
    unfold ctx_of. apply on_get_negative. }
  assert (∀ c, returns (cancel true reply c) s = Undef "m_fdContexts out of range") as Hc.
  { intros c. apply bind_undef. unfold cancel. rewrite bind_get, Hv. done. }
  destruct m; try done; simpl run_method; eexists; try (by apply Ht); try (apply Hc).
  all: apply bind_undef; unfold getSendTimeout, getRecvTimeout; rewrite bind_get, Hv; apply bind_undef, on_get_negative.
Qed.

Lemma run_creator_inv c s : table_ok (w_fds (the_world s)) →
  wp (run_creator true fd_limit reply c) s (λ sock s', inv (w_fds (the_world s)) (mkSt sock (the_world s'))).
Proof.
  intros Hok.
  assert (∀ family type protocol, inv (w_fds (the_world s)) (mkSt (new_Socket family type protocol) (the_world s))) as Hn
    by (intros; split; [done|by left|done]).
  assert (∀ family type protocol,
    wp (create_connected true fd_limit reply (new_Socket family type protocol)) s
      (λ sock s', inv (w_fds (the_world s)) (mkSt sock (the_world s')))) as Hu.
  { intros family type protocol. apply wp_bind, wp_run_on, wp_bind.
    eapply wp_mono; [by apply newSock_inv|]. intros _ s1 [H1 _].
    eapply wp_mono; [by apply (wp_quiet_inv _ (w_fds (the_world s)) s1); [apply steady_upd|]|]. cbv beta. intros _ s2 H2.
    apply wp_ret. by destruct s2. }
  destruct c; try apply Hu; apply wp_ret, Hn.
Qed.

Lemma with_socket_run {A} (m : M st A) s p (Q : A → st → Prop) : wp m (mkSt s (p_world p)) Q →
  ∃ a s', with_socket s m p = Ok (a, this s') (mkPool (socks p) (the_world s')) ∧ Q a s'.
Proof. intros (a & s' & E & H). exists a, s'. split; [|done]. unfold with_socket. by rewrite E. Qed.

Lemma pool_step_undef op p : misused op p = true → ∃ x, pool_step op p = Undef x.
Proof.
  unfold misused, Socket.pool_step. rewrite bind_get. destruct op as [c|i m|i|i]; [done| | |done].
  - destruct (socks p !! i) as [[s|]|]; [|done..]. intros Hm.
    destruct (run_method_undef m (mkSt s (p_world p)) Hm) as [x E]. exists x. apply bind_undef.
    unfold with_socket. by rewrite E.
  - destruct (socks p !! i) as [[s|]|]; [|done..]. intros Hv%negb_true_iff%negb_false_iff%Z.eqb_eq.
    eexists. apply bind_undef. unfold with_socket, Socket.accept. rewrite bind_get. cbn [this]. rewrite Hv.
    rewrite (bind_undef _ _ _ "m_datas out of range"); [done|]. unfold call_accept. apply bind_undef.
    unfold ctx_of. apply on_get_negative.
Qed.

Lemma pool_step_own f0 op p : own_all f0 (socks p) (w_fds (p_world p)) → misused op p = false →
  ∃ b p', pool_step op p = Ok b p' ∧ (b = true → own_all f0 (socks p') (w_fds (p_world p'))).
Proof.
  intros Hp Hmis. unfold Socket.pool_step. rewrite bind_get. destruct op as [c|i m|i|i]; unfold misused in Hmis.
  - destruct (with_socket_run _ (new_Socket 0 0 0) p _
      (run_creator_inv c (mkSt (new_Socket 0 0 0) (p_world p)) (own_all_table _ _ _ Hp))) as (sock & s' & E & H).
    mstep E. eexists _, _. split; [reflexivity|]. intros _. simpl.
    apply (own_all_perm f0 (Some sock :: socks p)); [apply Permutation_cons_append|].
    by apply (own_all_front f0 _ (w_fds (p_world p))).
  - destruct (socks p !! i) as [[s|]|] eqn:Ei; [|by eexists _, _..].
    destruct (own_all_focus _ _ _ _ _ Ei Hp) as (rest & _ & Hins & Hrest & Hok & Hh).
    destruct (with_socket_run _ s p _ (run_method_inv m _ (mkSt s (p_world p)) (inv_intro s (p_world p) Hok Hh) Hmis))
      as (b & s' & E & H).
    mstep E. eexists _, _. split; [reflexivity|]. intros Hb. simpl.
    apply (own_all_perm f0 (Some (this s') :: rest)); [symmetry; apply Hins|].
    eapply own_all_front; [exact Hrest|]. specialize (H Hb). by destruct s'.
  - destruct (socks p !! i) as [[s|]|] eqn:Ei; [|by eexists _, _..].
    apply negb_false_iff in Hmis.
    destruct (own_all_focus _ _ _ _ _ Ei Hp) as (rest & Hl & _ & Hrest & Hok & Hh).
    destruct (with_socket_run _ s p _ (accept_inv host fd_limit reply script names limit_ok _ (mkSt s (p_world p))
      (inv_intro s (p_world p) Hok Hh) Hmis)) as (o & s' & E & Ht & H).
    mstep E. destruct o as [[sock|]|]; (eexists _, _; split; [reflexivity|]); intros Hb; simpl in *; [| |done].
    + destruct H as (H1 & H2 & H3). apply (own_all_perm f0 (Some sock :: socks p)); [apply Permutation_cons_append|].
      simpl. split_and!; [done|by right|]. by rewrite H3.
    + apply (own_all_perm f0 (Some s :: rest)); [by symmetry|]. eapply own_all_front; [exact Hrest|].
      destruct s'. simpl in Ht. by subst.
  - destruct (socks p !! i) as [[s|]|] eqn:Ei; [|by eexists _, _..].
    destruct (own_all_focus _ _ _ _ _ Ei Hp) as (rest & _ & Hins & Hrest & Hok & Hh).
    destruct (with_socket_run _ s p _ (destroy_inv true reply _ (mkSt s (p_world p)) (inv_intro s (p_world p) Hok Hh)))
      as ([] & s' & E & E1 & H1).
    mstep E. eexists _, _. split; [reflexivity|]. intros _. simpl.
    apply (own_all_perm f0 (None :: rest)); [symmetry; apply Hins|]. simpl. by rewrite E1.
Qed.

(** A run meets a misuse, which is undefined, or it does not. *)
Definition meets_misuse (ops : list pool_op) (p : pool) : Prop :=
  ∃ ops1 op ops2 p1, ops = ops1 ++ op :: ops2 ∧ run_pool ops1 p = Ok true p1 ∧ misused op p1 = true.

Lemma run_pool_own f0 ops : ∀ p, own_all f0 (socks p) (w_fds (p_world p)) →
  (∃ b p', run_pool ops p = Ok b p' ∧ (b = true → own_all f0 (socks p') (w_fds (p_world p')))) ∨
  (meets_misuse ops p ∧ ∃ x, run_pool ops p = Undef x).
Proof.
  induction ops as [|op ops IH]; intros p Hp; [left; by eexists _, _|]. cbn [Socket.run_pool].
  destruct (misused op p) eqn:Hm.
  - right. split; [by exists [], op, ops, p|]. destruct (pool_step_undef op p Hm) as [x E].
    exists x. by apply bind_undef.
  - destruct (pool_step_own f0 op p Hp Hm) as (b & p1 & E & H). mstep E. destruct b; [|left; by eexists _, _].
    destruct (IH p1 (H eq_refl)) as [HL|[(ops1 & op1 & ops2 & p2 & -> & E2 & H2) HR]]; [by left|right].
    split; [|done]. exists (op :: ops1), op1, ops2, p2. split; [done|]. split; [|done].
    cbn [Socket.run_pool]. by mstep E.
Qed.

(** What ownership says of the sockets and the kernel. *)
Lemma own_all_holds f0 l : ∀ f, own_all f0 l f → ∀ i s, l !! i = Some (Some s) → holds s f.
Proof.
  intros f Hf i s Hi. by destruct (own_all_focus _ _ _ _ _ Hi Hf) as (rest & _ & _ & _ & _ & H).
Qed.

Lemma own_all_distinct f0 l f : own_all f0 l f → ∀ i j s t, i ≠ j → l !! i = Some (Some s) → l !! j = Some (Some t) →
  m_sock s = m_sock t → m_sock s = -1.
Proof.
  intros Hf i j s t Hij Hi Hj E. destruct (own_all_focus _ _ _ _ _ Hi Hf) as (rest & _ & Hins & Hr & _ & Hs).
  destruct Hs as [?|Hs]; [done|]. exfalso.
  assert (Some t ∈ rest) as Hin.
  { specialize (Hins None). assert (<[i := None]> l !! j = Some (Some t)) as H by (by rewrite list_lookup_insert_ne).
    apply list_elem_of_lookup_2 in H. rewrite Hins in H. by apply elem_of_cons in H as [?|H]. }
  apply list_elem_of_lookup in Hin as [k Hk]. pose proof (own_all_holds _ _ _ Hr k t Hk) as [Ht|Ht].
  - destruct Hs as (? & _). lia.
  - apply owned_hide in Ht as [_ Hne]; [by apply Hne|]. destruct Hs as (? & _). lia.
Qed.

Lemma own_all_kernel f0 l : ∀ f, own_all f0 l f → ∀ fd,
  is_Some (kernel f !! fd) ↔ is_Some (kernel f0 !! fd) ∨ ∃ s, Some s ∈ l ∧ m_sock s = fd ∧ fd ≠ -1.
Proof.
  induction l as [|[s|] l IH]; simpl; intros f Hf fd.
  - destruct Hf as [_ ->]. split; [by left|]. intros [H|(s & H%elem_of_nil & _)]; done.
  - destruct Hf as (Hok & Hh & Hf). specialize (IH _ Hf fd). destruct Hh as [E|Hown].
    + rewrite E in IH. change (hide (-1) f) with f in IH. rewrite IH. clear IH.
      split; (intros [H|(t & Ht & E' & Hne)]; [by left|right]); exists t; (split; [|done]).
      * by right.
      * apply elem_of_cons in Ht as [[= ->]|Ht]; [congruence|done].
    + pose proof Hown as (Hr & Hk & _). rewrite hide_kernel in IH by lia. destruct (decide (fd = m_sock s)) as [->|Hne].
      * split; [|done]. intros _. right. exists s. split_and!; [by left|done|lia].
      * rewrite IH. split; (intros [H|(t & Ht & E' & Hne')]; [by left|right]); exists t; (split; [|done]).
        -- by right.
        -- apply elem_of_cons in Ht as [[= ->]|Ht]; [congruence|done].
  - rewrite (IH _ Hf fd). split; (intros [H|(t & Ht & H)]; [by left|right]); exists t; (split; [|done]).
    + by right.
    + by apply elem_of_cons in Ht as [?|Ht].
Qed.

Lemma own_all_none f0 l f : own_all f0 l f → (∀ o, o ∈ l → o = None) → f = f0.
Proof.
  induction l as [|o l IH]; simpl; intros Hf Hn; [apply Hf|].
  rewrite (Hn o) in Hf by (by left). apply IH; [done|]. intros o' Ho'. apply Hn. by right.
Qed.

(** C28: for every program that creates sockets, calls their methods in any order, accepts
    and destroys, with hooked calls, an IOManager, at most 64 descriptors and any answers of
    the system: either the program calls, on a socket that has no descriptor, accept, a
    timeout getter, a cancellation, or a transfer while the socket calls itself connected,
    and that call is undefined (it indexes a table with -1); or every call returns or is
    suspended, and while none is left suspended the open descriptors are exactly those from
    before the program and one per open socket, no two sockets share one, each has its
    context in the table, and when every socket is destroyed the kernel's descriptors and
    the table of contexts are as before. *)
Theorem no_descriptor_leak ops w : table_ok (w_fds w) →
  (meets_misuse ops (mkPool [] w) ∧ ∃ x, run_pool ops (mkPool [] w) = Undef x) ∨
  ∃ b p, run_pool ops (mkPool [] w) = Ok b p ∧
    (b = true →
      table_ok (w_fds (p_world p)) ∧
      (∀ i s, socks p !! i = Some (Some s) → m_sock s = -1 ∨ owned (m_sock s) (w_fds (p_world p))) ∧
      (∀ i j s t, i ≠ j → socks p !! i = Some (Some s) → socks p !! j = Some (Some t) →
        m_sock s = m_sock t → m_sock s = -1) ∧
      (∀ fd, is_Some (kernel (w_fds (p_world p)) !! fd) ↔
        is_Some (kernel (w_fds w) !! fd) ∨ ∃ s, Some s ∈ socks p ∧ m_sock s = fd ∧ fd ≠ -1) ∧
      ((∀ o, o ∈ socks p → o = None) → w_fds (p_world p) = w_fds w)).
Proof.
  intros Hw. destruct (run_pool_own (w_fds w) ops (mkPool [] w)) as [(b & p & E & H)|H]; [by split| |by left].
  right. exists b, p. split; [done|]. intros Hb. specialize (H Hb). split_and!.
  - by apply (own_all_table _ _ _ H).
  - by apply (own_all_holds _ _ _ H).
  - by apply (own_all_distinct _ _ _ H).
  - by apply (own_all_kernel _ _ _ H).
  - by apply own_all_none.
Qed.
End pool_proofs.

(** ** Concrete runs *)

(** A system with the three standard descriptors, whose calls succeed and
    whose connections are established or accepted at once. *)
Definition fds3 : fds :=
  mkFds (replicate 64 None) (<[0 := mkFile false 2]> (<[1 := mkFile false 2]> (<[2 := mkFile false 2]> ∅))).
Definition world3 : world := mkWorld fds3 [].
Definition all_succeed (log : list syscall) (c : syscall) : Z * Z := (0, 0).
Definition sockets_fail (log : list syscall) (c : syscall) : Z * Z := (-1, 24).
Definition at_once (log : list syscall) (c : syscall) : list answer := [Sys 0 0].
(** The port that is stored is the number of calls made so far. *)
Definition port_by_log (log : list syscall) (c : syscall) : stored_name :=
  mkName (mkIn AF_INET (zlen log) 0 (zeros 8)) (mkIn6 AF_INET6 0 0 (zeros 16) 0) (mkUn AF_UNIX (zeros 108))
    (mkSa 0 (zeros 14)) 16.
Definition peer : Address := IPv4Address (mkIn AF_INET 80 0 (zeros 8)).

Lemma table3_ok : table_ok fds3.
Proof.
  assert (∀ i c, m_datas fds3 !! i = Some (Some c) → False) as Hn.
  { intros i c Hi. by apply lookup_replicate in Hi as [? _]. }
  split; [split; [done|]|..].
  - by intros i c Hi%Hn.
  - intros fd. simpl. rewrite !lookup_insert_is_Some. intros [<-|[_ [<-|[_ [<-|[_ [x Hx]]]]]]]; try lia. by rewrite lookup_empty in Hx.
  - by intros i c Hi%Hn.
Qed.

Lemma connect_spec_witness :
  ∃ o s', connect PENG_LITTLE_ENDIAN true true no_timeout 64 all_succeed at_once port_by_log peer no_timeout
      (mkSt (new_Socket IPv4 TCP 0) world3) = Ok o s' ∧ o = Some true ∧
    table_ok (w_fds (the_world s')) ∧ m_sock (this s') = 3.
Proof.
  destruct (connect_spec PENG_LITTLE_ENDIAN true no_timeout 64 all_succeed at_once port_by_log ltac:(lia)
    (mkSt (new_Socket IPv4 TCP 0) world3) peer no_timeout table3_ok ltac:(by left)) as (o & s' & E & H).
  exists o, s'. split; [exact E|].
  assert (match connect PENG_LITTLE_ENDIAN true true no_timeout 64 all_succeed at_once port_by_log peer no_timeout
      (mkSt (new_Socket IPv4 TCP 0) world3) with
    | Ok o s => bool_decide (o = Some true) && (m_sock (this s) =? 3) | _ => false end = true) as Hv
    by (vm_compute; reflexivity).
  rewrite E in Hv. apply andb_true_iff in Hv as [Hv1 Hv2]. apply bool_decide_eq_true in Hv1.
  split; [exact Hv1|]. split; [|by apply Z.eqb_eq].
  apply H. rewrite Hv1. by eexists.
Defined.

(** Two sockets are made, one of them connected, the other accepts a third;
    all are destroyed. *)
Definition sample_program : list pool_op :=
  [PCreate KTCPSocket; PCall 0 (MConnect peer no_timeout); PCreate KTCPSocket6; PCall 1 (MBind (IPv6Address new_IPv6Address));
   PCall 1 (MListen 10); PAccept 1; PCall 2 (MSend [] 0); PDestroy 1; PCall 0 MClose; PDestroy 2; PDestroy 0].

Lemma no_descriptor_leak_witness :
  ∃ p, run_pool PENG_LITTLE_ENDIAN true true no_timeout 64 all_succeed at_once port_by_log sample_program (mkPool [] world3) = Ok true p ∧
    length (socks p) = 3%nat ∧ w_fds (p_world p) = fds3.
Proof.
  destruct (no_descriptor_leak PENG_LITTLE_ENDIAN no_timeout 64 all_succeed at_once port_by_log ltac:(lia) sample_program world3 table3_ok)
    as [[_ [x E]]|(b & p & E & H)].
  { vm_compute in E. discriminate E. }
  assert (match run_pool PENG_LITTLE_ENDIAN true true no_timeout 64 all_succeed at_once port_by_log sample_program (mkPool [] world3) with
    | Ok b p => b && ((length (socks p) =? 3)%nat && forallb (λ o, match o with None => true | Some _ => false end) (socks p)) | _ => false end = true) as Hv by (vm_compute; reflexivity).
  rewrite E in Hv. apply andb_true_iff in Hv as [-> [Hl Hv]%andb_true_iff]. apply Nat.eqb_eq in Hl.
  exists p. split; [exact E|]. split; [exact Hl|]. apply (proj2 (proj2 (proj2 (proj2 (H eq_refl))))).
  intros o Ho%list_elem_of_In. by destruct o; [apply (proj1 (forallb_forall _ _) Hv) in Ho|].
Defined.

Definition final {A} (r : outcome st A) : option (A * Socket) :=
  match r with Ok a s => Some (a, this s) | _ => None end.

(** A UDP socket that could not be opened says it is connected, and sending on
    it indexes the table of contexts with -1. *)
Example udp_without_descriptor :
  match CreateUDPSocket true 64 sockets_fail (mkSt (new_Socket 0 0 0) world3) with
  | Ok s w => (m_sock s, m_isConnected s) = (-1, true) ∧
      send true at_once [] 0 (mkSt s (the_world w)) = Undef "m_datas out of range"
  | _ => False
  end.
Proof. vm_compute. split; reflexivity. Qed.

(** A program that does so. *)
Example misuse_is_undefined :
  run_pool PENG_LITTLE_ENDIAN true true no_timeout 64 sockets_fail at_once port_by_log
    [PCreate KUDPSocket; PCall 0 (MSend [] 0)] (mkPool [] world3) = Undef "m_datas out of range".
Proof. vm_compute. reflexivity. Qed.

(** The timeouts of a socket that has no descriptor are read out of range. *)
Example timeout_without_descriptor :
  getSendTimeout (mkSt (new_Socket IPv4 TCP 0) world3) = Undef "m_datas out of range".
Proof. reflexivity. Qed.

(** [setsockopt] is not hooked: a timeout that was set is not seen by
    [getSendTimeout]. *)
Example timeout_not_recorded :
  fst <$> final ((newSock true 64 all_succeed;; setSendTimeout all_succeed 5000;; getSendTimeout)
    (mkSt (new_Socket IPv4 TCP 0) world3)) = Some (-1).
Proof. vm_compute. reflexivity. Qed.

(** An option the system refuses is reported as set. *)
Example setOption_true : fst <$> final (setOption sockets_fail 1 2 [1] (mkSt (new_Socket IPv4 TCP 0) world3)) = Some true.
Proof. reflexivity. Qed.

(** [close] returns false when it closed the descriptor and true when there
    was none. *)
Example close_result :
  fst <$> final ((newSock true 64 all_succeed;; close true true all_succeed) (mkSt (new_Socket IPv4 TCP 0) world3)) = Some false ∧
  fst <$> final (close true true all_succeed (mkSt (new_Socket IPv4 TCP 0) world3)) = Some true.
Proof. vm_compute. split; reflexivity. Qed.

(** After [close] and a new [connect] the local address is that of the first
    connection. *)
Example local_address_kept :
  let go := connect PENG_LITTLE_ENDIAN true true no_timeout 64 all_succeed at_once port_by_log peer no_timeout in
  match (go;; s ← get; close true true all_succeed;; go;; mret (m_localAddress (this s)))
    (mkSt (new_Socket IPv4 TCP 0) world3) with
  | Ok a s => m_localAddress (this s) = a ∧ a ≠ None
  | _ => False
  end.
Proof. vm_compute. split; [reflexivity|discriminate]. Qed.

(** With hooks off an accepted descriptor is still made non-blocking. *)
Example accept_unhooked_nonblocking :
  match accept PENG_LITTLE_ENDIAN false 64 all_succeed at_once port_by_log
    (mkSt (set_sock 0 (new_Socket IPv4 TCP 0)) world3) with
  | Ok (Some (Some sock)) s => m_sock sock = 3 ∧ sys_getfl 3 (kernel (w_fds (the_world s))) = 2050
  | _ => False
  end.
Proof. vm_compute. split; reflexivity. Qed.
